(** * Tgbot: interactive session, callback dispatch and download pipeline

  A shallow embedding of the Go sources of the bot
  (internal/telegram/bot.go, internal/storage/books.go,
  internal/service, internal/db/store.go) together with the
  properties of the browsing session, the format keyboard, the callback
  dispatcher, the bounded save and the library link.

  Conventions:
    - a Go [string] is a Rocq [string]: a sequence of bytes, UTF-8 kept
    as the bytes it is made of;
    - a Go [int] (64 bits on the build target, linux/amd64) is a [Z]
    with the wrap-around of each operation written out ([GoInt]);
    - a Go panic is [None] in the [option] monad;
    - effects on the chat transport, the file system and the database
    are explicit: functions take the state and return the new one, and
    what they send is a trace of events. *)

From Stdlib Require Import ZArith String Ascii List Lia DecimalString DecimalPos
  Sorted OrderedTypeEx.
From stdpp Require Import base option list gmap strings.

Local Open Scope Z_scope.

(** ** Go integers *)

Module GoInt.

Definition min_int : Z := - 2 ^ 63.
Definition max_int : Z := 2 ^ 63 - 1.

(** Two's complement wrap-around of a 64-bit signed integer. *)
Definition wrap (z : Z) : Z := (z + 2 ^ 63) mod 2 ^ 64 - 2 ^ 63.

Definition add (a b : Z) : Z := wrap (a + b).
Definition sub (a b : Z) : Z := wrap (a - b).
Definition mul (a b : Z) : Z := wrap (a * b).

(** Go's [/] truncates toward zero and panics on a zero divisor. *)
Definition div (a b : Z) : option Z :=
  if b =? 0 then None else Some (wrap (Z.quot a b)).

Definition in_range (z : Z) : Prop := min_int <= z <= max_int.

(** [len] of a slice. *)
Definition len {A} (l : list A) : Z := Z.of_nat (length l).

(** [fmt.Sprintf("%d", z)]. *)
Definition itoa (z : Z) : string := NilZero.string_of_int (Z.to_int z).

(** The slice expression [l[lo:hi]]; out of range is a panic. The
    bound used is the length (Go allows [hi] up to the capacity, which
    is at least the length). *)
Definition slice {A} (l : list A) (lo hi : Z) : option (list A) :=
  if (0 <=? lo) && (lo <=? hi) && (hi <=? len l)
  then Some (take (Z.to_nat (hi - lo)) (drop (Z.to_nat lo) l))
  else None.

Lemma wrap_small z : in_range z -> wrap z = z.
Proof.
  unfold in_range, min_int, max_int, wrap. intros H.
  rewrite Z.mod_small; lia.
Qed.

Lemma len_nonneg {A} (l : list A) : 0 <= len l.
Proof. unfold len. lia. Qed.

Lemma len_app {A} (l1 l2 : list A) : len (l1 ++ l2) = len l1 + len l2.
Proof. unfold len. rewrite length_app. lia. Qed.

End GoInt.

(** ** The Go standard library on strings, as far as the bot uses it

    Strings are compared and scanned byte by byte, as Go does. The parts
    of [strings] that consult the Unicode tables (reached only from a
    byte of 128 or more) are not written out: they are the fields of
    [Unicode], and every statement below holds whatever they are. *)

Module Strings.

Definition byte (c : ascii) : N := N_of_ascii c.

(** [utf8.RuneSelf]: bytes below it are one-byte runes. *)
Definition RuneSelf : N := 128.

Definition isASCIIbyte (c : ascii) : bool := (byte c <? RuneSelf)%N.

Fixpoint all (p : ascii -> bool) (s : string) : bool :=
  match s with
  | EmptyString => true
  | String c s' => p c && all p s'
  end.

Fixpoint smap (f : ascii -> ascii) (s : string) : string :=
  match s with
  | EmptyString => EmptyString
  | String c s' => String (f c) (smap f s')
  end.

Definition len (s : string) : Z := Z.of_nat (String.length s).

(** [s[i:]] *)
Fixpoint from (i : nat) (s : string) : string :=
  match i, s with
  | O, _ => s
  | S i', String _ s' => from i' s'
  | S _, EmptyString => EmptyString
  end.

(** [s[:i]] *)
Fixpoint upto (i : nat) (s : string) : string :=
  match i, s with
  | S i', String c s' => String c (upto i' s')
  | _, _ => EmptyString
  end.

Class Unicode := {
  (** [strings.Map(unicode.ToUpper, s)] *)
  map_ToUpper : string -> string;
  (** [strings.TrimFunc(s, unicode.IsSpace)] *)
  trimFunc_IsSpace : string -> string;
  (** [strings.TrimRightFunc(s, unicode.IsSpace)] *)
  trimRightFunc_IsSpace : string -> string;
  (** the [hasUnicode] part of [strings.EqualFold], on the two rests *)
  equalFold_hasUnicode : string -> string -> bool
}.

(** An instance for the examples, whose inputs never reach it. *)
Definition asciiOnly : Unicode :=
  {| map_ToUpper := fun s => s;
     trimFunc_IsSpace := fun s => s;
     trimRightFunc_IsSpace := fun s => s;
     equalFold_hasUnicode := fun _ _ => false |}.

Definition isLower (c : ascii) : bool := (97 <=? byte c)%N && (byte c <=? 122)%N.
Definition isUpper (c : ascii) : bool := (65 <=? byte c)%N && (byte c <=? 90)%N.

Definition upperByte (c : ascii) : ascii :=
  if isLower c then ascii_of_N (byte c - 32) else c.

(** [strings.ToUpper] *)
Definition ToUpper `{Unicode} (s : string) : string :=
  if all isASCIIbyte s then smap upperByte s else map_ToUpper s.

(** The table [asciiSpace]: tab, line feed, vertical tab, form feed,
    carriage return, space. *)
Definition asciiSpace (c : ascii) : bool :=
  ((9 <=? byte c)%N && (byte c <=? 13)%N) || (byte c =? 32)%N.

Fixpoint trimLeftWhile (p : ascii -> bool) (s : string) : string :=
  match s with
  | EmptyString => EmptyString
  | String c s' => if p c then trimLeftWhile p s' else s
  end.

Fixpoint trimRightWhile (p : ascii -> bool) (s : string) : string :=
  match s with
  | EmptyString => EmptyString
  | String c s' =>
      match trimRightWhile p s' with
      | EmptyString => if p c then EmptyString else String c EmptyString
      | t => String c t
      end
  end.

Fixpoint lastByte (s : string) : option ascii :=
  match s with
  | EmptyString => None
  | String c EmptyString => Some c
  | String _ s' => lastByte s'
  end.

(** [strings.TrimSpace]: the two ASCII loops, each leaving to the
    Unicode-aware function at the first byte that is not ASCII. *)
Definition TrimSpace `{Unicode} (s : string) : string :=
  match trimLeftWhile asciiSpace s with
  | EmptyString => EmptyString
  | String c _ as s1 =>
      if isASCIIbyte c then
        let s2 := trimRightWhile asciiSpace s1 in
        match lastByte s2 with
        | Some c' => if isASCIIbyte c' then s2 else trimRightFunc_IsSpace s2
        | None => s2
        end
      else trimFunc_IsSpace s1
  end.

(** [strings.EqualFold]: the ASCII loop, then the comparison of the
    lengths; the first byte that is not ASCII hands both rests over. *)
Fixpoint EqualFold `{Unicode} (s t : string) : bool :=
  match s, t with
  | String sr s', String tr t' =>
      if isASCIIbyte sr && isASCIIbyte tr then
        if Ascii.eqb tr sr then EqualFold s' t'
        else
          let lo := if (byte tr <? byte sr)%N then tr else sr in
          let hi := if (byte tr <? byte sr)%N then sr else tr in
          if isUpper lo && (byte hi =? byte lo + 32)%N then EqualFold s' t'
          else false
      else equalFold_hasUnicode s t
  | EmptyString, EmptyString => true
  | _, _ => false
  end.

(** [strings.HasPrefix] *)
Fixpoint HasPrefix (s prefix : string) : bool :=
  match prefix, s with
  | EmptyString, _ => true
  | String p prefix', String c s' => Ascii.eqb c p && HasPrefix s' prefix'
  | String _ _, EmptyString => false
  end.

(** [strings.TrimPrefix] *)
Definition TrimPrefix (s prefix : string) : string :=
  if HasPrefix s prefix then from (String.length prefix) s else s.

(** [strings.Index]: the first place where [substr] starts in [s]. *)
Fixpoint Index (s substr : string) : option nat :=
  if HasPrefix s substr then Some O
  else match s with
       | EmptyString => None
       | String _ s' => S <$> Index s' substr
       end.

(** [strings.Contains] *)
Definition Contains (s substr : string) : bool :=
  match Index s substr with Some _ => true | None => false end.

(** The loop of [genSplit]: at most [n] more cuts. *)
Fixpoint splitLoop (n : nat) (s sep : string) : list string :=
  match n with
  | O => [s]
  | S n' =>
      match Index s sep with
      | None => [s]
      | Some m => upto m s :: splitLoop n' (from (m + String.length sep) s) sep
      end
  end.

(** [strings.SplitN(s, sep, n)] for a separator that is not empty and
    [n > 0], the only way the bot calls it. *)
Definition SplitN (s sep : string) (n : nat) : list string :=
  let n := Nat.min n (String.length s + 1) in
  splitLoop (n - 1) s sep.

Definition isDigit (c : ascii) : bool := (48 <=? byte c)%N && (byte c <=? 57)%N.

(** The value of a run of decimal digits, most significant first. *)
Fixpoint digitsValue (acc : Z) (s : string) : Z :=
  match s with
  | EmptyString => acc
  | String c s' => digitsValue (acc * 10 + (Z.of_N (byte c) - 48)) s'
  end.

(** [strconv.Atoi]; [None] is a returned error (wrong syntax, or a value
    out of the range of [int]). *)
Definition Atoi (s : string) : option Z :=
  let '(neg, digits) :=
    match s with
    | String "-" s' => (true, s')
    | String "+" s' => (false, s')
    | _ => (false, s)
    end in
  match digits with
  | EmptyString => None
  | _ =>
      if all isDigit digits then
        let v := digitsValue 0 digits in
        let v := if neg then - v else v in
        if (- 2 ^ 63 <=? v) && (v <=? 2 ^ 63 - 1) then Some v else None
      else None
  end.

(** Comparison of strings with [<]: byte-wise, lexicographic. *)
Definition lt (s t : string) : bool := String.ltb s t.

End Strings.

(** ** path/filepath on the build target (Unix) *)

Module Filepath.

Definition Separator : ascii := "/"%char.

Definition IsPathSeparator (c : ascii) : bool := Ascii.eqb c Separator.

(** The loop of [filepath.Ext]: [i] counts the bytes not yet examined,
    the next one being [path[i-1]]. *)
Fixpoint extLoop (path : string) (i : nat) : string :=
  match i with
  | O => EmptyString
  | S i' =>
      match String.get i' path with
      | Some c =>
          if IsPathSeparator c then EmptyString
          else if Ascii.eqb c "."%char then Strings.from i' path
          else extLoop path i'
      | None => EmptyString
      end
  end.

(** [filepath.Ext] *)
Definition Ext (path : string) : string := extLoop path (String.length path).

End Filepath.

(** ** The regular expressions of the bot

    Go's [regexp] returns the leftmost match and, among the matches that
    start there, the one a backtracking search finds first. [run] is
    that search, over bytes: a class of the bot's expressions never
    splits a UTF-8 sequence, a letter outside ASCII is the sequence of
    its bytes, and [\b] looks at ASCII word bytes only, as in Go. *)

Module Regexp.
Import Strings.

Inductive re :=
| Empty
| Byte (p : ascii -> bool)
| Cat (r1 r2 : re)
| Alt (r1 r2 : re)
| Star (r : re)
| Group (i : nat) (r : re)
| WordBoundary
| EndText.

(** Where the search stands: bytes consumed, the byte before, the rest
    of the text, and the groups closed so far (start and end). *)
Record state := {
  pos : nat;
  prev : option ascii;
  rest : string;
  caps : list (nat * (nat * nat))
}.

Definition isWordByte (c : ascii) : bool :=
  isDigit c || isLower c || isUpper c || (byte c =? 95)%N.

Definition isWord (o : option ascii) : bool :=
  match o with Some c => isWordByte c | None => false end.

Definition next (st : state) : option ascii :=
  match rest st with String c _ => Some c | EmptyString => None end.

Fixpoint run (r : re) (st : state) (k : state -> option state) : option state :=
  match r with
  | Empty => k st
  | Byte p =>
      match rest st with
      | String c rest' =>
          if p c
          then k {| pos := S (pos st); prev := Some c; rest := rest'; caps := caps st |}
          else None
      | EmptyString => None
      end
  | Cat r1 r2 => run r1 st (fun st1 => run r2 st1 k)
  | Alt r1 r2 =>
      match run r1 st k with
      | Some res => Some res
      | None => run r2 st k
      end
  | Star r1 =>
      (fix loop (n : nat) (st : state) : option state :=
         match n with
         | O => k st
         | S n' =>
             match run r1 st (fun st1 =>
                     if (pos st <? pos st1)%nat then loop n' st1 else None) with
             | Some res => Some res
             | None => k st
             end
         end) (String.length (rest st)) st
  | Group i r1 =>
      run r1 st (fun st1 =>
        k {| pos := pos st1; prev := prev st1; rest := rest st1;
             caps := (i, (pos st, pos st1)) :: caps st1 |})
  | WordBoundary =>
      if xorb (isWord (prev st)) (isWord (next st)) then k st else None
  | EndText =>
      match rest st with EmptyString => k st | _ => None end
  end.

(** [r+] and [r?], both greedy. *)
Definition Plus (r : re) : re := Cat r (Star r).
Definition Quest (r : re) : re := Alt r Empty.

(** A literal, byte by byte. *)
Fixpoint Lit (s : string) : re :=
  match s with
  | EmptyString => Empty
  | String c s' => Cat (Byte (Ascii.eqb c)) (Lit s')
  end.

(** One of several alternatives, the first preferred; none never
    matches. *)
Fixpoint Alts (rs : list re) : re :=
  match rs with
  | [] => Byte (fun _ => false)
  | [r] => r
  | r :: rs' => Alt r (Alts rs')
  end.

Fixpoint Cats (rs : list re) : re :=
  match rs with
  | [] => Empty
  | [r] => r
  | r :: rs' => Cat r (Cats rs')
  end.

(** The search from every start, leftmost first: [i] bytes are before
    the start, the last of them [pv]. *)
Fixpoint searchFrom (r : re) (i : nat) (pv : option ascii) (s : string)
  : option (nat * state) :=
  match run r {| pos := i; prev := pv; rest := s; caps := [] |} Some with
  | Some st => Some (i, st)
  | None =>
      match s with
      | EmptyString => None
      | String c s' => searchFrom r (S i) (Some c) s'
      end
  end.

Fixpoint groups (r : re) : nat :=
  match r with
  | Cat r1 r2 | Alt r1 r2 => Nat.max (groups r1) (groups r2)
  | Star r1 => groups r1
  | Group i r1 => Nat.max i (groups r1)
  | _ => O
  end.

Definition capture (s : string) (cs : list (nat * (nat * nat))) (i : nat) : string :=
  match List.find (fun c => Nat.eqb (fst c) i) cs with
  | Some (_, (b, e)) => upto (e - b) (from b s)
  | None => EmptyString
  end.

(** [FindStringSubmatch]: [None] for Go's [nil], otherwise the match
    and the text of each group. *)
Definition FindStringSubmatch (r : re) (s : string) : option (list string) :=
  match searchFrom r O None s with
  | None => None
  | Some (b, st) =>
      Some (upto (pos st - b) (from b s)
            :: (capture s (caps st) <$> seq 1 (groups r)))
  end.

(** The class [\s]: tab, line feed, form feed, carriage return, space. *)
Definition isSpaceByte (c : ascii) : bool :=
  (byte c =? 9)%N || (byte c =? 10)%N || (byte c =? 12)%N
  || (byte c =? 13)%N || (byte c =? 32)%N.

Definition space : re := Byte isSpaceByte.

Definition digit : re := Byte isDigit.

(** A letter under the flag [i]: the letters of its folding orbit. *)
Definition letter (orbit : list string) : re := Alts (Lit <$> orbit).

(** The Kelvin sign (U+212A) in UTF-8, which [unicode.SimpleFold] puts in
    the orbit of [k]. *)
Definition kelvin : string :=
  String (ascii_of_nat 226) (String (ascii_of_nat 132) (String (ascii_of_nat 170) "")).

Definition k_ := letter ["k"; "K"; kelvin].
Definition b_ := letter ["b"; "B"].
Definition m_ := letter ["m"; "M"].
Definition g_ := letter ["g"; "G"].
Definition i_ := letter ["i"; "I"].
Definition cyr_k := letter ["к"; "К"].
Definition cyr_b := letter ["б"; "Б"].
Definition cyr_m := letter ["м"; "М"].
Definition cyr_g := letter ["г"; "Г"].

End Regexp.

(** ** sort.Slice

    The function of Go 1.24 (the version of the build image): the
    pattern-defeating quicksort of [sort/zsortfunc.go], on a slice seen
    through [Less(i, j)] and [Swap(i, j)]. Loops run on a counter that
    bounds their iterations. The shuffle of [breakPatterns_func] takes
    its pseudo-random generator as a parameter. *)

Module Sort.

Section Sorting.
Context {A : Type} (less : A -> A -> bool).

(** [xorshift.Next], the step of the pseudo-random generator of
    [breakPatterns_func] on its 64-bit state: any function here. *)
Context (xorshiftNext : Z -> Z).

Definition Less (d : list A) (i j : nat) : bool :=
  match d !! i, d !! j with
  | Some x, Some y => less x y
  | _, _ => false
  end.

Definition Swap (d : list A) (i j : nat) : list A :=
  match d !! i, d !! j with
  | Some x, Some y => <[j := x]> (<[i := y]> d)
  | _, _ => d
  end.

(** [for j := i; j > a && data.Less(j, j-1); j--] *)
Fixpoint insertionInner (a j : nat) (d : list A) : list A :=
  match j with
  | O => d
  | S j' =>
      if (a <? j)%nat && Less d j j' then insertionInner a j' (Swap d j j')
      else d
  end.

(** [for i := ...; i < b; i++], [n] iterations left. *)
Fixpoint insertionOuter (a i n : nat) (d : list A) : list A :=
  match n with
  | O => d
  | S n' => insertionOuter a (S i) n' (insertionInner a i d)
  end.

Definition insertionSort_func (d : list A) (a b : nat) : list A :=
  insertionOuter a (a + 1) (b - (a + 1)) d.

Fixpoint siftDown_loop (fuel : nat) (d : list A) (root hi first : nat) : list A :=
  match fuel with
  | O => d
  | S fuel' =>
      let child := (2 * root + 1)%nat in
      if (hi <=? child)%nat then d
      else
        let child :=
          if (child + 1 <? hi)%nat && Less d (first + child) (first + child + 1)
          then (child + 1)%nat else child in
        if negb (Less d (first + root) (first + child)) then d
        else siftDown_loop fuel' (Swap d (first + root) (first + child)) child hi first
  end.

Definition siftDown_func (d : list A) (lo hi first : nat) : list A :=
  siftDown_loop hi d lo hi first.

(** [for i := (hi - 1) / 2; i >= 0; i--] *)
Fixpoint heapBuild (i : nat) (d : list A) (hi first : nat) : list A :=
  let d := siftDown_func d i hi first in
  match i with
  | O => d
  | S i' => heapBuild i' d hi first
  end.

(** [for i := hi - 1; i >= 0; i--], the next index being [n - 1]. *)
Fixpoint heapPop (n : nat) (d : list A) (lo first : nat) : list A :=
  match n with
  | O => d
  | S i => heapPop i (siftDown_func (Swap d first (first + i)) lo i first) lo first
  end.

Definition heapSort_func (d : list A) (a b : nat) : list A :=
  let first := a in
  let lo := O in
  let hi := (b - a)%nat in
  let d := heapBuild ((hi - 1) / 2) d hi first in
  heapPop hi d lo first.

(** [order2_func]: the two indices in order, and the swaps counted. *)
Definition order2_func (d : list A) (a b swaps : nat) : nat * nat * nat :=
  if Less d b a then (b, a, S swaps) else (a, b, swaps).

Definition median_func (d : list A) (a b c swaps : nat) : nat * nat :=
  let '(a, b, swaps) := order2_func d a b swaps in
  let '(b, c, swaps) := order2_func d b c swaps in
  let '(a, b, swaps) := order2_func d a b swaps in
  (b, swaps).

Definition medianAdjacent_func (d : list A) (a swaps : nat) : nat * nat :=
  median_func d (a - 1) a (a + 1) swaps.

Inductive sortedHint := unknownHint | increasingHint | decreasingHint.

Definition choosePivot_func (d : list A) (a b : nat) : nat * sortedHint :=
  let shortestNinther := 50%nat in
  let maxSwaps := (4 * 3)%nat in
  let l := (b - a)%nat in
  let swaps := O in
  let i := (a + l / 4 * 1)%nat in
  let j := (a + l / 4 * 2)%nat in
  let k := (a + l / 4 * 3)%nat in
  let '(j, swaps) :=
    if (8 <=? l)%nat then
      let '(i, j, k, swaps) :=
        if (shortestNinther <=? l)%nat then
          let '(i, swaps) := medianAdjacent_func d i swaps in
          let '(j, swaps) := medianAdjacent_func d j swaps in
          let '(k, swaps) := medianAdjacent_func d k swaps in
          (i, j, k, swaps)
        else (i, j, k, swaps) in
      median_func d i j k swaps
    else (j, swaps) in
  if (swaps =? 0)%nat then (j, increasingHint)
  else if (swaps =? maxSwaps)%nat then (j, decreasingHint)
  else (j, unknownHint).

(** [for i < j { Swap(i, j); i++; j-- }] *)
Fixpoint reverseLoop (fuel : nat) (d : list A) (i j : nat) : list A :=
  match fuel with
  | O => d
  | S fuel' =>
      if (i <? j)%nat then reverseLoop fuel' (Swap d i j) (S i) (j - 1) else d
  end.

Definition reverseRange_func (d : list A) (a b : nat) : list A :=
  reverseLoop (b - a) d a (b - 1).

(** [for i <= j && data.Less(i, a) { i++ }] *)
Fixpoint scanUpLess (fuel : nat) (d : list A) (a i j : nat) : nat :=
  match fuel with
  | O => i
  | S fuel' =>
      if (i <=? j)%nat && Less d i a then scanUpLess fuel' d a (S i) j else i
  end.

(** [for i <= j && !data.Less(j, a) { j-- }]; [j] is kept as [j + 1] so
    that it can pass below the first index. *)
Fixpoint scanDownNotLess (fuel : nat) (d : list A) (a i j1 : nat) : nat :=
  match fuel, j1 with
  | S fuel', S j =>
      if (i <=? j)%nat && negb (Less d j a) then scanDownNotLess fuel' d a i j
      else j1
  | _, _ => j1
  end.

Fixpoint partitionLoop (fuel : nat) (d : list A) (a i j1 : nat) : list A * nat :=
  match fuel with
  | O => (d, j1)
  | S fuel' =>
      let i := scanUpLess (S j1) d a i (j1 - 1) in
      let j1 := scanDownNotLess (S j1) d a i j1 in
      if (j1 <=? i)%nat then (d, j1)
      else partitionLoop fuel' (Swap d i (j1 - 1)) a (S i) (j1 - 1)
  end.

(** [partition_func]: the slice, the new place of the pivot, and
    whether the slice was already partitioned. Below, [j1] is [j + 1]. *)
Definition partition_func (d : list A) (a b pivot : nat) : list A * nat * bool :=
  let d := Swap d a pivot in
  let i := (a + 1)%nat in
  let j1 := b in
  let i := scanUpLess b d a i (j1 - 1) in
  let j1 := scanDownNotLess b d a i j1 in
  if (j1 <=? i)%nat then (Swap d (j1 - 1) a, (j1 - 1)%nat, true)
  else
    let d := Swap d i (j1 - 1) in
    let '(d, j1) := partitionLoop b d a (S i) (j1 - 1) in
    (Swap d (j1 - 1) a, (j1 - 1)%nat, false).

(** [for i <= j && !data.Less(a, i) { i++ }] *)
Fixpoint scanUpNotGreater (fuel : nat) (d : list A) (a i j : nat) : nat :=
  match fuel with
  | O => i
  | S fuel' =>
      if (i <=? j)%nat && negb (Less d a i) then scanUpNotGreater fuel' d a (S i) j
      else i
  end.

(** [for i <= j && data.Less(a, j) { j-- }], with [j1 = j + 1]. *)
Fixpoint scanDownGreater (fuel : nat) (d : list A) (a i j1 : nat) : nat :=
  match fuel, j1 with
  | S fuel', S j =>
      if (i <=? j)%nat && Less d a j then scanDownGreater fuel' d a i j
      else j1
  | _, _ => j1
  end.

Fixpoint partitionEqualLoop (fuel : nat) (d : list A) (a i j1 : nat) : list A * nat :=
  match fuel with
  | O => (d, i)
  | S fuel' =>
      let i := scanUpNotGreater (S j1) d a i (j1 - 1) in
      let j1 := scanDownGreater (S j1) d a i j1 in
      if (j1 <=? i)%nat then (d, i)
      else partitionEqualLoop fuel' (Swap d i (j1 - 1)) a (S i) (j1 - 1)
  end.

Definition partitionEqual_func (d : list A) (a b pivot : nat) : list A * nat :=
  let d := Swap d a pivot in
  partitionEqualLoop (S b) d a (a + 1) b.

(** The shifts of [partialInsertionSort_func]:
    [for j := i - 1; j >= 1; j--] and [for j := i + 1; j < b; j++]. *)
Fixpoint shiftLeft (j : nat) (d : list A) : list A :=
  match j with
  | O => d
  | S j' => if negb (Less d j j') then d else shiftLeft j' (Swap d j j')
  end.

Fixpoint shiftRight (fuel : nat) (j b : nat) (d : list A) : list A :=
  match fuel with
  | O => d
  | S fuel' =>
      if (j <? b)%nat then
        if negb (Less d j (j - 1)) then d
        else shiftRight fuel' (S j) b (Swap d j (j - 1))
      else d
  end.

(** [for i < b && !data.Less(i, i-1) { i++ }] *)
Fixpoint scanSorted (fuel : nat) (d : list A) (i b : nat) : nat :=
  match fuel with
  | O => i
  | S fuel' =>
      if (i <? b)%nat && negb (Less d i (i - 1)) then scanSorted fuel' d (S i) b
      else i
  end.

Fixpoint partialInsertionLoop (steps : nat) (d : list A) (a b i : nat) : list A * bool :=
  match steps with
  | O => (d, false)
  | S steps' =>
      let shortestShifting := 50%nat in
      let i := scanSorted b d i b in
      if (i =? b)%nat then (d, true)
      else if (b - a <? shortestShifting)%nat then (d, false)
      else
        let d := Swap d i (i - 1) in
        let d := if (2 <=? i - a)%nat then shiftLeft (i - 1) d else d in
        let d := if (2 <=? b - i)%nat then shiftRight b (i + 1) b d else d in
        partialInsertionLoop steps' d a b i
  end.

Definition partialInsertionSort_func (d : list A) (a b : nat) : list A * bool :=
  let maxSteps := 5%nat in
  partialInsertionLoop maxSteps d a b (a + 1).

(** [bits.Len]: the number of bits of [n]. *)
Definition bitsLen (n : nat) : nat := Z.to_nat (Z.log2 (Z.of_nat n) + (if (n =? 0)%nat then 0 else 1)).

Definition nextPowerOfTwo (length : nat) : Z := 2 ^ Z.of_nat (bitsLen length).

Fixpoint breakLoop (n i : nat) (random modulus : Z) (d : list A) (a idx length : nat) : list A :=
  match n with
  | O => d
  | S n' =>
      let random := xorshiftNext random in
      let other := Z.to_nat (Z.land random (modulus - 1)) in
      let other := if (length <=? other)%nat then (other - length)%nat else other in
      breakLoop n' (S i) random modulus (Swap d (idx - 1 + i) (a + other)) a idx length
  end.

Definition breakPatterns_func (d : list A) (a b : nat) : list A :=
  let length := (b - a)%nat in
  if (8 <=? length)%nat then
    let random := Z.of_nat length in
    let modulus := nextPowerOfTwo length in
    let idx := (a + (length / 4) * 2 - 1)%nat in
    breakLoop 3 0 random modulus d a idx length
  else d.

(** [pdqsort_func]: both the loop and the call on the shorter side go on
    with a strictly shorter range, so [b - a + 1] steps are enough. *)
Fixpoint pdqsort_loop (fuel : nat) (d : list A) (a b limit : nat)
    (wasBalanced wasPartitioned : bool) : list A :=
  match fuel with
  | O => d
  | S fuel' =>
      let maxInsertion := 12%nat in
      let length := (b - a)%nat in
      if (length <=? maxInsertion)%nat then insertionSort_func d a b
      else if (limit =? 0)%nat then heapSort_func d a b
      else
        let '(d, limit) :=
          if negb wasBalanced then (breakPatterns_func d a b, (limit - 1)%nat)
          else (d, limit) in
        let '(pivot, hint) := choosePivot_func d a b in
        let '(d, pivot, hint) :=
          match hint with
          | decreasingHint =>
              (reverseRange_func d a b, ((b - 1) - (pivot - a))%nat, increasingHint)
          | _ => (d, pivot, hint)
          end in
        let '(d, done) :=
          match wasBalanced && wasPartitioned, hint with
          | true, increasingHint => partialInsertionSort_func d a b
          | _, _ => (d, false)
          end in
        if done then d
        else if (0 <? a)%nat && negb (Less d (a - 1) pivot) then
          let '(d, mid) := partitionEqual_func d a b pivot in
          pdqsort_loop fuel' d mid b limit wasBalanced wasPartitioned
        else
          let '(d, mid, alreadyPartitioned) := partition_func d a b pivot in
          let wasPartitioned := alreadyPartitioned in
          let leftLen := (mid - a)%nat in
          let rightLen := (b - mid)%nat in
          let balanceThreshold := (length / 8)%nat in
          if (leftLen <? rightLen)%nat then
            let wasBalanced := (balanceThreshold <=? leftLen)%nat in
            let d := pdqsort_loop fuel' d a mid limit true true in
            pdqsort_loop fuel' d (mid + 1) b limit wasBalanced wasPartitioned
          else
            let wasBalanced := (balanceThreshold <=? rightLen)%nat in
            let d := pdqsort_loop fuel' d (mid + 1) b limit true true in
            pdqsort_loop fuel' d a mid limit wasBalanced wasPartitioned
  end.

Definition pdqsort_func (d : list A) (a b limit : nat) : list A :=
  pdqsort_loop (b - a + 1) d a b limit true true.

(** [sort.Slice(x, less)], [less] comparing the elements now at the two
    indices. *)
Definition Slice (d : list A) : list A :=
  let length := List.length d in
  let limit := bitsLen length in
  pdqsort_func d 0 length limit.

End Sorting.

End Sort.

(** ** internal/models *)

Module Models.

Record Book := { ID : string; Title : string; Author : string }.

Record BookFormatOption := { Path : string; Label : string }.

Record BookDetails := {
  details_ID : string;
  details_Title : string;
  details_Author : string;
  CoverPath : string;
  Formats : list BookFormatOption
}.

End Models.

(** ** The part of the Telegram client library the bot builds values of *)

Module Tgbotapi.

(** [NewInlineKeyboardButtonData(text, data)]. *)
Record InlineKeyboardButton := NewInlineKeyboardButtonData {
  Text : string;
  CallbackData : string
}.

(** [NewInlineKeyboardMarkup(rows...)]. *)
Record InlineKeyboardMarkup := NewInlineKeyboardMarkup {
  InlineKeyboard : list (list InlineKeyboardButton)
}.

End Tgbotapi.

(** ** internal/telegram/bot.go: the session store and the pages *)

Module Telegram.
Import GoInt Models Tgbotapi.

Record searchSession := {
  books : list Book;
  page : Z;
  pageSize : Z
}.

(** The only field of [Bot] that changes: the chat to session map. *)
Record Bot := { sessions : gmap Z searchSession }.

Definition defaultPageSize : Z := 10.
Definition cbBookPrefix : string := "book:".
Definition cbPagePrefix : string := "page:".
Definition cbDownloadPrefix : string := "dl:".

Definition storeSession (b : Bot) (chatID : Z) (bs : list Book) : Bot :=
  {| sessions :=
       <[chatID := {| books := bs; page := 0; pageSize := defaultPageSize |}]>
         (sessions b) |}.

Definition getSession (b : Bot) (chatID : Z) : option searchSession :=
  sessions b !! chatID.

Definition clampPage (page totalPages : Z) : Z :=
  if totalPages <=? 0 then 0
  else if page <? 0 then 0
  else if page >=? totalPages then sub totalPages 1
  else page.

Definition totalPages (total pageSize : Z) : option Z :=
  if total =? 0 then Some 0
  else div (sub (add total pageSize) 1) pageSize.

(** The button of one book on a page. *)
Definition bookButton (book : Book) : InlineKeyboardButton :=
  NewInlineKeyboardButtonData
    (Title book +:+ " - " +:+ Author book)
    (cbBookPrefix +:+ ID book).

Definition prevButton (page : Z) : InlineKeyboardButton :=
  NewInlineKeyboardButtonData "⬅️" (cbPagePrefix +:+ itoa (sub page 1)).

Definition centerButton (page pages : Z) : InlineKeyboardButton :=
  NewInlineKeyboardButtonData
    ("• " +:+ itoa (add page 1) +:+ "/" +:+ itoa pages +:+ " •")
    (cbPagePrefix +:+ itoa page).

Definition nextButton (page : Z) : InlineKeyboardButton :=
  NewInlineKeyboardButtonData "➡️" (cbPagePrefix +:+ itoa (add page 1)).

(** The navigation row of [buildPage], built when [pages > 1]. *)
Definition navRow (page pages : Z) : list InlineKeyboardButton :=
  let navRow := [] in
  let navRow := if page >? 0 then navRow ++ [prevButton page] else navRow in
  let navRow := navRow ++ [centerButton page pages] in
  let navRow :=
    if page <? sub pages 1 then navRow ++ [nextButton page] else navRow in
  navRow.

Definition newline : string := String (ascii_of_nat 10) "".

Definition pageText (total page pages : Z) : string :=
  "📚 Найдено книг: " +:+ itoa total +:+ newline +:+
  "Страница " +:+ itoa (add page 1) +:+ "/" +:+ itoa pages.

(** [session.page = page], when the chat still has a session. *)
Definition setPage (b : Bot) (chatID : Z) (p : Z) : Bot :=
  match sessions b !! chatID with
  | Some session =>
      {| sessions :=
           <[chatID := {| books := books session; page := p;
                          pageSize := pageSize session |}]> (sessions b) |}
  | None => b
  end.

(** [buildPage]: the bot after the call and the three results; [None]
    is a panic (a zero page size or a slice out of range). *)
Definition buildPage (b : Bot) (chatID : Z) (page : Z)
  : option (Bot * (string * InlineKeyboardMarkup * bool)) :=
  match getSession b chatID with
  | None => Some (b, ("", NewInlineKeyboardMarkup [], false))
  | Some session =>
      if len (books session) =? 0
      then Some (b, ("", NewInlineKeyboardMarkup [], false))
      else
        let total := len (books session) in
        pages ← totalPages total (pageSize session);
        let page := clampPage page pages in
        let start := mul page (pageSize session) in
        let end_ := add start (pageSize session) in
        let end_ := if end_ >? total then total else end_ in
        shown ← slice (books session) start end_;
        let rows := (fun book => [bookButton book]) <$> shown in
        let rows :=
          if pages >? 1 then rows ++ [navRow page pages] else rows in
        let b' := setPage b chatID page in
        Some (b', (pageText total page pages,
                   NewInlineKeyboardMarkup rows, true))
  end.

End Telegram.

(** ** Pagination: what a rendered page shows *)

Module Pagination.
Import GoInt Models Tgbotapi Telegram.

(** [pages] is ceil(count/pageSize), said without a division: [pages]
    pages hold all [count] items and [pages - 1] do not. *)
Definition is_ceil (count pageSize pages : Z) : Prop :=
  pageSize * (pages - 1) < count <= pageSize * pages.

(** The row of one book per item of [l[lo:hi]] (indices as integers). *)
Definition itemRows (l : list Book) (lo hi : Z) : list (list InlineKeyboardButton) :=
  (fun book => [bookButton book]) <$> take (Z.to_nat (hi - lo)) (drop (Z.to_nat lo) l).

Lemma totalPages_zero pageSize : totalPages 0 pageSize = Some 0.
Proof. reflexivity. Qed.


Lemma totalPages_ceil count pageSize :
  0 <= count -> 0 < pageSize -> count + pageSize <= max_int ->
  exists pages, totalPages count pageSize = Some pages /\
                is_ceil count pageSize pages /\ 0 <= pages <= count.
Proof.
  intros Hc Hp Hb. unfold totalPages, is_ceil.
  destruct (Z.eqb_spec count 0) as [->|Hne].
  - exists 0. split; [reflexivity|lia].
  - unfold div, add, sub. unfold max_int in Hb.
    assert (Hps : (pageSize =? 0) = false) by (apply Z.eqb_neq; lia).
    rewrite Hps.
    rewrite (wrap_small (count + pageSize)) by (unfold in_range, min_int, max_int; lia).
    rewrite (wrap_small (count + pageSize - 1)) by (unfold in_range, min_int, max_int; lia).
    rewrite Z.quot_div_nonneg by lia.
    assert (Hq : 0 <= (count + pageSize - 1) / pageSize <= count).
    { split; [apply Z.div_pos; lia|].
      apply Z.div_le_upper_bound; [lia|]. nia. }
    rewrite wrap_small by (unfold in_range, min_int, max_int; lia).
    eexists; split; [reflexivity|].
    pose proof (Z.mul_div_le (count + pageSize - 1) pageSize Hp).
    pose proof (Z.mul_succ_div_gt (count + pageSize - 1) pageSize Hp).
    split; [nia|lia].
Qed.

Lemma clampPage_spec page pages :
  0 < pages -> in_range pages ->
  clampPage page pages = Z.max 0 (Z.min page (pages - 1)).
Proof.
  intros Hp Hr. unfold clampPage.
  destruct (Z.leb_spec pages 0); [lia|].
  destruct (Z.ltb_spec page 0); [lia|].
  unfold Z.geb. destruct (Z.compare_spec page pages).
  - unfold sub. rewrite wrap_small by (unfold in_range, min_int, max_int in *; lia). lia.
  - lia.
  - unfold sub. rewrite wrap_small by (unfold in_range, min_int, max_int in *; lia). lia.
Qed.

Lemma clampPage_range page pages :
  0 < pages -> in_range pages -> 0 <= clampPage page pages <= pages - 1.
Proof. intros. rewrite clampPage_spec by assumption. lia. Qed.

(** The navigation row, as the three optional parts it is made of. *)
Lemma navRow_shape page pages :
  navRow page pages =
    (if page >? 0 then [prevButton page] else []) ++
    [centerButton page pages] ++
    (if page <? sub pages 1 then [nextButton page] else []).
Proof.
  unfold navRow. destruct (page >? 0), (page <? sub pages 1); reflexivity.
Qed.

(** What [buildPage] returns on a session that has items. *)
Lemma buildPage_rendered (b : Bot) (chatID requested : Z) (s : searchSession) :
  sessions b !! chatID = Some s ->
  0 < pageSize s ->
  len (books s) + pageSize s <= max_int ->
  books s <> [] ->
  exists pages,
    totalPages (len (books s)) (pageSize s) = Some pages /\
    let page := clampPage requested pages in
    let lo := page * pageSize s in
    let hi := Z.min (len (books s)) ((page + 1) * pageSize s) in
    0 < pages /\ 0 <= lo /\ lo < hi /\ hi <= len (books s) /\
    buildPage b chatID requested =
      Some (setPage b chatID page,
            (pageText (len (books s)) page pages,
             NewInlineKeyboardMarkup
               (itemRows (books s) lo hi ++
                (if pages >? 1 then [navRow page pages] else [])),
             true)).
Proof.
  intros Hs Hp Hb Hne.
  assert (Hlen : 0 < len (books s)).
  { unfold len. destruct (books s); [congruence|]. simpl. lia. }
  destruct (totalPages_ceil (len (books s)) (pageSize s)) as (pages & Ht & Hc & Hr);
    [lia|assumption|assumption|].
  exists pages. split; [assumption|]. cbv zeta.
  unfold is_ceil in Hc.
  assert (Hpos : 0 < pages) by nia.
  assert (Hir : in_range pages) by (unfold in_range, min_int, max_int in *; lia).
  pose proof (clampPage_range requested pages Hpos Hir) as Hcl.
  set (page := clampPage requested pages) in *.
  assert (Hlo : page * pageSize s < len (books s)) by nia.
  repeat split; try nia.
  unfold buildPage, getSession. rewrite Hs.
  destruct (Z.eqb_spec (len (books s)) 0); [lia|].
  rewrite Ht. cbn [mbind option_bind]. fold page.
  unfold mul, add. unfold max_int in Hb.
  rewrite (wrap_small (page * pageSize s))
    by (unfold in_range, min_int, max_int; nia).
  rewrite (wrap_small (page * pageSize s + pageSize s))
    by (unfold in_range, min_int, max_int; nia).
  assert (Hend : (if page * pageSize s + pageSize s >? len (books s)
                  then len (books s) else page * pageSize s + pageSize s)
                 = Z.min (len (books s)) ((page + 1) * pageSize s)).
  { unfold Z.gtb. destruct (Z.compare_spec (page * pageSize s + pageSize s) (len (books s))); lia. }
  rewrite Hend. unfold slice.
  assert (Hin : (0 <=? page * pageSize s)
                && (page * pageSize s <=? Z.min (len (books s)) ((page + 1) * pageSize s))
                && (Z.min (len (books s)) ((page + 1) * pageSize s) <=? len (books s)) = true).
  { rewrite !andb_true_iff, !Z.leb_le. nia. }
  rewrite Hin. cbn [mbind option_bind].
  unfold itemRows.
  destruct (pages >? 1); [reflexivity|].
  rewrite app_nil_r. reflexivity.
Qed.

Lemma itemRows_length (l : list Book) lo hi :
  0 <= lo -> lo <= hi -> hi <= len l ->
  len (itemRows l lo hi) = hi - lo.
Proof.
  intros H0 H1 H2. unfold itemRows, len in *.
  rewrite length_fmap, length_take, length_drop. lia.
Qed.


(** A session of [n] numbered books, for the examples. *)
Definition numbered (i : Z) : Book :=
  {| ID := itoa i; Title := "Book " +:+ itoa i; Author := "Author" |}.

Definition sampleBot (n : Z) : Bot :=
  storeSession {| sessions := ∅ |} 1 (numbered <$> seqZ 0 n).

Definition sampleSession (n : Z) : searchSession :=
  {| books := numbered <$> seqZ 0 n; page := 0; pageSize := defaultPageSize |}.

Lemma prev_not_center p q r : prevButton p <> centerButton q r.
Proof. intros H. apply (f_equal Text) in H. cbn in H. discriminate H. Qed.

Lemma next_not_center p q r : nextButton p <> centerButton q r.
Proof. intros H. apply (f_equal Text) in H. cbn in H. discriminate H. Qed.

Lemma prev_not_next p q : prevButton p <> nextButton q.
Proof. intros H. apply (f_equal Text) in H. cbn in H. discriminate H. Qed.



(** The same example by evaluation: page 5 of 25 items is page 2, and
    its item rows are the books 20 to 24. *)
Example buildPage_25_items_page_5 :
  clampPage 5 3 = 2 /\
  (fun r => InlineKeyboard (snd (fst (snd r)))) <$> buildPage (sampleBot 25) 1 5 =
    Some (((fun i => [bookButton (numbered i)]) <$> [20; 21; 22; 23; 24])
          ++ [[prevButton 2; centerButton 2 3]]).
Proof. split; vm_compute; reflexivity. Qed.

(** C7. For every page rendered from an existing non-empty session
    (positive page size, item count within the integer range), the
    keyboard is the item rows followed by the navigation rows: none when
    there is at most one page, otherwise one row made of a "previous"
    button exactly when page > 0, the indicator "page+1/pages", and a
    "next" button exactly when page < pages-1. *)
Theorem buildPage_navigation_row (b : Bot) (chatID requested : Z) (s : searchSession) :
  sessions b !! chatID = Some s ->
  0 < pageSize s ->
  len (books s) + pageSize s <= max_int ->
  books s <> [] ->
  exists pages b' text items nav,
    totalPages (len (books s)) (pageSize s) = Some pages /\
    let page := clampPage requested pages in
    buildPage b chatID requested =
      Some (b', (text, NewInlineKeyboardMarkup (items ++ nav), true)) /\
    len items = Z.min (len (books s)) ((page + 1) * pageSize s) - page * pageSize s /\
    (pages <= 1 -> nav = []) /\
    (1 < pages ->
       exists row, nav = [row] /\
         row = (if 0 <? page then [prevButton page] else []) ++
               [centerButton page pages] ++
               (if page <? pages - 1 then [nextButton page] else []) /\
         (prevButton page ∈ row <-> 0 < page) /\
         centerButton page pages ∈ row /\
         (nextButton page ∈ row <-> page < pages - 1) /\
         Text (centerButton page pages) =
           "• " +:+ itoa (page + 1) +:+ "/" +:+ itoa pages +:+ " •" /\
         Text (prevButton page) = "⬅️" /\
         Text (nextButton page) = "➡️").
Proof.
  intros Hs Hp Hb Hne.
  destruct (buildPage_rendered b chatID requested s Hs Hp Hb Hne)
    as (pages & Ht & Hpos & Hlo & Hlt & Hhi & Hbuild).
  destruct (totalPages_ceil (len (books s)) (pageSize s)) as (pages' & Ht' & Hc & Hr);
    [apply len_nonneg|assumption|assumption|].
  assert (pages' = pages) by congruence. subst pages'.
  assert (Hir : in_range pages).
  { unfold in_range, min_int, max_int in *. lia. }
  pose proof (clampPage_range requested pages Hpos Hir) as Hcl.
  eexists pages, _, _, _, _. split; [exact Ht|]. cbv zeta.
  split; [exact Hbuild|].
  set (page := clampPage requested pages) in *.
  split; [apply itemRows_length; lia|].
  split.
  - intros Hle. destruct (Z.gtb_spec pages 1); [lia|reflexivity].
  - intros Hgt. destruct (Z.gtb_spec pages 1); [|lia].
    eexists. split; [reflexivity|].
    assert (Hsub : sub pages 1 = pages - 1).
    { unfold sub. apply wrap_small. unfold in_range, min_int, max_int in *. lia. }
    assert (Hadd : add page 1 = page + 1).
    { unfold add. apply wrap_small. unfold in_range, min_int, max_int in *. lia. }
    rewrite navRow_shape, Hsub.
    assert (Hgtb : (page >? 0) = (0 <? page)) by (rewrite Z.gtb_ltb; reflexivity).
    rewrite Hgtb.
    split; [reflexivity|].
    split; [|split; [|split]].
    + rewrite !elem_of_app, list_elem_of_singleton.
      destruct (Z.ltb_spec 0 page) as [H0|H0].
      * split; [intros _; exact H0|intros _; left; apply list_elem_of_singleton; reflexivity].
      * split; [|lia]. intros [H1|[H1|H1]].
        -- inversion H1.
        -- destruct (prev_not_center _ _ _ H1).
        -- destruct (page <? pages - 1); [|inversion H1].
           apply list_elem_of_singleton in H1. destruct (prev_not_next _ _ H1).
    + rewrite !elem_of_app, list_elem_of_singleton. right; left; reflexivity.
    + rewrite !elem_of_app, list_elem_of_singleton.
      destruct (Z.ltb_spec page (pages - 1)) as [H0|H0].
      * split; [intros _; exact H0|intros _; right; right; apply list_elem_of_singleton; reflexivity].
      * split; [|lia]. intros [H1|[H1|H1]].
        -- destruct (0 <? page); [|inversion H1].
           apply list_elem_of_singleton in H1. symmetry in H1.
           destruct (prev_not_next _ _ H1).
        -- destruct (next_not_center _ _ _ H1).
        -- inversion H1.
    + unfold centerButton; cbn [Text]. rewrite Hadd. repeat split.
Qed.

(** Page 0 of 25 items: a navigation row with the indicator and "next"
    only. *)
Lemma buildPage_navigation_row_witness :
  exists pages b' text items nav,
    totalPages 25 10 = Some pages /\
    let page := clampPage 0 pages in
    buildPage (sampleBot 25) 1 0 =
      Some (b', (text, NewInlineKeyboardMarkup (items ++ nav), true)) /\
    (1 < pages -> exists row, nav = [row] /\
       (prevButton page ∈ row <-> 0 < page) /\
       (nextButton page ∈ row <-> page < pages - 1)).
Proof.
  destruct (buildPage_navigation_row (sampleBot 25) 1 0 (sampleSession 25))
    as (pages & b' & text & items & nav & Ht & Hbuild & _ & _ & Hnav).
  - reflexivity.
  - reflexivity.
  - vm_compute. discriminate.
  - discriminate.
  - exists pages, b', text, items, nav. split; [exact Ht|]. cbv zeta.
    split; [exact Hbuild|].
    intros Hgt. destruct (Hnav Hgt) as (row & Hrow & _ & Hprev & _ & Hnext & _).
    exists row. split; [exact Hrow|]. split; [exact Hprev|exact Hnext].
Defined.

(** The navigation rows of the specification's example, by evaluation:
    page 0 has only "next", page 2 only "previous", and a single page
    has no navigation row. *)
Example buildPage_navigation_examples :
  (fun r => last (InlineKeyboard (snd (fst (snd r))))) <$> buildPage (sampleBot 25) 1 0 =
    Some (Some [centerButton 0 3; nextButton 0]) /\
  (fun r => last (InlineKeyboard (snd (fst (snd r))))) <$> buildPage (sampleBot 25) 1 2 =
    Some (Some [prevButton 2; centerButton 2 3]) /\
  (fun r => last (InlineKeyboard (snd (fst (snd r))))) <$> buildPage (sampleBot 25) 1 1 =
    Some (Some [prevButton 1; centerButton 1 3; nextButton 1]) /\
  (fun r => length (InlineKeyboard (snd (fst (snd r))))) <$> buildPage (sampleBot 7) 1 0 =
    Some 7%nat.
Proof. repeat split; vm_compute; reflexivity. Qed.

End Pagination.

(** ** internal/telegram/bot.go: the detail card *)

Module Details.
Import GoInt Strings Regexp Models Tgbotapi Telegram.

Definition notRightParen (c : ascii) : bool := negb (Ascii.eqb c ")"%char).

(** [\(([^)]+)\)\s*$] *)
Definition sizeInParensRe : re :=
  Cats [ Lit "(";
         Group 1 (Plus (Byte notRightParen));
         Lit ")";
         Star space;
         EndText ].

Definition isDotComma (c : ascii) : bool :=
  Ascii.eqb c "."%char || Ascii.eqb c ","%char.

(** [(?:kb|mb|gb|kib|mib|gib|кб|мб|гб)] under the flag [i] *)
Definition sizeUnits : re :=
  Alts [ Cat k_ b_; Cat m_ b_; Cat g_ b_;
         Cats [k_; i_; b_]; Cats [m_; i_; b_]; Cats [g_; i_; b_];
         Cat cyr_k cyr_b; Cat cyr_m cyr_b; Cat cyr_g cyr_b ].

(** [(?i)\b\d+(?:[.,]\d+)?\s*(?:kb|mb|gb|kib|mib|gib|кб|мб|гб)\b] *)
Definition sizeLooseRe : re :=
  Cats [ WordBoundary;
         Plus digit;
         Quest (Cat (Byte isDotComma) (Plus digit));
         Star space;
         sizeUnits;
         WordBoundary ].

Definition isEmpty (s : string) : bool :=
  match s with EmptyString => true | _ => false end.

Definition formatButtonText `{Unicode} (opt : BookFormatOption) : string :=
  let format := ToUpper (TrimSpace (Path opt)) in
  let format := if isEmpty format then "FILE" else format in
  let label := TrimSpace (Label opt) in
  if isEmpty label then format
  else
    match FindStringSubmatch sizeInParensRe label with
    | Some [_; m1] =>
        let inParens := TrimSpace m1 in
        if EqualFold inParens (TrimSpace (Path opt)) then format
        else format +:+ " (" +:+ inParens +:+ ")"
    | _ =>
        match FindStringSubmatch sizeLooseRe label with
        | Some [m0] => format +:+ " (" +:+ TrimSpace m0 +:+ ")"
        | _ => format
        end
    end.

(** The order given to [sort.Slice] in [sendBookDetails]. *)
Definition formatLess `{Unicode} (x y : BookFormatOption) : bool :=
  let ai := ToUpper (TrimSpace (Path x)) in
  let aj := ToUpper (TrimSpace (Path y)) in
  Strings.lt ai aj.

Definition formatButton `{Unicode} (bookID : string) (opt : BookFormatOption)
  : InlineKeyboardButton :=
  NewInlineKeyboardButtonData
    (formatButtonText opt)
    (cbDownloadPrefix +:+ bookID +:+ ":" +:+ Path opt).

(** The loop over the sorted formats: the rows closed so far and the
    row being filled. *)
Fixpoint formatRowsLoop `{Unicode} (bookID : string) (formats : list BookFormatOption)
    (rows : list (list InlineKeyboardButton)) (row : list InlineKeyboardButton)
  : list (list InlineKeyboardButton) * list InlineKeyboardButton :=
  match formats with
  | [] => (rows, row)
  | opt :: formats' =>
      let row := row ++ [formatButton bookID opt] in
      if (length row =? 2)%nat
      then formatRowsLoop bookID formats' (rows ++ [row]) []
      else formatRowsLoop bookID formats' rows row
  end.

(** The fallback when no format was found. *)
Definition commonFormats : list string := ["epub"; "fb2"; "pdf"].

Definition fallbackRows `{Unicode} (bookID : string) : list (list InlineKeyboardButton) :=
  let row :=
    foldl (fun row f =>
             row ++ [NewInlineKeyboardButtonData (ToUpper f)
                       (cbDownloadPrefix +:+ bookID +:+ ":" +:+ f)])
          [] commonFormats in
  [] ++ [row].

(** The rows of the keyboard of [sendBookDetails], from the formats of
    the details. *)
Definition detailRows `{Unicode} (xorshiftNext : Z -> Z) (bookID : string)
    (formats : list BookFormatOption) : list (list InlineKeyboardButton) :=
  if (length formats =? 0)%nat then fallbackRows bookID
  else
    let formats := Sort.Slice formatLess xorshiftNext formats in
    let '(rows, row) := formatRowsLoop bookID formats [] [] in
    if (0 <? length row)%nat then rows ++ [row] else rows.

End Details.

(** ** internal/telegram/bot.go: the callback dispatcher *)

Module Callback.
Import GoInt Strings Models Tgbotapi Telegram.

Record User := { UserID : Z; UserName : string }.

Record Message := { ChatID : Z; MessageID : Z }.

(** A callback query: the sender is a required field of the Bot API,
    the message an optional one ([nil] when absent). *)
Record CallbackQuery := {
  CallbackID : string;
  From : User;
  CbMessage : option Message;
  Data : string
}.

(** What [handleCallback] does, in order: the answer to the callback
    query ([b.bot.Request(tgbotapi.NewCallback(cb.ID, text))]), a
    message to the chat ([b.sendMessage]), and the calls of the three
    actions. *)
Inductive Step :=
| AnswerCallback (callbackID text : string)
| SendMessage (chatID : Z) (text : string)
| EditBooksPage (chatID messageID page : Z)
| DownloadAndSend (chatID userID : Z) (username bookID formatPath : string)
| SendBookDetails (chatID : Z) (bookID : string).

Definition handleCallback (cb : CallbackQuery) : list Step :=
  match CbMessage cb with
  | None => []
  | Some msg =>
      let chatID := ChatID msg in
      let data := Data cb in
      if HasPrefix data cbPagePrefix then
        let callbackResp := AnswerCallback (CallbackID cb) "Листаю…" in
        let pageStr := TrimPrefix data cbPagePrefix in
        match Atoi pageStr with
        | None =>
            [callbackResp; SendMessage chatID "⚠️ Не удалось переключить страницу."]
        | Some page =>
            [callbackResp; EditBooksPage chatID (MessageID msg) page]
        end
      else if HasPrefix data cbDownloadPrefix then
        let rest := TrimPrefix data cbDownloadPrefix in
        let parts := SplitN rest ":" 2 in
        match parts with
        | [bookID; formatPath] =>
            let callbackResp :=
              AnswerCallback (CallbackID cb) "Начинаю скачивание... ⏳" in
            [callbackResp;
             DownloadAndSend chatID (UserID (From cb)) (UserName (From cb))
               bookID formatPath]
        | _ => [SendMessage chatID "⚠️ Не удалось распознать формат."]
        end
      else if HasPrefix data cbBookPrefix then
        let callbackResp := AnswerCallback (CallbackID cb) "Открываю…" in
        let bookID := TrimPrefix data cbBookPrefix in
        [callbackResp; SendBookDetails chatID bookID]
      else if negb (String.eqb data "") then
        let callbackResp := AnswerCallback (CallbackID cb) "Открываю…" in
        [callbackResp; SendBookDetails chatID data]
      else []
  end.

(** The four kinds of payload of the specification. *)
Inductive Kind := Paginate | SelectFormat | SelectItem | LegacyBareId | Ignored.

Definition classify (data : string) : Kind :=
  if HasPrefix data cbPagePrefix then Paginate
  else if HasPrefix data cbDownloadPrefix then SelectFormat
  else if HasPrefix data cbBookPrefix then SelectItem
  else if negb (String.eqb data "") then LegacyBareId
  else Ignored.

Definition isAnswer (s : Step) : bool :=
  match s with AnswerCallback _ _ => true | _ => false end.

(** The steps that wait on the network. *)
Definition isBlocking (s : Step) : bool := negb (isAnswer s).

(** The action of a kind of payload. *)
Definition isActionOf (k : Kind) (s : Step) : bool :=
  match k, s with
  | Paginate, EditBooksPage _ _ _ => true
  | SelectFormat, DownloadAndSend _ _ _ _ _ => true
  | SelectItem, SendBookDetails _ _ => true
  | LegacyBareId, SendBookDetails _ _ => true
  | _, _ => false
  end.

Definition isAction (s : Step) : bool :=
  match s with
  | EditBooksPage _ _ _ | DownloadAndSend _ _ _ _ _ | SendBookDetails _ _ => true
  | _ => false
  end.

(** The claim on one callback query: the first step answers the query,
    and the action of its kind is called exactly once. *)
Definition acknowledgedThenActs (cb : CallbackQuery) : Prop :=
  exists text rest,
    handleCallback cb = AnswerCallback (CallbackID cb) text :: rest /\
    length (filter (fun s => isActionOf (classify (Data cb)) s = true) rest) = 1%nat.

End Callback.

(** ** io and os, as far as the save uses them *)

Module Io.
Import GoInt Strings.

(** A stream: the bytes it delivers, and the error that ends it in
    place of the end of file, if any. *)
Record Reader := { data : string; failure : option string }.

(** [io.LimitReader(r, n)]: stops with the end of file after [n] bytes
    and does not read [r] further. *)
Definition LimitReader (r : Reader) (n : Z) : Reader :=
  if n <=? 0 then {| data := EmptyString; failure := None |}
  else if len (data r) <? n then r
  else {| data := upto (Z.to_nat n) (data r); failure := None |}.

(** The files of the storage: path to content. *)
Record FS := { files : gmap string string }.

(** What the environment decides during one save: the failure of
    [os.MkdirAll], the bytes or the failure of [rand.Read], the failure
    of [os.Create], and the number of bytes the file accepts before
    [Write] fails. *)
Record Env := {
  mkdirErr : option string;
  randErr : option string;
  randByte : nat -> ascii;
  createErr : option string;
  writeRoom : option (nat * string)
}.

Definition Create (env : Env) (fs : FS) (path : string) : FS + string :=
  match createErr env with
  | Some e => inr e
  | None => inl {| files := <[path := EmptyString]> (files fs) |}
  end.

(** [os.Remove] of a file of the storage. *)
Definition Remove (fs : FS) (path : string) : FS :=
  {| files := delete path (files fs) |}.

(** [io.Copy(out, r)]: the storage with what was written, the number of
    bytes written, and the error. A failing [Write] comes before the
    failure of the stream when the file is full first. *)
Definition Copy (env : Env) (fs : FS) (path : string) (r : Reader)
  : FS * Z * option string :=
  match writeRoom env with
  | Some (room, e) =>
      if (room <? String.length (data r))%nat
      then ({| files := <[path := upto room (data r)]> (files fs) |},
            Z.of_nat room, Some e)
      else ({| files := <[path := data r]> (files fs) |}, len (data r), failure r)
  | None => ({| files := <[path := data r]> (files fs) |}, len (data r), failure r)
  end.

End Io.

Module FilepathJoin.
Import Strings Filepath.

(** The elements of a path: the runs between separators, empty ones
    included. *)
Fixpoint elements (path : string) : list string :=
  match path with
  | EmptyString => [EmptyString]
  | String c path' =>
      if IsPathSeparator c then EmptyString :: elements path'
      else match elements path' with
           | e :: es => String c e :: es
           | [] => [String c EmptyString]
           end
  end.

(** One element against the elements kept so far (last first), by the
    rules of [filepath.Clean]: an empty element and [.] are dropped,
    [..] removes the element before it, is dropped at the root, and is
    kept at the start of a path that is not rooted. *)
Definition cleanStep (rooted : bool) (kept : list string) (e : string) : list string :=
  if String.eqb e "" || String.eqb e "." then kept
  else if String.eqb e ".." then
    match kept with
    | k :: kept' => if String.eqb k ".." then e :: kept else kept'
    | [] => if rooted then [] else [e]
    end
  else e :: kept.

Fixpoint joinWith (sep : string) (es : list string) : string :=
  match es with
  | [] => EmptyString
  | [e] => e
  | e :: es' => e +:+ sep +:+ joinWith sep es'
  end.

Definition isRooted (path : string) : bool :=
  match path with String c _ => IsPathSeparator c | EmptyString => false end.

Definition render (rooted : bool) (kept : list string) : string :=
  match rooted, kept with
  | false, [] => "."
  | false, _ => joinWith "/" (reverse kept)
  | true, _ => "/" +:+ joinWith "/" (reverse kept)
  end.

(** [filepath.Clean], on Unix. *)
Definition Clean (path : string) : string :=
  render (isRooted path) (foldl (cleanStep (isRooted path)) [] (elements path)).

(** [filepath.Join(dir, name)] for a [dir] that is not empty. *)
Definition Join (dir name : string) : string := Clean (dir +:+ "/" +:+ name).

End FilepathJoin.

(** ** internal/storage/books.go *)

Module Storage.
Import GoInt Strings Filepath Io.

Record SavedFile := { RelativePath : string; SizeBytes : Z }.

Definition hexDigit (n : N) : ascii :=
  match String.get (N.to_nat n) "0123456789abcdef" with
  | Some c => c
  | None => "0"%char
  end.

(** [fmt.Sprintf("%x", buf)]: two lowercase digits per byte. *)
Fixpoint sprintf_x (buf : list ascii) : string :=
  match buf with
  | [] => EmptyString
  | c :: buf' =>
      String (hexDigit (byte c / 16)) (String (hexDigit (byte c mod 16)) (sprintf_x buf'))
  end.

(** [rand.Read(buf)]: fills the whole buffer or fails. *)
Definition rand_Read (env : Env) (n : nat) : list ascii + string :=
  match randErr env with
  | Some e => inr e
  | None => inl (randByte env <$> seq 0 n)
  end.

Definition randomHex (env : Env) (n : Z) : string + string :=
  if n <=? 0 then inr "некорректная длина"
  else
    match rand_Read env (Z.to_nat n) with
    | inr e => inr e
    | inl buf => inl (sprintf_x buf)
    end.

Definition isEmpty (s : string) : bool :=
  match s with EmptyString => true | _ => false end.

Definition errTooLarge : string := "файл слишком большой".

(** [SaveBookFile]: the storage after the call, and the saved file or
    the text of the error. *)
Definition SaveBookFile (env : Env) (fs : FS) (baseDir originalName : string)
    (data : Reader) (maxSize : Z) : FS * (SavedFile + string) :=
  if isEmpty baseDir then (fs, inr "пустая директория хранения")
  else
    match mkdirErr env with
    | Some e => (fs, inr ("не удалось создать директорию хранения: " +:+ e))
    | None =>
        let ext := Ext originalName in
        let ext := if isEmpty ext then ".bin" else ext in
        match randomHex env 16 with
        | inr e => (fs, inr ("не удалось сгенерировать имя файла: " +:+ e))
        | inl name =>
            let filename := name +:+ ext in
            let fullPath := FilepathJoin.Join baseDir filename in
            match Create env fs fullPath with
            | inr e => (fs, inr ("не удалось создать файл: " +:+ e))
            | inl fs =>
                let reader :=
                  if maxSize >? 0 then LimitReader data (add maxSize 1) else data in
                let '(fs, n, err) := Copy env fs fullPath reader in
                match err with
                | Some e =>
                    (Remove fs fullPath, inr ("ошибка записи файла: " +:+ e))
                | None =>
                    if (maxSize >? 0) && (n >? maxSize)
                    then (Remove fs fullPath, inr errTooLarge)
                    else (fs, inl {| RelativePath := filename; SizeBytes := n |})
                end
            end
        end
    end.

(** The two messages of [downloadAndSend] after a failed save, chosen
    by the text of the error. *)
Definition maxFileSize : Z := 50 * 1024 * 1024.
Definition msgTooLarge : string := "❌ Файл слишком большой. Максимальный размер: 50 MB.".
Definition msgSaveFailed : string := "❌ Ошибка при сохранении файла.".

Definition saveErrorMessage (err : string) : string :=
  if Contains err "слишком большой" then msgTooLarge else msgSaveFailed.

End Storage.

(** ** internal/db/store.go

    The tables of [migrate] that the bot writes, as the rows they hold.
    Every statement is answered; the only errors are those of the
    constraints of the schema. Foreign keys are checked by the
    connections on which [PRAGMA foreign_keys = ON] was run, which the
    caller of a statement does not choose: [foreign_keys] says whether
    the connection that serves the statement checks them. *)

Module Db.
Import GoInt Strings.

Record BookRow := {
  book_id : Z;
  source_id : option string;
  title : string;
  author : string
}.

Record FileRow := {
  file_id : Z;
  file_book_id : Z;
  format : string;
  path : string;
  size_bytes : Z
}.

Record LibraryRow := {
  user_id : Z;
  book_file_id : Z;
  added_at : string;
  current_location : option string
}.

Record Store := {
  users : gmap Z string;
  books : list BookRow;
  books_seq : Z;
  book_files : list FileRow;
  book_files_seq : Z;
  user_library : list LibraryRow
}.

Definition sameKey (userID fileID : Z) (r : LibraryRow) : bool :=
  (user_id r =? userID) && (book_file_id r =? fileID).

Definition hasUser (s : Store) (userID : Z) : bool :=
  match users s !! userID with Some _ => true | None => false end.

Definition hasFile (s : Store) (fileID : Z) : bool :=
  existsb (fun f => file_id f =? fileID) (book_files s).

Definition hasBook (s : Store) (bookID : Z) : bool :=
  existsb (fun b => book_id b =? bookID) (books s).

Definition errForeignKey : string := "FOREIGN KEY constraint failed".

(** [INSERT INTO users ... ON CONFLICT(telegram_id) DO UPDATE SET
    username = excluded.username] *)
Definition EnsureUser (s : Store) (telegramID : Z) (username : string)
  : Store * option string :=
  ({| users := <[telegramID := username]> (users s);
      books := books s; books_seq := books_seq s;
      book_files := book_files s; book_files_seq := book_files_seq s;
      user_library := user_library s |}, None).

Definition hasSource (sourceID : string) (b : BookRow) : bool :=
  match source_id b with
  | Some x => String.eqb x sourceID
  | None => false
  end.

Definition insertBook (s : Store) (src : option string) (t a : string) : Store * Z :=
  let id := books_seq s + 1 in
  ({| users := users s;
      books := books s ++ [{| book_id := id; source_id := src; title := t; author := a |}];
      books_seq := id;
      book_files := book_files s; book_files_seq := book_files_seq s;
      user_library := user_library s |}, id).

Definition updateBook (sourceID t a : string) (b : BookRow) : BookRow :=
  if hasSource sourceID b
  then {| book_id := book_id b; source_id := source_id b; title := t; author := a |}
  else b.

(** [UpsertBook]: the identifier of the row, or an error. With
    [AUTOINCREMENT] the insertion draws its identifier before the unique
    index is checked, and the number drawn is recorded in
    [sqlite_sequence] when the statement ends: the update of a known
    source leaves the rows their identifiers and moves the sequence on
    by one. *)
Definition UpsertBook (s : Store) (sourceID t a : string) : Store * (Z + string) :=
  if String.eqb sourceID "" then
    let '(s, id) := insertBook s None t a in (s, inl id)
  else
    let s :=
      if existsb (hasSource sourceID) (books s) then
        {| users := users s;
           books := updateBook sourceID t a <$> books s;
           books_seq := books_seq s + 1;
           book_files := book_files s; book_files_seq := book_files_seq s;
           user_library := user_library s |}
      else fst (insertBook s (Some sourceID) t a) in
    match List.find (hasSource sourceID) (books s) with
    | Some b => (s, inl (book_id b))
    | None => (s, inr "ошибка поиска книги: sql: no rows in result set")
    end.

Definition InsertBookFile (foreign_keys : bool) (s : Store) (bookID : Z)
    (fmt p : string) (size : Z) : Store * (Z + string) :=
  if foreign_keys && negb (hasBook s bookID)
  then (s, inr ("ошибка вставки файла: " +:+ errForeignKey))
  else
    let id := book_files_seq s + 1 in
    ({| users := users s; books := books s; books_seq := books_seq s;
        book_files := book_files s ++
          [{| file_id := id; file_book_id := bookID; format := fmt; path := p;
              size_bytes := size |}];
        book_files_seq := id;
        user_library := user_library s |}, inl id).

(** [INSERT OR IGNORE INTO user_library (user_id, book_file_id) VALUES
    (?, ?)]: a row with the same primary key makes the statement a
    no-op; a broken foreign key is an error all the same. [now] is the
    default of [added_at]. *)
Definition AddToLibrary (foreign_keys : bool) (now : string) (s : Store)
    (userID fileID : Z) : Store * option string :=
  if existsb (sameKey userID fileID) (user_library s) then (s, None)
  else if foreign_keys && negb (hasUser s userID && hasFile s fileID)
  then (s, Some ("ошибка добавления в библиотеку: " +:+ errForeignKey))
  else
    ({| users := users s; books := books s; books_seq := books_seq s;
        book_files := book_files s; book_files_seq := book_files_seq s;
        user_library := user_library s ++
          [{| user_id := userID; book_file_id := fileID; added_at := now;
              current_location := None |}] |}, None).

(** The rows of the library that link [userID] and [fileID]. *)
Definition libraryRows (s : Store) (userID fileID : Z) : list LibraryRow :=
  List.filter (sameKey userID fileID) (user_library s).

(** The primary key of [user_library]: no two rows with the same user
    and file. *)
Definition primaryKey (s : Store) : Prop :=
  forall userID fileID, (length (libraryRows s userID fileID) <= 1)%nat.

Definition empty : Store :=
  {| users := ∅; books := []; books_seq := 0; book_files := [];
     book_files_seq := 0; user_library := [] |}.

End Db.

(** ** The catalog client: Search *)

Module Service.
Import GoInt Strings Models.

(** The outcome of one [httpClient.Get] and of reading the body. *)
Inductive Response :=
| NetworkError (err : string)
| Status (code : Z) (body : string) (readErr : option string).

Section Search.
(** [parser.ParseBooks], which reads the HTML with a library outside
    the repository: any function from the body to the books or to an
    error. *)
Context (ParseBooks : string -> list Book + string).

(** The outcomes of the successive requests, by the number of the
    attempt (from 1). *)
Context (responses : Z -> Response).

Definition maxAttempts : Z := 3.

(** What one attempt does: returns from [Search], or goes on to the
    next attempt. *)
Inductive Attempt :=
| Return (result : list Book + string)
| NextAttempt.

Definition attemptBody (attempt : Z) : Attempt :=
  match responses attempt with
  | NetworkError err => Return (inr ("ошибка сети: " +:+ err))
  | Status code body readErr =>
      if negb (code =? 200) then Return (inr ("сервер вернул код: " +:+ itoa code))
      else
        match readErr with
        | Some err => Return (inr ("ошибка чтения ответа: " +:+ err))
        | None =>
            if Strings.len body <? 1000 then
              Return (inr ("ответ слишком короткий (" +:+ itoa (Strings.len body)
                           +:+ " байт), возможно неполный"))
            else
              match ParseBooks body with
              | inr err => Return (inr ("ошибка парсинга: " +:+ err))
              | inl books =>
                  if 0 <? GoInt.len books then Return (inl books) else NextAttempt
              end
        end
  end.

(** [for attempt := 1; attempt <= maxAttempts; attempt++], with the
    number of iterations left; the result with the number of requests
    made and of pauses of one second. *)
Fixpoint searchLoop (left : nat) (attempt : Z) (requests sleeps : nat)
  : (list Book + string) * nat * nat :=
  match left with
  | O => (inl [], requests, sleeps)
  | S left' =>
      match attemptBody attempt with
      | Return r => (r, S requests, sleeps)
      | NextAttempt =>
          let sleeps := if attempt <? maxAttempts then S sleeps else sleeps in
          searchLoop left' (attempt + 1) (S requests) sleeps
      end
  end.

Definition Search (query : string) : (list Book + string) * nat * nat :=
  searchLoop (Z.to_nat maxAttempts) 1 0 0.

End Search.

End Service.

(** ** internal/telegram/bot.go: the actions and what they send *)

Module Actions.
Import GoInt Strings Models Tgbotapi Telegram Details Io Storage.

(** What the bot hands to the transport ([b.bot.Send]). *)
Inductive Event :=
| SendText (chatID : Z) (text : string)
| SendTextMarkup (chatID : Z) (text : string) (markup : InlineKeyboardMarkup)
| EditMessageText (chatID messageID : Z) (text : string) (markup : InlineKeyboardMarkup)
| SendPhoto (chatID : Z) (photo caption : string) (markup : InlineKeyboardMarkup)
| DeleteMessage (chatID messageID : Z)
| SendDocument (chatID : Z) (path caption : string) (webApp : option string).

Definition msgStale : string :=
  "⚠️ Результаты поиска устарели. Напиши запрос ещё раз.".

Definition sendBooksPage (b : Bot) (chatID page : Z) : option (Bot * list Event) :=
  r ← buildPage b chatID page;
  let '(b', (text, markup, ok)) := r in
  if negb ok then Some (b', [SendText chatID msgStale])
  else Some (b', [SendTextMarkup chatID text markup]).

Definition editBooksPage (b : Bot) (chatID messageID page : Z)
  : option (Bot * list Event) :=
  r ← buildPage b chatID page;
  let '(b', (text, markup, ok)) := r in
  if negb ok then Some (b', [SendText chatID msgStale])
  else Some (b', [EditMessageText chatID messageID text markup]).

Definition findBookInSession (b : Bot) (chatID : Z) (bookID : string) : option Book :=
  match getSession b chatID with
  | None => None
  | Some session => List.find (fun book => String.eqb (ID book) bookID) (books session)
  end.

(** [sendBookDetails], given what [GetBookDetails] and, for a cover,
    [DownloadBytes] answer. *)
Definition sendBookDetails `{Unicode} (xorshiftNext : Z -> Z) (b : Bot)
    (fetched : BookDetails + string) (cover : string + string)
    (chatID : Z) (bookID : string) : list Event :=
  match fetched with
  | inr _ =>
      [SendText chatID
         "❌ Не удалось получить информацию о книге (Tor/сайт может тупить)."]
  | inl details =>
      let '(t, a) :=
        match findBookInSession b chatID bookID with
        | Some book => (Title book, Author book)
        | None => (details_Title details, details_Author details)
        end in
      let t := if Details.isEmpty t then "Без названия" else t in
      let a := if Details.isEmpty a then "Автор неизвестен" else a in
      let rows := detailRows xorshiftNext bookID (Formats details) in
      let markup := NewInlineKeyboardMarkup rows in
      let caption := "📖 " +:+ t +:+ newline +:+ "✍️ " +:+ a in
      let plain := [SendTextMarkup chatID caption markup] in
      if negb (Details.isEmpty (CoverPath details)) then
        match cover with
        | inr _ => plain
        | inl coverBytes =>
            if 0 <? Strings.len coverBytes
            then [SendPhoto chatID coverBytes caption markup]
            else plain
        end
      else plain
  end.

(** What the environment decides during one [downloadAndSend]. *)
Record DownloadEnv := {
  loadingSent : Z + string;
  downloaded : (Reader * string) + string;
  saveEnv : Io.Env;
  absPath : string -> string;
  foreign_keys : bool;
  now : string;
  documentSent : option string
}.

Record World := {
  bot : Bot;
  storage : FS;
  store : option Db.Store;
  storageDir : string;
  miniAppURL : string
}.

Definition deleteLoadingMsg (env : DownloadEnv) (chatID : Z) : list Event :=
  match loadingSent env with
  | inl messageID => if negb (messageID =? 0) then [DeleteMessage chatID messageID] else []
  | inr _ => []
  end.

(** Step 4 of [downloadAndSend]: the metadata, each failure logged and
    nothing more. *)
Definition persist (env : DownloadEnv) (w : World) (chatID userID : Z)
    (username bookID formatPath : string) (saved : SavedFile) : option Db.Store :=
  match store w with
  | None => None
  | Some db =>
      match Db.EnsureUser db userID username with
      | (db, Some _) => Some db
      | (db, None) =>
          let '(t, a) :=
            match findBookInSession (bot w) chatID bookID with
            | Some book => (Title book, Author book)
            | None => (EmptyString, EmptyString)
            end in
          match Db.UpsertBook db bookID t a with
          | (db, inr _) => Some db
          | (db, inl bookDBID) =>
              match Db.InsertBookFile (foreign_keys env) db bookDBID formatPath
                      (RelativePath saved) (SizeBytes saved) with
              | (db, inr _) => Some db
              | (db, inl fileID) =>
                  Some (fst (Db.AddToLibrary (foreign_keys env) (now env) db userID fileID))
              end
          end
      end
  end.

Definition downloadAndSend (env : DownloadEnv) (w : World) (chatID userID : Z)
    (username bookID formatPath : string) : World * list Event :=
  let loading := [SendText chatID "⏳ Скачиваю файл... Подождите..."] in
  match downloaded env with
  | inr _ =>
      (w, loading ++ deleteLoadingMsg env chatID ++
          [SendText chatID
             "❌ Не удалось скачать файл. Возможно, ссылка устарела или Tor тупит."])
  | inl (stream, filename) =>
      match SaveBookFile (saveEnv env) (storage w) (storageDir w) filename stream
              maxFileSize with
      | (fs, inr err) =>
          ({| bot := bot w; storage := fs; store := store w;
              storageDir := storageDir w; miniAppURL := miniAppURL w |},
           loading ++ deleteLoadingMsg env chatID ++
             [SendText chatID (saveErrorMessage err)])
      | (fs, inl saved) =>
          let fullPath := FilepathJoin.Join (storageDir w) (RelativePath saved) in
          let absPath := absPath env fullPath in
          let db := persist env w chatID userID username bookID formatPath saved in
          let webApp :=
            if negb (Details.isEmpty (miniAppURL w)) then Some (miniAppURL w) else None in
          let doc := SendDocument chatID absPath "📖 Ваша книга. Приятного чтения!" webApp in
          let after :=
            match documentSent env with
            | Some err =>
                deleteLoadingMsg env chatID ++
                [SendText chatID ("❌ Ошибка при отправке файла в Telegram: " +:+ err)]
            | None => deleteLoadingMsg env chatID
            end in
          ({| bot := bot w; storage := fs; store := db;
              storageDir := storageDir w; miniAppURL := miniAppURL w |},
           loading ++ [doc] ++ after)
      end
  end.

End Actions.

(** ** internal/telegram/bot.go: text messages *)

Module Messages.
Import GoInt Strings Models Tgbotapi Telegram Actions.

(** A text message, with what the client library answers about it:
    [msg.IsCommand()] and [msg.Command()]. *)
Record Message := {
  ChatID : Z;
  MsgText : string;
  IsCommand : bool;
  Command : string
}.

Definition msgGreeting : string := "Привет! Напиши название книги, я найду её)".
Definition msgSearching (query : string) : string := "🔎 Ищу: " +:+ query +:+ "...".
Definition msgSearchError : string := "❌ Ошибка поиска (возможно, Tor устал).".
Definition msgNothingFound : string := "😔 Ничего не найдено.".

(** [handleMessage], given what [b.service.Search] answers to a query;
    [None] is a panic. *)
Definition handleMessage (search : string -> list Book + string) (b : Bot)
    (msg : Message) : option (Bot * list Event) :=
  if IsCommand msg && String.eqb (Command msg) "start" then
    Some (b, [SendText (ChatID msg) msgGreeting])
  else
    let query := MsgText msg in
    let chatID := ChatID msg in
    let searching := SendText chatID (msgSearching query) in
    match search query with
    | inr _ => Some (b, [searching; SendText chatID msgSearchError])
    | inl books =>
        if GoInt.len books =? 0 then Some (b, [searching; SendText chatID msgNothingFound])
        else
          let b := storeSession b chatID books in
          r ← sendBooksPage b chatID 0;
          Some (r.1, searching :: r.2)
    end.

End Messages.

(** ** internal/db/store.go: the queries of the reader *)

Module Queries.
Import GoInt Strings Db.

Record BookFile := { ID : Z; Path : string; Format : string; SizeBytes : Z }.

(** [JOIN user_library ul ON ul.book_file_id = bf.id WHERE ul.user_id = ?] *)
Definition inLibrary (s : Store) (userID : Z) (bf : FileRow) : bool :=
  existsb (fun ul => (book_file_id ul =? file_id bf) && (user_id ul =? userID))
    (user_library s).

(** [GetFileForUser]: the first row of the join, or the error of
    [sql.ErrNoRows]. The identifier being the primary key of
    [book_files], the join has one row at most. *)
Definition GetFileForUser (s : Store) (userID fileID : Z) : BookFile + string :=
  match List.find (fun bf => inLibrary s userID bf && (file_id bf =? fileID))
          (book_files s) with
  | Some bf =>
      inl {| ID := file_id bf; Path := path bf; Format := format bf;
             SizeBytes := size_bytes bf |}
  | None => inr "файл не найден"
  end.

Definition setLocation (userID fileID : Z) (location : string) (r : LibraryRow)
  : LibraryRow :=
  if sameKey userID fileID r
  then {| user_id := user_id r; book_file_id := book_file_id r;
          added_at := added_at r; current_location := Some location |}
  else r.

(** [UPDATE user_library SET current_location = ? WHERE user_id = ? AND
    book_file_id = ?]: no row to update is no error. *)
Definition UpdateProgress (s : Store) (userID fileID : Z) (location : string)
  : Store * option string :=
  ({| users := users s; books := books s; books_seq := books_seq s;
      book_files := book_files s; book_files_seq := book_files_seq s;
      user_library := setLocation userID fileID location <$> user_library s |}, None).

End Queries.


(** ** internal/parser: the download links of a book page *)

Module Parser.
Import GoInt Strings Models.

Section Formats.
Context `{Unicode}.

(** [strings.Map(unicode.ToLower, s)], reached from a string that is
    not ASCII: any function here. *)
Context (map_ToLower : string -> string).

Definition lowerByte (c : ascii) : ascii :=
  if isUpper c then ascii_of_N (byte c + 32) else c.

(** [strings.ToLower] *)
Definition ToLower (s : string) : string :=
  if all isASCIIbyte s then smap lowerByte s else map_ToLower s.

(** An [a] element of the page, as the selection library gives it:
    [a.Attr("href")] and [a.Text()]. *)
Record Anchor := { href : option string; text : string }.

Definition isEmpty (s : string) : bool :=
  match s with EmptyString => true | _ => false end.

(** [switch strings.ToLower(rest) { case "read", "edit", "comments" }] *)
Definition isNavigation (rest : string) : bool :=
  let low := ToLower rest in
  String.eqb low "read" || String.eqb low "edit" || String.eqb low "comments".

(** The function that [ParseBookDetails] gives to [doc.Find("a").Each],
    on the set [seen] and the slice [opts]; [None] is a panic. *)
Definition eachLink (prefix : string) (st : gset string * list BookFormatOption)
    (a : Anchor) : option (gset string * list BookFormatOption) :=
  let '(seen, opts) := st in
  match href a with
  | None => Some st
  | Some href =>
      if negb (HasPrefix href prefix) then Some st
      else
        let rest := TrimPrefix href prefix in
        let rest := TrimSpace rest in
        if isEmpty rest then Some st
        else if Contains rest "/" then Some st
        else
          rest ← (if Contains rest "?" || Contains rest "#"
                  then rest ← head (SplitN rest "?" 2); head (SplitN rest "#" 2)
                  else Some rest);
          let rest := TrimSpace rest in
          if isEmpty rest then Some st
          else if isNavigation rest then Some st
          else if bool_decide (rest ∈ seen) then Some st
          else
            let seen := {[rest]} ∪ seen in
            let label := TrimSpace (text a) in
            let label := if isEmpty label then ToUpper rest else label in
            Some (seen, opts ++ [{| Path := rest; Label := label |}])
  end.

Fixpoint eachLinks (prefix : string) (st : gset string * list BookFormatOption)
    (anchors : list Anchor) : option (gset string * list BookFormatOption) :=
  match anchors with
  | [] => Some st
  | a :: anchors' => st ← eachLink prefix st a; eachLinks prefix st anchors'
  end.

(** [details.Formats] of [ParseBookDetails], from the [a] elements of
    the page in the order of the document. *)
Definition Formats (bookID : string) (anchors : list Anchor)
  : option (list BookFormatOption) :=
  let prefix := "/b/" +:+ bookID +:+ "/" in
  snd <$> eachLinks prefix (∅, []) anchors.

End Formats.

End Parser.

(** ** internal/httpapi: the files of the reader *)

Module Httpapi.
Import GoInt Strings Db Queries.

Record TelegramUser := {
  UserID : Z;
  Username : string;
  FirstName : string;
  LastName : string
}.

(** A request, with what the library answers about it: [r.Header.Get]
    and [r.URL.Query().Get]. *)
Record Request := {
  Method : string;
  URLPath : string;
  Header : string -> string;
  Query : string -> string;
  Body : string
}.

Inductive Payload :=
| ErrorPayload (message : string)
| OkPayload.

(** What a handler writes: [writeJSON(w, status, payload)], or the call
    of [http.ServeFile] after [setContentType]. *)
Inductive Response :=
| WriteJSON (status : Z) (payload : Payload)
| ServeFile (contentType fullPath : string).

Definition isEmpty (s : string) : bool :=
  match s with EmptyString => true | _ => false end.

(** [trunc]: [s[:n]] with a negative [n] is a panic. *)
Definition trunc (s : string) (n : Z) : option string :=
  if Strings.len s <=? n then Some s
  else if n <? 0 then None
  else Some (upto (Z.to_nat n) s).

(** [strconv.ParseInt(s, 10, 64)]: as [strconv.Atoi] where [int] has 64
    bits. *)
Definition ParseInt (s : string) : option Z := Atoi s.

(** [filepath.Join] of two elements: an empty one is left out. *)
Definition Join (dir name : string) : string :=
  if isEmpty dir then (if isEmpty name then EmptyString else FilepathJoin.Clean name)
  else if isEmpty name then FilepathJoin.Clean dir
  else FilepathJoin.Clean (dir +:+ "/" +:+ name).

Section Server.
Context `{Unicode}.
Context (map_ToLower : string -> string).

(** [ValidateInitData], which checks a signature with the library of
    cryptography: any function here. *)
Context (ValidateInitData : string -> string -> TelegramUser + string).

(** The decoding of the body of [handleProgress] by [encoding/json]. *)
Context (decodeProgress : string -> option (Z * string)).

Definition setContentType (format : string) : string :=
  let format := Parser.ToLower map_ToLower (TrimSpace format) in
  if Contains format "epub" then "application/epub+zip"
  else if Contains format "fb2" && Contains format "zip" then "application/zip"
  else if Contains format "fb2" then "application/xml"
  else if Contains format "pdf" then "application/pdf"
  else "application/octet-stream".

(** [extractInitData]; [None] is the panic of [auth[4:]] on a shorter
    string. *)
Definition extractInitData (r : Request) : option string :=
  if negb (isEmpty (Header r "X-Telegram-InitData")) then Some (Header r "X-Telegram-InitData")
  else if negb (isEmpty (Header r "X-Telegram-Web-App-Data"))
  then Some (Header r "X-Telegram-Web-App-Data")
  else if negb (isEmpty (Header r "X-Telegram-WebApp-Data"))
  then Some (Header r "X-Telegram-WebApp-Data")
  else
    let auth := Header r "Authorization" in
    let fromQuery :=
      if negb (isEmpty (Query r "initData")) then Query r "initData"
      else if negb (isEmpty (Query r "tgWebAppData")) then Query r "tgWebAppData"
      else EmptyString in
    if negb (isEmpty auth) then
      let low := Parser.ToLower map_ToLower auth in
      if HasPrefix low "tma " then
        if (String.length auth <? 4)%nat then None
        else Some (TrimSpace (from 4 auth))
      else Some fromQuery
    else Some fromQuery.

Definition withUser (botToken : string) (s : Store) (r : Request)
    (fn : Store -> TelegramUser -> Store * list Response)
  : option (Store * list Response) :=
  initData ← extractInitData r;
  if isEmpty initData
  then Some (s, [WriteJSON 401 (ErrorPayload "initData required")])
  else
    match ValidateInitData initData botToken with
    | inr _ => Some (s, [WriteJSON 401 (ErrorPayload "invalid initData")])
    | inl user =>
        match EnsureUser s (UserID user) (Username user) with
        | (s, Some _) => Some (s, [WriteJSON 500 (ErrorPayload "db error")])
        | (s, None) => Some (fn s user)
        end
    end.

Definition handleFile (storageDir botToken : string) (s : Store) (r : Request)
  : option (Store * list Response) :=
  withUser botToken s r (fun s user =>
    let idStr := TrimPrefix (URLPath r) "/api/files/" in
    if isEmpty idStr then (s, [WriteJSON 400 (ErrorPayload "file id пустой")])
    else
      match ParseInt idStr with
      | None => (s, [WriteJSON 400 (ErrorPayload "file id некорректен")])
      | Some fileID =>
          match GetFileForUser s (UserID user) fileID with
          | inr _ => (s, [WriteJSON 404 (ErrorPayload "файл не найден")])
          | inl file =>
              let fullPath := Join storageDir (Path file) in
              (s, [ServeFile (setContentType (Format file)) fullPath])
          end
      end).

Definition handleProgress (botToken : string) (s : Store) (r : Request)
  : option (Store * list Response) :=
  if negb (String.eqb (Method r) "POST")
  then Some (s, [WriteJSON 405 (ErrorPayload "method not allowed")])
  else
    withUser botToken s r (fun s user =>
      match decodeProgress (Body r) with
      | None => (s, [WriteJSON 400 (ErrorPayload "invalid json")])
      | Some (fileID, location) =>
          if fileID =? 0 then (s, [WriteJSON 400 (ErrorPayload "file_id пустой")])
          else
            match UpdateProgress s (UserID user) fileID location with
            | (s, Some e) => (s, [WriteJSON 500 (ErrorPayload e)])
            | (s, None) => (s, [WriteJSON 200 OkPayload])
            end
      end).

End Server.

End Httpapi.


(** ** internal/config/config.go *)

Module Config.
Import GoInt Strings Filepath.

(** What the operating system answers: [os.Getenv] once [godotenv.Load]
    has run, [os.Executable] and [os.Getwd]. *)
Record OS := {
  Getenv : string -> string;
  Executable : string + string;
  Getwd : string + string
}.

Record Config := {
  TorProxyAddr : string;
  FlibustaURL : string;
  TelegramToken : string;
  SQLitePath : string;
  StorageDir : string;
  HTTPAddr : string;
  MiniAppURL : string
}.

Definition isEmpty (s : string) : bool :=
  match s with EmptyString => true | _ => false end.

(** [filepath.IsAbs], on Unix. *)
Definition IsAbs (path : string) : bool := HasPrefix path "/".

(** The loop of [filepath.Dir]: [i] counts the bytes not yet examined,
    the next one being [path[i-1]]; the result is the length of the part
    that ends with the last separator. *)
Fixpoint dirLoop (path : string) (i : nat) : nat :=
  match i with
  | O => O
  | S i' =>
      match String.get i' path with
      | Some c => if IsPathSeparator c then i else dirLoop path i'
      | None => dirLoop path i'
      end
  end.

(** [filepath.Dir], on Unix. *)
Definition Dir (path : string) : string :=
  FilepathJoin.Clean (upto (dirLoop path (String.length path)) path).

Definition withDefault `{Unicode} (value fallback : string) : string :=
  if isEmpty (TrimSpace value) then fallback else value.

Definition resolvePath `{Unicode} (os : OS) (p : string) : string :=
  let p := TrimSpace p in
  if isEmpty p then p
  else if IsAbs p then p
  else
    match Executable os with
    | inl exe =>
        let base := Dir exe in
        FilepathJoin.Clean (Httpapi.Join base p)
    | inr _ =>
        match Getwd os with
        | inl cwd => FilepathJoin.Clean (Httpapi.Join cwd p)
        | inr _ => p
        end
    end.

Definition Load `{Unicode} (os : OS) : Config + string :=
  let proxy := Getenv os "TOR_PROXY" in
  let url := Getenv os "FLIBUSTA_URL" in
  let token := Getenv os "TELEGRAM_TOKEN" in
  let sqlitePath := Getenv os "SQLITE_PATH" in
  let storageDir := Getenv os "STORAGE_DIR" in
  let httpAddr := Getenv os "HTTP_ADDR" in
  let miniAppURL := Getenv os "MINIAPP_URL" in
  if isEmpty proxy then inr "переменная TOR_PROXY не задана"
  else if isEmpty url then inr "переменная FLIBUSTA_URL не задана"
  else if isEmpty token then inr "переменная TELEGRAM_TOKEN не задана"
  else
    inl {| TorProxyAddr := proxy;
           FlibustaURL := url;
           TelegramToken := token;
           SQLitePath := resolvePath os (withDefault sqlitePath "data/app.db");
           StorageDir := resolvePath os (withDefault storageDir "storage/books");
           HTTPAddr := withDefault httpAddr ":8080";
           MiniAppURL := miniAppURL |}.

End Config.


(** ** The dispatcher: acknowledgement and action *)

Module CallbackFacts.
Import GoInt Strings Models Tgbotapi Telegram Callback.

Lemma SplitN_two (s : string) :
  SplitN s ":" 2 =
    match Index s ":" with
    | Some m => [upto m s; from (m + 1) s]
    | None => [s]
    end.
Proof.
  unfold SplitN. destruct s as [|c s].
  - reflexivity.
  - replace (Nat.min 2 (String.length (String c s) + 1) - 1)%nat with 1%nat
      by (cbn [String.length]; lia).
    cbn [splitLoop]. destruct (Index (String c s) ":"); reflexivity.
Qed.

Definition sampleUser : User := {| UserID := 42; UserName := "reader" |}.

(** A callback query without a message (as for a button under an
    inline-mode message), with a payload that is not empty. *)
Definition noMessageQuery : CallbackQuery :=
  {| CallbackID := "q1"; From := sampleUser; CbMessage := None; Data := "book:123" |}.

Definition queryWith (data : string) : CallbackQuery :=
  {| CallbackID := "q1"; From := sampleUser;
     CbMessage := Some {| ChatID := 7; MessageID := 99 |}; Data := data |}.

(** C4, as stated, fails: a callback query that carries the payload
    "book:123" but no message is dropped by the guard at the head of
    [handleCallback], neither answered nor acted upon. *)
Lemma handleCallback_not_always_acknowledged :
  Data noMessageQuery <> EmptyString /\ ~ acknowledgedThenActs noMessageQuery.
Proof.
  split; [discriminate|].
  intros (text & rest & Heq & _). discriminate Heq.
Qed.

(** The download payload without its separator: [handleCallback] sends
    the rejection and returns before it answers the callback query. *)
Example handleCallback_malformed_download :
  handleCallback (queryWith "dl:123") =
    [SendMessage 7 "⚠️ Не удалось распознать формат."] /\
  handleCallback (queryWith "dl:") =
    [SendMessage 7 "⚠️ Не удалось распознать формат."] /\
  handleCallback (queryWith "page:x") =
    [AnswerCallback "q1" "Листаю…";
     SendMessage 7 "⚠️ Не удалось переключить страницу."].
Proof. repeat split; vm_compute; reflexivity. Qed.

(** C4, amended. A callback query without a message or with an empty
    payload is ignored: no step at all. For every callback query that
    has a message and a payload that is not empty, a download payload
    holding its separator: the first step answers the callback query,
    and exactly one step follows, which is the action of the kind of the
    payload (page switch with the parsed page, download with the payload
    cut at the first separator, detail card of the item, detail card of
    the bare identifier) or, for a page payload whose number does not
    parse, the message that says so. *)
Theorem handleCallback_acknowledges_first (cb : CallbackQuery) :
  (CbMessage cb = None -> handleCallback cb = []) /\
  (Data cb = EmptyString -> handleCallback cb = []) /\
  forall msg,
    CbMessage cb = Some msg ->
    Data cb <> EmptyString ->
    (classify (Data cb) = SelectFormat ->
       Contains (TrimPrefix (Data cb) cbDownloadPrefix) ":" = true) ->
    exists text step,
      handleCallback cb = [AnswerCallback (CallbackID cb) text; step] /\
      isBlocking (AnswerCallback (CallbackID cb) text) = false /\
      match classify (Data cb) with
      | Paginate =>
          match Atoi (TrimPrefix (Data cb) cbPagePrefix) with
          | Some page => step = EditBooksPage (ChatID msg) (MessageID msg) page
          | None => step = SendMessage (ChatID msg) "⚠️ Не удалось переключить страницу."
          end
      | SelectFormat =>
          exists m,
            Index (TrimPrefix (Data cb) cbDownloadPrefix) ":" = Some m /\
            step = DownloadAndSend (ChatID msg) (UserID (From cb)) (UserName (From cb))
                     (upto m (TrimPrefix (Data cb) cbDownloadPrefix))
                     (from (m + 1) (TrimPrefix (Data cb) cbDownloadPrefix))
      | SelectItem => step = SendBookDetails (ChatID msg) (TrimPrefix (Data cb) cbBookPrefix)
      | LegacyBareId => step = SendBookDetails (ChatID msg) (Data cb)
      | Ignored => False
      end /\
      (isActionOf (classify (Data cb)) step = true \/
       classify (Data cb) = Paginate /\ Atoi (TrimPrefix (Data cb) cbPagePrefix) = None).
Proof.
  split; [|split].
  - intros Hm. unfold handleCallback. rewrite Hm. reflexivity.
  - intros Hd. unfold handleCallback. rewrite Hd.
    destruct (CbMessage cb); reflexivity.
  - intros msg Hm Hne Hdl. unfold handleCallback, classify in *. rewrite Hm.
    destruct (HasPrefix (Data cb) cbPagePrefix).
    { destruct (Atoi (TrimPrefix (Data cb) cbPagePrefix)) as [page|];
        eexists _, _; (split; [reflexivity|]); (split; [reflexivity|]);
        (split; [reflexivity|]); [left; reflexivity|right; split; reflexivity]. }
    destruct (HasPrefix (Data cb) cbDownloadPrefix).
    { specialize (Hdl eq_refl). unfold Contains in Hdl.
      rewrite SplitN_two.
      destruct (Index (TrimPrefix (Data cb) cbDownloadPrefix) ":") as [m|];
        [|discriminate].
      eexists _, _. split; [reflexivity|]. split; [reflexivity|].
      split; [exists m; split; reflexivity|left; reflexivity]. }
    destruct (HasPrefix (Data cb) cbBookPrefix).
    { eexists _, _. split; [reflexivity|]. split; [reflexivity|].
      split; [reflexivity|left; reflexivity]. }
    destruct (String.eqb_spec (Data cb) ""); [contradiction|].
    cbn [negb]. eexists _, _. split; [reflexivity|]. split; [reflexivity|].
    split; [reflexivity|left; reflexivity].
Qed.

(** The download of format "fb2.zip" of item 123: answered first, then
    the download called once, the payload cut at the first separator. *)
Lemma handleCallback_acknowledges_first_witness :
  exists text step,
    handleCallback (queryWith "dl:123:fb2:zip") =
      [AnswerCallback "q1" text; step] /\
    step = DownloadAndSend 7 42 "reader" "123" "fb2:zip".
Proof.
  destruct (handleCallback_acknowledges_first (queryWith "dl:123:fb2:zip"))
    as (_ & _ & H).
  destruct (H {| ChatID := 7; MessageID := 99 |}) as (text & step & Heq & _ & Hk & _).
  - reflexivity.
  - discriminate.
  - intros _. reflexivity.
  - exists text, step. split; [exact Heq|].
    destruct Hk as (m & Hm & Hstep).
    vm_compute in Hm. injection Hm as <-. exact Hstep.
Defined.

End CallbackFacts.

(** ** The detail card without formats *)

Module FallbackFacts.
Import GoInt Strings Models Tgbotapi Telegram Details.

(** The claim on the fallback keyboard: one button per row. *)
Definition onePerRow (rows : list (list InlineKeyboardButton)) : Prop :=
  Forall (fun row => length row = 1%nat) rows.

(** C6, as stated, fails: with no format the three fallback buttons
    share a single row. *)
Lemma fallback_not_one_per_row :
  ~ onePerRow (@detailRows asciiOnly (fun r => r) "123" []).
Proof.
  intros H. apply Forall_cons in H as [H _]. vm_compute in H. discriminate H.
Qed.

(** C6, amended. Whenever the detail fetch returns no format, the
    keyboard of the detail card is a single row of exactly the three
    buttons of the fixed set epub, fb2, pdf, in this order, labelled in
    upper case, each carrying the download payload of its format. *)
Theorem detailRows_fallback `{Unicode} (xorshiftNext : Z -> Z) (bookID : string) :
  detailRows xorshiftNext bookID [] =
    [[ NewInlineKeyboardButtonData "EPUB" ("dl:" +:+ bookID +:+ ":epub");
       NewInlineKeyboardButtonData "FB2" ("dl:" +:+ bookID +:+ ":fb2");
       NewInlineKeyboardButtonData "PDF" ("dl:" +:+ bookID +:+ ":pdf") ]].
Proof. reflexivity. Qed.

End FallbackFacts.

(** ** Search: the retries *)

Module SearchFacts.
Import GoInt Strings Models Service.



(** A response that makes an attempt go on to the next one: status 200,
    a body of 1000 bytes or more, read and parsed without error, and no
    book in it. *)
Definition noBooks (ParseBooks : string -> list Book + string) (r : Response) : Prop :=
  exists body, r = Status 200 body None /\ 1000 <= Strings.len body /\
               ParseBooks body = inl [].







End SearchFacts.

(** ** The library link *)

Module LibraryFacts.
Import GoInt Strings Db.

Lemma filter_none {A} (p : A -> bool) (l : list A) :
  existsb p l = false -> List.filter p l = [].
Proof.
  induction l as [|x l IH]; [reflexivity|].
  cbn. destruct (p x); [discriminate|]. exact IH.
Qed.

Lemma filter_some {A} (p : A -> bool) (l : list A) :
  existsb p l = true -> (1 <= length (List.filter p l))%nat.
Proof.
  induction l as [|x l IH]; [discriminate|].
  cbn. destruct (p x); cbn; [lia|]. exact IH.
Qed.

Lemma filter_snoc {A} (p : A -> bool) (l : list A) (x : A) :
  List.filter p (l ++ [x]) = List.filter p l ++ (if p x then [x] else []).
Proof.
  induction l as [|y l IH]; [cbn; destruct (p x); reflexivity|].
  cbn. rewrite IH. destruct (p y); reflexivity.
Qed.

Lemma sameKey_other userID fileID u f r :
  sameKey userID fileID r = true -> (u, f) <> (userID, fileID) ->
  sameKey u f r = false.
Proof.
  unfold sameKey. rewrite andb_true_iff, !Z.eqb_eq. intros [-> ->] Hne.
  destruct (Z.eqb_spec userID u), (Z.eqb_spec fileID f); subst; try reflexivity.
  congruence.
Qed.

(** The link keeps the primary key of the table. *)
Lemma AddToLibrary_primaryKey fk now s userID fileID :
  primaryKey s -> primaryKey (fst (AddToLibrary fk now s userID fileID)).
Proof.
  intros Hpk. unfold AddToLibrary.
  destruct (existsb (sameKey userID fileID) (user_library s)) eqn:Hex; [exact Hpk|].
  destruct (fk && negb (hasUser s userID && hasFile s fileID)); [exact Hpk|].
  intros u f. unfold libraryRows. cbn [fst user_library].
  rewrite filter_snoc, length_app.
  destruct (sameKey u f _) eqn:Hk; cbn [length].
  - unfold sameKey in Hk. cbn in Hk. rewrite andb_true_iff, !Z.eqb_eq in Hk.
    destruct Hk as [-> ->]. rewrite (filter_none _ _ Hex). cbn. lia.
  - specialize (Hpk u f). unfold libraryRows in Hpk. lia.
Qed.

(** C9. For every user and file present in their tables, and whichever
    connection serves the two statements: linking the file to the user
    twice leaves exactly one row of the library for the pair. Neither
    call fails, the second changes nothing, and the rows of the other
    pairs are those of before. *)
Theorem AddToLibrary_idempotent (fk1 fk2 : bool) (now1 now2 : string)
    (s : Store) (userID fileID : Z) :
  primaryKey s ->
  hasUser s userID = true ->
  hasFile s fileID = true ->
  let r1 := AddToLibrary fk1 now1 s userID fileID in
  let r2 := AddToLibrary fk2 now2 (fst r1) userID fileID in
  snd r1 = None /\ snd r2 = None /\
  fst r2 = fst r1 /\
  length (libraryRows (fst r2) userID fileID) = 1%nat /\
  (forall u f, (u, f) <> (userID, fileID) ->
     libraryRows (fst r2) u f = libraryRows s u f).
Proof.
  intros Hpk Hu Hf. cbv zeta.
  assert (H1 : snd (AddToLibrary fk1 now1 s userID fileID) = None /\
               existsb (sameKey userID fileID)
                 (user_library (fst (AddToLibrary fk1 now1 s userID fileID))) = true /\
               (forall u f, (u, f) <> (userID, fileID) ->
                  libraryRows (fst (AddToLibrary fk1 now1 s userID fileID)) u f
                  = libraryRows s u f)).
  { unfold AddToLibrary.
    destruct (existsb (sameKey userID fileID) (user_library s)) eqn:Hex.
    - cbn [fst snd]. split; [reflexivity|]. split; [exact Hex|]. reflexivity.
    - rewrite Hu, Hf, andb_false_r. cbn [fst snd user_library].
      split; [reflexivity|]. split.
      + rewrite existsb_app. cbn. unfold sameKey at 2. cbn.
        rewrite !Z.eqb_refl. apply orb_true_r.
      + intros u f Hne. unfold libraryRows. cbn [user_library].
        rewrite filter_snoc.
        rewrite (sameKey_other userID fileID u f); [apply app_nil_r| |exact Hne].
        unfold sameKey. cbn. rewrite !Z.eqb_refl. reflexivity. }
  destruct H1 as (Herr1 & Hex1 & Hother).
  set (s1 := fst (AddToLibrary fk1 now1 s userID fileID)) in *.
  assert (H2 : AddToLibrary fk2 now2 s1 userID fileID = (s1, None)).
  { unfold AddToLibrary. rewrite Hex1. reflexivity. }
  rewrite H2. cbn [fst snd].
  repeat split; try assumption.
  pose proof (AddToLibrary_primaryKey fk1 now1 s userID fileID Hpk userID fileID) as Hle.
  fold s1 in Hle.
  pose proof (filter_some _ _ Hex1) as Hge. unfold libraryRows in *. lia.
Qed.

(** A store with user 42 and file 1 of book 1, and an empty library. *)
Definition sampleStore : Store :=
  {| users := {[ 42 := "reader" ]};
     books := [{| book_id := 1; source_id := Some "123"; title := "T"; author := "A" |}];
     books_seq := 1;
     book_files := [{| file_id := 1; file_book_id := 1; format := "fb2";
                       path := "0123.fb2"; size_bytes := 10 |}];
     book_files_seq := 1;
     user_library := [] |}.

Lemma AddToLibrary_idempotent_witness :
  let r1 := AddToLibrary true "2026-01-01" sampleStore 42 1 in
  let r2 := AddToLibrary true "2026-01-02" (fst r1) 42 1 in
  snd r1 = None /\ snd r2 = None /\ fst r2 = fst r1 /\
  length (libraryRows (fst r2) 42 1) = 1%nat /\
  (forall u f, (u, f) <> (42, 1) ->
     libraryRows (fst r2) u f = libraryRows sampleStore u f).
Proof.
  apply (AddToLibrary_idempotent true true "2026-01-01" "2026-01-02" sampleStore 42 1).
  - intros u f. cbn. lia.
  - reflexivity.
  - reflexivity.
Defined.

(** The same by evaluation: one row after the first call, the same row
    after the second. *)
Example AddToLibrary_twice :
  user_library (fst (AddToLibrary true "2026-01-02"
                  (fst (AddToLibrary true "2026-01-01" sampleStore 42 1)) 42 1)) =
    [{| user_id := 42; book_file_id := 1; added_at := "2026-01-01";
        current_location := None |}].
Proof. vm_compute. reflexivity. Qed.

End LibraryFacts.

(** ** The bounded save *)

Module StorageFacts.
Import GoInt Strings Filepath Io Storage.

Lemma upto_length (n : nat) (s : string) :
  String.length (upto n s) = Nat.min n (String.length s).
Proof.
  revert s. induction n as [|n IH]; intros [|c s]; cbn; try reflexivity.
  rewrite IH. reflexivity.
Qed.

Lemma all_append (p : ascii -> bool) (s t : string) :
  all p (s +:+ t) = all p s && all p t.
Proof.
  induction s as [|c s IH]; [reflexivity|].
  simpl. rewrite IH. apply andb_assoc.
Qed.

Lemma append_cons (c : ascii) (s t : string) :
  String c s +:+ t = String c (s +:+ t).
Proof. reflexivity. Qed.

Lemma append_assoc (s t u : string) : (s +:+ t) +:+ u = s +:+ (t +:+ u).
Proof.
  induction s as [|c s IH]; [reflexivity|].
  rewrite !append_cons, IH. reflexivity.
Qed.

Lemma length_append (s t : string) :
  String.length (s +:+ t) = (String.length s + String.length t)%nat.
Proof. induction s as [|c s IH]; simpl; [reflexivity|]. rewrite IH. reflexivity. Qed.

(** The limited stream delivers a prefix of the stream, of at most [n]
    bytes. *)
Lemma LimitReader_prefix (r : Reader) (n : Z) :
  exists k, data (LimitReader r n) = upto k (data r) /\ Z.of_nat k <= Z.max 0 n.
Proof.
  unfold LimitReader.
  destruct (Z.leb_spec n 0).
  - exists O. split; [destruct (data r); reflexivity|lia].
  - destruct (Z.ltb_spec (len (data r)) n) as [Hlt|Hge].
    + exists (String.length (data r)). unfold len in Hlt. split; [|lia].
      clear. induction (data r) as [|c s IH]; [reflexivity|].
      cbn. rewrite <- IH. reflexivity.
    + exists (Z.to_nat n). split; [reflexivity|lia].
Qed.

Lemma LimitReader_bound (r : Reader) (n : Z) :
  len (data (LimitReader r n)) <= Z.max 0 n.
Proof.
  destruct (LimitReader_prefix r n) as (k & -> & Hk).
  unfold len. rewrite upto_length. lia.
Qed.

Lemma LimitReader_long (r : Reader) (n : Z) :
  0 < n -> n <= len (data r) ->
  LimitReader r n = {| data := upto (Z.to_nat n) (data r); failure := None |}.
Proof.
  intros Hn Hlen. unfold LimitReader.
  destruct (Z.leb_spec n 0); [lia|].
  destruct (Z.ltb_spec (len (data r)) n); [lia|]. reflexivity.
Qed.

(** The extension given to the stored file. *)
Definition storedExt (originalName : string) : string :=
  if isEmpty (Ext originalName) then ".bin" else Ext originalName.

(** The name given to the stored file. *)
Definition storedName (env : Env) (originalName : string) : string :=
  sprintf_x (randByte env <$> seq 0 16) +:+ storedExt originalName.

(** [SaveBookFile] once the file is created: the copy and its check. *)
Lemma SaveBookFile_created env fs baseDir originalName stream maxSize :
  baseDir <> EmptyString ->
  mkdirErr env = None -> randErr env = None -> createErr env = None ->
  SaveBookFile env fs baseDir originalName stream maxSize =
    let filename := storedName env originalName in
    let fullPath := FilepathJoin.Join baseDir filename in
    let reader := if maxSize >? 0 then LimitReader stream (add maxSize 1) else stream in
    let '(fs1, n, err) :=
      Copy env {| files := <[fullPath := EmptyString]> (files fs) |} fullPath reader in
    match err with
    | Some e => (Remove fs1 fullPath, inr ("ошибка записи файла: " +:+ e))
    | None =>
        if (maxSize >? 0) && (n >? maxSize)
        then (Remove fs1 fullPath, inr errTooLarge)
        else (fs1, inl {| RelativePath := filename; SizeBytes := n |})
    end.
Proof.
  intros Hb Hm Hr Hc. unfold SaveBookFile, randomHex, rand_Read, Create.
  destruct baseDir; [congruence|]. cbn [isEmpty].
  rewrite Hm, Hr, Hc. reflexivity.
Qed.

(** A saved file was created: none of the failures before the copy. *)
Lemma SaveBookFile_saved_env env fs baseDir originalName stream maxSize fs' saved :
  SaveBookFile env fs baseDir originalName stream maxSize = (fs', inl saved) ->
  baseDir <> EmptyString /\ mkdirErr env = None /\ randErr env = None /\
  createErr env = None.
Proof.
  unfold SaveBookFile, randomHex, rand_Read, Create.
  destruct baseDir; cbn [isEmpty]; [discriminate|].
  destruct (mkdirErr env); [discriminate|].
  destruct (randErr env); [cbn; discriminate|].
  destruct (createErr env); [cbn; discriminate|].
  intros _. repeat split. discriminate.
Qed.

Lemma Copy_files env fs path r fs1 n err :
  Copy env fs path r = (fs1, n, err) ->
  exists content,
    files fs1 = <[path := content]> (files fs) /\ n = len content /\
    exists k, content = upto k (data r).
Proof.
  unfold Copy. intros H.
  assert (Hall : data r = upto (String.length (data r)) (data r)).
  { clear. induction (data r) as [|c s IH]; [reflexivity|]. cbn. rewrite <- IH. reflexivity. }
  destruct (writeRoom env) as [[room e]|].
  - destruct (Nat.ltb_spec room (String.length (data r))).
    + injection H as <- <- <-. eexists. split; [reflexivity|]. split.
      * unfold len. rewrite upto_length. lia.
      * eexists. reflexivity.
    + injection H as <- <- <-. eexists. split; [reflexivity|]. split; [reflexivity|].
      eexists. exact Hall.
  - injection H as <- <- <-. eexists. split; [reflexivity|]. split; [reflexivity|].
    eexists. exact Hall.
Qed.

(** The text of a failed write is never taken for an oversize file
    unless the cause itself carries the words. *)
Lemma Contains_cons (c : ascii) (s sub : string) :
  HasPrefix (String c s) sub = false ->
  Contains (String c s) sub = Contains s sub.
Proof.
  intros H. unfold Contains. cbn [Index]. rewrite H.
  destruct (Index s sub); reflexivity.
Qed.

Lemma saveErrorMessage_write_error (e : string) :
  Contains e "слишком большой" = false ->
  saveErrorMessage ("ошибка записи файла: " +:+ e) = msgSaveFailed.
Proof.
  intros H. unfold saveErrorMessage.
  cbv beta iota fix delta [String.append].
  repeat (rewrite Contains_cons by reflexivity).
  rewrite H. reflexivity.
Qed.

Definition noSeparator (s : string) : bool :=
  all (fun c => negb (IsPathSeparator c)) s.

Definition isLowerHex (c : ascii) : bool :=
  isDigit c || ((97 <=? byte c)%N && (byte c <=? 102)%N).

Lemma from_get (i : nat) (s : string) (c : ascii) :
  String.get i s = Some c -> from i s = String c (from (S i) s).
Proof.
  revert s. induction i as [|i IH]; intros [|d s] H; try discriminate.
  - injection H as ->. reflexivity.
  - cbn in H. cbn [from]. rewrite (IH s H). reflexivity.
Qed.

Lemma extLoop_noSeparator (path : string) (i : nat) :
  noSeparator (from i path) = true -> noSeparator (extLoop path i) = true.
Proof.
  induction i as [|i IH]; intros H; [reflexivity|].
  cbn [extLoop]. destruct (String.get i path) as [c|] eqn:Hg; [|reflexivity].
  destruct (IsPathSeparator c) eqn:Hsep; [reflexivity|].
  assert (Hi : noSeparator (from i path) = true).
  { rewrite (from_get _ _ _ Hg). unfold noSeparator in *. cbn [all].
    rewrite Hsep, H. reflexivity. }
  destruct (Ascii.eqb c "."); [exact Hi|]. apply IH. exact Hi.
Qed.

Lemma from_length (s : string) : from (String.length s) s = EmptyString.
Proof. induction s as [|c s IH]; [reflexivity|exact IH]. Qed.

(** The extension of a name never holds a separator... *)
Lemma Ext_noSeparator (path : string) : noSeparator (Ext path) = true.
Proof.
  unfold Ext. apply extLoop_noSeparator. rewrite from_length. reflexivity.
Qed.

Lemma extLoop_dot (path : string) (i : nat) :
  extLoop path i = EmptyString \/ exists e, extLoop path i = String "." e.
Proof.
  induction i as [|i IH]; [left; reflexivity|].
  cbn [extLoop]. destruct (String.get i path) as [c|] eqn:Hg; [|left; reflexivity].
  destruct (IsPathSeparator c); [left; reflexivity|].
  destruct (Ascii.eqb_spec c ".") as [->|]; [|exact IH].
  right. rewrite (from_get _ _ _ Hg). eexists. reflexivity.
Qed.

(** ... and is empty or starts with its dot. *)
Lemma Ext_dot (path : string) :
  Ext path = EmptyString \/ exists e, Ext path = String "." e.
Proof. apply extLoop_dot. Qed.

Lemma storedExt_noSeparator (name : string) : noSeparator (storedExt name) = true.
Proof.
  unfold storedExt. destruct (isEmpty (Ext name)); [reflexivity|apply Ext_noSeparator].
Qed.

Lemma hexDigits_lower (c : ascii) :
  isLowerHex (hexDigit (byte c / 16)) && isLowerHex (hexDigit (byte c mod 16)) = true.
Proof. destruct c as [[] [] [] [] [] [] [] []]; vm_compute; reflexivity. Qed.

Lemma sprintf_x_hex (buf : list ascii) : all isLowerHex (sprintf_x buf) = true.
Proof.
  induction buf as [|c buf IH]; [reflexivity|].
  cbn [sprintf_x all]. rewrite IH, andb_true_r.
  apply hexDigits_lower.
Qed.

Lemma sprintf_x_length (buf : list ascii) :
  String.length (sprintf_x buf) = (2 * length buf)%nat.
Proof. induction buf as [|c buf IH]; cbn; [reflexivity|]. rewrite IH. lia. Qed.

Lemma lowerHex_noSeparator (s : string) :
  all isLowerHex s = true -> noSeparator s = true.
Proof.
  unfold noSeparator. induction s as [|c s IH]; [reflexivity|].
  cbn [all]. rewrite !andb_true_iff. intros [Hc Hs]. split; [|apply IH, Hs].
  destruct c as [[] [] [] [] [] [] [] []]; vm_compute in Hc |- *; congruence.
Qed.

End StorageFacts.

(** ** filepath.Join of a directory and a name *)

Module JoinFacts.
Import Strings Filepath FilepathJoin StorageFacts.

Lemma elements_nonempty (path : string) : elements path <> [].
Proof.
  destruct path as [|c path]; [discriminate|].
  cbn. destruct (IsPathSeparator c); [discriminate|].
  destruct (elements path); discriminate.
Qed.

Lemma elements_name (name : string) :
  noSeparator name = true -> elements name = [name].
Proof.
  unfold noSeparator. induction name as [|c name IH]; [reflexivity|].
  cbn [all elements]. rewrite andb_true_iff. intros [Hc Hn].
  destruct (IsPathSeparator c); [discriminate|]. rewrite (IH Hn). reflexivity.
Qed.

Lemma elements_join (dir name : string) :
  elements (dir +:+ "/" +:+ name) = elements dir ++ elements name.
Proof.
  induction dir as [|c dir IH].
  - cbv beta iota fix delta [String.append]. cbn [elements].
    change (IsPathSeparator "/") with true. cbv iota. reflexivity.
  - change (String c dir +:+ "/" +:+ name) with (String c (dir +:+ "/" +:+ name)).
    cbn [elements]. rewrite IH.
    destruct (IsPathSeparator c); [reflexivity|].
    pose proof (elements_nonempty dir) as Hne.
    destruct (elements dir); [congruence|reflexivity].
Qed.

Lemma joinWith_snoc (sep : string) (es : list string) (e : string) :
  es <> [] -> joinWith sep (es ++ [e]) = joinWith sep es +:+ sep +:+ e.
Proof.
  induction es as [|x es IH]; [congruence|]. intros _.
  destruct es as [|y es].
  - reflexivity.
  - change (joinWith sep ((x :: y :: es) ++ [e]))
      with (x +:+ sep +:+ joinWith sep ((y :: es) ++ [e])).
    rewrite IH by discriminate.
    change (joinWith sep (x :: y :: es)) with (x +:+ sep +:+ joinWith sep (y :: es)).
    rewrite !append_assoc. reflexivity.
Qed.

(** A stored file lies directly in the cleaned directory: its path is
    the name itself (directory [.]), the name after the root, or the
    cleaned directory, a separator and the name. *)
Definition directlyIn (dir name path : string) : Prop :=
  (Clean dir = "." /\ path = name) \/
  (Clean dir = "/" /\ path = "/" +:+ name) \/
  path = Clean dir +:+ "/" +:+ name.

Lemma Join_directlyIn (dir name : string) :
  dir <> EmptyString ->
  noSeparator name = true ->
  name <> EmptyString -> name <> "." -> name <> ".." ->
  directlyIn dir name (Join dir name).
Proof.
  intros Hd Hsep Hn0 Hn1 Hn2. unfold directlyIn, Join, Clean.
  assert (Hroot : isRooted (dir +:+ "/" +:+ name) = isRooted dir).
  { destruct dir; [congruence|reflexivity]. }
  rewrite Hroot, elements_join, (elements_name name Hsep), foldl_app.
  cbn [foldl]. set (kept := foldl (cleanStep (isRooted dir)) [] (elements dir)).
  assert (Hstep : cleanStep (isRooted dir) kept name = name :: kept).
  { unfold cleanStep.
    destruct (String.eqb_spec name ""); [contradiction|].
    destruct (String.eqb_spec name "."); [contradiction|].
    destruct (String.eqb_spec name ".."); [contradiction|]. reflexivity. }
  rewrite Hstep. unfold render.
  destruct (isRooted dir), kept as [|k kept'].
  - right; left. split; reflexivity.
  - right; right. rewrite reverse_cons.
    rewrite joinWith_snoc.
    + rewrite !append_assoc. reflexivity.
    + rewrite reverse_cons. destruct (reverse kept'); cbn; discriminate.
  - left. split; reflexivity.
  - right; right. rewrite reverse_cons.
    rewrite joinWith_snoc; [reflexivity|].
    rewrite reverse_cons. destruct (reverse kept'); cbn; discriminate.
Qed.

End JoinFacts.

(** ** SaveBookFile: the ceiling and the stored name *)

Module SaveFacts.
Import GoInt Strings Filepath Io Storage StorageFacts.

(** An environment without failure, and its sixteen random bytes. *)
Definition calm : Env :=
  {| mkdirErr := None; randErr := None;
     randByte := fun i => ascii_of_nat (17 * i);
     createErr := None; writeRoom := None |}.

Definition emptyFS : FS := {| files := ∅ |}.

(** The disk takes [n] bytes. *)
Definition roomFor (env : Env) (n : Z) : Prop :=
  match writeRoom env with
  | Some (room, _) => n <= Z.of_nat room
  | None => True
  end.

Lemma add_one (maxSize : Z) :
  0 < maxSize -> maxSize < max_int -> add maxSize 1 = maxSize + 1.
Proof.
  intros H0 H1. unfold add. apply wrap_small.
  unfold in_range, min_int, max_int in *. lia.
Qed.

Lemma add_one_le (maxSize : Z) : 0 < maxSize -> Z.max 0 (add maxSize 1) <= maxSize + 1.
Proof.
  intros H0. unfold add, wrap.
  pose proof (Z.mod_pos_bound (maxSize + 1 + 2 ^ 63) (2 ^ 64) ltac:(lia)) as Hm.
  destruct (Z.lt_ge_cases (maxSize + 1) (2 ^ 63)) as [Hlt|Hge].
  - rewrite Z.mod_small by lia. lia.
  - lia.
Qed.

(** C2. With a positive ceiling, the save reads the stream through a
    reader that delivers at most ceiling+1 of its bytes; a file that is
    saved never exceeds the ceiling; when the stream is longer than the
    ceiling (and nothing else fails), the file written is removed, so
    that no file remains at its path, and the error is the oversize one,
    which differs from the error of a failed write and is answered with
    a different message to the user. *)
Theorem SaveBookFile_size_ceiling (env : Env) (fs : FS) (baseDir originalName : string)
    (stream : Reader) (maxSize : Z) :
  0 < maxSize ->
  let fullPath := FilepathJoin.Join baseDir (storedName env originalName) in
  let reader := LimitReader stream (add maxSize 1) in
  len (data reader) <= maxSize + 1 /\
  (exists k, data reader = upto k (data stream)) /\
  (forall fs' saved,
     SaveBookFile env fs baseDir originalName stream maxSize = (fs', inl saved) ->
     SizeBytes saved <= maxSize /\
     exists content, files fs' !! fullPath = Some content /\
                     len content = SizeBytes saved) /\
  (baseDir <> EmptyString ->
   mkdirErr env = None -> randErr env = None -> createErr env = None ->
   maxSize < max_int -> maxSize < len (data stream) -> roomFor env (maxSize + 1) ->
   SaveBookFile env fs baseDir originalName stream maxSize =
     ({| files := delete fullPath (files fs) |}, inr errTooLarge) /\
   delete fullPath (files fs) !! fullPath = None) /\
  saveErrorMessage errTooLarge = msgTooLarge /\
  msgTooLarge <> msgSaveFailed /\
  (forall e, errTooLarge <> "ошибка записи файла: " +:+ e) /\
  (forall e, Contains e "слишком большой" = false ->
     saveErrorMessage ("ошибка записи файла: " +:+ e) = msgSaveFailed).
Proof.
  intros Hpos fullPath reader.
  split.
  { pose proof (LimitReader_bound stream (add maxSize 1)).
    pose proof (add_one_le maxSize Hpos). subst reader. lia. }
  split.
  { destruct (LimitReader_prefix stream (add maxSize 1)) as (k & Hk & _).
    exists k. exact Hk. }
  split.
  { intros fs' saved Hsave.
    destruct (SaveBookFile_saved_env _ _ _ _ _ _ _ _ Hsave) as (Hb & Hm & Hr & Hc).
    rewrite (SaveBookFile_created env fs baseDir originalName stream maxSize Hb Hm Hr Hc)
      in Hsave.
    cbv zeta in Hsave. fold fullPath in Hsave.
    destruct (Copy env _ fullPath _) as [[fs1 n] err] eqn:Hcopy.
    destruct (Copy_files _ _ _ _ _ _ _ Hcopy) as (content & Hfiles & Hn & _).
    destruct err as [e|]; [discriminate|].
    destruct (Z.gtb_spec maxSize 0); [|lia]. cbn [andb] in Hsave.
    destruct (Z.gtb_spec n maxSize); [discriminate|].
    injection Hsave as <- <-. cbn [SizeBytes]. split; [lia|].
    exists content. rewrite Hfiles, lookup_insert_eq. split; [reflexivity|].
    symmetry. exact Hn. }
  split.
  { intros Hb Hm Hr Hc Hmax Hlong Hroom. split; [|apply lookup_delete_eq].
    rewrite (SaveBookFile_created env fs baseDir originalName stream maxSize Hb Hm Hr Hc).
    cbv zeta. fold fullPath.
    destruct (Z.gtb_spec maxSize 0); [|lia].
    rewrite (add_one maxSize Hpos Hmax).
    rewrite (LimitReader_long stream (maxSize + 1)) by lia.
    assert (Hlen : String.length (upto (Z.to_nat (maxSize + 1)) (data stream))
                   = Z.to_nat (maxSize + 1)).
    { rewrite upto_length. unfold len in Hlong. lia. }
    assert (Hcopy : Copy env {| files := <[fullPath := EmptyString]> (files fs) |} fullPath
                      {| data := upto (Z.to_nat (maxSize + 1)) (data stream);
                         failure := None |}
                    = ({| files := <[fullPath := upto (Z.to_nat (maxSize + 1)) (data stream)]>
                                     (<[fullPath := EmptyString]> (files fs)) |},
                       maxSize + 1, None)).
    { unfold Copy, roomFor in *. cbn [data failure files]. unfold len. rewrite Hlen.
      destruct (writeRoom env) as [[room e]|].
      - destruct (Nat.ltb_spec room (Z.to_nat (maxSize + 1))); [lia|].
        f_equal. f_equal. lia.
      - f_equal. f_equal. lia. }
    rewrite Hcopy. cbn [andb].
    destruct (Z.gtb_spec (maxSize + 1) maxSize); [|lia].
    unfold Remove. cbn [files]. rewrite !delete_insert_eq. reflexivity. }
  split; [vm_compute; reflexivity|].
  split; [discriminate|].
  split; [intros e; discriminate|].
  exact saveErrorMessage_write_error.
Qed.

(** A stream of six bytes under a ceiling of five. *)
Lemma SaveBookFile_size_ceiling_witness :
  SaveBookFile calm emptyFS "storage" "book.fb2"
    {| data := "abcdef"; failure := None |} 5 =
    ({| files := delete (FilepathJoin.Join "storage" (storedName calm "book.fb2")) ∅ |},
     inr errTooLarge).
Proof.
  destruct (SaveBookFile_size_ceiling calm emptyFS "storage" "book.fb2"
              {| data := "abcdef"; failure := None |} 5)
    as (_ & _ & _ & H & _).
  - reflexivity.
  - destruct H as [H _]; [discriminate|reflexivity|reflexivity|reflexivity| | |exact I|exact H].
    + vm_compute. reflexivity.
    + vm_compute. reflexivity.
Defined.

(** The download of the bot: a stream of 50 MiB and one byte or more is
    refused with the oversize message, and the storage holds no file at
    the path that was written. *)
Lemma downloadAndSend_oversize (env : Actions.DownloadEnv) (w : Actions.World)
    (chatID userID : Z) (username bookID formatPath : string)
    (stream : Reader) (filename : string) :
  Actions.downloaded env = inl (stream, filename) ->
  Actions.storageDir w <> EmptyString ->
  mkdirErr (Actions.saveEnv env) = None -> randErr (Actions.saveEnv env) = None ->
  createErr (Actions.saveEnv env) = None ->
  roomFor (Actions.saveEnv env) (maxFileSize + 1) ->
  maxFileSize + 1 <= len (data stream) ->
  let fullPath :=
    FilepathJoin.Join (Actions.storageDir w) (storedName (Actions.saveEnv env) filename) in
  let '(w', events) :=
    Actions.downloadAndSend env w chatID userID username bookID formatPath in
  files (Actions.storage w') = delete fullPath (files (Actions.storage w)) /\
  files (Actions.storage w') !! fullPath = None /\
  Actions.store w' = Actions.store w /\
  last events = Some (Actions.SendText chatID msgTooLarge).
Proof.
  intros Hd Hb Hm Hr Hc Hroom Hlen fullPath.
  destruct (SaveBookFile_size_ceiling (Actions.saveEnv env) (Actions.storage w)
              (Actions.storageDir w) filename stream maxFileSize)
    as (_ & _ & _ & H & Hmsg & _); [reflexivity|].
  destruct H as [Hsave Hgone]; try assumption.
  { vm_compute. reflexivity. }
  { lia. }
  unfold Actions.downloadAndSend. rewrite Hd, Hsave.
  cbn [Actions.storage Actions.store files]. fold fullPath.
  split; [reflexivity|]. split; [exact Hgone|]. split; [reflexivity|].
  rewrite Hmsg, !app_assoc. apply last_snoc.
Qed.

(** C10. Whatever name the catalog suggests, the relative path of a
    saved file is 32 lowercase hexadecimal digits followed by the
    extension of the suggested name, or by ".bin" when it has none; it
    holds no path separator, and the file written is the one of that
    name directly in the (cleaned) storage directory, the only path of
    the storage that changes. *)
Theorem SaveBookFile_relative_path (env : Env) (fs : FS) (baseDir originalName : string)
    (stream : Reader) (maxSize : Z) (fs' : FS) (saved : SavedFile) :
  SaveBookFile env fs baseDir originalName stream maxSize = (fs', inl saved) ->
  exists name,
    RelativePath saved =
      name +:+ (if isEmpty (Ext originalName) then ".bin" else Ext originalName) /\
    String.length name = 32%nat /\
    all isLowerHex name = true /\
    noSeparator (Ext originalName) = true /\
    noSeparator (RelativePath saved) = true /\
    JoinFacts.directlyIn baseDir (RelativePath saved)
      (FilepathJoin.Join baseDir (RelativePath saved)) /\
    exists content,
      files fs' = <[FilepathJoin.Join baseDir (RelativePath saved) := content]> (files fs).
Proof.
  intros Hsave.
  destruct (SaveBookFile_saved_env _ _ _ _ _ _ _ _ Hsave) as (Hb & Hm & Hr & Hc).
  rewrite (SaveBookFile_created env fs baseDir originalName stream maxSize Hb Hm Hr Hc)
    in Hsave.
  cbv zeta in Hsave.
  destruct (Copy env _ _ _) as [[fs1 n] err] eqn:Hcopy.
  destruct (Copy_files _ _ _ _ _ _ _ Hcopy) as (content & Hfiles & _ & _).
  destruct err as [e|]; [discriminate|].
  destruct ((maxSize >? 0) && (n >? maxSize)); [discriminate|].
  injection Hsave as <- <-. cbn [RelativePath].
  set (name := sprintf_x (randByte env <$> seq 0 16)).
  assert (Hhex : all isLowerHex name = true) by apply sprintf_x_hex.
  assert (Hlen : String.length name = 32%nat).
  { subst name. rewrite sprintf_x_length, length_fmap, length_seq. reflexivity. }
  assert (Hnosep : noSeparator (storedName env originalName) = true).
  { unfold storedName, noSeparator. rewrite all_append. fold name.
    apply andb_true_iff. split.
    - apply lowerHex_noSeparator, Hhex.
    - apply storedExt_noSeparator. }
  exists name. split; [reflexivity|]. split; [exact Hlen|]. split; [exact Hhex|].
  split; [apply Ext_noSeparator|]. split; [exact Hnosep|].
  split.
  - destruct name as [|c name'] eqn:Hname; [discriminate|].
    cbn [all] in Hhex. apply andb_true_iff in Hhex as [Hc0 _].
    apply JoinFacts.Join_directlyIn; try assumption;
      unfold storedName; fold name; rewrite Hname, append_cons;
      try discriminate;
      intros Heq; injection Heq as -> _; vm_compute in Hc0; discriminate.
  - exists content. rewrite Hfiles. cbn [files]. apply insert_insert_eq.
Qed.

(** A suggested name that climbs out of the directory. *)
Lemma SaveBookFile_relative_path_witness :
  exists name,
    String.length name = 32%nat /\ all isLowerHex name = true /\
    noSeparator (name +:+ ".bin") = true /\
    fst (SaveBookFile calm emptyFS "storage/books" "../../etc/passwd"
           {| data := "abc"; failure := None |} maxFileSize) =
      {| files := {[ "storage/books/" +:+ name +:+ ".bin" := "abc" ]} |}.
Proof.
  destruct (SaveBookFile calm emptyFS "storage/books" "../../etc/passwd"
              {| data := "abc"; failure := None |} maxFileSize)
    as [fs' [saved|e]] eqn:Hsave; [|vm_compute in Hsave; discriminate].
  destruct (SaveBookFile_relative_path _ _ _ _ _ _ _ _ Hsave)
    as (name & Hrel & Hlen & Hhex & _ & Hnosep & _ & _).
  exists name. split; [exact Hlen|]. split; [exact Hhex|].
  assert (Hext : Ext "../../etc/passwd" = EmptyString) by reflexivity.
  rewrite Hext in Hrel. cbn [isEmpty] in Hrel.
  split; [rewrite <- Hrel; exact Hnosep|].
  cbn [fst].
  assert (Hval : SaveBookFile calm emptyFS "storage/books" "../../etc/passwd"
              {| data := "abc"; failure := None |} maxFileSize
           = ({| files := {[ "storage/books/" +:+ RelativePath saved := "abc" ]} |},
              inl saved)).
  { rewrite Hsave. vm_compute in Hsave. injection Hsave as <- <-. vm_compute. reflexivity. }
  rewrite Hsave in Hval. injection Hval as ->. rewrite Hrel. reflexivity.
Defined.

(** The stored names of some suggested names, by evaluation. *)
Example SaveBookFile_stored_names :
  storedName calm "../../etc/passwd" = "00112233445566778899aabbccddeeff.bin" /\
  storedName calm "Book.FB2.zip" = "00112233445566778899aabbccddeeff.zip" /\
  storedName calm "a.b/c" = "00112233445566778899aabbccddeeff.bin" /\
  storedName calm ".." = "00112233445566778899aabbccddeeff." /\
  FilepathJoin.Join "./storage//books/" (storedName calm "x.epub") =
    "storage/books/00112233445566778899aabbccddeeff.epub".
Proof. repeat split; vm_compute; reflexivity. Qed.

End SaveFacts.

(** ** What the backtracking search does on a text of a known shape *)

Module RegexpFacts.
Import Strings Regexp StorageFacts.

(** The state after the bytes of [a] have been read from the head of
    the rest. *)
Fixpoint consume (a : string) (st : state) : state :=
  match a with
  | EmptyString => st
  | String c a' =>
      consume a' {| pos := S (pos st); prev := Some c;
                    rest := match rest st with
                            | String _ r => r
                            | EmptyString => EmptyString
                            end;
                    caps := caps st |}
  end.

Lemma consume_rest (a r : string) (st : state) :
  rest st = a +:+ r -> rest (consume a st) = r.
Proof.
  revert st. induction a as [|c a IH]; intros st H; [exact H|].
  cbn [consume]. apply IH. cbn [rest]. rewrite H. reflexivity.
Qed.

Lemma consume_pos (a : string) (st : state) :
  pos (consume a st) = (pos st + String.length a)%nat.
Proof.
  revert st. induction a as [|c a IH]; intros st; cbn [consume String.length]; [lia|].
  rewrite IH. cbn [pos]. lia.
Qed.

Lemma consume_caps (a : string) (st : state) : caps (consume a st) = caps st.
Proof.
  revert st. induction a as [|c a IH]; intros st; [reflexivity|].
  cbn [consume]. rewrite IH. reflexivity.
Qed.

Lemma lastByte_cons (c : ascii) (s : string) :
  exists d, lastByte (String c s) = Some d.
Proof.
  revert c. induction s as [|e s IH]; intros c; [exists c; reflexivity|].
  destruct (IH e) as (d & Hd). exists d. exact Hd.
Qed.

Lemma consume_prev (a : string) (st : state) :
  prev (consume a st) = match lastByte a with Some c => Some c | None => prev st end.
Proof.
  revert st. induction a as [|c a IH]; intros st; [reflexivity|].
  cbn [consume]. rewrite IH. cbn [prev].
  destruct a as [|e a]; [reflexivity|].
  destruct (lastByte_cons e a) as (d & Hd).
  change (lastByte (String c (String e a))) with (lastByte (String e a)).
  rewrite Hd. reflexivity.
Qed.

Lemma consume_append (a b : string) (st : state) :
  consume (a +:+ b) st = consume b (consume a st).
Proof.
  revert st. induction a as [|c a IH]; intros st; [reflexivity|].
  rewrite append_cons. cbn [consume]. apply IH.
Qed.

Lemma run_Cat (r1 r2 : re) (st : state) (k : state -> option state) :
  run (Cat r1 r2) st k = run r1 st (fun st1 => run r2 st1 k).
Proof. reflexivity. Qed.

Lemma run_Group (i : nat) (r : re) (st : state) (k : state -> option state) :
  run (Group i r) st k =
    run r st (fun st1 =>
      k {| pos := pos st1; prev := prev st1; rest := rest st1;
           caps := (i, (pos st, pos st1)) :: caps st1 |}).
Proof. reflexivity. Qed.

Lemma run_Alt (r1 r2 : re) (st : state) (k : state -> option state) :
  run (Alt r1 r2) st k =
    match run r1 st k with Some res => Some res | None => run r2 st k end.
Proof. reflexivity. Qed.

Lemma run_WordBoundary (st : state) (k : state -> option state) :
  run WordBoundary st k =
    if xorb (isWord (prev st)) (isWord (next st)) then k st else None.
Proof. reflexivity. Qed.

Lemma run_EndText (st : state) (k : state -> option state) :
  rest st = EmptyString -> run EndText st k = k st.
Proof. intros H. cbn [run]. rewrite H. reflexivity. Qed.

Lemma run_Byte (p : ascii -> bool) (st : state) (k : state -> option state)
    (c : ascii) (r : string) :
  rest st = String c r -> p c = true ->
  run (Byte p) st k = k (consume (String c EmptyString) st).
Proof.
  intros Hr Hp. cbn [run consume]. rewrite Hr, Hp. reflexivity.
Qed.

Lemma run_Byte_fails (p : ascii -> bool) (st : state) (k : state -> option state) :
  match rest st with String c _ => p c = false | EmptyString => True end ->
  run (Byte p) st k = None.
Proof.
  intros H. cbn [run]. destruct (rest st) as [|c r]; [reflexivity|].
  rewrite H. reflexivity.
Qed.

Lemma run_Lit (l r : string) (st : state) (k : state -> option state) :
  rest st = l +:+ r -> run (Lit l) st k = k (consume l st).
Proof.
  revert st. induction l as [|c l IH]; intros st Hr; [reflexivity|].
  rewrite append_cons in Hr. cbn [Lit run]. rewrite Hr, Ascii.eqb_refl.
  rewrite IH by reflexivity. cbn [consume]. rewrite Hr. reflexivity.
Qed.

(** One turn of the loop of a starred class. *)
Lemma run_Star_Byte (p : ascii -> bool) (st : state) (k : state -> option state) :
  run (Star (Byte p)) st k =
    match rest st with
    | String c r =>
        if p c then
          match run (Star (Byte p)) (consume (String c EmptyString) st) k with
          | Some res => Some res
          | None => k st
          end
        else k st
    | EmptyString => k st
    end.
Proof.
  cbn [run]. destruct (rest st) as [|c r] eqn:Hr; [reflexivity|].
  cbn [String.length]. rewrite Hr.
  destruct (p c); [|reflexivity].
  cbn [pos consume rest]. rewrite Hr.
  destruct (Nat.ltb_spec (pos st) (S (pos st))); [|lia]. reflexivity.
Qed.

(** The head of a text is not in the class [p] (or the text is empty). *)
Definition stopsAt (p : ascii -> bool) (r : string) : Prop :=
  match r with String c _ => p c = false | EmptyString => True end.

(** A starred class takes the whole run of its bytes when what follows
    then matches. *)
Lemma run_Star_greedy (p : ascii -> bool) (a r : string) (st res : state)
    (k : state -> option state) :
  all p a = true -> rest st = a +:+ r -> stopsAt p r ->
  k (consume a st) = Some res ->
  run (Star (Byte p)) st k = Some res.
Proof.
  revert st. induction a as [|c a IH]; intros st Ha Hr Hstop Hk.
  - rewrite run_Star_Byte. change (rest st = r) in Hr. rewrite Hr.
    unfold stopsAt in Hstop.
    destruct r as [|d r']; [exact Hk|]. rewrite Hstop. exact Hk.
  - rewrite run_Star_Byte. rewrite append_cons in Hr. rewrite Hr.
    cbn [all] in Ha. apply andb_true_iff in Ha as [Hc Ha]. rewrite Hc.
    rewrite (IH (consume (String c EmptyString) st)); [reflexivity|exact Ha| |exact Hstop|exact Hk].
    cbn [consume rest]. rewrite Hr. reflexivity.
Qed.

(** Nothing matches when what follows fails on every rest of the text
    that keeps a property of the text closed under taking rests. *)
Lemma run_fails (P : string -> Prop) (r : re) :
  (forall c s, P (String c s) -> P s) ->
  forall (st : state) (k : state -> option state),
    P (rest st) ->
    (forall st', P (rest st') -> k st' = None) ->
    run r st k = None.
Proof.
  intros Hclosed. induction r as [|p|r1 IH1 r2 IH2|r1 IH1 r2 IH2|r1 IH1|i r1 IH1| |];
    intros st k HP Hk; cbn [run].
  - apply Hk, HP.
  - destruct (rest st) as [|c s] eqn:Hr; [reflexivity|].
    destruct (p c); [|reflexivity]. apply Hk. cbn [rest]. apply (Hclosed c s), HP.
  - apply IH1; [exact HP|]. intros st1 H1. apply IH2; assumption.
  - rewrite IH1 by assumption. apply IH2; assumption.
  - generalize (String.length (rest st)). intros n. revert st HP.
    induction n as [|n IHn]; intros st HP; [apply Hk, HP|].
    rewrite IH1; [apply Hk, HP|exact HP|].
    intros st1 H1. destruct (pos st <? pos st1)%nat; [|reflexivity].
    apply IHn, H1.
  - apply IH1; [exact HP|]. intros st1 H1. apply Hk. exact H1.
  - destruct (xorb _ _); [apply Hk, HP|reflexivity].
  - destruct (rest st) eqn:Hr; [|reflexivity]. apply Hk. rewrite Hr. exact HP.
Qed.

Lemma searchFrom_none (P : string -> Prop) (r : re) :
  (forall c s, P (String c s) -> P s) ->
  (forall st, P (rest st) -> run r st Some = None) ->
  forall (s : string) (i : nat) (pv : option ascii),
    P s -> searchFrom r i pv s = None.
Proof.
  intros Hclosed Hrun s. induction s as [|c s IH]; intros i pv HP; cbn [searchFrom].
  - rewrite Hrun by exact HP. reflexivity.
  - rewrite Hrun by exact HP. apply IH, (Hclosed c s), HP.
Qed.

(** The search passes over a prefix at no place of which a match
    starts. *)
Lemma searchFrom_skip (r : re) (pre s : string) (i : nat) (pv : option ascii) :
  (forall a b c j q, pre = a +:+ String c b ->
     run r {| pos := j; prev := q; rest := String c b +:+ s; caps := [] |} Some = None) ->
  searchFrom r i pv (pre +:+ s) =
    searchFrom r (i + String.length pre)
      (match lastByte pre with Some c => Some c | None => pv end) s.
Proof.
  revert i pv. induction pre as [|c pre IH]; intros i pv Hfail.
  - cbn [String.length lastByte]. rewrite Nat.add_0_r. reflexivity.
  - rewrite append_cons. cbn [searchFrom].
    pose proof (Hfail EmptyString pre c i pv eq_refl) as H0.
    rewrite append_cons in H0. rewrite H0.
    rewrite IH.
    + cbn [String.length]. rewrite Nat.add_succ_r.
      destruct pre as [|e pre']; [reflexivity|].
      destruct (lastByte_cons e pre') as (d & Hd).
      change (lastByte (String c (String e pre'))) with (lastByte (String e pre')).
      rewrite Hd. reflexivity.
    + intros a b d j q Heq. apply (Hfail (String c a) b d j q).
      rewrite Heq. reflexivity.
Qed.

Lemma from_append (a b : string) : from (String.length a) (a +:+ b) = b.
Proof. induction a as [|c a IH]; [reflexivity|exact IH]. Qed.

Lemma upto_append (a b : string) : upto (String.length a) (a +:+ b) = a.
Proof.
  induction a as [|c a IH]; [destruct b; reflexivity|].
  rewrite append_cons. cbn [String.length upto]. rewrite IH. reflexivity.
Qed.

Lemma all_false_in (p : ascii -> bool) (a b : string) (c : ascii) :
  all (fun x => negb (p x)) (a +:+ String c b) = true -> p c = false.
Proof.
  rewrite all_append. cbn [all]. rewrite !andb_true_iff, negb_true_iff.
  intros (_ & H & _). exact H.
Qed.

End RegexpFacts.

(** ** The text of a format button *)

Module FormatFacts.
Import Strings Regexp Models Tgbotapi Details StorageFacts RegexpFacts.

(** No byte of the text is [c]. *)
Definition without (c : ascii) (s : string) : bool :=
  all (fun x => negb (Ascii.eqb x c)) s.

Lemma without_tail (c d : ascii) (s : string) :
  without c (String d s) = true -> without c s = true.
Proof. unfold without. cbn [all]. rewrite andb_true_iff. intros [_ H]. exact H. Qed.

Lemma append_nil_r (s : string) : s +:+ EmptyString = s.
Proof. induction s as [|c s IH]; [reflexivity|]. rewrite append_cons, IH. reflexivity. Qed.

Lemma upto_all (s : string) : upto (String.length s) s = s.
Proof.
  pose proof (upto_append s EmptyString) as H. rewrite append_nil_r in H. exact H.
Qed.

(** *** The parenthesized suffix *)

(** What the search of [sizeInParensRe] returns from an opening
    parenthesis followed by a group without closing parenthesis, the
    closing one, and white space up to the end. *)
Lemma sizeInParens_at (inner ws : string) (st : state) :
  inner <> EmptyString ->
  all notRightParen inner = true ->
  all isSpaceByte ws = true ->
  rest st = "(" +:+ inner +:+ ")" +:+ ws ->
  exists res,
    run sizeInParensRe st Some = Some res /\
    pos res = (pos st + String.length ("(" +:+ inner +:+ ")" +:+ ws))%nat /\
    caps res = (1%nat, (S (pos st), (S (pos st) + String.length inner)%nat)) :: caps st.
Proof.
  intros Hne Hin Hws Hrest.
  destruct inner as [|c inner]; [congruence|].
  cbn [all] in Hin. apply andb_true_iff in Hin as [Hc Hin].
  set (st1 := consume "(" st).
  assert (Hr1 : rest st1 = String c inner +:+ ")" +:+ ws).
  { subst st1. apply consume_rest. exact Hrest. }
  set (st2 := consume (String c EmptyString) st1).
  assert (Hr2 : rest st2 = inner +:+ ")" +:+ ws).
  { subst st2. apply (consume_rest (String c EmptyString)). exact Hr1. }
  set (st3 := consume inner st2).
  assert (Hr3 : rest st3 = ")" +:+ ws).
  { subst st3. apply consume_rest. exact Hr2. }
  set (st3' := {| pos := pos st3; prev := prev st3; rest := rest st3;
                  caps := (1%nat, (pos st1, pos st3)) :: caps st3 |}).
  set (st4 := consume ")" st3').
  assert (Hr4 : rest st4 = ws +:+ EmptyString).
  { subst st4. apply consume_rest. subst st3'. cbn [rest]. rewrite Hr3, append_nil_r.
    reflexivity. }
  set (st5 := consume ws st4).
  assert (Hr5 : rest st5 = EmptyString).
  { subst st5. apply consume_rest. exact Hr4. }
  exists st5. split.
  - unfold sizeInParensRe, Plus. cbn [Cats].
    rewrite run_Cat, (run_Lit "(" _ st _ Hrest). fold st1.
    rewrite run_Cat, run_Group, run_Cat.
    rewrite (run_Byte notRightParen st1 _ c _ Hr1 Hc). fold st2.
    apply (run_Star_greedy notRightParen inner (")" +:+ ws));
      [exact Hin|exact Hr2|reflexivity|].
    fold st3. fold st3'.
    rewrite run_Cat, (run_Lit ")" ws st3') by (subst st3'; exact Hr3).
    fold st4. rewrite run_Cat.
    apply (run_Star_greedy isSpaceByte ws EmptyString); [exact Hws|exact Hr4|exact I|].
    fold st5. apply run_EndText. exact Hr5.
  - subst st5 st4 st3' st3 st2 st1. split.
    + repeat (rewrite consume_pos; cbn [pos]).
      change ("(" +:+ String c inner +:+ ")" +:+ ws)
        with (String "(" (String c (inner +:+ String ")" ws))).
      cbn [String.length]. rewrite length_append. cbn [String.length]. lia.
    + repeat (rewrite consume_caps; cbn [caps]).
      repeat (rewrite consume_pos; cbn [pos]).
      cbn [String.length]. f_equal. f_equal. f_equal; lia.
Qed.

Lemma sizeInParens_head (st : state) :
  match rest st with
  | String c _ => Ascii.eqb c "(" = false
  | EmptyString => True
  end ->
  run sizeInParensRe st Some = None.
Proof.
  intros H. unfold sizeInParensRe. cbn [Cats Lit run].
  destruct (rest st) as [|c r]; [reflexivity|].
  rewrite Ascii.eqb_sym, H. reflexivity.
Qed.

(** A label that ends in [(inner)] and white space, with no opening
    parenthesis before: the group found is [inner]. *)
Lemma sizeInParens_suffix (pre inner ws : string) :
  without "(" pre = true ->
  inner <> EmptyString ->
  without ")" inner = true ->
  all isSpaceByte ws = true ->
  FindStringSubmatch sizeInParensRe (pre +:+ "(" +:+ inner +:+ ")" +:+ ws) =
    Some ["(" +:+ inner +:+ ")" +:+ ws; inner].
Proof.
  intros Hpre Hne Hin Hws. unfold FindStringSubmatch.
  rewrite searchFrom_skip.
  - cbn [Nat.add].
    assert (Hstep : forall i pv s,
              searchFrom sizeInParensRe i pv s =
                match run sizeInParensRe {| pos := i; prev := pv; rest := s; caps := [] |} Some with
                | Some st => Some (i, st)
                | None => match s with
                          | EmptyString => None
                          | String c s' => searchFrom sizeInParensRe (S i) (Some c) s'
                          end
                end).
    { intros i pv s. destruct s; reflexivity. }
    rewrite Hstep.
    match goal with |- context [run sizeInParensRe ?x Some] => set (st := x) end.
    destruct (sizeInParens_at inner ws st Hne Hin Hws eq_refl) as (res & Hrun & Hpos & Hcaps).
    rewrite Hrun. f_equal.
    rewrite Hpos. subst st. cbn [pos].
    replace (String.length pre + String.length ("(" +:+ inner +:+ ")" +:+ ws)
             - String.length pre)%nat
      with (String.length ("(" +:+ inner +:+ ")" +:+ ws)) by lia.
    rewrite from_append, upto_all. f_equal.
    change (groups sizeInParensRe) with 1%nat. cbn [seq fmap list_fmap].
    unfold capture. rewrite Hcaps. cbn [List.find fst Nat.eqb caps pos].
    replace (S (String.length pre) + String.length inner - S (String.length pre))%nat
      with (String.length inner) by lia.
    change (pre +:+ "(" +:+ inner +:+ ")" +:+ ws)
      with (pre +:+ String "(" (inner +:+ ")" +:+ ws)).
    assert (Hfrom : from (S (String.length pre)) (pre +:+ String "(" (inner +:+ ")" +:+ ws))
                    = inner +:+ ")" +:+ ws).
    { clear. induction pre as [|c pre IH]; [reflexivity|exact IH]. }
    rewrite Hfrom, upto_append. reflexivity.
  - intros a b c j q Heq. apply sizeInParens_head. cbn [rest].
    rewrite append_cons. subst pre. unfold without in Hpre.
    apply (all_false_in (fun x => Ascii.eqb x "(") a b c). exact Hpre.
Qed.

(** A label without closing parenthesis has no parenthesized suffix. *)
Lemma sizeInParens_none (s : string) :
  without ")" s = true -> FindStringSubmatch sizeInParensRe s = None.
Proof.
  intros H. unfold FindStringSubmatch.
  rewrite (searchFrom_none (fun s => without ")" s = true) sizeInParensRe);
    [reflexivity| |  |exact H].
  - intros c t. apply without_tail.
  - intros st HP. unfold sizeInParensRe. cbn [Cats].
    change (run (Cat (Lit "(") (Cat (Group 1 (Plus (Byte notRightParen)))
                 (Cat (Lit ")") (Cat (Star space) EndText)))) st Some)
      with (run (Cat (Lit "(") (Group 1 (Plus (Byte notRightParen)))) st
              (fun st2 => run (Cat (Lit ")") (Cat (Star space) EndText)) st2 Some)).
    apply (run_fails (fun s => without ")" s = true)); [|exact HP|].
    + intros c t. apply without_tail.
    + intros st' HP'. cbn [Lit run].
      destruct (rest st') as [|c r]; [reflexivity|].
      unfold without in HP'. cbn [all] in HP'.
      apply andb_true_iff in HP' as [Hc _]. apply negb_true_iff in Hc.
      rewrite Ascii.eqb_sym, Hc. reflexivity.
Qed.

(** *** The size token *)

(** A text in which each letter may be in either case. *)
Fixpoint variants (s : string) : list string :=
  match s with
  | EmptyString => [EmptyString]
  | String c s' =>
      (String c <$> variants s') ++ (String (upperByte c) <$> variants s')
  end.

(** The units in Latin letters, in every mix of cases. *)
Definition latinUnits : list string :=
  variants "kb" ++ variants "mb" ++ variants "gb" ++
  variants "kib" ++ variants "mib" ++ variants "gib".

(** The head of a text is not an ASCII word byte (or the text is
    empty). *)
Definition headNotWord (s : string) : Prop :=
  match s with String c _ => isWordByte c = false | EmptyString => True end.

Ltac each_unit H :=
  vm_compute in H;
  repeat (destruct H as [H|H]; [subst|]); [..|contradiction].

Lemma sizeUnits_word (unit post : string) (st : state) :
  In unit latinUnits ->
  rest st = unit +:+ post ->
  headNotWord post ->
  run (Cat sizeUnits WordBoundary) st Some = Some (consume unit st).
Proof.
  intros Hin Hrest Hpost. destruct st as [p pv r cs]. cbn [rest] in Hrest. subst r.
  unfold sizeUnits, k_, b_, m_, g_, i_, cyr_k, cyr_b, cyr_m, cyr_g, letter.
  each_unit Hin;
    (destruct post as [|d post];
     [vm_compute; reflexivity
     |unfold headNotWord in Hpost;
      cbv beta iota fix delta [String.append];
      cbn -[isWordByte]; unfold next; cbn -[isWordByte]; rewrite Hpost; reflexivity]).
Qed.

Lemma unit_stops (p : ascii -> bool) (unit post : string) :
  In unit latinUnits ->
  (forall c, isLower c || isUpper c = true -> p c = false) ->
  stopsAt p (unit +:+ post).
Proof.
  intros Hin Hp. each_unit Hin; apply Hp; reflexivity.
Qed.

Lemma letter_not_digit c : isLower c || isUpper c = true -> isDigit c = false.
Proof. destruct c as [[] [] [] [] [] [] [] []]; vm_compute; congruence. Qed.

Lemma letter_not_dotComma c : isLower c || isUpper c = true -> isDotComma c = false.
Proof. destruct c as [[] [] [] [] [] [] [] []]; vm_compute; congruence. Qed.

Lemma letter_not_space c : isLower c || isUpper c = true -> isSpaceByte c = false.
Proof. destruct c as [[] [] [] [] [] [] [] []]; vm_compute; congruence. Qed.

Lemma space_not_digit c : isSpaceByte c = true -> isDigit c = false.
Proof. destruct c as [[] [] [] [] [] [] [] []]; vm_compute; congruence. Qed.

Lemma space_not_dotComma c : isSpaceByte c = true -> isDotComma c = false.
Proof. destruct c as [[] [] [] [] [] [] [] []]; vm_compute; congruence. Qed.

Lemma dotComma_not_digit c : isDotComma c = true -> isDigit c = false.
Proof. destruct c as [[] [] [] [] [] [] [] []]; vm_compute; congruence. Qed.

Lemma digit_word c : isDigit c = true -> isWordByte c = true.
Proof. intros H. unfold isWordByte. rewrite H. reflexivity. Qed.

Lemma spaces_stop (p : ascii -> bool) (sp r : string) :
  (forall c, isSpaceByte c = true -> p c = false) ->
  all isSpaceByte sp = true -> stopsAt p r -> stopsAt p (sp +:+ r).
Proof.
  intros Hp Hsp Hr. destruct sp as [|c sp]; [exact Hr|].
  cbn [all] in Hsp. apply andb_true_iff in Hsp as [Hc _]. apply Hp, Hc.
Qed.

(** The fraction of a size: nothing, or a dot or a comma and digits. *)
Definition isFraction (frac : string) : Prop :=
  frac = EmptyString \/
  exists sep d ds, frac = String sep (String d ds) /\ isDotComma sep = true /\
                   isDigit d = true /\ all isDigit ds = true.

(** What the search of [sizeLooseRe] returns from a place that is not
    after a word byte, on digits, a fraction, white space and a unit in
    Latin letters that no word byte follows. *)
Lemma sizeLoose_at (d : ascii) (ds frac sp unit post : string) (st : state) :
  isDigit d = true -> all isDigit ds = true ->
  isFraction frac ->
  all isSpaceByte sp = true ->
  In unit latinUnits ->
  headNotWord post ->
  isWord (prev st) = false ->
  rest st = String d ds +:+ frac +:+ sp +:+ unit +:+ post ->
  run sizeLooseRe st Some =
    Some (consume unit (consume sp (consume frac (consume (String d ds) st)))).
Proof.
  intros Hd Hds Hfrac Hsp Hunit Hpost Hprev Hrest.
  unfold sizeLooseRe, Plus, Quest, digit, space. cbn [Cats].
  rewrite run_Cat, run_WordBoundary, Hprev.
  unfold next. rewrite Hrest, append_cons. cbn [isWord]. rewrite (digit_word d Hd).
  cbn [xorb]. rewrite run_Cat, run_Cat.
  rewrite append_cons in Hrest.
  rewrite (run_Byte isDigit st _ d _ Hrest Hd).
  set (st1 := consume (String d EmptyString) st).
  assert (Hr1 : rest st1 = ds +:+ frac +:+ sp +:+ unit +:+ post).
  { subst st1. apply (consume_rest (String d EmptyString)). exact Hrest. }
  assert (Hstop_su : forall p,
            (forall c, isSpaceByte c = true -> p c = false) ->
            (forall c, isLower c || isUpper c = true -> p c = false) ->
            stopsAt p (sp +:+ unit +:+ post)).
  { intros p H1 H2. apply spaces_stop; [exact H1|exact Hsp|].
    apply unit_stops; assumption. }
  set (st2 := consume ds st1).
  assert (Hr2 : rest st2 = frac +:+ sp +:+ unit +:+ post).
  { subst st2. apply consume_rest. exact Hr1. }
  set (st3 := consume frac st2).
  assert (Hr3 : rest st3 = sp +:+ unit +:+ post).
  { subst st3. apply consume_rest. exact Hr2. }
  set (st4 := consume sp st3).
  assert (Hr4 : rest st4 = unit +:+ post).
  { subst st4. apply consume_rest. exact Hr3. }
  assert (Htail : run (Cat (Star (Byte isSpaceByte)) (Cat sizeUnits WordBoundary)) st3 Some
                  = Some (consume unit st4)).
  { rewrite run_Cat.
    apply (run_Star_greedy isSpaceByte sp (unit +:+ post)); [exact Hsp|exact Hr3| |].
    - apply unit_stops; [exact Hunit|exact letter_not_space].
    - fold st4. apply (sizeUnits_word unit post); assumption. }
  apply (run_Star_greedy isDigit ds (frac +:+ sp +:+ unit +:+ post));
    [exact Hds|exact Hr1| |].
  { destruct Hfrac as [->|(sep & e & es & -> & Hsep & _)].
    - apply Hstop_su; [exact space_not_digit|exact letter_not_digit].
    - apply dotComma_not_digit, Hsep. }
  fold st2. rewrite run_Cat, run_Alt.
  destruct Hfrac as [->|(sep & e & es & Hf & Hsep & He & Hes)].
  - assert (Hnone : forall k, run (Cat (Byte isDotComma)
                                   (Cat (Byte isDigit) (Star (Byte isDigit)))) st2 k = None).
    { intros k. rewrite run_Cat. apply run_Byte_fails. rewrite Hr2.
      pose proof (Hstop_su isDotComma space_not_dotComma letter_not_dotComma) as Hs.
      exact Hs. }
    rewrite Hnone. exact Htail.
  - assert (Hsome : run (Cat (Byte isDotComma) (Cat (Byte isDigit) (Star (Byte isDigit)))) st2
                      (fun st0 => run (Cat (Star (Byte isSpaceByte))
                                         (Cat sizeUnits WordBoundary)) st0 Some)
                    = Some (consume unit st4)).
    { rewrite Hf in Hr2. rewrite !append_cons in Hr2.
      rewrite run_Cat, (run_Byte isDotComma st2 _ sep _ Hr2 Hsep).
      set (sa := consume (String sep EmptyString) st2).
      assert (Hra : rest sa = String e (es +:+ sp +:+ unit +:+ post)).
      { subst sa. apply (consume_rest (String sep EmptyString)). exact Hr2. }
      rewrite run_Cat, (run_Byte isDigit sa _ e _ Hra He).
      set (sb := consume (String e EmptyString) sa).
      assert (Hrb : rest sb = es +:+ sp +:+ unit +:+ post).
      { subst sb. apply (consume_rest (String e EmptyString)). exact Hra. }
      apply (run_Star_greedy isDigit es (sp +:+ unit +:+ post)); [exact Hes|exact Hrb| |].
      - apply Hstop_su; [exact space_not_digit|exact letter_not_digit].
      - assert (Heq : consume es sb = st3).
        { subst st3 sb sa. rewrite Hf. reflexivity. }
        rewrite Heq. exact Htail. }
    rewrite Hsome. reflexivity.
Qed.

Lemma sizeLoose_head (st : state) :
  match rest st with String c _ => isDigit c = false | EmptyString => True end ->
  run sizeLooseRe st Some = None.
Proof.
  intros H. unfold sizeLooseRe, Plus, digit. cbn [Cats].
  rewrite run_Cat, run_WordBoundary.
  destruct (xorb _ _); [|reflexivity].
  rewrite !run_Cat. apply run_Byte_fails. exact H.
Qed.

(** A label without digit holds no size token. *)
Lemma sizeLoose_none (s : string) :
  all (fun c => negb (isDigit c)) s = true ->
  FindStringSubmatch sizeLooseRe s = None.
Proof.
  intros H. unfold FindStringSubmatch.
  rewrite (searchFrom_none (fun s => all (fun c => negb (isDigit c)) s = true) sizeLooseRe);
    [reflexivity| | |exact H].
  - intros c t. cbn [all]. rewrite andb_true_iff. intros [_ Ht]. exact Ht.
  - intros st HP. apply sizeLoose_head.
    destruct (rest st) as [|c r]; [exact I|].
    cbn [all] in HP. apply andb_true_iff in HP as [Hc _].
    apply negb_true_iff, Hc.
Qed.

Lemma lastByte_append_word (pre : string) (c : ascii) (b : string) :
  isWord (lastByte (pre +:+ String c b)) = isWord (lastByte (String c b)).
Proof.
  induction pre as [|e pre IH]; [reflexivity|].
  rewrite append_cons.
  destruct (pre +:+ String c b) eqn:Heq.
  - destruct pre; discriminate.
  - change (lastByte (String e (String a s))) with (lastByte (String a s)).
    exact IH.
Qed.

(** A label whose first digits start a size token: the token is found. *)
Lemma sizeLoose_token (pre : string) (d : ascii) (ds frac sp unit post : string) :
  all (fun c => negb (isDigit c)) pre = true ->
  isWord (lastByte pre) = false ->
  isDigit d = true -> all isDigit ds = true ->
  isFraction frac ->
  all isSpaceByte sp = true ->
  In unit latinUnits ->
  headNotWord post ->
  FindStringSubmatch sizeLooseRe
    (pre +:+ (String d ds +:+ frac +:+ sp +:+ unit) +:+ post) =
    Some [String d ds +:+ frac +:+ sp +:+ unit].
Proof.
  intros Hpre Hlast Hd Hds Hfrac Hsp Hunit Hpost. unfold FindStringSubmatch.
  rewrite searchFrom_skip.
  - cbn [Nat.add].
    assert (Hstep : forall i pv s,
              searchFrom sizeLooseRe i pv s =
                match run sizeLooseRe {| pos := i; prev := pv; rest := s; caps := [] |} Some with
                | Some st => Some (i, st)
                | None => match s with
                          | EmptyString => None
                          | String c s' => searchFrom sizeLooseRe (S i) (Some c) s'
                          end
                end).
    { intros i pv s. destruct s; reflexivity. }
    rewrite Hstep.
    match goal with |- context [run sizeLooseRe ?x Some] => set (st := x) end.
    assert (Hrest : rest st = String d ds +:+ frac +:+ sp +:+ unit +:+ post).
    { subst st. cbn [rest]. rewrite !append_assoc. reflexivity. }
    assert (Hprev : isWord (prev st) = false).
    { subst st. cbn [prev]. destruct (lastByte pre); [exact Hlast|reflexivity]. }
    rewrite (sizeLoose_at d ds frac sp unit post st Hd Hds Hfrac Hsp Hunit Hpost Hprev Hrest).
    f_equal. change (groups sizeLooseRe) with 0%nat. cbn [seq fmap list_fmap].
    f_equal. rewrite !consume_pos. subst st. cbn [pos].
    replace (String.length pre + String.length (String d ds) + String.length frac
             + String.length sp + String.length unit - String.length pre)%nat
      with (String.length (String d ds +:+ frac +:+ sp +:+ unit))
      by (rewrite !length_append; lia).
    rewrite from_append, upto_append. reflexivity.
  - intros a b c j q Heq. apply sizeLoose_head. cbn [rest].
    rewrite append_cons. subst pre.
    apply (all_false_in isDigit a b c). exact Hpre.
Qed.

(** *** The text of the button *)

Lemma lastByte_append (a b : string) :
  b <> EmptyString -> lastByte (a +:+ b) = lastByte b.
Proof.
  intros Hb. induction a as [|c a IH]; [reflexivity|].
  rewrite append_cons.
  destruct (a +:+ b) eqn:Heq.
  - destruct a; [change (b = EmptyString) in Heq; congruence|discriminate].
  - change (lastByte (String c (String a0 s))) with (lastByte (String a0 s)).
    exact IH.
Qed.

Lemma trimRightWhile_id (p : ascii -> bool) (s : string) (c : ascii) :
  lastByte s = Some c -> p c = false -> trimRightWhile p s = s.
Proof.
  intros Hl Hp. induction s as [|d s IH]; [reflexivity|].
  cbn [trimRightWhile]. destruct s as [|e s].
  - cbn in Hl. injection Hl as ->. cbn. rewrite Hp. reflexivity.
  - change (lastByte (String d (String e s))) with (lastByte (String e s)) in Hl.
    rewrite (IH Hl). reflexivity.
Qed.

(** White space is trimmed from neither end of a text that starts and
    ends with ASCII bytes that are not white space. *)
Lemma TrimSpace_id `{Unicode} (c : ascii) (s : string) (e : ascii) :
  isASCIIbyte c = true -> asciiSpace c = false ->
  lastByte (String c s) = Some e ->
  isASCIIbyte e = true -> asciiSpace e = false ->
  TrimSpace (String c s) = String c s.
Proof.
  intros Hc Hcs Hl He Hes. unfold TrimSpace. cbn [trimLeftWhile].
  rewrite Hcs, Hc. rewrite (trimRightWhile_id asciiSpace _ e Hl Hes).
  rewrite Hl, He. reflexivity.
Qed.

Lemma digit_ascii c : isDigit c = true -> isASCIIbyte c = true /\ asciiSpace c = false.
Proof. destruct c as [[] [] [] [] [] [] [] []]; vm_compute; intuition congruence. Qed.

Lemma unit_last (unit : string) :
  In unit latinUnits ->
  unit <> EmptyString /\
  exists e, lastByte unit = Some e /\ isASCIIbyte e = true /\ asciiSpace e = false.
Proof.
  intros Hin. each_unit Hin; (split; [discriminate|eexists; repeat split]).
Qed.

(** The size token is taken as it is. *)
Lemma TrimSpace_token `{Unicode} (d : ascii) (ds frac sp unit : string) :
  isDigit d = true -> In unit latinUnits ->
  TrimSpace (String d ds +:+ frac +:+ sp +:+ unit) = String d ds +:+ frac +:+ sp +:+ unit.
Proof.
  intros Hd Hunit.
  destruct (digit_ascii d Hd) as [Hda Hds].
  destruct (unit_last unit Hunit) as (Hne & e & Hl & He & Hes).
  rewrite append_cons.
  apply (TrimSpace_id d _ e); try assumption.
  rewrite <- append_cons.
  rewrite <- !append_assoc. rewrite lastByte_append by exact Hne. exact Hl.
Qed.

Definition plain `{Unicode} (path : string) : string :=
  if isEmpty (ToUpper (TrimSpace path)) then "FILE" else ToUpper (TrimSpace path).

Definition withSuffix `{Unicode} (path inner : string) : string :=
  if EqualFold (TrimSpace inner) (TrimSpace path) then plain path
  else plain path +:+ " (" +:+ TrimSpace inner +:+ ")".

(** The format of the text is the trimmed path in upper case, and
    "FILE" when that is empty. Neither label below has a parenthesized
    suffix or a size. *)
Lemma formatButtonText_not_upper_path :
  FindStringSubmatch sizeInParensRe "book" = None /\
  FindStringSubmatch sizeLooseRe "book" = None /\
  @formatButtonText asciiOnly {| Path := ""; Label := "book" |} = "FILE" /\
  @formatButtonText asciiOnly {| Path := ""; Label := "book" |}
    <> @ToUpper asciiOnly "" /\
  @formatButtonText asciiOnly {| Path := " fb2"; Label := "book" |} = "FB2" /\
  @formatButtonText asciiOnly {| Path := " fb2"; Label := "book" |}
    <> @ToUpper asciiOnly " fb2".
Proof. repeat split; vm_compute; (reflexivity || discriminate). Qed.

(** The units in Cyrillic letters: found before an ASCII word byte, and
    not at the end of the label or before white space, where [\b] sees
    no boundary. *)
Example formatButtonText_cyrillic_units :
  @formatButtonText asciiOnly {| Path := "fb2"; Label := "1.2 мб fb2" |} = "FB2" /\
  @formatButtonText asciiOnly {| Path := "fb2"; Label := "1.2 мбx" |} = "FB2 (1.2 мб)" /\
  @formatButtonText asciiOnly {| Path := "fb2"; Label := "fb2 (1.2 Мб)" |} = "FB2 (1.2 Мб)" /\
  FindStringSubmatch sizeLooseRe "1.2 мб" = None /\
  FindStringSubmatch sizeLooseRe "1.2 Mb" = Some ["1.2 Mb"].
Proof. repeat split; vm_compute; reflexivity. Qed.

(** C8: the size in Cyrillic units is lost. The label "fb2 1.2 мб", as
    [ParseBookDetails] reads it in a link of the path "fb2", has no
    parenthesized suffix and holds a size in a unit that [sizeLooseRe]
    lists; the text of the button is "FB2" all the same, not
    "FB2 (1.2 мб)": after the unit, at the end of the label, [\b] sees
    no boundary, the letter before it being no ASCII word byte. The same
    label in Latin units gives "FB2 (1.2 Mb)". *)
Example formatButtonText_cyrillic_size_lost :
  FindStringSubmatch sizeInParensRe "fb2 1.2 мб" = None /\
  FindStringSubmatch sizeLooseRe "fb2 1.2 мб" = None /\
  @formatButtonText asciiOnly {| Path := "fb2"; Label := "fb2 1.2 мб" |} = "FB2" /\
  @formatButtonText asciiOnly {| Path := "fb2"; Label := "fb2 1.2 мб" |}
    <> "FB2 (1.2 мб)" /\
  @formatButtonText asciiOnly {| Path := "fb2"; Label := "fb2 1.2 Mb" |} = "FB2 (1.2 Mb)".
Proof. repeat split; vm_compute; (reflexivity || discriminate). Qed.

(** Under the flag [i] the letter [k] also matches the Kelvin sign. *)
Example sizeLooseRe_kelvin_sign :
  FindStringSubmatch sizeLooseRe ("12 " +:+ kelvin +:+ "b") =
    Some ["12 " +:+ kelvin +:+ "b"].
Proof. vm_compute. reflexivity. Qed.

(** The text of the button, case by case. For every format option,
    FORMAT being the format path trimmed of white space and in upper
    case, or "FILE" when that is empty, and the label being taken
    trimmed of white space, the text of the button is:
    - FORMAT when the label is empty;
    - when the label ends in a parenthesized suffix "(inner)" with no
      parenthesis opened before it, white space allowed after it: FORMAT
      if inner, trimmed, equals the trimmed path without regard to case,
      and "FORMAT (inner)" otherwise;
    - when the label has no closing parenthesis and its first digits
      start a size token (digits, an optional dot or comma and digits,
      optional white space, one of kb, mb, gb, kib, mib, gib in Latin
      letters of either case, as a whole word): "FORMAT (token)";
    - FORMAT when the label has neither closing parenthesis nor digit;
    - in every case, what the two searches of the source find decides.
    In particular "EPUB (epub)" with path "epub" gives "EPUB", and
    "FB2 (1.2 Mb)" with path "fb2" gives "FB2 (1.2 Mb)". *)
Theorem formatButtonText_cases `{Unicode} (opt : BookFormatOption) :
  let label := TrimSpace (Label opt) in
  (label = EmptyString -> formatButtonText opt = plain (Path opt)) /\
  (forall pre inner ws,
     label = pre +:+ "(" +:+ inner +:+ ")" +:+ ws ->
     without "(" pre = true -> inner <> EmptyString -> without ")" inner = true ->
     all isSpaceByte ws = true ->
     formatButtonText opt = withSuffix (Path opt) inner) /\
  (forall pre d ds frac sp unit post,
     label = pre +:+ (String d ds +:+ frac +:+ sp +:+ unit) +:+ post ->
     without ")" label = true ->
     all (fun c => negb (isDigit c)) pre = true -> isWord (lastByte pre) = false ->
     isDigit d = true -> all isDigit ds = true -> isFraction frac ->
     all isSpaceByte sp = true -> In unit latinUnits -> headNotWord post ->
     formatButtonText opt =
       plain (Path opt) +:+ " (" +:+ (String d ds +:+ frac +:+ sp +:+ unit) +:+ ")") /\
  (without ")" label = true -> all (fun c => negb (isDigit c)) label = true ->
   formatButtonText opt = plain (Path opt)) /\
  (label <> EmptyString ->
   formatButtonText opt =
     match FindStringSubmatch sizeInParensRe label with
     | Some [_; inner] => withSuffix (Path opt) inner
     | _ =>
         match FindStringSubmatch sizeLooseRe label with
         | Some [token] => plain (Path opt) +:+ " (" +:+ TrimSpace token +:+ ")"
         | _ => plain (Path opt)
         end
     end) /\
  formatButtonText {| Path := "epub"; Label := "EPUB (epub)" |} = "EPUB" /\
  formatButtonText {| Path := "fb2"; Label := "FB2 (1.2 Mb)" |} = "FB2 (1.2 Mb)".
Proof.
  intros label.
  assert (Hgen : label <> EmptyString ->
     formatButtonText opt =
       match FindStringSubmatch sizeInParensRe label with
       | Some [_; inner] => withSuffix (Path opt) inner
       | _ =>
           match FindStringSubmatch sizeLooseRe label with
           | Some [token] => plain (Path opt) +:+ " (" +:+ TrimSpace token +:+ ")"
           | _ => plain (Path opt)
           end
       end).
  { intros Hne. unfold formatButtonText. fold label.
    destruct label as [|c l] eqn:Hl; [congruence|]. cbn [isEmpty].
    reflexivity. }
  split; [|split; [|split; [|split; [|split; [exact Hgen|]]]]].
  - intros Hl. unfold formatButtonText. fold label. rewrite Hl. reflexivity.
  - intros pre inner ws Hl Hpre Hne Hin Hws.
    rewrite Hgen.
    + rewrite Hl, (sizeInParens_suffix pre inner ws Hpre Hne Hin Hws). reflexivity.
    + rewrite Hl. destruct pre; discriminate.
  - intros pre d ds frac sp unit post Hl Hnoparen Hpre Hlast Hd Hds Hfrac Hsp Hunit Hpost.
    rewrite Hgen.
    + rewrite (sizeInParens_none label Hnoparen).
      rewrite Hl, (sizeLoose_token pre d ds frac sp unit post) by assumption.
      rewrite (TrimSpace_token d ds frac sp unit Hd Hunit). reflexivity.
    + rewrite Hl. destruct pre; discriminate.
  - intros Hnoparen Hnodigit.
    destruct label as [|c l] eqn:Hl.
    + unfold formatButtonText. fold label. rewrite Hl. reflexivity.
    + rewrite Hgen by discriminate.
      rewrite (sizeInParens_none _ Hnoparen), (sizeLoose_none _ Hnodigit). reflexivity.
  - split; reflexivity.
Qed.

End FormatFacts.

(** ** sort.Slice: insertion sort, the sort of short slices *)

Module InsertionFacts.
Import Sort.

Section Insertion.
Context {A : Type} (less : A -> A -> bool).

(** [x] put into [r], the part already sorted read from its end: [x]
    passes the elements it is less than. *)
Fixpoint insertRev (x : A) (r : list A) : list A :=
  match r with
  | [] => [x]
  | y :: r' => if less x y then y :: insertRev x r' else x :: r
  end.

Definition isortRev (l : list A) : list A :=
  foldl (fun r x => insertRev x r) [] l.

(** Insertion sort on lists, each element inserted from the right. *)
Definition isort (l : list A) : list A := reverse (isortRev l).

Lemma lookup_adjacent (pre : list A) (y x : A) (post : list A) :
  (pre ++ y :: x :: post) !! length pre = Some y /\
  (pre ++ y :: x :: post) !! S (length pre) = Some x.
Proof.
  split.
  - apply list_lookup_middle. reflexivity.
  - rewrite lookup_app_r by lia.
    replace (S (length pre) - length pre)%nat with 1%nat by lia. reflexivity.
Qed.

Lemma Less_adjacent (pre : list A) (y x : A) (post : list A) :
  Less less (pre ++ y :: x :: post) (S (length pre)) (length pre) = less x y.
Proof.
  destruct (lookup_adjacent pre y x post) as [H0 H1].
  unfold Less. rewrite H0, H1. reflexivity.
Qed.

Lemma Swap_adjacent (pre : list A) (y x : A) (post : list A) :
  Swap (pre ++ y :: x :: post) (S (length pre)) (length pre) = pre ++ x :: y :: post.
Proof.
  destruct (lookup_adjacent pre y x post) as [H0 H1].
  unfold Swap. rewrite H0, H1.
  rewrite (insert_app_r_alt pre _ (S (length pre))) by lia.
  replace (S (length pre) - length pre)%nat with 1%nat by lia.
  cbn [insert list_insert].
  rewrite insert_app_r_alt by lia.
  rewrite Nat.sub_diag. reflexivity.
Qed.

Lemma length_insertRev (x : A) (r : list A) : length (insertRev x r) = S (length r).
Proof.
  induction r as [|y r IH]; [reflexivity|].
  cbn [insertRev]. destruct (less x y); cbn [length]; [rewrite IH|]; reflexivity.
Qed.

(** The inner loop of the insertion sort, on the part already sorted
    [l] followed by the element to insert. *)
Lemma insertionInner_insert (pre l : list A) (x : A) (post : list A) :
  insertionInner less (length pre) (length pre + length l) (pre ++ l ++ x :: post) =
    pre ++ reverse (insertRev x (reverse l)) ++ post.
Proof.
  revert post. induction l as [|y l IH] using rev_ind; intros post.
  - rewrite Nat.add_0_r. cbn [app reverse insertRev].
    destruct (length pre) as [|n] eqn:Hn; cbn [insertionInner]; [reflexivity|].
    destruct (Nat.ltb_spec (S n) (S n)); [lia|]. reflexivity.
  - rewrite length_app. cbn [length].
    replace (length pre + (length l + 1))%nat with (S (length pre + length l)) by lia.
    cbn [insertionInner].
    destruct (Nat.ltb_spec (length pre) (S (length pre + length l))); [|lia].
    cbn [andb].
    replace (pre ++ (l ++ [y]) ++ x :: post) with ((pre ++ l) ++ y :: x :: post)
      by (rewrite <- !app_assoc; reflexivity).
    replace (length pre + length l)%nat with (length (pre ++ l))
      by (rewrite length_app; reflexivity).
    rewrite Less_adjacent, reverse_app. cbn [reverse app insertRev].
    change (reverse [y]) with [y]. cbn [app insertRev].
    destruct (less x y).
    + rewrite Swap_adjacent.
      replace ((pre ++ l) ++ x :: y :: post) with (pre ++ l ++ x :: (y :: post))
        by (rewrite <- !app_assoc; reflexivity).
      rewrite length_app, IH, reverse_cons, <- !app_assoc. reflexivity.
    + rewrite !reverse_cons, reverse_involutive, <- !app_assoc. reflexivity.
Qed.

Lemma insertionOuter_fold (pre l todo post : list A) :
  insertionOuter less (length pre) (length pre + length l) (length todo)
    (pre ++ l ++ todo ++ post) =
    pre ++ reverse (foldl (fun r x => insertRev x r) (reverse l) todo) ++ post.
Proof.
  revert l. induction todo as [|x todo IH]; intros l.
  - cbn [length insertionOuter foldl app]. rewrite reverse_involutive. reflexivity.
  - cbn [length insertionOuter foldl].
    change ((x :: todo) ++ post) with (x :: (todo ++ post)).
    rewrite insertionInner_insert.
    set (l' := reverse (insertRev x (reverse l))).
    assert (Hlen : length l' = S (length l)).
    { subst l'. rewrite length_reverse, length_insertRev, length_reverse. reflexivity. }
    replace (S (length pre + length l)) with (length pre + length l')%nat by lia.
    rewrite IH. subst l'. rewrite reverse_involutive. reflexivity.
Qed.

(** [insertionSort_func] on the range that holds [mid]. *)
Lemma insertionSort_func_isort (pre mid post : list A) :
  insertionSort_func less (pre ++ mid ++ post) (length pre) (length pre + length mid) =
    pre ++ isort mid ++ post.
Proof.
  unfold insertionSort_func, isort, isortRev. destruct mid as [|x todo].
  - cbn [length]. replace (length pre + 0 - (length pre + 1))%nat with 0%nat by lia.
    reflexivity.
  - cbn [length].
    replace (length pre + S (length todo) - (length pre + 1))%nat with (length todo) by lia.
    change (pre ++ (x :: todo) ++ post) with (pre ++ [x] ++ todo ++ post).
    change (length pre + 1)%nat with (length pre + length [x])%nat.
    rewrite insertionOuter_fold. reflexivity.
Qed.

(** The slices of at most twelve elements are sorted by insertion. *)
Lemma Slice_short (xorshiftNext : Z -> Z) (d : list A) :
  (length d <= 12)%nat -> Slice less xorshiftNext d = isort d.
Proof.
  intros Hlen. unfold Slice, pdqsort_func.
  replace (length d - 0 + 1)%nat with (S (length d)) by lia.
  cbn [pdqsort_loop]. rewrite Nat.sub_0_r.
  destruct (Nat.leb_spec (length d) 12); [|lia].
  pose proof (insertionSort_func_isort [] d []) as Hins.
  rewrite !app_nil_r in Hins. exact Hins.
Qed.

(** *** Insertion sort on lists *)

Hypothesis less_irrefl : forall x, less x x = false.
Hypothesis less_trans :
  forall x y z, less x y = true -> less y z = true -> less x z = true.
Hypothesis less_cotrans :
  forall x y z, less x z = true -> less x y = true \/ less y z = true.

(** [x] may stand before [y]. *)
Definition inOrder (x y : A) : Prop := less y x = false.

Lemma less_asym (x y : A) : less x y = true -> less y x = false.
Proof.
  intros H. destruct (less y x) eqn:E; [|reflexivity].
  pose proof (less_trans _ _ _ H E) as Hxx. rewrite less_irrefl in Hxx. discriminate.
Qed.

Lemma insertRev_perm (x : A) (r : list A) : Permutation (insertRev x r) (x :: r).
Proof.
  induction r as [|y r IH]; [reflexivity|].
  cbn [insertRev]. destruct (less x y); [|reflexivity].
  rewrite IH. apply perm_swap.
Qed.

Lemma foldl_insertRev_perm (acc l : list A) :
  Permutation (foldl (fun r x => insertRev x r) acc l) (l ++ acc).
Proof.
  revert acc. induction l as [|x l IH]; intros acc; [reflexivity|].
  cbn [foldl]. rewrite IH, insertRev_perm. symmetry. apply Permutation_middle.
Qed.

Lemma isort_perm (l : list A) : Permutation l (isort l).
Proof.
  unfold isort, isortRev. rewrite reverse_Permutation, foldl_insertRev_perm, app_nil_r.
  reflexivity.
Qed.

Lemma insertRev_sorted (x : A) (r : list A) :
  StronglySorted (fun a b => inOrder b a) r ->
  StronglySorted (fun a b => inOrder b a) (insertRev x r).
Proof.
  induction r as [|y r IH]; intros Hs.
  - repeat constructor.
  - apply StronglySorted_inv in Hs as [Hs Hy]. cbn [insertRev].
    destruct (less x y) eqn:Hxy.
    + constructor; [apply IH, Hs|].
      rewrite insertRev_perm. constructor; [|exact Hy].
      unfold inOrder. apply less_asym, Hxy.
    + constructor; [constructor; assumption|].
      constructor; [exact Hxy|].
      apply Forall_forall. intros z Hz.
      rewrite Forall_forall in Hy. specialize (Hy z Hz). unfold inOrder in *.
      destruct (less x z) eqn:Hxz; [|reflexivity].
      destruct (less_cotrans x y z Hxz) as [H|H]; congruence.
Qed.

Lemma foldl_insertRev_sorted (acc l : list A) :
  StronglySorted (fun a b => inOrder b a) acc ->
  StronglySorted (fun a b => inOrder b a) (foldl (fun r x => insertRev x r) acc l).
Proof.
  revert acc. induction l as [|x l IH]; intros acc Hs; [exact Hs|].
  cbn [foldl]. apply IH, insertRev_sorted, Hs.
Qed.

Lemma StronglySorted_snoc (R : A -> A -> Prop) (l : list A) (x : A) :
  StronglySorted R l -> Forall (fun y => R y x) l -> StronglySorted R (l ++ [x]).
Proof.
  induction l as [|y l IH]; intros Hs Hx.
  - repeat constructor.
  - apply StronglySorted_inv in Hs as [Hs Hy].
    apply Forall_cons in Hx as [Hyx Hx].
    cbn [app]. constructor; [apply IH; assumption|].
    apply Forall_app. split; [exact Hy|]. constructor; [exact Hyx|constructor].
Qed.

Lemma StronglySorted_reverse (R : A -> A -> Prop) (l : list A) :
  StronglySorted (fun a b => R b a) l -> StronglySorted R (reverse l).
Proof.
  induction l as [|x l IH]; intros Hs; [constructor|].
  apply StronglySorted_inv in Hs as [Hs Hx].
  rewrite reverse_cons. apply StronglySorted_snoc; [apply IH, Hs|].
  apply Forall_forall. intros y Hy. rewrite Forall_forall in Hx.
  apply Hx. rewrite elem_of_reverse in Hy. exact Hy.
Qed.

(** The result is in order: no element is less than one before it. *)
Lemma isort_sorted (l : list A) : StronglySorted inOrder (isort l).
Proof.
  unfold isort, isortRev. apply StronglySorted_reverse.
  apply foldl_insertRev_sorted. constructor.
Qed.

(** *** Stability *)

(** A class of elements none of which is less than another: for
    instance the elements of one key. *)
Definition unordered (P : A -> bool) : Prop :=
  forall x y, P x = true -> P y = true -> less x y = false.

Lemma insertRev_filter (P : A -> bool) (x : A) (r : list A) :
  unordered P ->
  List.filter P (insertRev x r) = List.filter P [x] ++ List.filter P r.
Proof.
  intros HP. induction r as [|y r IH].
  - cbn [insertRev List.filter]. rewrite app_nil_r. reflexivity.
  - cbn [insertRev]. destruct (less x y) eqn:Hxy.
    + cbn [List.filter]. rewrite IH. cbn [List.filter].
      destruct (P x) eqn:Hx, (P y) eqn:Hy; try reflexivity.
      rewrite (HP x y Hx Hy) in Hxy. discriminate.
    + cbn [List.filter]. destruct (P x); reflexivity.
Qed.

Lemma filter_reverse (P : A -> bool) (l : list A) :
  List.filter P (reverse l) = reverse (List.filter P l).
Proof.
  induction l as [|x l IH]; [reflexivity|].
  rewrite reverse_cons, List.filter_app, IH. cbn [List.filter].
  destruct (P x); [rewrite reverse_cons|rewrite app_nil_r]; reflexivity.
Qed.

Lemma foldl_insertRev_filter (P : A -> bool) (acc l : list A) :
  unordered P ->
  List.filter P (foldl (fun r x => insertRev x r) acc l) =
    List.filter P (reverse l) ++ List.filter P acc.
Proof.
  intros HP. revert acc. induction l as [|x l IH]; intros acc; [reflexivity|].
  cbn [foldl]. rewrite IH, insertRev_filter by exact HP.
  rewrite reverse_cons, List.filter_app, <- app_assoc. reflexivity.
Qed.

(** Insertion sort keeps the elements of each such class in the order
    they had. *)
Lemma isort_stable (P : A -> bool) (l : list A) :
  unordered P -> List.filter P (isort l) = List.filter P l.
Proof.
  intros HP. unfold isort, isortRev.
  rewrite filter_reverse, (foldl_insertRev_filter P [] l HP), app_nil_r.
  rewrite filter_reverse, reverse_involutive. reflexivity.
Qed.

End Insertion.

End InsertionFacts.

(** ** The keyboard of the formats *)

Module FormatOrder.
Import Strings Models Tgbotapi Telegram Details Sort InsertionFacts.

(** The key of the order: the path, trimmed, in upper case. *)
Definition sortKey `{Unicode} (opt : BookFormatOption) : string :=
  ToUpper (TrimSpace (Path opt)).

Lemma ltb_irrefl (s : string) : String.ltb s s = false.
Proof.
  unfold String.ltb. destruct (String.compare s s) eqn:E; try reflexivity.
  pose proof (String.compare_antisym s s) as H. rewrite E in H. discriminate.
Qed.

Lemma ltb_trans (x y z : string) :
  String.ltb x y = true -> String.ltb y z = true -> String.ltb x z = true.
Proof.
  unfold String.ltb. intros H1 H2.
  destruct (String.compare x y) eqn:E1; try discriminate.
  destruct (String.compare y z) eqn:E2; try discriminate.
  apply String_as_OT.cmp_lt in E1, E2.
  pose proof (String_as_OT.lt_trans _ _ _ E1 E2) as H.
  apply String_as_OT.cmp_lt in H. unfold String_as_OT.cmp in H. rewrite H. reflexivity.
Qed.

Lemma ltb_total (x y : string) :
  String.ltb x y = true \/ x = y \/ String.ltb y x = true.
Proof.
  unfold String.ltb. rewrite (String.compare_antisym y x).
  destruct (String.compare x y) eqn:E.
  - right; left. apply String.compare_eq_iff, E.
  - left; reflexivity.
  - right; right; reflexivity.
Qed.

Lemma ltb_cotrans (x y z : string) :
  String.ltb x z = true -> String.ltb x y = true \/ String.ltb y z = true.
Proof.
  intros H. destruct (ltb_total x y) as [Hxy|[->|Hyx]].
  - left; exact Hxy.
  - right; exact H.
  - right. apply (ltb_trans y x z); assumption.
Qed.

Section Keyboard.
Context `{Unicode}.

Lemma formatLess_irrefl (x : BookFormatOption) : formatLess x x = false.
Proof. apply ltb_irrefl. Qed.

Lemma formatLess_trans (x y z : BookFormatOption) :
  formatLess x y = true -> formatLess y z = true -> formatLess x z = true.
Proof. apply ltb_trans. Qed.

Lemma formatLess_cotrans (x y z : BookFormatOption) :
  formatLess x z = true -> formatLess x y = true \/ formatLess y z = true.
Proof. apply ltb_cotrans. Qed.

(** The formats of one key. *)
Definition hasKey (k : string) (opt : BookFormatOption) : bool :=
  String.eqb (sortKey opt) k.

Lemma hasKey_unordered (k : string) : unordered formatLess (hasKey k).
Proof.
  intros x y Hx Hy. unfold hasKey in *.
  apply String.eqb_eq in Hx, Hy. unfold formatLess. fold (sortKey x) (sortKey y).
  rewrite Hx, Hy. apply ltb_irrefl.
Qed.

(** In order of key: no format has a key less than that of a format
    before it. *)
Definition byKey (l : list BookFormatOption) : Prop :=
  StronglySorted
    (fun a b => Strings.lt (sortKey b) (sortKey a) = false) l.

(** A stable order: the formats of each key stand as they stood. *)
Definition keepsTies (input output : list BookFormatOption) : Prop :=
  forall k, List.filter (hasKey k) output = List.filter (hasKey k) input.

(** Two per row, a last odd one alone. *)
Fixpoint pairs {B : Type} (l : list B) : list (list B) :=
  match l with
  | x :: y :: l' => [x; y] :: pairs l'
  | [x] => [[x]]
  | [] => []
  end.

Lemma formatRowsLoop_pairs (bookID : string) (n : nat) :
  forall (formats : list BookFormatOption) (rows : list (list InlineKeyboardButton)),
    (length formats <= n)%nat ->
    (let '(rows', row) := formatRowsLoop bookID formats rows [] in
     if (0 <? length row)%nat then rows' ++ [row] else rows') =
    rows ++ pairs (formatButton bookID <$> formats).
Proof.
  induction n as [n IH] using lt_wf_ind. intros formats rows Hlen.
  destruct formats as [|x [|y formats]].
  - cbn. rewrite app_nil_r. reflexivity.
  - reflexivity.
  - cbn [formatRowsLoop app length Nat.eqb fmap list_fmap pairs].
    cbn [length] in Hlen.
    rewrite (IH (length formats)) by lia.
    rewrite <- app_assoc. reflexivity.
Qed.

Lemma detailRows_pairs (xorshiftNext : Z -> Z) (bookID : string)
    (formats : list BookFormatOption) :
  formats <> [] ->
  detailRows xorshiftNext bookID formats =
    pairs (formatButton bookID <$> Slice formatLess xorshiftNext formats).
Proof.
  intros Hne. unfold detailRows.
  destruct formats as [|x formats]; [congruence|]. cbn [length Nat.eqb].
  exact (formatRowsLoop_pairs bookID _ _ [] (le_n _)).
Qed.

Lemma concat_pairs {B : Type} (l : list B) : concat (pairs l) = l.
Proof.
  assert (Hgen : forall m (l : list B), (length l <= m)%nat -> concat (pairs l) = l).
  { clear. induction m as [|m IHm]; intros l Hl.
    - destruct l; [reflexivity|cbn in Hl; lia].
    - destruct l as [|x [|y l]]; [reflexivity|reflexivity|].
      cbn [pairs concat app]. cbn [length] in Hl.
      rewrite IHm by lia. reflexivity. }
  apply (Hgen (length l)). lia.
Qed.

End Keyboard.

(** Thirteen formats, "fb2" listed before "FB2". *)
Definition thirteen : list BookFormatOption :=
  (fun p => {| Path := p; Label := "" |}) <$>
    ["fb2"; "FB2"; "mobi"; "azw3"; "pdf"; "rtf"; "epub"; "txt"; "html"; "lit";
     "lrf"; "pdb"; "prc"].

(** C5, as stated, fails: of thirteen formats with the paths "fb2" and
    "FB2" in this order, the buttons come out with "FB2" before "fb2":
    the two formats of the key "FB2" do not keep their order. *)
Lemma detailRows_not_stable :
  CallbackData <$> concat (@detailRows asciiOnly (fun r => r) "77" thirteen) =
    ["dl:77:azw3"; "dl:77:epub"; "dl:77:FB2"; "dl:77:fb2"; "dl:77:html";
     "dl:77:lit"; "dl:77:lrf"; "dl:77:mobi"; "dl:77:pdb"; "dl:77:pdf";
     "dl:77:prc"; "dl:77:rtf"; "dl:77:txt"] /\
  ~ @keepsTies asciiOnly thirteen (Slice (@formatLess asciiOnly) (fun r => r) thirteen).
Proof.
  split; [vm_compute; reflexivity|].
  intros Hk. specialize (Hk "FB2"). vm_compute in Hk. discriminate Hk.
Qed.

End FormatOrder.

(** ** sort.Slice sorts *)

Module PdqsortFacts.
Import Sort InsertionFacts.

Section Pdqsort.
Context {A : Type} (less : A -> A -> bool).
Context (xorshiftNext : Z -> Z).

Hypothesis less_irrefl : forall x, less x x = false.
Hypothesis less_trans :
  forall x y z, less x y = true -> less y z = true -> less x z = true.
Hypothesis less_cotrans :
  forall x y z, less x z = true -> less x y = true \/ less y z = true.

(** Not less, chained. *)
Lemma notLess_trans (x y z : A) :
  less x y = false -> less y z = false -> less x z = false.
Proof.
  intros Hxy Hyz. destruct (less x z) eqn:Hxz; [|reflexivity].
  destruct (less_cotrans x y z Hxz); congruence.
Qed.

Lemma notLess_less (x y z : A) :
  less y x = false -> less y z = true -> less x z = true.
Proof.
  intros Hyx Hyz. destruct (less_cotrans y x z Hyz) as [H|H]; congruence.
Qed.

Lemma less_notLess (x y z : A) :
  less x y = true -> less z y = false -> less x z = true.
Proof.
  intros Hxy Hzy. destruct (less_cotrans x z y Hxy) as [H|H]; congruence.
Qed.

(** *** Swaps within a range *)

Lemma Swap_length (d : list A) (i j : nat) : length (Swap d i j) = length d.
Proof.
  unfold Swap. destruct (d !! i), (d !! j); try reflexivity.
  rewrite !length_insert. reflexivity.
Qed.

Lemma Swap_lookup (d : list A) (i j k : nat) :
  (i < length d)%nat -> (j < length d)%nat ->
  Swap d i j !! k =
    if decide (k = j) then d !! i else if decide (k = i) then d !! j else d !! k.
Proof.
  intros Hi Hj. unfold Swap.
  destruct (lookup_lt_is_Some_2 d i Hi) as [x Hx].
  destruct (lookup_lt_is_Some_2 d j Hj) as [y Hy].
  rewrite Hx, Hy.
  destruct (decide (k = j)) as [->|Hkj].
  - rewrite list_lookup_insert_eq by (rewrite length_insert; lia). reflexivity.
  - rewrite list_lookup_insert_ne by congruence.
    destruct (decide (k = i)) as [->|Hki].
    + rewrite list_lookup_insert_eq by lia. reflexivity.
    + rewrite list_lookup_insert_ne by congruence. reflexivity.
Qed.

Lemma Swap_outside (d : list A) (i j : nat) :
  (length d <= i)%nat \/ (length d <= j)%nat -> Swap d i j = d.
Proof.
  intros H. unfold Swap.
  destruct (d !! i) eqn:Hi, (d !! j) eqn:Hj; try reflexivity.
  apply lookup_lt_Some in Hi, Hj. lia.
Qed.

Lemma Swap_perm (d : list A) (i j : nat) : Permutation (Swap d i j) d.
Proof.
  unfold Swap. destruct (d !! i) eqn:Hi, (d !! j) eqn:Hj; try reflexivity.
  apply Permutation_insert_swap; assumption.
Qed.

Lemma Less_spec (d : list A) (i j : nat) (x y : A) :
  d !! i = Some x -> d !! j = Some y -> Less less d i j = less x y.
Proof. intros Hi Hj. unfold Less. rewrite Hi, Hj. reflexivity. Qed.

(** [d'] comes from [d] by swaps of places of the range [a, b). *)
Inductive shuffled (a b : nat) : list A -> list A -> Prop :=
| shuffled_refl d : shuffled a b d d
| shuffled_step d i j d' :
    (a <= i < b)%nat -> (a <= j < b)%nat ->
    shuffled a b (Swap d i j) d' -> shuffled a b d d'.

Lemma shuffled_trans (a b : nat) (d1 d2 d3 : list A) :
  shuffled a b d1 d2 -> shuffled a b d2 d3 -> shuffled a b d1 d3.
Proof.
  intros H12 H23. induction H12 as [d|d i j d' Hi Hj _ IH]; [exact H23|].
  apply (shuffled_step a b d i j); [exact Hi|exact Hj|]. apply IH, H23.
Qed.

Lemma shuffled_swap (a b : nat) (d : list A) (i j : nat) :
  (a <= i < b)%nat -> (a <= j < b)%nat -> shuffled a b d (Swap d i j).
Proof. intros Hi Hj. apply (shuffled_step a b d i j); [exact Hi|exact Hj|constructor]. Qed.

Lemma shuffled_weaken (a b a' b' : nat) (d d' : list A) :
  (a' <= a)%nat -> (b <= b')%nat -> shuffled a b d d' -> shuffled a' b' d d'.
Proof.
  intros Ha Hb H. induction H as [d|d i j d' Hi Hj _ IH]; [constructor|].
  apply (shuffled_step a' b' d i j); [lia|lia|exact IH].
Qed.

Lemma shuffled_length (a b : nat) (d d' : list A) :
  shuffled a b d d' -> length d' = length d.
Proof.
  intros H. induction H as [d|d i j d' _ _ _ IH]; [reflexivity|].
  rewrite IH. apply Swap_length.
Qed.

Lemma shuffled_perm (a b : nat) (d d' : list A) :
  shuffled a b d d' -> Permutation d d'.
Proof.
  intros H. induction H as [d|d i j d' _ _ _ IH]; [reflexivity|].
  rewrite <- IH. symmetry. apply Swap_perm.
Qed.

Lemma Swap_lookup_other (d : list A) (i j k : nat) :
  k <> i -> k <> j -> Swap d i j !! k = d !! k.
Proof.
  intros Hi Hj.
  destruct (Nat.lt_ge_cases i (length d)) as [Hil|Hil];
    [|rewrite Swap_outside by lia; reflexivity].
  destruct (Nat.lt_ge_cases j (length d)) as [Hjl|Hjl];
    [|rewrite Swap_outside by lia; reflexivity].
  rewrite Swap_lookup by assumption.
  destruct (decide (k = j)); [congruence|]. destruct (decide (k = i)); [congruence|].
  reflexivity.
Qed.

Lemma shuffled_outside (a b : nat) (d d' : list A) (k : nat) :
  shuffled a b d d' -> (k < a \/ b <= k)%nat -> d' !! k = d !! k.
Proof.
  intros H Hk. induction H as [d|d i j d' Hi Hj _ IH]; [reflexivity|].
  rewrite IH. apply Swap_lookup_other; lia.
Qed.

(** Every element of the range has the property [P]. *)
Definition rangeAll (P : A -> Prop) (a b : nat) (d : list A) : Prop :=
  forall k x, (a <= k < b)%nat -> d !! k = Some x -> P x.

Lemma Swap_rangeAll (P : A -> Prop) (a b : nat) (d : list A) (i j : nat) :
  (a <= i < b)%nat -> (a <= j < b)%nat ->
  rangeAll P a b d -> rangeAll P a b (Swap d i j).
Proof.
  intros Hi Hj Hall k x Hk Hx.
  destruct (Nat.lt_ge_cases i (length d)) as [Hil|Hil];
    [|rewrite Swap_outside in Hx by lia; exact (Hall k x Hk Hx)].
  destruct (Nat.lt_ge_cases j (length d)) as [Hjl|Hjl];
    [|rewrite Swap_outside in Hx by lia; exact (Hall k x Hk Hx)].
  rewrite Swap_lookup in Hx by assumption.
  destruct (decide (k = j)); [exact (Hall i x Hi Hx)|].
  destruct (decide (k = i)); [exact (Hall j x Hj Hx)|].
  exact (Hall k x Hk Hx).
Qed.

Lemma shuffled_rangeAll (P : A -> Prop) (a b a' b' : nat) (d d' : list A) :
  shuffled a' b' d d' -> (a <= a')%nat -> (b' <= b)%nat ->
  rangeAll P a b d -> rangeAll P a b d'.
Proof.
  intros H Ha Hb. induction H as [d|d i j d' Hi Hj _ IH]; intros Hall; [exact Hall|].
  apply IH. apply Swap_rangeAll; [lia|lia|exact Hall].
Qed.

(** The range is in order: no element is less than one before it. *)
Definition sortedRange (a b : nat) (d : list A) : Prop :=
  forall i j x y, (a <= i)%nat -> (i < j)%nat -> (j < b)%nat ->
    d !! i = Some x -> d !! j = Some y -> less y x = false.

Lemma sortedRange_outside (a b a' b' : nat) (d d' : list A) :
  shuffled a' b' d d' -> (b <= a' \/ b' <= a)%nat ->
  sortedRange a b d -> sortedRange a b d'.
Proof.
  intros Hsh Hdis Hs i j x y Hi Hij Hj Hx Hy.
  rewrite (shuffled_outside a' b' d d' i Hsh) in Hx by lia.
  rewrite (shuffled_outside a' b' d d' j Hsh) in Hy by lia.
  exact (Hs i j x y Hi Hij Hj Hx Hy).
Qed.

Lemma sortedRange_full (d : list A) :
  sortedRange 0 (length d) d -> StronglySorted (inOrder less) d.
Proof.
  induction d as [|x d IH]; intros Hs; [constructor|].
  constructor.
  - apply IH. intros i j u v Hi Hij Hj Hu Hv.
    apply (Hs (S i) (S j) u v); cbn [length]; try lia; assumption.
  - apply Forall_forall. intros y Hy.
    apply list_elem_of_lookup in Hy as [k Hk].
    apply (Hs 0%nat (S k) x y); cbn [length]; try lia; [|reflexivity|exact Hk].
    apply lookup_lt_Some in Hk. lia.
Qed.

Lemma StronglySorted_lookup (m : list A) (i j : nat) (x y : A) :
  StronglySorted (inOrder less) m -> (i < j)%nat ->
  m !! i = Some x -> m !! j = Some y -> less y x = false.
Proof.
  intros Hs. revert i j. induction Hs as [|u m Hs IH Hall]; intros i j Hij Hx Hy.
  - discriminate.
  - destruct j as [|j]; [lia|]. cbn in Hy. destruct i as [|i].
    + cbn in Hx. injection Hx as <-.
      rewrite Forall_forall in Hall. apply Hall.
      apply list_elem_of_lookup. exists j. exact Hy.
    + cbn in Hx. apply (IH i j); [lia|exact Hx|exact Hy].
Qed.

Lemma StronglySorted_range (pre m post : list A) :
  StronglySorted (inOrder less) m ->
  sortedRange (length pre) (length pre + length m) (pre ++ m ++ post).
Proof.
  intros Hs i j x y Hi Hij Hj Hx Hy.
  rewrite lookup_app_r in Hx, Hy by lia.
  rewrite lookup_app_l in Hx, Hy by lia.
  apply (StronglySorted_lookup m (i - length pre) (j - length pre) x y Hs);
    [lia|exact Hx|exact Hy].
Qed.

(** *** Insertion sort of a range *)

(** The range is in order but for the element at [j], which is less than
    all that follow it. *)
Definition sortedExcept (a b j : nat) (d : list A) : Prop :=
  (forall i k x y, (a <= i)%nat -> (i < k)%nat -> (k < b)%nat -> i <> j -> k <> j ->
     d !! i = Some x -> d !! k = Some y -> less y x = false) /\
  (forall k x y, (j < k)%nat -> (k < b)%nat ->
     d !! j = Some x -> d !! k = Some y -> less x y = true).

Lemma insertionInner_spec (a b j : nat) : forall d : list A,
  (a <= j)%nat -> (j < b)%nat -> (b <= length d)%nat ->
  sortedExcept a b j d ->
  shuffled a b d (insertionInner less a j d) /\
  sortedRange a b (insertionInner less a j d).
Proof.
  induction j as [|j IH]; intros d Haj Hjb Hb [Hs Hx].
  - cbn. split; [constructor|].
    intros i k x y Hi Hik Hk Hxi Hyk.
    destruct (decide (i = 0%nat)) as [->|Hi0].
    + apply (less_asym less less_irrefl less_trans). apply (Hx k x y); try lia; assumption.
    + apply (Hs i k x y); try lia; assumption.
  - cbn [insertionInner].
    destruct (lookup_lt_is_Some_2 d (S j)) as [x Hxj]; [lia|].
    destruct (lookup_lt_is_Some_2 d j) as [y Hyj]; [lia|].
    rewrite (Less_spec d (S j) j x y Hxj Hyj).
    destruct ((a <? S j)%nat && less x y) eqn:Hc.
    + apply andb_true_iff in Hc as [Ha Hlt]. apply Nat.ltb_lt in Ha.
      destruct (IH (Swap d (S j) j)) as [Hsh Hsorted]; try lia.
      * rewrite Swap_length; lia.
      * split.
        -- intros i k u v Hi Hik Hk Hij Hkj Hu Hv.
           rewrite Swap_lookup in Hu, Hv by lia.
           repeat case_decide; subst; try lia.
           ++ apply (Hs i j u v); try lia; assumption.
           ++ apply (Hs j k u v); try lia; assumption.
           ++ apply (Hs i k u v); try lia; assumption.
        -- intros k u v Hjk Hk Hu Hv.
           rewrite Swap_lookup in Hu, Hv by lia.
           repeat case_decide; subst; try lia.
           ++ congruence.
           ++ apply (Hx k u v); try lia; assumption.
      * split; [|exact Hsorted].
        apply (shuffled_step a b d (S j) j); [lia|lia|exact Hsh].
    + split; [constructor|].
      assert (Hge : less x y = false \/ a = S j).
      { apply andb_false_iff in Hc as [Hc|Hc]; [right|left; exact Hc].
        apply Nat.ltb_ge in Hc. lia. }
      intros i k u v Hi Hik Hk Hu Hv.
      destruct (decide (i = S j)) as [->|Hij].
      * apply (less_asym less less_irrefl less_trans). apply (Hx k u v); try lia; assumption.
      * destruct (decide (k = S j)) as [->|Hkj];
          [|apply (Hs i k u v); try lia; assumption].
        destruct Hge as [Hge|Hge]; [|lia].
        assert (v = x) as -> by congruence.
        destruct (decide (i = j)) as [->|Hij'].
        -- assert (u = y) as -> by congruence. exact Hge.
        -- apply (notLess_trans x y u Hge).
           apply (Hs i j u y); try lia; assumption.
Qed.

Lemma sortedRange_except (a b : nat) (d : list A) :
  sortedRange a b d -> sortedExcept a (S b) b d.
Proof.
  intros Hs. split.
  - intros i k x y Hi Hik Hk Hib Hkb Hx Hy. apply (Hs i k x y); try lia; assumption.
  - intros k x y Hk Hk'. lia.
Qed.

Lemma insertionOuter_spec (a b n : nat) : forall (i : nat) (d : list A),
  (a < i)%nat -> (i + n = b)%nat -> (b <= length d)%nat ->
  sortedRange a i d ->
  shuffled a b d (insertionOuter less a i n d) /\
  sortedRange a b (insertionOuter less a i n d).
Proof.
  induction n as [|n IH]; intros i d Hai Hin Hb Hs.
  - cbn. replace b with i by lia. split; [constructor|exact Hs].
  - cbn [insertionOuter].
    destruct (insertionInner_spec a (S i) i d) as [Hsh Hsorted]; try lia.
    { apply sortedRange_except, Hs. }
    destruct (IH (S i) (insertionInner less a i d)) as [Hsh' Hsorted']; try lia.
    { rewrite (shuffled_length _ _ _ _ Hsh). lia. }
    { exact Hsorted. }
    split; [|exact Hsorted'].
    apply (shuffled_trans a b _ (insertionInner less a i d)); [|exact Hsh'].
    apply (shuffled_weaken a (S i)); [lia|lia|exact Hsh].
Qed.

Lemma sortedRange_short (a b : nat) (d : list A) :
  (b <= a + 1)%nat -> sortedRange a b d.
Proof. intros H i j x y Hi Hij Hj. lia. Qed.

Lemma insertionSort_func_spec (d : list A) (a b : nat) :
  (a <= b)%nat -> (b <= length d)%nat ->
  shuffled a b d (insertionSort_func less d a b) /\
  sortedRange a b (insertionSort_func less d a b).
Proof.
  intros Hab Hb. unfold insertionSort_func.
  destruct (decide (b <= a + 1)%nat) as [Hshort|Hlong].
  - replace (b - (a + 1))%nat with 0%nat by lia. cbn.
    split; [constructor|apply sortedRange_short, Hshort].
  - apply insertionOuter_spec; try lia. apply sortedRange_short. lia.
Qed.

(** *** Partition around a pivot *)

Lemma rangeAll_empty (P : A -> Prop) (a b : nat) (d : list A) :
  (b <= a)%nat -> rangeAll P a b d.
Proof. intros H k x Hk. lia. Qed.

Lemma rangeAll_app (P : A -> Prop) (a m b : nat) (d : list A) :
  rangeAll P a m d -> rangeAll P m b d -> rangeAll P a b d.
Proof.
  intros H1 H2 k x Hk Hx. destruct (Nat.lt_ge_cases k m).
  - apply (H1 k x); [lia|exact Hx].
  - apply (H2 k x); [lia|exact Hx].
Qed.

Lemma rangeAll_sub (P : A -> Prop) (a b a' b' : nat) (d : list A) :
  (a <= a')%nat -> (b' <= b)%nat -> rangeAll P a b d -> rangeAll P a' b' d.
Proof. intros Ha Hb H k x Hk Hx. apply (H k x); [lia|exact Hx]. Qed.

Lemma rangeAll_impl (P Q : A -> Prop) (a b : nat) (d : list A) :
  (forall x, P x -> Q x) -> rangeAll P a b d -> rangeAll Q a b d.
Proof. intros HPQ H k x Hk Hx. apply HPQ, (H k x); assumption. Qed.

Lemma scanUpLess_spec (d : list A) (a j : nat) (p : A) (fuel : nat) : forall i : nat,
  d !! a = Some p -> (j < length d)%nat -> (j + 1 - i <= fuel)%nat ->
  (i <= scanUpLess less fuel d a i j)%nat /\
  (scanUpLess less fuel d a i j <= Nat.max i (j + 1))%nat /\
  rangeAll (fun x => less x p = true) i (scanUpLess less fuel d a i j) d /\
  ((scanUpLess less fuel d a i j <= j)%nat ->
   exists x, d !! scanUpLess less fuel d a i j = Some x /\ less x p = false).
Proof.
  induction fuel as [|fuel IH]; intros i Hp Hj Hfuel.
  - cbn. split; [lia|]. split; [lia|]. split; [apply rangeAll_empty; lia|]. lia.
  - cbn [scanUpLess]. destruct (i <=? j)%nat eqn:Hij; cbn [andb].
    + apply Nat.leb_le in Hij.
      destruct (lookup_lt_is_Some_2 d i) as [x Hx]; [lia|].
      rewrite (Less_spec d i a x p Hx Hp).
      destruct (less x p) eqn:Hlt.
      * destruct (IH (S i) Hp Hj) as (H1 & H2 & H3 & H4); [lia|].
        split; [lia|]. split; [lia|]. split; [|exact H4].
        apply (rangeAll_app _ i (S i)); [|exact H3].
        intros k y Hk Hy. replace k with i in Hy by lia. congruence.
      * split; [lia|]. split; [lia|]. split; [apply rangeAll_empty; lia|].
        intros _. exists x. split; assumption.
    + apply Nat.leb_gt in Hij.
      split; [lia|]. split; [lia|]. split; [apply rangeAll_empty; lia|]. lia.
Qed.

Lemma scanDownNotLess_spec (d : list A) (a i : nat) (p : A) (fuel : nat) :
  forall j1 : nat,
  d !! a = Some p -> (j1 <= length d)%nat -> (j1 - i <= fuel)%nat ->
  (scanDownNotLess less fuel d a i j1 <= j1)%nat /\
  (Nat.min i j1 <= scanDownNotLess less fuel d a i j1)%nat /\
  rangeAll (fun x => less x p = false) (scanDownNotLess less fuel d a i j1) j1 d /\
  ((i < scanDownNotLess less fuel d a i j1)%nat ->
   exists x, d !! (scanDownNotLess less fuel d a i j1 - 1)%nat = Some x /\
             less x p = true).
Proof.
  induction fuel as [|fuel IH]; intros j1 Hp Hj Hfuel.
  - cbn. split; [lia|]. split; [lia|]. split; [apply rangeAll_empty; lia|]. lia.
  - cbn [scanDownNotLess]. destruct j1 as [|j].
    { split; [lia|]. split; [lia|]. split; [apply rangeAll_empty; lia|]. lia. }
    destruct (i <=? j)%nat eqn:Hij; cbn [andb].
    + apply Nat.leb_le in Hij.
      destruct (lookup_lt_is_Some_2 d j) as [x Hx]; [lia|].
      rewrite (Less_spec d j a x p Hx Hp).
      destruct (less x p) eqn:Hlt; cbn [negb].
      * split; [lia|]. split; [lia|]. split; [apply rangeAll_empty; lia|].
        intros _. exists x. replace (S j - 1)%nat with j by lia. split; assumption.
      * destruct (IH j Hp) as (H1 & H2 & H3 & H4); [lia|lia|].
        split; [lia|]. split; [lia|]. split; [|exact H4].
        apply (rangeAll_app _ _ j); [exact H3|].
        intros k y Hk Hy. replace k with j in Hy by lia. congruence.
    + apply Nat.leb_gt in Hij.
      split; [lia|]. split; [lia|]. split; [apply rangeAll_empty; lia|]. lia.
Qed.

(** What [partition_func] keeps between its steps: the pivot at [a],
    lesser elements up to [i], the others from [j1] on. *)
Definition partitioning (a b i j1 : nat) (p : A) (d : list A) : Prop :=
  d !! a = Some p /\ (a < i)%nat /\ (i <= j1)%nat /\ (j1 <= b)%nat /\
  (b <= length d)%nat /\
  rangeAll (fun x => less x p = true) (a + 1) i d /\
  rangeAll (fun x => less x p = false) j1 b d.

Lemma partition_scans (a b i j1 : nat) (p : A) (d : list A) (f1 f2 : nat) :
  partitioning a b i j1 p d -> (j1 - i <= f1)%nat -> (j1 - i <= f2)%nat ->
  let i2 := scanUpLess less f1 d a i (j1 - 1) in
  let j2 := scanDownNotLess less f2 d a i2 j1 in
  (i <= i2)%nat /\ (j2 <= j1)%nat /\
  ((j2 <= i2)%nat -> partitioning a b j2 j2 p d) /\
  ((i2 < j2)%nat ->
   (S i2 <= j2 - 1)%nat /\
   partitioning a b (S i2) (j2 - 1) p (Swap d i2 (j2 - 1))).
Proof.
  intros (Hp & Hai & Hij & Hjb & Hb & Hlo & Hhi) Hf1 Hf2 i2 j2.
  destruct (scanUpLess_spec d a (j1 - 1) p f1 i Hp) as (U1 & U2 & U3 & U4);
    [lia|lia|]. fold i2 in U1, U2, U3, U4.
  destruct (scanDownNotLess_spec d a i2 p f2 j1 Hp) as (D1 & D2 & D3 & D4);
    [lia|lia|]. fold j2 in D1, D2, D3, D4.
  assert (Hlo2 : rangeAll (fun x => less x p = true) (a + 1) i2 d)
    by (apply (rangeAll_app _ _ i); assumption).
  assert (Hhi2 : rangeAll (fun x => less x p = false) j2 b d)
    by (apply (rangeAll_app _ _ j1); assumption).
  split; [exact U1|]. split; [exact D1|]. split.
  - intros Hexit. repeat split; try assumption; try lia.
    apply (rangeAll_sub _ (a + 1) i2); [lia|lia|exact Hlo2].
  - intros Hgo.
    destruct U4 as (x & Hx & Hxp); [lia|].
    destruct D4 as (y & Hy & Hyp); [lia|].
    assert (Hne : i2 <> (j2 - 1)%nat) by (intros E; rewrite <- E in Hy; congruence).
    split; [lia|].
    repeat split; try lia.
    + rewrite Swap_lookup_other by lia. exact Hp.
    + rewrite Swap_length. exact Hb.
    + intros k u Hk Hu. rewrite Swap_lookup in Hu by lia.
      repeat case_decide; subst; try lia.
      * congruence.
      * apply (Hlo2 k u); [lia|exact Hu].
    + intros k u Hk Hu. rewrite Swap_lookup in Hu by lia.
      repeat case_decide; subst; try lia.
      * congruence.
      * apply (Hhi2 k u); [lia|exact Hu].
Qed.

Lemma partitionLoop_spec (a b : nat) (p : A) (fuel : nat) : forall (d : list A) (i j1 : nat),
  partitioning a b i j1 p d -> (j1 - i <= fuel)%nat ->
  shuffled (a + 1) b d (partitionLoop less fuel d a i j1).1 /\
  partitioning a b (partitionLoop less fuel d a i j1).2
    (partitionLoop less fuel d a i j1).2 p (partitionLoop less fuel d a i j1).1.
Proof.
  induction fuel as [|fuel IH]; intros d i j1 Hinv Hfuel.
  - cbn. split; [constructor|].
    destruct Hinv as (Hp & Hai & Hij & Hjb & Hb & Hlo & Hhi).
    repeat split; try assumption; try lia.
    apply (rangeAll_sub _ (a + 1) i); [lia|lia|exact Hlo].
  - cbn [partitionLoop].
    destruct (partition_scans a b i j1 p d (S j1) (S j1) Hinv) as (H1 & H2 & H3 & H4);
      [lia|lia|].
    cbv zeta in H1, H2, H3, H4.
    set (i2 := scanUpLess less (S j1) d a i (j1 - 1)) in *.
    set (j2 := scanDownNotLess less (S j1) d a i2 j1) in *.
    destruct (j2 <=? i2)%nat eqn:Hexit.
    + apply Nat.leb_le in Hexit. cbn. split; [constructor|apply H3, Hexit].
    + apply Nat.leb_gt in Hexit. destruct (H4 Hexit) as [Hlt Hinv'].
      destruct (IH (Swap d i2 (j2 - 1)) (S i2) (j2 - 1)%nat Hinv') as [Hsh Hres]; [lia|].
      split; [|exact Hres].
      destruct Hinv as (Hp & Hai & Hij & Hjb & Hb & Hlo & Hhi).
      apply (shuffled_step _ _ d i2 (j2 - 1)); [lia|lia|exact Hsh].
Qed.

(** The last swap of [partition_func] puts the pivot between the two
    parts. *)
Lemma partition_finish (a b j1 : nat) (p : A) (d : list A) :
  partitioning a b j1 j1 p d ->
  shuffled a b d (Swap d (j1 - 1) a) /\
  (a <= j1 - 1)%nat /\ (j1 - 1 < b)%nat /\
  Swap d (j1 - 1) a !! (j1 - 1)%nat = Some p /\
  rangeAll (fun x => less x p = true) a (j1 - 1) (Swap d (j1 - 1) a) /\
  rangeAll (fun x => less x p = false) (j1 - 1 + 1) b (Swap d (j1 - 1) a).
Proof.
  intros (Hp & Hai & _ & Hjb & Hb & Hlo & Hhi).
  split; [apply shuffled_swap; lia|]. split; [lia|]. split; [lia|].
  split; [|split].
  - rewrite Swap_lookup by lia.
    destruct (decide ((j1 - 1)%nat = a)) as [E|E]; [rewrite E; exact Hp|].
    rewrite decide_True by reflexivity. exact Hp.
  - intros k u Hk Hu. rewrite Swap_lookup in Hu by lia.
    repeat case_decide; subst; try lia.
    + apply (Hlo (j1 - 1)%nat u); [lia|exact Hu].
    + apply (Hlo k u); [lia|exact Hu].
  - intros k u Hk Hu. rewrite Swap_lookup in Hu by lia.
    repeat case_decide; subst; try lia.
    apply (Hhi k u); [lia|exact Hu].
Qed.

Lemma partition_func_spec (d : list A) (a b pivot : nat) (p : A) :
  (a <= pivot)%nat -> (pivot < b)%nat -> (b <= length d)%nat ->
  d !! pivot = Some p ->
  let d' := (partition_func less d a b pivot).1.1 in
  let mid := (partition_func less d a b pivot).1.2 in
  shuffled a b d d' /\ (a <= mid)%nat /\ (mid < b)%nat /\
  d' !! mid = Some p /\
  rangeAll (fun x => less x p = true) a mid d' /\
  rangeAll (fun x => less x p = false) (mid + 1) b d'.
Proof.
  intros Hap Hpb Hb Hp. unfold partition_func.
  set (d1 := Swap d a pivot).
  assert (Hsh1 : shuffled a b d d1) by (apply shuffled_swap; lia).
  assert (Hinv : partitioning a b (a + 1) b p d1).
  { repeat split; try lia.
    - unfold d1. rewrite Swap_lookup by lia.
      destruct (decide (a = pivot)) as [->|E]; [exact Hp|].
      rewrite decide_True by reflexivity. exact Hp.
    - unfold d1. rewrite Swap_length. exact Hb.
    - apply rangeAll_empty; lia.
    - apply rangeAll_empty; lia. }
  destruct (partition_scans a b (a + 1) b p d1 b b Hinv) as (H1 & H2 & H3 & H4);
    [lia|lia|].
  cbv zeta in H1, H2, H3, H4.
  set (i2 := scanUpLess less b d1 a (a + 1) (b - 1)) in *.
  set (j2 := scanDownNotLess less b d1 a i2 b) in *.
  destruct (j2 <=? i2)%nat eqn:Hexit.
  - apply Nat.leb_le in Hexit. cbn [fst snd].
    destruct (partition_finish a b j2 p d1 (H3 Hexit)) as (F1 & F2 & F3 & F4 & F5 & F6).
    split; [exact (shuffled_trans _ _ _ _ _ Hsh1 F1)|].
    repeat split; assumption.
  - apply Nat.leb_gt in Hexit. destruct (H4 Hexit) as [Hlt Hinv'].
    destruct (partitionLoop_spec a b p b (Swap d1 i2 (j2 - 1)) (S i2) (j2 - 1)%nat Hinv')
      as [Hsh Hres]; [lia|].
    destruct (partitionLoop less b (Swap d1 i2 (j2 - 1)) a (S i2) (j2 - 1)) as [d2 j3].
    cbn [fst snd] in *.
    destruct (partition_finish a b j3 p d2 Hres) as (F1 & F2 & F3 & F4 & F5 & F6).
    split; [|repeat split; assumption].
    apply (shuffled_trans _ _ _ _ _ Hsh1).
    apply (shuffled_step _ _ d1 i2 (j2 - 1)); [lia|lia|].
    apply (shuffled_trans _ _ _ d2); [|exact F1].
    apply (shuffled_weaken (a + 1) b); [lia|lia|exact Hsh].
Qed.

(** *** Partition of a range that has elements equal to the pivot *)

Lemma scanUpNotGreater_spec (d : list A) (a j : nat) (p : A) (fuel : nat) :
  forall i : nat,
  d !! a = Some p -> (j < length d)%nat -> (j + 1 - i <= fuel)%nat ->
  (i <= scanUpNotGreater less fuel d a i j)%nat /\
  (scanUpNotGreater less fuel d a i j <= Nat.max i (j + 1))%nat /\
  rangeAll (fun x => less p x = false) i (scanUpNotGreater less fuel d a i j) d /\
  ((scanUpNotGreater less fuel d a i j <= j)%nat ->
   exists x, d !! scanUpNotGreater less fuel d a i j = Some x /\ less p x = true).
Proof.
  induction fuel as [|fuel IH]; intros i Hp Hj Hfuel.
  - cbn. split; [lia|]. split; [lia|]. split; [apply rangeAll_empty; lia|]. lia.
  - cbn [scanUpNotGreater]. destruct (i <=? j)%nat eqn:Hij; cbn [andb].
    + apply Nat.leb_le in Hij.
      destruct (lookup_lt_is_Some_2 d i) as [x Hx]; [lia|].
      rewrite (Less_spec d a i p x Hp Hx).
      destruct (less p x) eqn:Hlt; cbn [negb].
      * split; [lia|]. split; [lia|]. split; [apply rangeAll_empty; lia|].
        intros _. exists x. split; assumption.
      * destruct (IH (S i) Hp Hj) as (H1 & H2 & H3 & H4); [lia|].
        split; [lia|]. split; [lia|]. split; [|exact H4].
        apply (rangeAll_app _ i (S i)); [|exact H3].
        intros k y Hk Hy. replace k with i in Hy by lia. congruence.
    + apply Nat.leb_gt in Hij.
      split; [lia|]. split; [lia|]. split; [apply rangeAll_empty; lia|]. lia.
Qed.

Lemma scanDownGreater_spec (d : list A) (a i : nat) (p : A) (fuel : nat) :
  forall j1 : nat,
  d !! a = Some p -> (j1 <= length d)%nat -> (j1 - i <= fuel)%nat ->
  (scanDownGreater less fuel d a i j1 <= j1)%nat /\
  (Nat.min i j1 <= scanDownGreater less fuel d a i j1)%nat /\
  rangeAll (fun x => less p x = true) (scanDownGreater less fuel d a i j1) j1 d /\
  ((i < scanDownGreater less fuel d a i j1)%nat ->
   exists x, d !! (scanDownGreater less fuel d a i j1 - 1)%nat = Some x /\
             less p x = false).
Proof.
  induction fuel as [|fuel IH]; intros j1 Hp Hj Hfuel.
  - cbn. split; [lia|]. split; [lia|]. split; [apply rangeAll_empty; lia|]. lia.
  - cbn [scanDownGreater]. destruct j1 as [|j].
    { split; [lia|]. split; [lia|]. split; [apply rangeAll_empty; lia|]. lia. }
    destruct (i <=? j)%nat eqn:Hij; cbn [andb].
    + apply Nat.leb_le in Hij.
      destruct (lookup_lt_is_Some_2 d j) as [x Hx]; [lia|].
      rewrite (Less_spec d a j p x Hp Hx).
      destruct (less p x) eqn:Hlt.
      * destruct (IH j Hp) as (H1 & H2 & H3 & H4); [lia|lia|].
        split; [lia|]. split; [lia|]. split; [|exact H4].
        apply (rangeAll_app _ _ j); [exact H3|].
        intros k y Hk Hy. replace k with j in Hy by lia. congruence.
      * split; [lia|]. split; [lia|]. split; [apply rangeAll_empty; lia|].
        intros _. exists x. replace (S j - 1)%nat with j by lia. split; assumption.
    + apply Nat.leb_gt in Hij.
      split; [lia|]. split; [lia|]. split; [apply rangeAll_empty; lia|]. lia.
Qed.

(** What [partitionEqual_func] keeps: the pivot at [a], elements not
    greater up to [i], greater ones from [j1] on. *)
Definition partitioningEqual (a b i j1 : nat) (p : A) (d : list A) : Prop :=
  d !! a = Some p /\ (a < i)%nat /\ (i <= j1)%nat /\ (j1 <= b)%nat /\
  (b <= length d)%nat /\
  rangeAll (fun x => less p x = false) a i d /\
  rangeAll (fun x => less p x = true) j1 b d.

Lemma partitionEqualLoop_spec (a b : nat) (p : A) (fuel : nat) :
  forall (d : list A) (i j1 : nat),
  partitioningEqual a b i j1 p d -> (j1 - i < fuel)%nat ->
  let d' := (partitionEqualLoop less fuel d a i j1).1 in
  let mid := (partitionEqualLoop less fuel d a i j1).2 in
  shuffled (a + 1) b d d' /\ partitioningEqual a b mid mid p d'.
Proof.
  induction fuel as [|fuel IH]; intros d i j1 Hinv Hfuel; [lia|].
  cbn [partitionEqualLoop].
  destruct Hinv as (Hp & Hai & Hij & Hjb & Hb & Hlo & Hhi).
  destruct (scanUpNotGreater_spec d a (j1 - 1) p (S j1) i Hp) as (U1 & U2 & U3 & U4);
    [lia|lia|].
  set (i2 := scanUpNotGreater less (S j1) d a i (j1 - 1)) in *.
  destruct (scanDownGreater_spec d a i2 p (S j1) j1 Hp) as (D1 & D2 & D3 & D4);
    [lia|lia|].
  set (j2 := scanDownGreater less (S j1) d a i2 j1) in *.
  assert (Hlo2 : rangeAll (fun x => less p x = false) a i2 d)
    by (apply (rangeAll_app _ _ i); assumption).
  assert (Hhi2 : rangeAll (fun x => less p x = true) j2 b d)
    by (apply (rangeAll_app _ _ j1); assumption).
  destruct (j2 <=? i2)%nat eqn:Hexit.
  - apply Nat.leb_le in Hexit. cbv zeta. cbn [fst snd]. split; [constructor|].
    repeat split; try assumption; try lia.
    apply (rangeAll_sub _ j2 b); [lia|lia|exact Hhi2].
  - apply Nat.leb_gt in Hexit.
    destruct U4 as (x & Hx & Hxp); [lia|].
    destruct D4 as (y & Hy & Hyp); [lia|].
    assert (Hne : i2 <> (j2 - 1)%nat) by (intros E; rewrite <- E in Hy; congruence).
    destruct (IH (Swap d i2 (j2 - 1)) (S i2) (j2 - 1)%nat) as [Hsh Hres]; [|lia|].
    + repeat split; try lia.
      * rewrite Swap_lookup_other by lia. exact Hp.
      * rewrite Swap_length. exact Hb.
      * intros k u Hk Hu. rewrite Swap_lookup in Hu by lia.
        repeat case_decide; subst; try lia.
        -- congruence.
        -- apply (Hlo2 k u); [lia|exact Hu].
      * intros k u Hk Hu. rewrite Swap_lookup in Hu by lia.
        repeat case_decide; subst; try lia.
        -- congruence.
        -- apply (Hhi2 k u); [lia|exact Hu].
    + split; [|exact Hres].
      apply (shuffled_step _ _ d i2 (j2 - 1)); [lia|lia|exact Hsh].
Qed.

Lemma partitionEqual_func_spec (d : list A) (a b pivot : nat) (p : A) :
  (a <= pivot)%nat -> (pivot < b)%nat -> (b <= length d)%nat ->
  d !! pivot = Some p ->
  let d' := (partitionEqual_func less d a b pivot).1 in
  let mid := (partitionEqual_func less d a b pivot).2 in
  shuffled a b d d' /\ (a < mid)%nat /\ (mid <= b)%nat /\
  rangeAll (fun x => less p x = false) a mid d' /\
  rangeAll (fun x => less p x = true) mid b d'.
Proof.
  intros Hap Hpb Hb Hp. unfold partitionEqual_func.
  destruct (partitionEqualLoop_spec a b p (S b) (Swap d a pivot) (a + 1) b)
    as [Hsh (_ & H1 & _ & H2 & _ & H3 & H4)]; [|lia|].
  - assert (Ha : Swap d a pivot !! a = Some p).
    { rewrite Swap_lookup by lia.
      destruct (decide (a = pivot)) as [->|E]; [exact Hp|].
      rewrite decide_True by reflexivity. exact Hp. }
    repeat split; try lia.
    + exact Ha.
    + rewrite Swap_length. exact Hb.
    + intros k u Hk Hu. replace k with a in Hu by lia.
      assert (u = p) as -> by congruence. apply less_irrefl.
    + apply rangeAll_empty; lia.
  - split; [|repeat split; assumption].
    apply (shuffled_trans _ _ _ (Swap d a pivot)); [apply shuffled_swap; lia|].
    apply (shuffled_weaken (a + 1) b); [lia|lia|exact Hsh].
Qed.

(** *** The choice of the pivot *)

Lemma median_func_in (d : list A) (a b c swaps : nat) :
  (median_func less d a b c swaps).1 = a \/
  (median_func less d a b c swaps).1 = b \/
  (median_func less d a b c swaps).1 = c.
Proof.
  unfold median_func, order2_func.
  destruct (Less less d b a); destruct (Less less d c _);
    destruct (Less less d _ _); cbn; auto.
Qed.

Lemma choosePivot_func_range (d : list A) (a b : nat) :
  (12 < b - a)%nat ->
  (a <= (choosePivot_func less d a b).1)%nat /\
  ((choosePivot_func less d a b).1 < b)%nat.
Proof.
  intros Hl. unfold choosePivot_func, medianAdjacent_func. cbv zeta.
  assert (H8 : (8 <=? b - a)%nat = true) by (apply Nat.leb_le; lia).
  rewrite H8.
  assert (Hq : (3 <= (b - a) / 4)%nat) by (apply Nat.div_le_lower_bound; lia).
  assert (Hq' : (4 * ((b - a) / 4) <= b - a)%nat) by (apply Nat.Div0.mul_div_le).
  destruct (50 <=? b - a)%nat eqn:H50.
  - repeat match goal with
           | |- context [median_func less d ?x ?y ?z ?s] =>
               let H := fresh "Hm" in
               pose proof (median_func_in d x y z s) as H;
               destruct (median_func less d x y z s) as [? ?]
           end.
    cbn [fst snd] in *.
    repeat match goal with |- context [(?x =? ?y)%nat] => destruct (x =? y)%nat end;
      cbn [fst]; lia.
  - repeat match goal with
           | |- context [median_func less d ?x ?y ?z ?s] =>
               let H := fresh "Hm" in
               pose proof (median_func_in d x y z s) as H;
               destruct (median_func less d x y z s) as [? ?]
           end.
    cbn [fst snd] in *.
    repeat match goal with |- context [(?x =? ?y)%nat] => destruct (x =? y)%nat end;
      cbn [fst]; lia.
Qed.

(** *** Reversal and the breaking of patterns *)

Lemma reverseLoop_shuffled (a b : nat) (fuel : nat) : forall (d : list A) (i j : nat),
  (a <= i)%nat -> (j < b)%nat -> shuffled a b d (reverseLoop fuel d i j).
Proof.
  induction fuel as [|fuel IH]; intros d i j Hi Hj; [constructor|].
  cbn [reverseLoop]. destruct (i <? j)%nat eqn:Hij; [|constructor].
  apply Nat.ltb_lt in Hij.
  apply (shuffled_step _ _ d i j); [lia|lia|]. apply IH; lia.
Qed.

Lemma reverseRange_func_shuffled (d : list A) (a b : nat) :
  (a < b)%nat -> shuffled a b d (reverseRange_func d a b).
Proof. intros Hab. apply reverseLoop_shuffled; lia. Qed.

Lemma land_mask (r : Z) (k : Z) : 0 <= k -> 0 <= Z.land r (2 ^ k - 1) < 2 ^ k.
Proof.
  intros Hk. replace (2 ^ k - 1) with (Z.ones k) by (rewrite Z.ones_equiv; lia).
  rewrite Z.land_ones by exact Hk. apply Z.mod_pos_bound. lia.
Qed.

Lemma nextPowerOfTwo_bound (n : nat) :
  (0 < n)%nat -> nextPowerOfTwo n <= 2 * Z.of_nat n.
Proof.
  intros Hn. unfold nextPowerOfTwo, bitsLen.
  destruct (n =? 0)%nat eqn:E; [apply Nat.eqb_eq in E; lia|].
  pose proof (Z.log2_nonneg (Z.of_nat n)) as Hlog.
  rewrite Z2Nat.id by lia.
  rewrite Z.pow_add_r by lia.
  pose proof (Z.log2_spec (Z.of_nat n)) as Hspec. lia.
Qed.

Lemma breakLoop_shuffled (a b idx len : nat) (k : Z) (n : nat) :
  forall (i : nat) (random : Z) (d : list A),
  (a + len = b)%nat -> (0 < len)%nat -> 0 <= k -> 2 ^ k <= 2 * Z.of_nat len ->
  (a <= idx - 1 + i)%nat -> (idx - 1 + i + n <= b)%nat ->
  shuffled a b d (breakLoop xorshiftNext n i random (2 ^ k) d a idx len).
Proof.
  induction n as [|n IH]; intros i random d Hab Hlen Hk Hpow Hlo Hhi; [constructor|].
  cbn [breakLoop].
  pose proof (land_mask (xorshiftNext random) k Hk) as Hmask.
  set (other := Z.to_nat (Z.land (xorshiftNext random) (2 ^ k - 1))) in *.
  assert (Hother : (other < 2 * len)%nat) by (unfold other; lia).
  apply (shuffled_step _ _ d (idx - 1 + i) (a + (if (len <=? other)%nat then (other - len)%nat else other))).
  - lia.
  - destruct (len <=? other)%nat eqn:E;
      [apply Nat.leb_le in E|apply Nat.leb_gt in E]; lia.
  - apply IH; try assumption; lia.
Qed.

Lemma breakPatterns_func_shuffled (d : list A) (a b : nat) :
  shuffled a b d (breakPatterns_func xorshiftNext d a b).
Proof.
  unfold breakPatterns_func. destruct (8 <=? b - a)%nat eqn:H8; [|constructor].
  apply Nat.leb_le in H8. unfold nextPowerOfTwo.
  assert (Hq : (2 <= (b - a) / 4)%nat) by (apply Nat.div_le_lower_bound; lia).
  assert (Hq' : (4 * ((b - a) / 4) <= b - a)%nat) by (apply Nat.Div0.mul_div_le).
  apply breakLoop_shuffled; try lia.
  apply (nextPowerOfTwo_bound (b - a)). lia.
Qed.

(** *** The partial insertion sort *)

(** No element of the range is less than the one just before the range:
    so it is when the range is the right part of a partition. *)
Definition lowerBound (a b : nat) (d : list A) : Prop :=
  forall x, (0 < a)%nat -> d !! (a - 1)%nat = Some x ->
    rangeAll (fun y => less y x = false) a b d.

Lemma lowerBound_shuffled (a b a' b' : nat) (d d' : list A) :
  shuffled a' b' d d' -> (a <= a')%nat -> (b' <= b)%nat ->
  lowerBound a b d -> lowerBound a b d'.
Proof.
  intros Hsh Ha Hb Hlb x Ha0 Hx.
  rewrite (shuffled_outside _ _ _ _ _ Hsh) in Hx by lia.
  apply (shuffled_rangeAll _ a b a' b' d d' Hsh Ha Hb). apply Hlb; assumption.
Qed.

Lemma lowerBound_sub (a b b' : nat) (d : list A) :
  (b' <= b)%nat -> lowerBound a b d -> lowerBound a b' d.
Proof.
  intros Hb Hlb x Ha Hx. apply (rangeAll_sub _ a b); [lia|lia|]. apply Hlb; assumption.
Qed.

Lemma shiftLeft_inner (a b j : nat) : forall d : list A,
  (a <= j)%nat -> (j < b)%nat -> (b <= length d)%nat -> lowerBound a b d ->
  shiftLeft less j d = insertionInner less a j d.
Proof.
  induction j as [|j IH]; intros d Haj Hjb Hb Hlb; [reflexivity|].
  cbn [shiftLeft insertionInner].
  destruct (Less less d (S j) j) eqn:Hless; cbn [negb];
    [|rewrite andb_false_r; reflexivity].
  destruct (a <? S j)%nat eqn:Ha; cbn [andb].
  - apply Nat.ltb_lt in Ha. apply IH; try lia.
    + rewrite Swap_length. exact Hb.
    + apply (lowerBound_shuffled a b a b d); [|lia|lia|exact Hlb].
      apply shuffled_swap; lia.
  - apply Nat.ltb_ge in Ha. assert (a = S j) as -> by lia.
    destruct (lookup_lt_is_Some_2 d (S j)) as [x Hx]; [lia|].
    destruct (lookup_lt_is_Some_2 d j) as [y Hy]; [lia|].
    rewrite (Less_spec d (S j) j x y Hx Hy) in Hless.
    assert (Hxy : less x y = false).
    { apply (Hlb y) with (k := S j); [lia| |lia|exact Hx].
      replace (S j - 1)%nat with j by lia. exact Hy. }
    congruence.
Qed.

Lemma shiftRight_shuffled (b : nat) (fuel : nat) : forall (j : nat) (d : list A),
  (0 < j)%nat -> shuffled (j - 1) b d (shiftRight less fuel j b d).
Proof.
  induction fuel as [|fuel IH]; intros j d Hj; [constructor|].
  cbn [shiftRight]. destruct (j <? b)%nat eqn:Hjb; [|constructor].
  apply Nat.ltb_lt in Hjb.
  destruct (negb (Less less d j (j - 1))); [constructor|].
  apply (shuffled_step _ _ d j (j - 1)); [lia|lia|].
  apply (shuffled_weaken (S j - 1) b); [lia|lia|]. apply IH. lia.
Qed.

Lemma sortedRange_snoc (a i : nat) (d : list A) (x y : A) :
  sortedRange a i d -> d !! (i - 1)%nat = Some y -> d !! i = Some x ->
  less x y = false -> sortedRange a (S i) d.
Proof.
  intros Hs Hy Hx Hxy k j u v Hk Hkj Hj Hu Hv.
  destruct (decide (j = i)) as [->|Hji]; [|apply (Hs k j u v); try lia; assumption].
  assert (v = x) as -> by congruence.
  destruct (decide (k = (i - 1)%nat)) as [->|Hki]; [congruence|].
  apply (notLess_trans x y u Hxy).
  apply (Hs k (i - 1)%nat u y); try lia; assumption.
Qed.

Lemma scanSorted_spec (a b : nat) (d : list A) (fuel : nat) : forall i : nat,
  (a < i)%nat -> (i <= b)%nat -> (b <= length d)%nat -> sortedRange a i d ->
  (i <= scanSorted less fuel d i b)%nat /\ (scanSorted less fuel d i b <= b)%nat /\
  sortedRange a (scanSorted less fuel d i b) d.
Proof.
  induction fuel as [|fuel IH]; intros i Hai Hib Hb Hs.
  - cbn. split; [lia|]. split; [lia|exact Hs].
  - cbn [scanSorted]. destruct (i <? b)%nat eqn:Hlt; cbn [andb].
    + apply Nat.ltb_lt in Hlt.
      destruct (lookup_lt_is_Some_2 d i) as [x Hx]; [lia|].
      destruct (lookup_lt_is_Some_2 d (i - 1)) as [y Hy]; [lia|].
      rewrite (Less_spec d i (i - 1) x y Hx Hy).
      destruct (less x y) eqn:Hxy; cbn [negb].
      * split; [lia|]. split; [lia|exact Hs].
      * destruct (IH (S i)) as (H1 & H2 & H3); try lia.
        { apply (sortedRange_snoc a i d x y); assumption. }
        split; [lia|]. split; [lia|exact H3].
    + split; [lia|]. split; [lia|exact Hs].
Qed.

Lemma sortedRange_sub (a b a' b' : nat) (d : list A) :
  (a <= a')%nat -> (b' <= b)%nat -> sortedRange a b d -> sortedRange a' b' d.
Proof.
  intros Ha Hb Hs i j x y Hi Hij Hj. apply Hs; lia.
Qed.

Lemma partialInsertionLoop_spec (a b : nat) (steps : nat) : forall (d : list A) (i : nat),
  (a < i)%nat -> (i <= b)%nat -> (b <= length d)%nat ->
  sortedRange a i d -> lowerBound a b d ->
  shuffled a b d (partialInsertionLoop less steps d a b i).1 /\
  ((partialInsertionLoop less steps d a b i).2 = true ->
   sortedRange a b (partialInsertionLoop less steps d a b i).1).
Proof.
  induction steps as [|steps IH]; intros d i Hai Hib Hb Hs Hlb.
  - cbn. split; [constructor|discriminate].
  - cbn [partialInsertionLoop]. cbv zeta.
    destruct (scanSorted_spec a b d b i Hai Hib Hb Hs) as (S1 & S2 & S3).
    set (i' := scanSorted less b d i b) in *.
    destruct (i' =? b)%nat eqn:Hend.
    { apply Nat.eqb_eq in Hend. cbn [fst snd]. split; [constructor|].
      intros _. rewrite <- Hend. exact S3. }
    apply Nat.eqb_neq in Hend.
    destruct (b - a <? 50)%nat; [cbn; split; [constructor|discriminate]|].
    set (d1 := Swap d i' (i' - 1)).
    assert (Hsh1 : shuffled a b d d1) by (apply shuffled_swap; lia).
    assert (Hlen1 : length d1 = length d) by apply Swap_length.
    assert (Hs1 : sortedRange a (i' - 1) d1).
    { intros k j u v Hk Hkj Hj Hu Hv. unfold d1 in Hu, Hv.
      rewrite Swap_lookup_other in Hu, Hv by lia.
      apply (S3 k j u v); try lia; assumption. }
    set (d2 := if (2 <=? i' - a)%nat then shiftLeft less (i' - 1) d1 else d1).
    assert (H2 : shuffled a i' d1 d2 /\ sortedRange a i' d2).
    { unfold d2. destruct (2 <=? i' - a)%nat eqn:Hleft.
      - apply Nat.leb_le in Hleft.
        rewrite (shiftLeft_inner a b (i' - 1) d1); try lia;
          [|apply (lowerBound_shuffled a b a b d); [exact Hsh1|lia|lia|exact Hlb]].
        replace i' with (S (i' - 1)) at 1 3 by lia.
        apply insertionInner_spec; try lia.
        apply sortedRange_except, Hs1.
      - apply Nat.leb_gt in Hleft. split; [constructor|].
        apply sortedRange_short. lia. }
    destruct H2 as [Hsh2 Hs2].
    set (d3 := if (2 <=? b - i')%nat then shiftRight less b (i' + 1) b d2 else d2).
    assert (Hsh3 : shuffled i' b d2 d3).
    { unfold d3. destruct (2 <=? b - i')%nat; [|constructor].
      replace i' with (i' + 1 - 1)%nat at 1 by lia.
      apply shiftRight_shuffled. lia. }
    assert (Hsh : shuffled a b d d3).
    { apply (shuffled_trans _ _ _ d1 _ Hsh1).
      apply (shuffled_trans _ _ _ d2).
      - apply (shuffled_weaken a i'); [lia|lia|exact Hsh2].
      - apply (shuffled_weaken i' b); [lia|lia|exact Hsh3]. }
    destruct (IH d3 i') as [Hsh' Hdone]; try lia.
    + rewrite (shuffled_length _ _ _ _ Hsh). exact Hb.
    + apply (sortedRange_outside a i' i' b d2 d3 Hsh3); [lia|exact Hs2].
    + apply (lowerBound_shuffled a b a b d); [exact Hsh|lia|lia|exact Hlb].
    + split; [|exact Hdone]. exact (shuffled_trans _ _ _ _ _ Hsh Hsh').
Qed.

Lemma partialInsertionSort_func_spec (d : list A) (a b : nat) :
  (a < b)%nat -> (b <= length d)%nat -> lowerBound a b d ->
  shuffled a b d (partialInsertionSort_func less d a b).1 /\
  ((partialInsertionSort_func less d a b).2 = true ->
   sortedRange a b (partialInsertionSort_func less d a b).1).
Proof.
  intros Hab Hb Hlb. unfold partialInsertionSort_func.
  apply partialInsertionLoop_spec; try lia; [|exact Hlb].
  apply sortedRange_short. lia.
Qed.

(** *** Heap sort *)

Lemma lookup_same (d : list A) (i j : nat) (x y : A) :
  i = j -> d !! i = Some x -> d !! j = Some y -> x = y.
Proof. intros -> Hx Hy. congruence. Qed.

(** The node [i] of the heap that starts at [first] is not less than
    its children among the first [hi] nodes. *)
Definition heapAt (first hi : nat) (d : list A) (i : nat) : Prop :=
  forall c x y, (c = 2 * i + 1 \/ c = 2 * i + 2)%nat -> (c < hi)%nat ->
    d !! (first + i)%nat = Some x -> d !! (first + c)%nat = Some y ->
    less x y = false.

Lemma heapAt_leaf (first hi : nat) (d : list A) (i : nat) :
  (hi <= 2 * i + 1)%nat -> heapAt first hi d i.
Proof. intros H c x y Hc Hchi. lia. Qed.

(** The greater child, as [siftDown_func] picks it. *)
Lemma siftDown_child (first hi root : nat) (d : list A) :
  (first + hi <= length d)%nat -> (2 * root + 1 < hi)%nat ->
  let child := (2 * root + 1)%nat in
  let child' :=
    if (child + 1 <? hi)%nat && Less less d (first + child) (first + child + 1)
    then (child + 1)%nat else child in
  (child' = 2 * root + 1 \/ child' = 2 * root + 2)%nat /\ (child' < hi)%nat /\
  forall o y z, (o = 2 * root + 1 \/ o = 2 * root + 2)%nat -> (o < hi)%nat ->
    d !! (first + child')%nat = Some y -> d !! (first + o)%nat = Some z ->
    less y z = false.
Proof.
  intros Hlen Hc. cbv zeta.
  destruct (2 * root + 1 + 1 <? hi)%nat eqn:H2; cbn [andb].
  - apply Nat.ltb_lt in H2.
    destruct (lookup_lt_is_Some_2 d (first + (2 * root + 1))) as [u Hu]; [lia|].
    destruct (lookup_lt_is_Some_2 d (first + (2 * root + 1) + 1)) as [v Hv]; [lia|].
    rewrite (Less_spec d _ _ u v Hu Hv).
    destruct (less u v) eqn:Huv.
    + split; [right; lia|]. split; [lia|].
      intros o y z Ho Hoh Hy Hz.
      assert (y = v) as -> by (apply (lookup_same d _ _ y v) with (2 := Hy) (3 := Hv); lia).
      destruct Ho as [->| ->].
      * assert (z = u) as -> by (apply (lookup_same d _ _ z u) with (2 := Hz) (3 := Hu); lia).
        apply (less_asym less less_irrefl less_trans _ _ Huv).
      * assert (z = v) as -> by (apply (lookup_same d _ _ z v) with (2 := Hz) (3 := Hv); lia).
        apply less_irrefl.
    + split; [left; reflexivity|]. split; [lia|].
      intros o y z Ho Hoh Hy Hz.
      assert (y = u) as -> by congruence.
      destruct Ho as [->| ->].
      * assert (z = u) as -> by congruence. apply less_irrefl.
      * assert (z = v) as -> by (apply (lookup_same d _ _ z v) with (2 := Hz) (3 := Hv); lia).
        exact Huv.
  - apply Nat.ltb_ge in H2.
    split; [left; reflexivity|]. split; [lia|].
    intros o y z Ho Hoh Hy Hz. destruct Ho as [->| ->]; [|lia].
    assert (z = y) as -> by congruence. apply less_irrefl.
Qed.

Lemma siftDown_loop_spec (first lo hi : nat) (fuel : nat) : forall (d : list A) (root : nat),
  (lo <= root)%nat -> (first + hi <= length d)%nat -> (hi <= root + fuel)%nat ->
  (forall i, (lo <= i)%nat -> i <> root -> heapAt first hi d i) ->
  (forall q c x y, (lo <= q)%nat -> (root = 2 * q + 1 \/ root = 2 * q + 2)%nat ->
     (c = 2 * root + 1 \/ c = 2 * root + 2)%nat -> (c < hi)%nat ->
     d !! (first + q)%nat = Some x -> d !! (first + c)%nat = Some y ->
     less x y = false) ->
  shuffled (first + lo) (first + hi) d (siftDown_loop less fuel d root hi first) /\
  (forall i, (lo <= i)%nat ->
     heapAt first hi (siftDown_loop less fuel d root hi first) i).
Proof.
  induction fuel as [|fuel IH]; intros d root Hlo Hlen Hfuel Hheap Hgrand.
  - cbn. split; [constructor|]. intros i Hi.
    destruct (decide (i = root)) as [->|Hne]; [apply heapAt_leaf; lia|].
    apply Hheap; assumption.
  - cbn [siftDown_loop]. cbv zeta.
    destruct (hi <=? 2 * root + 1)%nat eqn:Hleaf.
    { apply Nat.leb_le in Hleaf. split; [constructor|]. intros i Hi.
      destruct (decide (i = root)) as [->|Hne]; [apply heapAt_leaf; lia|].
      apply Hheap; assumption. }
    apply Nat.leb_gt in Hleaf.
    destruct (siftDown_child first hi root d Hlen Hleaf) as (Hc & Hchi & Hmax).
    cbv zeta in Hc, Hchi, Hmax.
    set (child := if (2 * root + 1 + 1 <? hi)%nat &&
                     Less less d (first + (2 * root + 1)) (first + (2 * root + 1) + 1)
                  then (2 * root + 1 + 1)%nat else (2 * root + 1)%nat) in *.
    destruct (lookup_lt_is_Some_2 d (first + root)) as [x Hx]; [lia|].
    destruct (lookup_lt_is_Some_2 d (first + child)) as [y Hy]; [lia|].
    rewrite (Less_spec d _ _ x y Hx Hy).
    destruct (less x y) eqn:Hxy; cbn [negb].
    + destruct (IH (Swap d (first + root) (first + child)) child) as [Hsh Hres]; try lia.
      * rewrite Swap_length. exact Hlen.
      * intros i Hi Hne c u v Hci Hch Hu Hv.
        rewrite Swap_lookup in Hu, Hv by lia.
        destruct (decide (i = root)) as [->|Hir].
        -- rewrite decide_False in Hu by lia. rewrite decide_True in Hu by reflexivity.
           assert (u = y) as -> by congruence.
           destruct (decide (first + c = first + child)%nat) as [E|E].
           ++ assert (v = x) as -> by congruence.
              apply (less_asym less less_irrefl less_trans _ _ Hxy).
           ++ rewrite decide_False in Hv by lia.
              apply (Hmax c y v Hci Hch Hy Hv).
        -- rewrite decide_False in Hu by lia. rewrite decide_False in Hu by lia.
           rewrite decide_False in Hv by lia.
           destruct (decide (first + c = first + root)%nat) as [E|E].
           ++ assert (v = y) as -> by congruence.
              apply (Hgrand i child u y); try assumption; lia.
           ++ apply (Hheap i Hi Hir c u v); assumption.
      * intros q c u v Hq Hqc Hcc Hch Hu Hv.
        assert (q = root) as -> by lia.
        rewrite Swap_lookup in Hu, Hv by lia.
        rewrite decide_False in Hu by lia. rewrite decide_True in Hu by reflexivity.
        rewrite decide_False in Hv by lia. rewrite decide_False in Hv by lia.
        assert (u = y) as -> by congruence.
        apply (Hheap child) with (c := c); try assumption; lia.
      * split; [|exact Hres].
        apply (shuffled_step _ _ d (first + root) (first + child)); [lia|lia|exact Hsh].
    + split; [constructor|]. intros i Hi.
      destruct (decide (i = root)) as [->|Hne]; [|apply Hheap; assumption].
      intros c u v Hc' Hch Hu Hv.
      assert (u = x) as -> by congruence.
      apply (notLess_trans x y v Hxy). apply (Hmax c y v Hc' Hch Hy Hv).
Qed.

Lemma siftDown_func_spec (first lo hi : nat) (d : list A) :
  (first + hi <= length d)%nat ->
  (forall i, (lo < i)%nat -> heapAt first hi d i) ->
  shuffled (first + lo) (first + hi) d (siftDown_func less d lo hi first) /\
  (forall i, (lo <= i)%nat -> heapAt first hi (siftDown_func less d lo hi first) i).
Proof.
  intros Hlen Hheap. unfold siftDown_func.
  apply siftDown_loop_spec; try lia.
  intros i Hi Hne. apply Hheap. lia.
Qed.

Lemma heapBuild_spec (first hi : nat) (i : nat) : forall d : list A,
  (first + hi <= length d)%nat ->
  (forall k, (i < k)%nat -> heapAt first hi d k) ->
  shuffled first (first + hi) d (heapBuild less i d hi first) /\
  (forall k, heapAt first hi (heapBuild less i d hi first) k).
Proof.
  induction i as [|i IH]; intros d Hlen Hheap.
  - cbn [heapBuild]. destruct (siftDown_func_spec first 0 hi d Hlen Hheap) as [Hsh Hres].
    rewrite Nat.add_0_r in Hsh. split; [exact Hsh|].
    intros k. apply Hres. lia.
  - cbn [heapBuild].
    destruct (siftDown_func_spec first (S i) hi d Hlen Hheap) as [Hsh Hres].
    destruct (IH (siftDown_func less d (S i) hi first)) as [Hsh' Hres'].
    + rewrite (shuffled_length _ _ _ _ Hsh). exact Hlen.
    + intros k Hk. apply Hres. lia.
    + split; [|exact Hres'].
      apply (shuffled_trans _ _ _ (siftDown_func less d (S i) hi first)); [|exact Hsh'].
      apply (shuffled_weaken (first + S i) (first + hi)); [lia|lia|exact Hsh].
Qed.

(** The root of a heap is not less than any of its nodes. *)
Lemma heap_root (first hi : nat) (d : list A) (m : A) :
  (first + hi <= length d)%nat -> (forall k, heapAt first hi d k) ->
  d !! first = Some m ->
  rangeAll (fun x => less m x = false) first (first + hi) d.
Proof.
  intros Hlen Hheap Hm.
  assert (Hall : forall k x, (k < hi)%nat -> d !! (first + k)%nat = Some x ->
                             less m x = false).
  { induction k as [k IH] using lt_wf_ind. intros x Hk Hx.
    destruct k as [|k].
    - rewrite Nat.add_0_r in Hx. assert (x = m) as -> by congruence. apply less_irrefl.
    - pose proof (Nat.div_mod_eq k 2) as Hdiv.
      pose proof (Nat.mod_upper_bound k 2) as Hmod.
      destruct (lookup_lt_is_Some_2 d (first + k / 2)) as [y Hy]; [lia|].
      apply (notLess_trans m y x).
      + apply (IH (k / 2)%nat); [lia|lia|exact Hy].
      + apply (Hheap (k / 2)%nat (S k) y x); [lia|lia|exact Hy|exact Hx]. }
  intros k x Hk Hx. apply (Hall (k - first)%nat x); [lia|].
  replace (first + (k - first))%nat with k by lia. exact Hx.
Qed.

Lemma heapPop_spec (first hi : nat) (n : nat) : forall d : list A,
  (n <= hi)%nat -> (first + hi <= length d)%nat ->
  (forall k, heapAt first n d k) ->
  sortedRange (first + n) (first + hi) d ->
  (forall j y, (first + n <= j)%nat -> (j < first + hi)%nat -> d !! j = Some y ->
     rangeAll (fun x => less y x = false) first (first + n) d) ->
  shuffled first (first + hi) d (heapPop less n d 0 first) /\
  sortedRange first (first + hi) (heapPop less n d 0 first).
Proof.
  induction n as [|i IH]; intros d Hn Hlen Hheap Hs Hcross.
  - cbn. rewrite Nat.add_0_r in Hs. split; [constructor|exact Hs].
  - cbn [heapPop].
    destruct (lookup_lt_is_Some_2 d first) as [m Hm]; [lia|].
    pose proof (heap_root first (S i) d m ltac:(lia) Hheap Hm) as Hroot.
    set (d1 := Swap d first (first + i)).
    assert (Hsh1 : shuffled first (first + hi) d d1) by (apply shuffled_swap; lia).
    assert (Hlen1 : length d1 = length d) by apply Swap_length.
    assert (Hlast : d1 !! (first + i)%nat = Some m).
    { unfold d1. rewrite Swap_lookup by lia. rewrite decide_True by reflexivity. exact Hm. }
    destruct (siftDown_func_spec first 0 i d1) as [Hsh2 Hheap2]; [lia| |].
    { intros k Hk c x y Hc Hci Hx Hy. unfold d1 in Hx, Hy.
      rewrite Swap_lookup_other in Hx, Hy by lia.
      apply (Hheap k c x y); try assumption; lia. }
    set (d2 := siftDown_func less d1 0 i first) in *.
    rewrite Nat.add_0_r in Hsh2.
    assert (Hcross1 : forall j y, (first + i <= j)%nat -> (j < first + hi)%nat ->
              d1 !! j = Some y -> rangeAll (fun x => less y x = false) first (first + S i) d).
    { intros j y Hj Hjh Hy.
      destruct (decide (j = first + i)%nat) as [->|Hne].
      - assert (y = m) as -> by congruence. exact Hroot.
      - unfold d1 in Hy. rewrite Swap_lookup_other in Hy by lia.
        apply (Hcross j y); [lia|lia|exact Hy]. }
    destruct (IH d2) as [Hsh3 Hs3]; try lia.
    + rewrite (shuffled_length _ _ _ _ Hsh2). lia.
    + intros k. apply Hheap2. lia.
    + apply (sortedRange_outside (first + i) (first + hi) first (first + i) d1 d2 Hsh2);
        [lia|].
      intros j k u v Hj Hjk Hk Hu Hv.
      assert (Hv' : d !! k = Some v)
        by (unfold d1 in Hv; rewrite Swap_lookup_other in Hv by lia; exact Hv).
      destruct (decide (j = first + i)%nat) as [->|Hne].
      * assert (u = m) as -> by congruence.
        apply (Hcross k v) with (k := first); [lia|lia|exact Hv'|lia|exact Hm].
      * unfold d1 in Hu. rewrite Swap_lookup_other in Hu by lia.
        apply (Hs j k u v); try lia; assumption.
    + intros j y Hj Hjh Hy.
      rewrite (shuffled_outside _ _ _ _ j Hsh2) in Hy by lia.
      apply (shuffled_rangeAll _ first (first + i) first (first + i) d1 d2 Hsh2);
        [lia|lia|].
      pose proof (Hcross1 j y Hj Hjh Hy) as Hall.
      intros k x Hk Hx. unfold d1 in Hx. rewrite Swap_lookup in Hx by lia.
      rewrite decide_False in Hx by lia.
      destruct (decide (k = first)) as [->|Hkf].
      * apply (Hall (first + i)%nat x); [lia|exact Hx].
      * apply (Hall k x); [lia|exact Hx].
    + split; [|exact Hs3].
      apply (shuffled_trans _ _ _ d1 _ Hsh1).
      apply (shuffled_trans _ _ _ d2 _); [|exact Hsh3].
      apply (shuffled_weaken first (first + i)); [lia|lia|exact Hsh2].
Qed.

Lemma heapSort_func_spec (d : list A) (a b : nat) :
  (a <= b)%nat -> (b <= length d)%nat ->
  shuffled a b d (heapSort_func less d a b) /\
  sortedRange a b (heapSort_func less d a b).
Proof.
  intros Hab Hb. unfold heapSort_func. cbv zeta.
  pose proof (Nat.div_mod_eq (b - a - 1) 2) as Hdiv.
  pose proof (Nat.mod_upper_bound (b - a - 1) 2) as Hmod.
  destruct (heapBuild_spec a (b - a) ((b - a - 1) / 2) d) as [Hsh Hheap]; [lia| |].
  { intros k Hk. apply heapAt_leaf. lia. }
  set (d1 := heapBuild less ((b - a - 1) / 2) d (b - a) a) in *.
  destruct (heapPop_spec a (b - a) (b - a) d1) as [Hsh' Hs]; try lia.
  - rewrite (shuffled_length _ _ _ _ Hsh). lia.
  - exact Hheap.
  - intros i j x y Hi Hij Hj. lia.
  - replace (a + (b - a))%nat with b in * by lia.
    split; [exact (shuffled_trans _ _ _ _ _ Hsh Hsh')|exact Hs].
Qed.

(** *** The loop of [pdqsort_func] *)

(** The range is split at [mid]: lesser elements before the pivot, the
    others after it. *)
Definition partitioned (a mid b : nat) (p : A) (d : list A) : Prop :=
  d !! mid = Some p /\
  rangeAll (fun x => less x p = true) a mid d /\
  rangeAll (fun x => less x p = false) (mid + 1) b d.

Lemma partitioned_shuffled (a mid b a' b' : nat) (p : A) (d d' : list A) :
  shuffled a' b' d d' ->
  (a <= a' /\ b' <= mid)%nat \/ (mid + 1 <= a' /\ b' <= b)%nat ->
  partitioned a mid b p d -> partitioned a mid b p d'.
Proof.
  intros Hsh Hside (Hp & Hlo & Hhi). split; [|split].
  - rewrite (shuffled_outside _ _ _ _ mid Hsh) by lia. exact Hp.
  - destruct Hside as [[H1 H2]|[H1 H2]].
    + apply (shuffled_rangeAll _ a mid a' b' d d' Hsh); assumption.
    + intros k x Hk Hx. rewrite (shuffled_outside _ _ _ _ k Hsh) in Hx by lia.
      apply (Hlo k x); assumption.
  - destruct Hside as [[H1 H2]|[H1 H2]].
    + intros k x Hk Hx. rewrite (shuffled_outside _ _ _ _ k Hsh) in Hx by lia.
      apply (Hhi k x); assumption.
    + apply (shuffled_rangeAll _ (mid + 1) b a' b' d d' Hsh); assumption.
Qed.

Lemma partitioned_lowerBound (a mid b : nat) (p : A) (d : list A) :
  partitioned a mid b p d -> lowerBound (mid + 1) b d.
Proof.
  intros (Hp & _ & Hhi) x _ Hx.
  replace (mid + 1 - 1)%nat with mid in Hx by lia.
  assert (x = p) as -> by congruence. exact Hhi.
Qed.

Lemma sortedRange_join (a mid b : nat) (p : A) (d : list A) :
  partitioned a mid b p d ->
  sortedRange a mid d -> sortedRange (mid + 1) b d -> sortedRange a b d.
Proof.
  intros (Hp & Hlo & Hhi) Hl Hr i j x y Hi Hij Hj Hx Hy.
  destruct (Nat.lt_trichotomy j mid) as [Hjm|[->|Hjm]].
  - apply (Hl i j x y); try lia; assumption.
  - assert (y = p) as -> by congruence.
    apply (less_asym less less_irrefl less_trans). apply (Hlo i x); [lia|exact Hx].
  - assert (Hyp : less y p = false) by (apply (Hhi j y); [lia|exact Hy]).
    destruct (Nat.lt_trichotomy i mid) as [Him|[->|Him]].
    + assert (Hxp : less x p = true) by (apply (Hlo i x); [lia|exact Hx]).
      destruct (less y x) eqn:Hyx; [|reflexivity].
      rewrite (less_trans y x p Hyx Hxp) in Hyp. discriminate.
    + assert (x = p) as -> by congruence. exact Hyp.
    + apply (Hr i j x y); try lia; assumption.
Qed.

(** After [partitionEqual_func], on a range bounded below by an element
    that the pivot is not greater than. *)
Lemma sortedRange_join_equal (a mid b : nat) (p : A) (d : list A) :
  (0 < a)%nat -> (a <= mid)%nat -> (mid <= b)%nat -> (b <= length d)%nat ->
  lowerBound a b d ->
  forall x0, d !! (a - 1)%nat = Some x0 -> less x0 p = false ->
  rangeAll (fun x => less p x = false) a mid d ->
  rangeAll (fun x => less p x = true) mid b d ->
  sortedRange mid b d -> sortedRange a b d.
Proof.
  intros Ha Ham Hmb Hb Hlb x0 Hx0 Hx0p Hlo Hhi Hr i j x y Hi Hij Hj Hx Hy.
  destruct (Nat.lt_ge_cases i mid) as [Him|Him].
  - assert (Hpx : less p x = false) by (apply (Hlo i x); [lia|exact Hx]).
    destruct (Nat.lt_ge_cases j mid) as [Hjm|Hjm].
    + assert (Hyx0 : less y x0 = false) by (apply (Hlb x0 Ha Hx0 j y); [lia|exact Hy]).
      apply (notLess_trans y p x); [|exact Hpx].
      apply (notLess_trans y x0 p); assumption.
    + assert (Hpy : less p y = true) by (apply (Hhi j y); [lia|exact Hy]).
      destruct (less y x) eqn:Hyx; [|reflexivity].
      rewrite (less_trans p y x Hpy Hyx) in Hpx. discriminate.
  - apply (Hr i j x y); try lia; assumption.
Qed.

Lemma lowerBound_equal (a mid b : nat) (p : A) (d : list A) :
  (a < mid)%nat -> (mid <= b)%nat ->
  rangeAll (fun x => less p x = false) a mid d ->
  rangeAll (fun x => less p x = true) mid b d ->
  lowerBound mid b d.
Proof.
  intros Ham Hmb Hlo Hhi x _ Hx k y Hk Hy.
  assert (Hpx : less p x = false) by (apply (Hlo (mid - 1)%nat x); [lia|exact Hx]).
  assert (Hpy : less p y = true) by (apply (Hhi k y); [lia|exact Hy]).
  destruct (less y x) eqn:Hyx; [|reflexivity].
  rewrite (less_trans p y x Hpy Hyx) in Hpx. discriminate.
Qed.

Lemma pdqsort_loop_spec (fuel : nat) :
  forall (d : list A) (a b limit : nat) (wasBalanced wasPartitioned : bool),
  (a <= b)%nat -> (b <= length d)%nat -> (b - a < fuel)%nat -> lowerBound a b d ->
  shuffled a b d
    (pdqsort_loop less xorshiftNext fuel d a b limit wasBalanced wasPartitioned) /\
  sortedRange a b
    (pdqsort_loop less xorshiftNext fuel d a b limit wasBalanced wasPartitioned).
Proof.
  induction fuel as [|fuel IH]; intros d a b limit wasBalanced wasPartitioned
    Hab Hb Hfuel Hlb; [lia|].
  cbn [pdqsort_loop]. cbv zeta.
  destruct (b - a <=? 12)%nat eqn:Hshort; [apply insertionSort_func_spec; assumption|].
  apply Nat.leb_gt in Hshort.
  destruct (limit =? 0)%nat; [apply heapSort_func_spec; assumption|].
  destruct (if negb wasBalanced
            then (breakPatterns_func xorshiftNext d a b, (limit - 1)%nat)
            else (d, limit)) as [d1 limit1] eqn:Hbreak.
  assert (Hsh1 : shuffled a b d d1).
  { destruct wasBalanced; cbn [negb] in Hbreak; injection Hbreak as <- <-;
      [constructor|apply breakPatterns_func_shuffled]. }
  pose proof (choosePivot_func_range d1 a b Hshort) as Hpivot.
  destruct (choosePivot_func less d1 a b) as [pivot hint]. cbn [fst] in Hpivot.
  destruct (match hint with
            | decreasingHint =>
                (reverseRange_func d1 a b, (b - 1 - (pivot - a))%nat, increasingHint)
            | _ => (d1, pivot, hint)
            end) as [[d2 pivot2] hint2] eqn:Hrev.
  assert (Hsh2 : shuffled a b d1 d2 /\ (a <= pivot2)%nat /\ (pivot2 < b)%nat).
  { destruct hint; injection Hrev as <- <- <-;
      try (split; [constructor|lia]).
    split; [apply reverseRange_func_shuffled; lia|lia]. }
  destruct Hsh2 as (Hsh2 & Hp2a & Hp2b).
  assert (Hsh12 : shuffled a b d d2) by exact (shuffled_trans _ _ _ _ _ Hsh1 Hsh2).
  destruct (match wasBalanced && wasPartitioned, hint2 with
            | true, increasingHint => partialInsertionSort_func less d2 a b
            | _, _ => (d2, false)
            end) as [d3 done] eqn:Hpartial.
  assert (Hsh3 : shuffled a b d2 d3 /\ (done = true -> sortedRange a b d3)).
  { destruct (wasBalanced && wasPartitioned); destruct hint2;
      try (injection Hpartial as <- <-; split; [constructor|discriminate]).
    destruct (partialInsertionSort_func_spec d2 a b) as [P1 P2]; [lia| | |].
    - rewrite (shuffled_length _ _ _ _ Hsh12). exact Hb.
    - apply (lowerBound_shuffled a b a b d); [exact Hsh12|lia|lia|exact Hlb].
    - rewrite Hpartial in P1, P2. split; assumption. }
  destruct Hsh3 as [Hsh3 Hdone].
  assert (Hsh : shuffled a b d d3) by exact (shuffled_trans _ _ _ _ _ Hsh12 Hsh3).
  assert (Hlen3 : length d3 = length d) by exact (shuffled_length _ _ _ _ Hsh).
  assert (Hlb3 : lowerBound a b d3)
    by (apply (lowerBound_shuffled a b a b d); [exact Hsh|lia|lia|exact Hlb]).
  destruct done; [split; [exact Hsh|apply Hdone; reflexivity]|]. clear Hdone.
  destruct (lookup_lt_is_Some_2 d3 pivot2) as [p Hp]; [lia|].
  destruct ((0 <? a)%nat && negb (Less less d3 (a - 1) pivot2)) eqn:Hequal.
  - apply andb_true_iff in Hequal as [Ha Hnot]. apply Nat.ltb_lt in Ha.
    destruct (lookup_lt_is_Some_2 d3 (a - 1)) as [x0 Hx0]; [lia|].
    rewrite (Less_spec d3 _ _ x0 p Hx0 Hp) in Hnot. apply negb_true_iff in Hnot.
    destruct (partitionEqual_func_spec d3 a b pivot2 p) as (E1 & E2 & E3 & E4 & E5);
      try lia; [exact Hp|].
    destruct (partitionEqual_func less d3 a b pivot2) as [d4 mid].
    cbn [fst snd] in E1, E2, E3, E4, E5.
    assert (Hlen4 : length d4 = length d3) by exact (shuffled_length _ _ _ _ E1).
    destruct (IH d4 mid b limit1 wasBalanced wasPartitioned) as [R1 R2]; try lia.
    { apply (lowerBound_equal a mid b p); assumption. }
    set (d5 := pdqsort_loop less xorshiftNext fuel d4 mid b limit1 wasBalanced
                 wasPartitioned) in *.
    assert (Hsh45 : shuffled a b d4 d5)
      by (apply (shuffled_weaken mid b); [lia|lia|exact R1]).
    split.
    + exact (shuffled_trans _ _ _ _ _ Hsh (shuffled_trans _ _ _ _ _ E1 Hsh45)).
    + apply (sortedRange_join_equal a mid b p d5) with (x0 := x0); try lia.
      * rewrite (shuffled_length _ _ _ _ R1). lia.
      * apply (lowerBound_shuffled a b a b d3);
          [exact (shuffled_trans _ _ _ _ _ E1 Hsh45)|lia|lia|exact Hlb3].
      * rewrite (shuffled_outside _ _ _ _ _ Hsh45) by lia.
        rewrite (shuffled_outside _ _ _ _ _ E1) by lia. exact Hx0.
      * exact Hnot.
      * intros k x Hk Hx. rewrite (shuffled_outside _ _ _ _ k R1) in Hx by lia.
        apply (E4 k x); assumption.
      * apply (shuffled_rangeAll _ mid b mid b d4 d5 R1); [lia|lia|exact E5].
      * exact R2.
  - clear Hequal.
    destruct (partition_func_spec d3 a b pivot2 p) as (P1 & P2 & P3 & P4 & P5 & P6);
      try lia; [exact Hp|].
    destruct (partition_func less d3 a b pivot2) as [[d4 mid] already].
    cbn [fst snd] in P1, P2, P3, P4, P5, P6.
    assert (Hpart : partitioned a mid b p d4) by (split; [|split]; assumption).
    assert (Hlen4 : length d4 = length d3) by exact (shuffled_length _ _ _ _ P1).
    assert (Hlb4 : lowerBound a b d4)
      by (apply (lowerBound_shuffled a b a b d3); [exact P1|lia|lia|exact Hlb3]).
    destruct (mid - a <? b - mid)%nat.
    + destruct (IH d4 a mid limit1 true true) as [L1 L2]; try lia.
      { apply (lowerBound_sub a b); [lia|exact Hlb4]. }
      set (d5 := pdqsort_loop less xorshiftNext fuel d4 a mid limit1 true true) in *.
      assert (Hpart5 : partitioned a mid b p d5)
        by (apply (partitioned_shuffled a mid b a mid p d4); [exact L1|lia|exact Hpart]).
      match goal with
      | |- context [pdqsort_loop less xorshiftNext fuel d5 (mid + 1) b limit1 ?wb ?wp] =>
          destruct (IH d5 (mid + 1)%nat b limit1 wb wp) as [R1 R2]; try lia;
            [rewrite (shuffled_length _ _ _ _ L1); lia
            |apply (partitioned_lowerBound a mid b p), Hpart5|];
          set (d6 := pdqsort_loop less xorshiftNext fuel d5 (mid + 1) b limit1 wb wp) in *
      end.
      split.
      * apply (shuffled_trans _ _ _ _ _ Hsh). apply (shuffled_trans _ _ _ _ _ P1).
        apply (shuffled_trans _ _ _ d5).
        -- apply (shuffled_weaken a mid); [lia|lia|exact L1].
        -- apply (shuffled_weaken (mid + 1) b); [lia|lia|exact R1].
      * apply (sortedRange_join a mid b p).
        -- apply (partitioned_shuffled a mid b (mid + 1) b p d5); [exact R1|lia|exact Hpart5].
        -- apply (sortedRange_outside a mid (mid + 1) b d5 d6 R1); [lia|exact L2].
        -- exact R2.
    + destruct (IH d4 (mid + 1)%nat b limit1 true true) as [R1 R2]; try lia.
      { apply (partitioned_lowerBound a mid b p), Hpart. }
      set (d5 := pdqsort_loop less xorshiftNext fuel d4 (mid + 1) b limit1 true true) in *.
      assert (Hpart5 : partitioned a mid b p d5)
        by (apply (partitioned_shuffled a mid b (mid + 1) b p d4);
            [exact R1|lia|exact Hpart]).
      match goal with
      | |- context [pdqsort_loop less xorshiftNext fuel d5 a mid limit1 ?wb ?wp] =>
          destruct (IH d5 a mid limit1 wb wp) as [L1 L2]; try lia;
            [rewrite (shuffled_length _ _ _ _ R1); lia
            |apply (lowerBound_sub a b); [lia|];
             apply (lowerBound_shuffled a b (mid + 1) b d4); [exact R1|lia|lia|exact Hlb4]|];
          set (d6 := pdqsort_loop less xorshiftNext fuel d5 a mid limit1 wb wp) in *
      end.
      split.
      * apply (shuffled_trans _ _ _ _ _ Hsh). apply (shuffled_trans _ _ _ _ _ P1).
        apply (shuffled_trans _ _ _ d5).
        -- apply (shuffled_weaken (mid + 1) b); [lia|lia|exact R1].
        -- apply (shuffled_weaken a mid); [lia|lia|exact L1].
      * apply (sortedRange_join a mid b p).
        -- apply (partitioned_shuffled a mid b a mid p d5); [exact L1|lia|exact Hpart5].
        -- exact L2.
        -- apply (sortedRange_outside (mid + 1) b a mid d5 d6 L1); [lia|exact R2].
Qed.

(** [sort.Slice] gives the elements back in order. *)
Lemma Slice_sorts (d : list A) :
  Permutation d (Slice less xorshiftNext d) /\
  StronglySorted (inOrder less) (Slice less xorshiftNext d).
Proof.
  unfold Slice, pdqsort_func. cbv zeta.
  destruct (pdqsort_loop_spec (length d - 0 + 1) d 0 (length d) (bitsLen (length d))
              true true) as [Hsh Hs]; try lia.
  { intros x Ha. lia. }
  split; [exact (shuffled_perm _ _ _ _ Hsh)|].
  apply sortedRange_full. rewrite (shuffled_length _ _ _ _ Hsh). exact Hs.
Qed.

End Pdqsort.

End PdqsortFacts.

(** ** sendBookDetails: the keyboard of the formats *)

Module FormatButtons.
Import Strings Models Tgbotapi Telegram Details Sort InsertionFacts FormatOrder
  PdqsortFacts.

Definition fb2 (label : string) : BookFormatOption :=
  {| Path := "fb2"; Label := label |}.

Definition epub (label : string) : BookFormatOption :=
  {| Path := "epub"; Label := label |}.

Definition pdf (label : string) : BookFormatOption :=
  {| Path := "pdf"; Label := label |}.

(** C5, amended: for a non-empty list of formats the buttons are those of
    the formats rearranged in ascending order of the uppercased (and
    space-trimmed) path, two per row, a last odd one alone; formats of
    the same key keep their order when there are at most twelve formats
    (beyond that [sort.Slice] does not keep it); and the paths "fb2" and
    "epub" come out as EPUB before FB2. *)
Theorem detailRows_sorted_pairs `{Unicode} (xorshiftNext : Z -> Z) (bookID : string)
    (formats : list BookFormatOption) :
  formats <> [] ->
  let sorted := Slice formatLess xorshiftNext formats in
  detailRows xorshiftNext bookID formats = pairs (formatButton bookID <$> sorted) /\
  concat (detailRows xorshiftNext bookID formats) = formatButton bookID <$> sorted /\
  Permutation formats sorted /\
  byKey sorted /\
  ((length formats <= 12)%nat -> keepsTies formats sorted) /\
  (forall l1 l2,
     detailRows xorshiftNext bookID [fb2 l1; epub l2] =
       [[formatButton bookID (epub l2); formatButton bookID (fb2 l1)]]).
Proof.
  intros Hne sorted.
  pose proof (Slice_sorts formatLess xorshiftNext formatLess_irrefl formatLess_trans
                formatLess_cotrans formats) as [Hperm Hsorted].
  split; [apply detailRows_pairs, Hne|].
  split; [rewrite (detailRows_pairs _ _ _ Hne); apply concat_pairs|].
  split; [exact Hperm|]. split; [exact Hsorted|]. split.
  - intros Hshort k. unfold sorted. rewrite Slice_short by exact Hshort.
    apply isort_stable, hasKey_unordered.
  - intros l1 l2. rewrite detailRows_pairs by discriminate.
    rewrite Slice_short by (cbn; lia). reflexivity.
Qed.

Lemma detailRows_sorted_pairs_witness :
  let formats := [fb2 "fb2 (1.2 MB)"; epub "epub"; pdf "pdf"] in
  let sorted := Slice (@formatLess asciiOnly) (fun r => r) formats in
  @detailRows asciiOnly (fun r => r) "77" formats =
    pairs (@formatButton asciiOnly "77" <$> sorted) /\
  concat (@detailRows asciiOnly (fun r => r) "77" formats) =
    (@formatButton asciiOnly "77" <$> sorted) /\
  Permutation formats sorted /\
  @byKey asciiOnly sorted /\
  ((length formats <= 12)%nat -> @keepsTies asciiOnly formats sorted) /\
  (forall l1 l2,
     @detailRows asciiOnly (fun r => r) "77" [fb2 l1; epub l2] =
       [[@formatButton asciiOnly "77" (epub l2); @formatButton asciiOnly "77" (fb2 l1)]]).
Proof.
  apply (@detailRows_sorted_pairs asciiOnly (fun r => r) "77"
           [fb2 "fb2 (1.2 MB)"; epub "epub"; pdf "pdf"]).
  discriminate.
Defined.

(** The same by evaluation: three formats, two rows. *)
Example detailRows_three_formats :
  map (map Text)
    (@detailRows asciiOnly (fun r => r) "77"
       [fb2 "fb2 (1.2 MB)"; pdf "pdf"; epub "epub"]) =
    [["EPUB"; "FB2 (1.2 MB)"]; ["PDF"]].
Proof. vm_compute. reflexivity. Qed.

End FormatButtons.

(** ** The session store across calls *)

Module SessionFacts.
Import GoInt Models Tgbotapi Telegram Pagination Actions Messages.

Lemma getSession_setPage (b : Bot) (chatID p : Z) (s : searchSession) :
  sessions b !! chatID = Some s ->
  getSession (setPage b chatID p) chatID =
    Some {| books := books s; page := p; pageSize := pageSize s |}.
Proof.
  intros Hs. unfold getSession, setPage. rewrite Hs. cbn [sessions].
  apply lookup_insert_eq.
Qed.

Lemma getSession_setPage_other (b : Bot) (chatID other p : Z) :
  other <> chatID -> getSession (setPage b chatID p) other = getSession b other.
Proof.
  intros Hne. unfold getSession, setPage.
  destruct (sessions b !! chatID); [|reflexivity].
  cbn [sessions]. apply lookup_insert_ne. congruence.
Qed.

Lemma setPage_twice (b : Bot) (chatID p q : Z) :
  setPage (setPage b chatID p) chatID q = setPage b chatID q.
Proof.
  unfold setPage. destruct (sessions b !! chatID) as [s|] eqn:Hs.
  - cbn [sessions]. rewrite lookup_insert_eq. cbn [books pageSize sessions].
    rewrite insert_insert_eq. reflexivity.
  - rewrite Hs. reflexivity.
Qed.

Lemma clampPage_fixed (page pages : Z) :
  0 <= page -> page < pages -> clampPage page pages = page.
Proof.
  intros H0 H1. unfold clampPage.
  destruct (Z.leb_spec pages 0); [lia|].
  destruct (Z.ltb_spec page 0); [lia|].
  unfold Z.geb. destruct (Z.compare_spec page pages); lia.
Qed.

(** A page rendered from a session that has items is recorded in the
    session: the session keeps its books and its page size, its page
    becomes the page shown, which lies within the pages; no other chat
    changes; and rendering the recorded page again gives the same message
    and leaves the bot as it is. *)
Theorem buildPage_records_page (b : Bot) (chatID requested : Z) (s : searchSession) :
  sessions b !! chatID = Some s ->
  0 < pageSize s ->
  len (books s) + pageSize s <= max_int ->
  books s <> [] ->
  exists pages b' out,
    totalPages (len (books s)) (pageSize s) = Some pages /\
    buildPage b chatID requested = Some (b', out) /\
    0 <= clampPage requested pages < pages /\
    getSession b' chatID =
      Some {| books := books s; page := clampPage requested pages;
              pageSize := pageSize s |} /\
    (forall other, other <> chatID -> getSession b' other = getSession b other) /\
    buildPage b' chatID (clampPage requested pages) = Some (b', out).
Proof.
  intros Hs Hp Hb Hne.
  destruct (buildPage_rendered b chatID requested s Hs Hp Hb Hne)
    as (pages & Ht & Hpos & Hlo & Hlt & Hhi & Hbuild).
  cbv zeta in Hlo, Hlt, Hhi, Hbuild.
  assert (Hir : in_range pages).
  { destruct (totalPages_ceil (len (books s)) (pageSize s)) as (pages' & Ht' & _ & Hr);
      [apply len_nonneg|assumption|assumption|].
    assert (pages' = pages) by congruence. subst pages'.
    unfold in_range, min_int, max_int in *. pose proof (len_nonneg (books s)). lia. }
  pose proof (clampPage_range requested pages Hpos Hir) as Hcl.
  set (page := clampPage requested pages) in *.
  eexists pages, _, _. split; [exact Ht|]. split; [exact Hbuild|].
  split; [lia|].
  split; [apply getSession_setPage, Hs|].
  split; [intros other Ho; apply getSession_setPage_other, Ho|].
  pose proof (getSession_setPage b chatID page s Hs) as Hs'.
  destruct (buildPage_rendered (setPage b chatID page) chatID page _ Hs' Hp Hb Hne)
    as (pages' & Ht' & _ & _ & _ & _ & Hbuild').
  cbn [books pageSize] in Ht', Hbuild'. cbv zeta in Hbuild'.
  assert (pages' = pages) by congruence. subst pages'.
  rewrite (clampPage_fixed page pages) in Hbuild' by lia.
  rewrite setPage_twice in Hbuild'. exact Hbuild'.
Qed.

Lemma buildPage_records_page_witness :
  exists pages b' out,
    totalPages (len (books (sampleSession 25))) (pageSize (sampleSession 25)) = Some pages /\
    buildPage (sampleBot 25) 1 5 = Some (b', out) /\
    0 <= clampPage 5 pages < pages /\
    getSession b' 1 =
      Some {| books := books (sampleSession 25); page := clampPage 5 pages;
              pageSize := pageSize (sampleSession 25) |} /\
    (forall other, other <> 1 -> getSession b' other = getSession (sampleBot 25) other) /\
    buildPage b' 1 (clampPage 5 pages) = Some (b', out).
Proof.
  apply (buildPage_records_page (sampleBot 25) 1 5 (sampleSession 25)).
  - reflexivity.
  - reflexivity.
  - vm_compute. discriminate.
  - discriminate.
Defined.

Lemma find_first {A} (p : A -> bool) (l : list A) :
  match List.find p l with
  | Some x => p x = true /\
      exists pre post, l = pre ++ x :: post /\ Forall (fun y => p y = false) pre
  | None => Forall (fun y => p y = false) l
  end.
Proof.
  induction l as [|y l IH]; cbn [List.find]; [constructor|].
  destruct (p y) eqn:Hy.
  - split; [exact Hy|]. exists [], l. split; [reflexivity|constructor].
  - destruct (List.find p l) as [x|].
    + destruct IH as (Hx & pre & post & -> & Hpre). split; [exact Hx|].
      exists (y :: pre), post. split; [reflexivity|]. constructor; assumption.
    + constructor; assumption.
Qed.

(** [findBookInSession] gives the first book of the session of the chat
    that has the identifier; it finds none only when the chat has no
    session or no book of the session has the identifier. *)
Theorem findBookInSession_first (b : Bot) (chatID : Z) (bookID : string) :
  match findBookInSession b chatID bookID with
  | Some book =>
      ID book = bookID /\
      exists s pre post,
        getSession b chatID = Some s /\ books s = pre ++ book :: post /\
        Forall (fun x => ID x <> bookID) pre
  | None =>
      getSession b chatID = None \/
      exists s, getSession b chatID = Some s /\
                Forall (fun x => ID x <> bookID) (books s)
  end.
Proof.
  unfold findBookInSession. destruct (getSession b chatID) as [s|]; [|left; reflexivity].
  pose proof (find_first (fun book => String.eqb (ID book) bookID) (books s)) as Hf.
  destruct (List.find _ (books s)) as [book|].
  - destruct Hf as (Hb & pre & post & Heq & Hpre). apply String.eqb_eq in Hb.
    split; [exact Hb|]. exists s, pre, post. split; [reflexivity|]. split; [exact Heq|].
    eapply Forall_impl; [exact Hpre|]. intros x Hx. apply String.eqb_neq, Hx.
  - right. exists s. split; [reflexivity|].
    eapply Forall_impl; [exact Hf|]. intros x Hx. apply String.eqb_neq, Hx.
Qed.

(** A text that is not the start command and whose search finds books
    opens a new session: the books found, at the first page, with the
    page size of the bot, whatever the chat held before; the other chats
    keep theirs; and the answer is the notice of the search followed by
    one message, whose keyboard is the first books (ten at most) and the
    navigation row when there are more. *)
Theorem handleMessage_new_search (search : string -> list Book + string) (b : Bot)
    (msg : Message) (found : list Book) :
  IsCommand msg && String.eqb (Command msg) "start" = false ->
  search (MsgText msg) = inl found ->
  found <> [] ->
  len found + defaultPageSize <= max_int ->
  exists b' text markup pages,
    handleMessage search b msg =
      Some (b', [SendText (ChatID msg) (msgSearching (MsgText msg));
                 SendTextMarkup (ChatID msg) text markup]) /\
    totalPages (len found) defaultPageSize = Some pages /\
    getSession b' (ChatID msg) =
      Some {| books := found; page := 0; pageSize := defaultPageSize |} /\
    (forall other, other <> ChatID msg -> getSession b' other = getSession b other) /\
    InlineKeyboard markup =
      itemRows found 0 (Z.min (len found) defaultPageSize) ++
      (if pages >? 1 then [navRow 0 pages] else []).
Proof.
  intros Hcmd Hsearch Hne Hlen.
  set (s := {| books := found; page := 0; pageSize := defaultPageSize |}).
  assert (Hs : sessions (storeSession b (ChatID msg) found) !! ChatID msg = Some s)
    by apply lookup_insert_eq.
  destruct (buildPage_rendered (storeSession b (ChatID msg) found) (ChatID msg) 0 s Hs)
    as (pages & Ht & Hpos & _ & _ & _ & Hbuild); [reflexivity|exact Hlen|exact Hne|].
  cbv zeta in Hbuild. cbn [books pageSize s] in Ht, Hbuild.
  assert (Hcl : clampPage 0 pages = 0).
  { apply clampPage_fixed; lia. }
  rewrite Hcl in Hbuild.
  eexists _, _, _, pages. split; [|split; [exact Ht|]].
  - unfold handleMessage. rewrite Hcmd, Hsearch.
    assert (Hz : (len found =? 0) = false).
    { apply Z.eqb_neq. unfold len. destruct found; [congruence|]. cbn. lia. }
    rewrite Hz. unfold sendBooksPage. rewrite Hbuild.
    cbn [mbind option_bind negb fst snd]. reflexivity.
  - split; [exact (getSession_setPage _ _ 0 s Hs)|].
    split.
    + intros other Ho. rewrite getSession_setPage_other by exact Ho.
      unfold getSession, storeSession. cbn [sessions].
      apply lookup_insert_ne. congruence.
    + cbn [InlineKeyboard]. reflexivity.
Qed.

Definition sampleText : Message :=
  {| ChatID := 5; MsgText := "dune"; IsCommand := false; Command := "" |}.

Lemma handleMessage_new_search_witness :
  exists b' text markup pages,
    handleMessage (fun _ => inl (numbered <$> seqZ 0 12)) (sampleBot 3) sampleText =
      Some (b', [SendText 5 (msgSearching "dune"); SendTextMarkup 5 text markup]) /\
    totalPages (len (numbered <$> seqZ 0 12)) defaultPageSize = Some pages /\
    getSession b' 5 =
      Some {| books := numbered <$> seqZ 0 12; page := 0; pageSize := defaultPageSize |} /\
    (forall other, other <> 5 -> getSession b' other = getSession (sampleBot 3) other) /\
    InlineKeyboard markup =
      itemRows (numbered <$> seqZ 0 12) 0
        (Z.min (len (numbered <$> seqZ 0 12)) defaultPageSize) ++
      (if pages >? 1 then [navRow 0 pages] else []).
Proof.
  apply (handleMessage_new_search (fun _ => inl (numbered <$> seqZ 0 12)) (sampleBot 3)
           sampleText (numbered <$> seqZ 0 12)).
  - reflexivity.
  - reflexivity.
  - discriminate.
  - vm_compute. discriminate.
Defined.

End SessionFacts.

(** ** The buttons of the bot, read back by the dispatcher *)

Module ButtonFacts.
Import GoInt Strings Models Tgbotapi Telegram Details Callback CallbackFacts
  StorageFacts RegexpFacts.

Lemma HasPrefix_append (p s : string) : HasPrefix (p +:+ s) p = true.
Proof.
  induction p as [|c p IH]; [destruct s; reflexivity|].
  rewrite append_cons. cbn [HasPrefix]. rewrite Ascii.eqb_refl. exact IH.
Qed.

Lemma TrimPrefix_append (p s : string) : TrimPrefix (p +:+ s) p = s.
Proof. unfold TrimPrefix. rewrite HasPrefix_append. apply from_append. Qed.

(** *** Decimal numbers, written and read *)

Lemma digitsValue_acc (d : Decimal.uint) : forall acc : positive,
  digitsValue (Z.pos acc) (NilEmpty.string_of_uint d) = Z.pos (Pos.of_uint_acc d acc).
Proof.
  induction d as [|d IH|d IH|d IH|d IH|d IH|d IH|d IH|d IH|d IH|d IH]; intros acc;
    [reflexivity|..];
    cbn [NilEmpty.string_of_uint digitsValue Pos.of_uint_acc];
    rewrite <- IH; f_equal; cbn; lia.
Qed.

Lemma digitsValue_uint (d : Decimal.uint) :
  digitsValue 0 (NilEmpty.string_of_uint d) = Z.of_N (Pos.of_uint d).
Proof.
  induction d as [|d IH|d IH|d IH|d IH|d IH|d IH|d IH|d IH|d IH|d IH];
    [reflexivity|exact IH|..];
    cbn [NilEmpty.string_of_uint digitsValue Pos.of_uint Z.of_N];
    rewrite <- digitsValue_acc; reflexivity.
Qed.

Lemma all_isDigit_uint (d : Decimal.uint) :
  all isDigit (NilEmpty.string_of_uint d) = true.
Proof.
  induction d as [|d IH|d IH|d IH|d IH|d IH|d IH|d IH|d IH|d IH|d IH];
    [reflexivity|..]; cbn [NilEmpty.string_of_uint all]; rewrite IH; reflexivity.
Qed.

(** [strconv.Atoi] on a run of digits that is not empty. *)
Lemma Atoi_digits (s : string) :
  s <> EmptyString -> all isDigit s = true ->
  Atoi s = if (- 2 ^ 63 <=? digitsValue 0 s) && (digitsValue 0 s <=? 2 ^ 63 - 1)
           then Some (digitsValue 0 s) else None.
Proof.
  intros Hne Hall. destruct s as [|c s]; [congruence|].
  cbn [all] in Hall. apply andb_true_iff in Hall as [Hc Hs].
  unfold Atoi.
  destruct c as [[] [] [] [] [] [] [] []]; try discriminate Hc;
    cbn [all]; rewrite Hs; reflexivity.
Qed.

Lemma Atoi_minus_digits (s : string) :
  s <> EmptyString -> all isDigit s = true ->
  Atoi (String "-" s) =
    if (- 2 ^ 63 <=? - digitsValue 0 s) && (- digitsValue 0 s <=? 2 ^ 63 - 1)
    then Some (- digitsValue 0 s) else None.
Proof.
  intros Hne Hall. unfold Atoi. destruct s as [|c s]; [congruence|].
  rewrite Hall. reflexivity.
Qed.

(** A number of the range of [int], written with [%d], is read back by
    [strconv.Atoi]. *)
Lemma string_of_uint_pos (p : positive) :
  NilZero.string_of_uint (Pos.to_uint p) = NilEmpty.string_of_uint (Pos.to_uint p) /\
  NilEmpty.string_of_uint (Pos.to_uint p) <> EmptyString /\
  digitsValue 0 (NilEmpty.string_of_uint (Pos.to_uint p)) = Z.pos p.
Proof.
  pose proof (digitsValue_uint (Pos.to_uint p)) as Hv.
  rewrite DecimalPos.Unsigned.of_to in Hv. cbn [Z.of_N] in Hv.
  split; [|split; [|exact Hv]].
  - destruct (Pos.to_uint p); [discriminate Hv|reflexivity..].
  - intros E. rewrite E in Hv. discriminate Hv.
Qed.

Lemma Atoi_itoa (z : Z) : in_range z -> Atoi (itoa z) = Some z.
Proof.
  unfold in_range, min_int, max_int, itoa. intros Hr.
  destruct z as [|p|p]; [reflexivity| |];
    destruct (string_of_uint_pos p) as (Hz & Hne & Hv);
    cbn [Z.to_int NilZero.string_of_int]; rewrite Hz.
  - rewrite Atoi_digits by (exact Hne || apply all_isDigit_uint). rewrite Hv.
    destruct (Z.leb_spec (- 2 ^ 63) (Z.pos p)); [|lia].
    destruct (Z.leb_spec (Z.pos p) (2 ^ 63 - 1)); [reflexivity|lia].
  - rewrite Atoi_minus_digits by (exact Hne || apply all_isDigit_uint). rewrite Hv.
    change (- Z.pos p) with (Z.neg p).
    destruct (Z.leb_spec (- 2 ^ 63) (Z.neg p)); [|lia].
    destruct (Z.leb_spec (Z.neg p) (2 ^ 63 - 1)); [reflexivity|lia].
Qed.

(** *** The payload of each kind of button *)

Lemma handleCallback_book_data (cb : CallbackQuery) (msg : Message) (id : string) :
  CbMessage cb = Some msg -> Data cb = cbBookPrefix +:+ id ->
  handleCallback cb =
    [AnswerCallback (CallbackID cb) "Открываю…"; SendBookDetails (ChatID msg) id].
Proof.
  intros Hmsg Hdata. unfold handleCallback. rewrite Hmsg, Hdata.
  rewrite TrimPrefix_append, HasPrefix_append.
  change (cbBookPrefix +:+ id)
    with (String "b" (String "o" (String "o" (String "k" (String ":" id))))).
  reflexivity.
Qed.

Lemma handleCallback_page_data (cb : CallbackQuery) (msg : Message) (p : Z) :
  CbMessage cb = Some msg -> in_range p -> Data cb = cbPagePrefix +:+ itoa p ->
  handleCallback cb =
    [AnswerCallback (CallbackID cb) "Листаю…";
     EditBooksPage (ChatID msg) (MessageID msg) p].
Proof.
  intros Hmsg Hp Hdata. unfold handleCallback. rewrite Hmsg, Hdata.
  rewrite HasPrefix_append, TrimPrefix_append, (Atoi_itoa p Hp). reflexivity.
Qed.

Lemma Index_first_colon (b r : string) :
  Contains b ":" = false -> Index (b +:+ ":" +:+ r) ":" = Some (String.length b).
Proof.
  induction b as [|c b IH]; intros Hb.
  - change (EmptyString +:+ ":" +:+ r) with (String ":" r). destruct r; reflexivity.
  - rewrite append_cons. unfold Contains in Hb. cbn [Index] in Hb |- *.
    cbn [HasPrefix] in Hb |- *.
    destruct (Ascii.eqb c ":") eqn:Hc.
    + destruct b; discriminate Hb.
    + cbn [andb] in Hb |- *. rewrite IH; [reflexivity|].
      unfold Contains. destruct (Index b ":"); [discriminate Hb|reflexivity].
Qed.

Lemma handleCallback_download_data (cb : CallbackQuery) (msg : Message)
    (bookID formatPath : string) :
  CbMessage cb = Some msg -> Contains bookID ":" = false ->
  Data cb = cbDownloadPrefix +:+ bookID +:+ ":" +:+ formatPath ->
  handleCallback cb =
    [AnswerCallback (CallbackID cb) "Начинаю скачивание... ⏳";
     DownloadAndSend (ChatID msg) (UserID (From cb)) (UserName (From cb))
       bookID formatPath].
Proof.
  intros Hmsg Hb Hdata. unfold handleCallback. rewrite Hmsg, Hdata.
  rewrite TrimPrefix_append, HasPrefix_append.
  change (HasPrefix (cbDownloadPrefix +:+ bookID +:+ ":" +:+ formatPath) cbPagePrefix)
    with false.
  cbv iota. rewrite SplitN_two, (Index_first_colon bookID formatPath Hb).
  rewrite upto_append.
  replace (from (String.length bookID + 1) (bookID +:+ ":" +:+ formatPath))
    with formatPath; [reflexivity|].
  rewrite <- append_assoc.
  replace (String.length bookID + 1)%nat with (String.length (bookID +:+ ":"))
    by (rewrite length_append; reflexivity).
  symmetry. apply from_append.
Qed.

(** *** The keyboards *)

Lemma concat_singletons {A B} (f : A -> B) (l : list A) :
  concat ((fun x => [f x]) <$> l) = f <$> l.
Proof. induction l as [|x l IH]; [reflexivity|]. cbn. rewrite IH. reflexivity. Qed.

Lemma elem_of_take_drop {A} (x : A) (n m : nat) (l : list A) :
  x ∈ take n (drop m l) -> x ∈ l.
Proof.
  intros Hx. rewrite <- (take_drop m l). apply elem_of_app. right.
  rewrite <- (take_drop n (drop m l)). apply elem_of_app. left. exact Hx.
Qed.

(** Every button of a page of results is read back by [handleCallback]
    as the action it was made for: the button of a book opens the card
    of that book of the session, and a button of the navigation row
    switches to the page before, the page shown or the page after, which
    is a page of the session. *)
Theorem page_keyboard_decodes (b : Bot) (chatID requested : Z) (s : searchSession) :
  sessions b !! chatID = Some s ->
  0 < pageSize s ->
  GoInt.len (books s) + pageSize s <= max_int ->
  books s <> [] ->
  exists b' text markup pages,
    buildPage b chatID requested = Some (b', (text, markup, true)) /\
    totalPages (GoInt.len (books s)) (pageSize s) = Some pages /\
    forall button cb msg,
      button ∈ concat (InlineKeyboard markup) ->
      CbMessage cb = Some msg ->
      Data cb = CallbackData button ->
      (exists book, book ∈ books s /\
         handleCallback cb =
           [AnswerCallback (CallbackID cb) "Открываю…";
            SendBookDetails (ChatID msg) (ID book)]) \/
      (exists p, 0 <= p < pages /\
         clampPage requested pages - 1 <= p <= clampPage requested pages + 1 /\
         handleCallback cb =
           [AnswerCallback (CallbackID cb) "Листаю…";
            EditBooksPage (ChatID msg) (MessageID msg) p]).
Proof.
  intros Hs Hp Hb Hne.
  destruct (Pagination.buildPage_rendered b chatID requested s Hs Hp Hb Hne)
    as (pages & Ht & Hpos & Hlo & Hlt & Hhi & Hbuild).
  cbv zeta in Hlo, Hlt, Hhi, Hbuild.
  assert (Hir : in_range pages).
  { destruct (Pagination.totalPages_ceil (GoInt.len (books s)) (pageSize s))
      as (pages' & Ht' & _ & Hr); [apply len_nonneg|assumption|assumption|].
    assert (pages' = pages) by congruence. subst pages'.
    unfold in_range, min_int, max_int in *. pose proof (len_nonneg (books s)). lia. }
  pose proof (Pagination.clampPage_range requested pages Hpos Hir) as Hcl.
  set (page := clampPage requested pages) in *.
  eexists _, _, _, pages. split; [exact Hbuild|]. split; [exact Ht|].
  intros button cb msg Hin Hmsg Hdata. cbn [InlineKeyboard] in Hin.
  rewrite concat_app in Hin. apply elem_of_app in Hin as [Hin|Hin].
  - left. unfold Pagination.itemRows in Hin. rewrite concat_singletons in Hin.
    apply list_elem_of_fmap in Hin as (book & -> & Hbook).
    exists book. split; [exact (elem_of_take_drop _ _ _ _ Hbook)|].
    apply handleCallback_book_data; assumption.
  - right. destruct (pages >? 1); [|cbn in Hin; inversion Hin].
    cbn [concat] in Hin. rewrite app_nil_r, Pagination.navRow_shape in Hin.
    unfold in_range, min_int, max_int in Hir.
    assert (Hsub : sub pages 1 = pages - 1)
      by (apply wrap_small; unfold in_range, min_int, max_int; lia).
    rewrite Hsub in Hin.
    apply elem_of_app in Hin as [Hin|Hin]; [|apply elem_of_app in Hin as [Hin|Hin]].
    + destruct (Z.gtb_spec page 0); [|inversion Hin].
      apply list_elem_of_singleton in Hin as ->.
      exists (page - 1). split; [lia|]. split; [lia|].
      apply handleCallback_page_data; [exact Hmsg|unfold in_range, min_int, max_int; lia|].
      rewrite Hdata. cbn [CallbackData prevButton]. f_equal. f_equal.
      apply wrap_small. unfold in_range, min_int, max_int. lia.
    + apply list_elem_of_singleton in Hin as ->.
      exists page. split; [lia|]. split; [lia|].
      apply handleCallback_page_data; [exact Hmsg|unfold in_range, min_int, max_int; lia|].
      rewrite Hdata. reflexivity.
    + destruct (Z.ltb_spec page (pages - 1)); [|inversion Hin].
      apply list_elem_of_singleton in Hin as ->.
      exists (page + 1). split; [lia|]. split; [lia|].
      apply handleCallback_page_data; [exact Hmsg|unfold in_range, min_int, max_int; lia|].
      rewrite Hdata. cbn [CallbackData nextButton]. f_equal. f_equal.
      apply wrap_small. unfold in_range, min_int, max_int. lia.
Qed.

Lemma page_keyboard_decodes_witness :
  exists b' text markup pages,
    buildPage (Pagination.sampleBot 25) 1 1 = Some (b', (text, markup, true)) /\
    totalPages (GoInt.len (books (Pagination.sampleSession 25)))
      (pageSize (Pagination.sampleSession 25)) = Some pages /\
    forall button cb msg,
      button ∈ concat (InlineKeyboard markup) ->
      CbMessage cb = Some msg ->
      Data cb = CallbackData button ->
      (exists book, book ∈ books (Pagination.sampleSession 25) /\
         handleCallback cb =
           [AnswerCallback (CallbackID cb) "Открываю…";
            SendBookDetails (ChatID msg) (ID book)]) \/
      (exists p, 0 <= p < pages /\
         clampPage 1 pages - 1 <= p <= clampPage 1 pages + 1 /\
         handleCallback cb =
           [AnswerCallback (CallbackID cb) "Листаю…";
            EditBooksPage (ChatID msg) (MessageID msg) p]).
Proof.
  apply (page_keyboard_decodes (Pagination.sampleBot 25) 1 1 (Pagination.sampleSession 25)).
  - reflexivity.
  - reflexivity.
  - vm_compute. discriminate.
  - discriminate.
Defined.

(** The buttons are read back as downloads of the book in one of the
    formats. *)
Definition decodeAsDownloads (buttons : list InlineKeyboardButton)
    (bookID : string) (paths : list string) : Prop :=
  forall button cb msg,
    button ∈ buttons ->
    CbMessage cb = Some msg ->
    Data cb = CallbackData button ->
    exists formatPath,
      handleCallback cb =
        [AnswerCallback (CallbackID cb) "Начинаю скачивание... ⏳";
         DownloadAndSend (ChatID msg) (UserID (From cb)) (UserName (From cb))
           bookID formatPath] /\
      formatPath ∈ paths.

(** Every button of the card of a book whose identifier holds no colon
    is read back by [handleCallback] as the download of that book in the
    format of the button: one of the formats of the details or, when
    there is none, one of the three common formats. *)
Theorem detail_keyboard_decodes `{Unicode} (xorshiftNext : Z -> Z) (bookID : string)
    (formats : list BookFormatOption) :
  Contains bookID ":" = false ->
  decodeAsDownloads (concat (detailRows xorshiftNext bookID formats)) bookID
    (if decide (formats = []) then commonFormats else Path <$> formats).
Proof.
  intros Hb button cb msg Hin Hmsg Hdata.
  destruct (decide (formats = [])) as [->|Hne].
  - cbn in Hin.
    repeat (apply elem_of_cons in Hin as [->|Hin]);
      [exists "epub"|exists "fb2"|exists "pdf"|inversion Hin];
      (split; [apply handleCallback_download_data; [exact Hmsg|exact Hb|exact Hdata]|]);
      unfold commonFormats; set_solver.
  - rewrite (FormatOrder.detailRows_pairs _ _ _ Hne), FormatOrder.concat_pairs in Hin.
    apply list_elem_of_fmap in Hin as (opt & -> & Hopt).
    exists (Path opt).
    split; [apply handleCallback_download_data; [exact Hmsg|exact Hb|exact Hdata]|].
    apply list_elem_of_fmap. exists opt. split; [reflexivity|].
    pose proof (PdqsortFacts.Slice_sorts formatLess xorshiftNext
                  FormatOrder.formatLess_irrefl FormatOrder.formatLess_trans
                  FormatOrder.formatLess_cotrans formats) as [Hperm _].
    rewrite Hperm. exact Hopt.
Qed.

Lemma detail_keyboard_decodes_witness :
  decodeAsDownloads
    (concat (@detailRows asciiOnly (fun r => r) "77"
               [FormatButtons.fb2 "fb2"; FormatButtons.epub "epub"]))
    "77" (Path <$> [FormatButtons.fb2 "fb2"; FormatButtons.epub "epub"]).
Proof.
  apply (@detail_keyboard_decodes asciiOnly (fun r => r) "77"
           [FormatButtons.fb2 "fb2"; FormatButtons.epub "epub"]).
  reflexivity.
Defined.

End ButtonFacts.

(** ** The stored file: what it holds, and what a failure leaves *)

Module StoredFacts.
Import GoInt Strings Filepath Io Storage StorageFacts SaveFacts.

(** The stream as [SaveBookFile] reads it. *)
Lemma limited_reader (stream : Reader) (maxSize : Z) :
  maxSize < max_int ->
  let reader := if maxSize >? 0 then LimitReader stream (add maxSize 1) else stream in
  (Strings.len (data stream) <= maxSize \/ maxSize <= 0 -> reader = stream) /\
  (0 < maxSize -> maxSize < Strings.len (data stream) ->
   reader = {| data := upto (Z.to_nat (maxSize + 1)) (data stream); failure := None |}).
Proof.
  intros Hmax reader. subst reader.
  destruct (Z.gtb_spec maxSize 0) as [Hpos|Hnon].
  - rewrite add_one by assumption. split.
    + intros [Hle|Hle]; [|lia]. unfold LimitReader.
      destruct (Z.leb_spec (maxSize + 1) 0); [lia|].
      destruct (Z.ltb_spec (Strings.len (data stream)) (maxSize + 1)); [reflexivity|lia].
    + intros _ Hlong. apply LimitReader_long; lia.
  - split; [reflexivity|lia].
Qed.

Lemma Copy_whole (env : Env) (fs : FS) (path : string) (r : Reader) fs1 n :
  Copy env fs path r = (fs1, n, None) ->
  files fs1 = <[path := data r]> (files fs) /\ n = Strings.len (data r) /\
  failure r = None.
Proof.
  unfold Copy. intros H. destruct (writeRoom env) as [[room e]|].
  - destruct (room <? String.length (data r))%nat; [discriminate|].
    injection H as <- <- Hf. repeat split. exact Hf.
  - injection H as <- <- Hf. repeat split. exact Hf.
Qed.

Lemma SaveBookFile_content (env : Env) (fs : FS) (baseDir originalName : string)
    (stream : Reader) (maxSize : Z) (fs' : FS) (saved : SavedFile) :
  SaveBookFile env fs baseDir originalName stream maxSize = (fs', inl saved) ->
  maxSize < max_int ->
  files fs' !! FilepathJoin.Join baseDir (RelativePath saved) = Some (data stream) /\
  SizeBytes saved = Strings.len (data stream) /\
  failure stream = None /\
  (0 < maxSize -> Strings.len (data stream) <= maxSize).
Proof.
  intros Hsave Hmax.
  destruct (SaveBookFile_saved_env _ _ _ _ _ _ _ _ Hsave) as (Hb & Hm & Hr & Hc).
  rewrite (SaveBookFile_created env fs baseDir originalName stream maxSize Hb Hm Hr Hc)
    in Hsave.
  cbv zeta in Hsave.
  destruct (limited_reader stream maxSize Hmax) as [Hsame Hcut]. cbv zeta in Hsame, Hcut.
  set (reader := if maxSize >? 0 then LimitReader stream (add maxSize 1) else stream) in *.
  destruct (Copy env _ _ reader) as [[fs1 n] err] eqn:Hcopy.
  destruct err as [e|]; [discriminate|].
  destruct (Copy_whole _ _ _ _ _ _ Hcopy) as (Hfiles & Hn & Hfail).
  destruct (Z.le_gt_cases (Strings.len (data stream)) maxSize) as [Hle|Hlong].
  - rewrite (Hsame (or_introl Hle)) in *.
    destruct ((maxSize >? 0) && (n >? maxSize)) eqn:Hbig.
    + apply andb_true_iff in Hbig as [_ Hbig]. apply Z.gtb_lt in Hbig. lia.
    + injection Hsave as <- <-. cbn [RelativePath SizeBytes].
      rewrite Hfiles, lookup_insert_eq. repeat split; try assumption. intros _. exact Hle.
  - destruct (Z.le_gt_cases maxSize 0) as [Hnon|Hpos].
    + rewrite (Hsame (or_intror Hnon)) in *.
      destruct (Z.gtb_spec maxSize 0); [lia|]. cbn [andb] in Hsave.
      injection Hsave as <- <-. cbn [RelativePath SizeBytes].
      rewrite Hfiles, lookup_insert_eq. repeat split; try assumption. lia.
    + rewrite (Hcut Hpos Hlong) in *. cbn [data] in Hn.
      assert (Hn' : n = maxSize + 1).
      { rewrite Hn. unfold Strings.len in *. rewrite upto_length. lia. }
      destruct (Z.gtb_spec maxSize 0); [|lia].
      destruct (Z.gtb_spec n maxSize); [discriminate|lia].
Qed.

(** A saved file holds the whole stream: whenever [SaveBookFile] returns
    a file (the ceiling being below the greatest integer), the stream
    ended without an error, the file of the returned name in the storage
    directory holds every byte of it, the size returned is the length of
    the stream, and a positive ceiling is not exceeded. *)
Theorem SaveBookFile_whole_stream (env : Env) (fs : FS) (baseDir originalName : string)
    (stream : Reader) (maxSize : Z) (fs' : FS) (saved : SavedFile) :
  SaveBookFile env fs baseDir originalName stream maxSize = (fs', inl saved) ->
  maxSize < max_int ->
  files fs' !! FilepathJoin.Join baseDir (RelativePath saved) = Some (data stream) /\
  SizeBytes saved = Strings.len (data stream) /\
  failure stream = None /\
  (0 < maxSize -> Strings.len (data stream) <= maxSize).
Proof. apply SaveBookFile_content. Qed.

Lemma SaveBookFile_whole_stream_witness :
  exists fs' saved,
    SaveBookFile calm emptyFS "storage" "book.epub"
      {| data := "content"; failure := None |} 100 = (fs', inl saved) /\
    files fs' !! FilepathJoin.Join "storage" (RelativePath saved) = Some "content" /\
    SizeBytes saved = Strings.len "content" /\
    failure {| data := "content"; failure := None |} = None /\
    (0 < 100 -> Strings.len "content" <= 100).
Proof.
  eexists _, _. split; [vm_compute; reflexivity|].
  apply (SaveBookFile_whole_stream calm emptyFS "storage" "book.epub"
           {| data := "content"; failure := None |} 100).
  - vm_compute. reflexivity.
  - reflexivity.
Defined.

Lemma SaveBookFile_error_storage (env : Env) (fs : FS) (baseDir originalName : string)
    (stream : Reader) (maxSize : Z) (fs' : FS) (e : string) :
  SaveBookFile env fs baseDir originalName stream maxSize = (fs', inr e) ->
  fs' = fs \/
  files fs' =
    delete (FilepathJoin.Join baseDir (storedName env originalName)) (files fs).
Proof.
  unfold SaveBookFile, randomHex, rand_Read, Create.
  destruct (isEmpty baseDir); [intros H; injection H as <- _; left; reflexivity|].
  destruct (mkdirErr env); [intros H; injection H as <- _; left; reflexivity|].
  destruct (randErr env); cbn [Z.leb Z.compare];
    [intros H; injection H as <- _; left; reflexivity|].
  destruct (createErr env); [intros H; injection H as <- _; left; reflexivity|].
  cbv zeta. fold (storedExt originalName).
  change (sprintf_x (randByte env <$> seq 0 (Z.to_nat 16)) +:+ storedExt originalName)
    with (storedName env originalName).
  set (fullPath := FilepathJoin.Join baseDir (storedName env originalName)).
  destruct (Copy env _ fullPath _) as [[fs1 n] err] eqn:Hcopy.
  destruct (Copy_files _ _ _ _ _ _ _ Hcopy) as (content & Hfiles & _ & _).
  assert (Hgone : files (Remove fs1 fullPath) = delete fullPath (files fs)).
  { unfold Remove. cbn [files]. rewrite Hfiles. cbn [files].
    rewrite !delete_insert_eq. reflexivity. }
  destruct err as [e'|].
  - intros H. injection H as <- _. right. exact Hgone.
  - destruct ((maxSize >? 0) && (n >? maxSize)); [|discriminate].
    intros H. injection H as <- _. right. exact Hgone.
Qed.

(** A failed save leaves no file behind: the storage is as it was, or,
    once the file was created, as it was without the path of the file.
    No other path changes. *)
Theorem SaveBookFile_failure_clean (env : Env) (fs : FS) (baseDir originalName : string)
    (stream : Reader) (maxSize : Z) (fs' : FS) (e : string) :
  SaveBookFile env fs baseDir originalName stream maxSize = (fs', inr e) ->
  fs' = fs \/
  files fs' =
    delete (FilepathJoin.Join baseDir (storedName env originalName)) (files fs).
Proof. apply SaveBookFile_error_storage. Qed.

Lemma SaveBookFile_failure_clean_witness :
  exists fs' e,
    SaveBookFile calm emptyFS "storage" "book.epub"
      {| data := "content"; failure := None |} 3 = (fs', inr e) /\
    (fs' = emptyFS \/
     files fs' =
       delete (FilepathJoin.Join "storage" (storedName calm "book.epub")) (files emptyFS)).
Proof.
  eexists _, _. split; [vm_compute; reflexivity|].
  eapply (SaveBookFile_failure_clean calm emptyFS "storage" "book.epub"
            {| data := "content"; failure := None |} 3).
  vm_compute. reflexivity.
Defined.

(** [randomHex] fails on a length that is not positive, without asking
    for random bytes, and otherwise only when the generator fails; what
    it returns is two lowercase hexadecimal digits for each byte. *)
Theorem randomHex_digits (env : Env) (n : Z) :
  match randomHex env n with
  | inl s =>
      0 < n /\ randErr env = None /\
      Z.of_nat (String.length s) = 2 * n /\ all isLowerHex s = true
  | inr e =>
      (n <= 0 /\ e = "некорректная длина") \/ (0 < n /\ randErr env = Some e)
  end.
Proof.
  unfold randomHex, rand_Read. destruct (Z.leb_spec n 0) as [Hn|Hn].
  - left. split; [exact Hn|reflexivity].
  - destruct (randErr env) as [e|].
    + right. split; [exact Hn|reflexivity].
    + split; [exact Hn|]. split; [reflexivity|]. split; [|apply sprintf_x_hex].
      rewrite sprintf_x_length, length_fmap, length_seq. lia.
Qed.

End StoredFacts.

(** ** downloadAndSend: the notice, the file and the document *)

Module DownloadFacts.
Import GoInt Strings Io Storage StorageFacts SaveFacts StoredFacts Telegram Actions.

Definition isDelete (e : Event) : bool :=
  match e with DeleteMessage _ _ => true | _ => false end.

Definition isDocument (e : Event) : bool :=
  match e with SendDocument _ _ _ _ => true | _ => false end.

Definition msgLoading : string := "⏳ Скачиваю файл... Подождите...".
Definition msgBook : string := "📖 Ваша книга. Приятного чтения!".

(** Whatever happens to the download, it starts with the notice of the
    download, and the notice is deleted exactly once when the transport
    accepted it and gave it an identifier, never otherwise. *)
Theorem downloadAndSend_loading_notice (env : DownloadEnv) (w : World)
    (chatID userID : Z) (username bookID formatPath : string) :
  let events := snd (downloadAndSend env w chatID userID username bookID formatPath) in
  head events = Some (SendText chatID msgLoading) /\
  List.filter isDelete events =
    match loadingSent env with
    | inl messageID => if messageID =? 0 then [] else [DeleteMessage chatID messageID]
    | inr _ => []
    end.
Proof.
  unfold downloadAndSend, deleteLoadingMsg. cbv zeta.
  destruct (downloaded env) as [[stream filename]|e].
  - destruct (SaveBookFile _ _ _ _ _ _) as [fs [saved|err]]; cbn [snd].
    + split; [reflexivity|].
      destruct (documentSent env), (loadingSent env) as [id|]; try reflexivity;
        destruct (id =? 0); reflexivity.
    + split; [reflexivity|].
      destruct (loadingSent env) as [id|]; [destruct (id =? 0)|]; reflexivity.
  - cbn [snd]. split; [reflexivity|].
    destruct (loadingSent env) as [id|]; [destruct (id =? 0)|]; reflexivity.
Qed.

(** Without a saved file nothing is sent as a document and nothing is
    recorded: when the download fails the world is as it was; when the
    save fails the sessions and the database are as they were, the
    storage holds no file of the failed save, and the last message names
    the failure. *)
Theorem downloadAndSend_without_file (env : DownloadEnv) (w : World)
    (chatID userID : Z) (username bookID formatPath : string) :
  let result := downloadAndSend env w chatID userID username bookID formatPath in
  (forall e, downloaded env = inr e ->
     fst result = w /\ List.filter isDocument (snd result) = [] /\
     exists text, last (snd result) = Some (SendText chatID text)) /\
  (forall stream filename fs' e,
     downloaded env = inl (stream, filename) ->
     SaveBookFile (saveEnv env) (storage w) (storageDir w) filename stream maxFileSize =
       (fs', inr e) ->
     bot (fst result) = bot w /\ store (fst result) = store w /\
     (storage (fst result) = storage w \/
      files (storage (fst result)) =
        delete (FilepathJoin.Join (storageDir w) (storedName (saveEnv env) filename))
          (files (storage w))) /\
     List.filter isDocument (snd result) = [] /\
     last (snd result) = Some (SendText chatID (saveErrorMessage e))).
Proof.
  cbv zeta. unfold downloadAndSend. split.
  - intros e He. rewrite He. cbn [fst snd]. split; [reflexivity|].
    unfold deleteLoadingMsg.
    split.
    + destruct (loadingSent env) as [id|]; [destruct (id =? 0)|]; reflexivity.
    + eexists. rewrite !app_assoc. apply last_snoc.
  - intros stream filename fs' e Hd Hsave. rewrite Hd, Hsave. cbn [fst snd bot store storage].
    split; [reflexivity|]. split; [reflexivity|].
    split; [apply (SaveBookFile_error_storage _ _ _ _ _ _ _ _ Hsave)|].
    unfold deleteLoadingMsg. split.
    + destruct (loadingSent env) as [id|]; [destruct (id =? 0)|]; reflexivity.
    + rewrite !app_assoc. apply last_snoc.
Qed.

(** When the file is saved, the document sent is that file: one
    document, at the absolute form of the path of the stored file, which
    holds the whole stream; it carries the button of the reader exactly
    when the address of the reader is set; the sessions are as they
    were; and this holds whatever the database answers. *)
Theorem downloadAndSend_sends_saved_file (env : DownloadEnv) (w : World)
    (chatID userID : Z) (username bookID formatPath : string)
    (stream : Reader) (filename : string) (fs' : FS) (saved : SavedFile) :
  downloaded env = inl (stream, filename) ->
  SaveBookFile (saveEnv env) (storage w) (storageDir w) filename stream maxFileSize =
    (fs', inl saved) ->
  let result := downloadAndSend env w chatID userID username bookID formatPath in
  let fullPath := FilepathJoin.Join (storageDir w) (RelativePath saved) in
  storage (fst result) = fs' /\
  files fs' !! fullPath = Some (data stream) /\
  bot (fst result) = bot w /\
  List.filter isDocument (snd result) =
    [SendDocument chatID (absPath env fullPath) msgBook
       (if Details.isEmpty (miniAppURL w) then None else Some (miniAppURL w))].
Proof.
  intros Hd Hsave. cbv zeta. unfold downloadAndSend. rewrite Hd, Hsave.
  cbn [fst snd storage bot].
  split; [reflexivity|].
  split; [apply (SaveBookFile_content _ _ _ _ _ _ _ _ Hsave); reflexivity|].
  split; [reflexivity|].
  unfold deleteLoadingMsg.
  destruct (Details.isEmpty (miniAppURL w)); cbn [negb];
    destruct (documentSent env), (loadingSent env) as [id|]; try reflexivity;
    destruct (id =? 0); reflexivity.
Qed.

Definition sampleEnv : DownloadEnv :=
  {| loadingSent := inl 9;
     downloaded := inl ({| data := "content"; failure := None |}, "book.epub");
     saveEnv := calm;
     absPath := fun p => "/srv/" +:+ p;
     foreign_keys := true;
     now := "2026-01-01";
     documentSent := None |}.

Definition sampleWorld : World :=
  {| bot := {| sessions := ∅ |}; storage := emptyFS; store := Some Db.empty;
     storageDir := "storage"; miniAppURL := "" |}.

Lemma downloadAndSend_sends_saved_file_witness :
  exists fs' saved,
    SaveBookFile calm emptyFS "storage" "book.epub"
      {| data := "content"; failure := None |} maxFileSize = (fs', inl saved) /\
    let result := downloadAndSend sampleEnv sampleWorld 5 42 "reader" "77" "epub" in
    let fullPath := FilepathJoin.Join "storage" (RelativePath saved) in
    storage (fst result) = fs' /\
    files fs' !! fullPath = Some "content" /\
    bot (fst result) = bot sampleWorld /\
    List.filter isDocument (snd result) =
      [SendDocument 5 (absPath sampleEnv fullPath) msgBook None].
Proof.
  eexists _, _. split; [vm_compute; reflexivity|].
  eapply (downloadAndSend_sends_saved_file sampleEnv sampleWorld 5 42 "reader" "77" "epub"
            {| data := "content"; failure := None |} "book.epub").
  - reflexivity.
  - vm_compute. reflexivity.
Defined.

End DownloadFacts.

(** ** The tables: keys kept, rows found *)

Module StoreFacts.
Import GoInt Db Queries LibraryFacts.

(** The keys of the schema: the identifiers of [books] and of
    [book_files] are distinct and were given by the sequences, no two
    books have the same source identifier (the unique index), and the
    library has its primary key. *)
Definition keyed (s : Store) : Prop :=
  NoDup (book_id <$> books s) /\
  Forall (fun b => book_id b <= books_seq s) (books s) /\
  NoDup (file_id <$> book_files s) /\
  Forall (fun f => file_id f <= book_files_seq s) (book_files s) /\
  (forall src, (length (List.filter (hasSource src) (books s)) <= 1)%nat) /\
  primaryKey s.

Lemma keyed_empty : keyed empty.
Proof.
  unfold keyed, empty, primaryKey, libraryRows. cbn.
  repeat split; try constructor; intros; cbn; lia.
Qed.

Lemma NoDup_snoc_fresh (l : list Z) (seq : Z) :
  NoDup l -> Forall (fun x => x <= seq) l -> NoDup (l ++ [seq + 1]).
Proof.
  intros Hnd Hall. apply NoDup_app. split; [exact Hnd|]. split; [|apply NoDup_singleton].
  intros x Hx Hx'. apply list_elem_of_singleton in Hx'. subst x.
  rewrite Forall_forall in Hall. specialize (Hall _ Hx). lia.
Qed.

Lemma Forall_le_succ {A} (f : A -> Z) (l : list A) (seq : Z) :
  Forall (fun x => f x <= seq) l -> Forall (fun x => f x <= seq + 1) l.
Proof. intros H. eapply Forall_impl; [exact H|]. cbn. intros. lia. Qed.

Lemma insertBook_keyed (s : Store) (src : option string) (t a : string) :
  keyed s ->
  match src with
  | Some x => existsb (hasSource x) (books s) = false
  | None => True
  end ->
  keyed (fst (insertBook s src t a)).
Proof.
  intros (Hb & Hbs & Hf & Hfs & Hu & Hpk) Hsrc. unfold insertBook, keyed.
  cbn [fst books books_seq book_files book_files_seq].
  split; [rewrite fmap_app; apply NoDup_snoc_fresh; [exact Hb|]|].
  { rewrite Forall_fmap. exact Hbs. }
  split.
  { apply Forall_app. split; [apply Forall_le_succ, Hbs|].
    constructor; [cbn; lia|constructor]. }
  split; [exact Hf|]. split; [exact Hfs|]. split; [|exact Hpk].
  intros x. rewrite filter_snoc, length_app.
  destruct (hasSource x _) eqn:Hx; cbn [length]; [|specialize (Hu x); lia].
  unfold hasSource in Hx. cbn [source_id] in Hx.
  destruct src as [y|]; [|discriminate]. apply String.eqb_eq in Hx. subst y.
  rewrite (filter_none _ _ Hsrc). cbn. lia.
Qed.

Lemma hasSource_updateBook (x sourceID t a : string) (b : BookRow) :
  hasSource x (updateBook sourceID t a b) = hasSource x b.
Proof. unfold updateBook. destruct (hasSource sourceID b); reflexivity. Qed.

Lemma book_id_updateBook (sourceID t a : string) (b : BookRow) :
  book_id (updateBook sourceID t a b) = book_id b.
Proof. unfold updateBook. destruct (hasSource sourceID b); reflexivity. Qed.

Lemma filter_fmap_same {A} (p : A -> bool) (f : A -> A) (l : list A) :
  (forall x, p (f x) = p x) ->
  List.filter p (f <$> l) = f <$> List.filter p l.
Proof.
  intros Hp. induction l as [|x l IH]; [reflexivity|].
  cbn. rewrite Hp. destruct (p x); cbn; rewrite IH; reflexivity.
Qed.

Lemma find_fmap_same {A} (p : A -> bool) (f : A -> A) (l : list A) :
  (forall x, p (f x) = p x) ->
  List.find p (f <$> l) = f <$> List.find p l.
Proof.
  intros Hp. induction l as [|x l IH]; [reflexivity|].
  cbn. rewrite Hp. destruct (p x); [reflexivity|exact IH].
Qed.

Lemma book_ids_updated (sourceID t a : string) (l : list BookRow) :
  book_id <$> (updateBook sourceID t a <$> l) = book_id <$> l.
Proof.
  induction l as [|b l IH]; [reflexivity|].
  cbn. rewrite book_id_updateBook. f_equal. exact IH.
Qed.

(** The store after the upsert of a book whose source is known. *)
Definition updated (s : Store) (sourceID t a : string) : Store :=
  {| users := users s;
     books := updateBook sourceID t a <$> books s;
     books_seq := books_seq s + 1;
     book_files := book_files s; book_files_seq := book_files_seq s;
     user_library := user_library s |}.

Lemma updated_keyed (s : Store) (sourceID t a : string) :
  keyed s -> keyed (updated s sourceID t a).
Proof.
  intros (Hb & Hbs & Hf & Hfs & Hu & Hpk). unfold keyed, updated.
  cbn [books books_seq book_files book_files_seq].
  split.
  { rewrite book_ids_updated. exact Hb. }
  split.
  { rewrite Forall_fmap. eapply Forall_impl; [exact Hbs|].
    intros x Hx. cbn in Hx |- *. rewrite book_id_updateBook. lia. }
  split; [exact Hf|]. split; [exact Hfs|]. split; [|exact Hpk].
  intros x. rewrite filter_fmap_same by (intros; apply hasSource_updateBook).
  rewrite length_fmap. apply Hu.
Qed.

Lemma UpsertBook_keyed (s : Store) (sourceID t a : string) :
  keyed s -> keyed (fst (UpsertBook s sourceID t a)).
Proof.
  intros Hk. unfold UpsertBook.
  destruct (String.eqb sourceID "").
  - pose proof (insertBook_keyed s None t a Hk I) as H.
    destruct (insertBook s None t a). exact H.
  - destruct (existsb (hasSource sourceID) (books s)) eqn:Hex.
    + fold (updated s sourceID t a).
      destruct (List.find _ _); apply updated_keyed, Hk.
    + pose proof (insertBook_keyed s (Some sourceID) t a Hk Hex) as H.
      destruct (List.find _ _); exact H.
Qed.

Lemma InsertBookFile_keyed (fk : bool) (s : Store) (bookID : Z) (fmt p : string)
    (size : Z) :
  keyed s -> keyed (fst (InsertBookFile fk s bookID fmt p size)).
Proof.
  intros Hk. unfold InsertBookFile.
  destruct (fk && negb (hasBook s bookID)); [exact Hk|].
  destruct Hk as (Hb & Hbs & Hf & Hfs & Hu & Hpk). unfold keyed.
  cbn [fst books books_seq book_files book_files_seq].
  split; [exact Hb|]. split; [exact Hbs|].
  split; [rewrite fmap_app; apply NoDup_snoc_fresh; [exact Hf|]|].
  { rewrite Forall_fmap. exact Hfs. }
  split; [|split; [exact Hu|exact Hpk]].
  apply Forall_app. split; [apply Forall_le_succ, Hfs|].
  constructor; [cbn; lia|constructor].
Qed.

Lemma sameKey_setLocation (u f userID fileID : Z) (location : string) (r : LibraryRow) :
  sameKey u f (setLocation userID fileID location r) = sameKey u f r.
Proof. unfold setLocation. destruct (sameKey userID fileID r); reflexivity. Qed.

Lemma UpdateProgress_keyed (s : Store) (userID fileID : Z) (location : string) :
  keyed s -> keyed (fst (UpdateProgress s userID fileID location)).
Proof.
  intros (Hb & Hbs & Hf & Hfs & Hu & Hpk). unfold keyed, UpdateProgress.
  cbn [fst books books_seq book_files book_files_seq].
  repeat (split; [assumption|]).
  intros u f. unfold libraryRows. cbn [user_library].
  rewrite filter_fmap_same by (intros; apply sameKey_setLocation).
  rewrite length_fmap. apply Hpk.
Qed.

Lemma AddToLibrary_keyed (fk : bool) (now : string) (s : Store) (userID fileID : Z) :
  keyed s -> keyed (fst (AddToLibrary fk now s userID fileID)).
Proof.
  intros (Hb & Hbs & Hf & Hfs & Hu & Hpk).
  pose proof (AddToLibrary_primaryKey fk now s userID fileID Hpk) as Hpk'.
  unfold AddToLibrary in *.
  destruct (existsb (sameKey userID fileID) (user_library s));
    [repeat split; assumption|].
  destruct (fk && negb (hasUser s userID && hasFile s fileID));
    repeat split; assumption.
Qed.

(** Every statement of the store keeps the keys of the schema, from the
    empty tables on: no insertion meets a row with its key. *)
Theorem statements_keep_keys :
  keyed empty /\
  forall s, keyed s ->
    (forall telegramID username, keyed (fst (EnsureUser s telegramID username))) /\
    (forall sourceID t a, keyed (fst (UpsertBook s sourceID t a))) /\
    (forall fk bookID fmt p size, keyed (fst (InsertBookFile fk s bookID fmt p size))) /\
    (forall fk now userID fileID, keyed (fst (AddToLibrary fk now s userID fileID))) /\
    (forall userID fileID location,
       keyed (fst (UpdateProgress s userID fileID location))).
Proof.
  split; [exact keyed_empty|]. intros s Hk.
  split; [intros; exact Hk|].
  split; [intros; apply UpsertBook_keyed, Hk|].
  split; [intros; apply InsertBookFile_keyed, Hk|].
  split; [intros; apply AddToLibrary_keyed, Hk|].
  intros; apply UpdateProgress_keyed, Hk.
Qed.

(** *** The upsert of a book *)

Lemma find_existsb {A} (p : A -> bool) (l : list A) :
  existsb p l = match List.find p l with Some _ => true | None => false end.
Proof.
  induction l as [|x l IH]; [reflexivity|]. cbn. destruct (p x); [reflexivity|exact IH].
Qed.

Lemma find_only {A} (p : A -> bool) (l : list A) (x : A) :
  List.find p l = Some x -> (length (List.filter p l) <= 1)%nat ->
  List.filter p l = [x].
Proof.
  induction l as [|y l IH]; [discriminate|]. cbn.
  destruct (p y) eqn:Hy.
  - intros [= ->] Hlen. cbn in Hlen.
    destruct (List.filter p l); [reflexivity|cbn in Hlen; lia].
  - exact IH.
Qed.

Lemma UpsertBook_known (s : Store) (sourceID t a : string) (b : BookRow) :
  sourceID <> EmptyString ->
  List.find (hasSource sourceID) (books s) = Some b ->
  UpsertBook s sourceID t a = (updated s sourceID t a, inl (book_id b)).
Proof.
  intros Hne Hfind. unfold UpsertBook.
  destruct (String.eqb_spec sourceID ""); [congruence|].
  rewrite find_existsb, Hfind. fold (updated s sourceID t a).
  unfold updated at 1. cbn [books].
  rewrite find_fmap_same by (intros; apply hasSource_updateBook).
  rewrite Hfind. cbn. rewrite book_id_updateBook. reflexivity.
Qed.

Lemma find_snoc_new {A} (p : A -> bool) (l : list A) (x : A) :
  existsb p l = false -> p x = true -> List.find p (l ++ [x]) = Some x.
Proof.
  induction l as [|y l IH]; cbn; intros Hex Hx.
  - rewrite Hx. reflexivity.
  - destruct (p y); [discriminate|]. apply IH; assumption.
Qed.

Lemma UpsertBook_finds (s : Store) (sourceID t a : string) :
  sourceID <> EmptyString ->
  exists b,
    List.find (hasSource sourceID) (books (fst (UpsertBook s sourceID t a))) = Some b /\
    snd (UpsertBook s sourceID t a) = inl (book_id b) /\
    title b = t /\ author b = a.
Proof.
  intros Hne. destruct (List.find (hasSource sourceID) (books s)) as [b|] eqn:Hfind.
  - rewrite (UpsertBook_known s sourceID t a b Hne Hfind). cbn [fst snd].
    exists (updateBook sourceID t a b). unfold updated. cbn [books].
    rewrite find_fmap_same by (intros; apply hasSource_updateBook).
    rewrite Hfind. split; [reflexivity|]. rewrite book_id_updateBook.
    split; [reflexivity|].
    pose proof (SessionFacts.find_first (hasSource sourceID) (books s)) as Hf.
    rewrite Hfind in Hf. destruct Hf as [Hb _].
    unfold updateBook. rewrite Hb. split; reflexivity.
  - unfold UpsertBook. destruct (String.eqb_spec sourceID ""); [congruence|].
    rewrite find_existsb, Hfind.
    set (row := {| book_id := books_seq s + 1; source_id := Some sourceID;
                   title := t; author := a |}).
    assert (Hnew : List.find (hasSource sourceID)
                     (books (fst (insertBook s (Some sourceID) t a))) = Some row).
    { unfold insertBook. cbn [fst books]. apply find_snoc_new.
      - rewrite find_existsb, Hfind. reflexivity.
      - unfold hasSource. cbn. apply String.eqb_refl. }
    rewrite Hnew. cbn [fst snd]. exists row. rewrite Hnew. repeat split.
Qed.

(** A book that has a source identifier keeps one row: a second upsert
    with the same source returns the identifier of the first, adds no
    row, and leaves in the row the title and the author given last; it
    draws one number from the sequence all the same, which no book
    gets. *)
Theorem UpsertBook_same_source (s : Store) (sourceID t a t' a' : string) :
  keyed s -> sourceID <> EmptyString ->
  let s1 := fst (UpsertBook s sourceID t a) in
  let s2 := fst (UpsertBook s1 sourceID t' a') in
  exists id row,
    snd (UpsertBook s sourceID t a) = inl id /\
    snd (UpsertBook s1 sourceID t' a') = inl id /\
    book_id <$> books s2 = book_id <$> books s1 /\
    books_seq s2 = books_seq s1 + 1 /\
    List.filter (hasSource sourceID) (books s2) = [row] /\
    book_id row = id /\ title row = t' /\ author row = a'.
Proof.
  intros Hk Hne s1 s2.
  destruct (UpsertBook_finds s sourceID t a Hne) as (b & Hfind & Hid & _).
  fold s1 in Hfind.
  destruct (UpsertBook_finds s1 sourceID t' a' Hne) as (b' & Hfind' & Hid' & Ht & Ha).
  fold s2 in Hfind'.
  pose proof (UpsertBook_known s1 sourceID t' a' b Hne Hfind) as Hsecond.
  exists (book_id b), b'. split; [exact Hid|].
  assert (Hs2 : s2 = updated s1 sourceID t' a') by (subst s2; rewrite Hsecond; reflexivity).
  split; [rewrite Hsecond; reflexivity|].
  split; [rewrite Hs2; apply book_ids_updated|].
  split; [rewrite Hs2; reflexivity|].
  assert (Hk2 : keyed s2) by (apply UpsertBook_keyed, UpsertBook_keyed, Hk).
  split; [apply find_only; [exact Hfind'|apply Hk2]|].
  split; [|split; assumption].
  rewrite Hsecond in Hid'. cbn [snd] in Hid'. congruence.
Qed.

Lemma UpsertBook_same_source_witness :
  let s1 := fst (UpsertBook empty "77" "Dune" "Herbert") in
  let s2 := fst (UpsertBook s1 "77" "Dune (2nd ed.)" "F. Herbert") in
  exists id row,
    snd (UpsertBook empty "77" "Dune" "Herbert") = inl id /\
    snd (UpsertBook s1 "77" "Dune (2nd ed.)" "F. Herbert") = inl id /\
    book_id <$> books s2 = book_id <$> books s1 /\
    books_seq s2 = books_seq s1 + 1 /\
    List.filter (hasSource "77") (books s2) = [row] /\
    book_id row = id /\ title row = "Dune (2nd ed.)" /\ author row = "F. Herbert".
Proof.
  apply (UpsertBook_same_source empty "77" "Dune" "Herbert" "Dune (2nd ed.)" "F. Herbert").
  - exact keyed_empty.
  - discriminate.
Defined.

(** *** The file of a user *)

Lemma inLibrary_sameKey (s : Store) (userID : Z) (bf : FileRow) :
  inLibrary s userID bf = existsb (sameKey userID (file_id bf)) (user_library s).
Proof.
  unfold inLibrary, sameKey. induction (user_library s) as [|r l IH]; [reflexivity|].
  cbn. rewrite IH, (andb_comm (book_file_id r =? file_id bf)). reflexivity.
Qed.

Lemma GetFileForUser_found (s : Store) (userID fileID : Z) :
  match GetFileForUser s userID fileID with
  | inl file => existsb (sameKey userID fileID) (user_library s) = true
  | inr _ => True
  end.
Proof.
  unfold GetFileForUser.
  pose proof (SessionFacts.find_first
                (fun bf => inLibrary s userID bf && (file_id bf =? fileID))
                (book_files s)) as Hf.
  destruct (List.find _ (book_files s)) as [bf|]; [|exact I].
  destruct Hf as (Hbf & _). apply andb_true_iff in Hbf as [Hlib Hid].
  apply Z.eqb_eq in Hid. rewrite inLibrary_sameKey, Hid in Hlib. exact Hlib.
Qed.

(** [GetFileForUser] gives a file only to a user whose library holds it:
    the file returned is a row of [book_files] with the identifier asked
    for, linked to the user by a row of the library; without the link,
    or without the file, the answer is the error of the missing file. *)
Theorem GetFileForUser_library_only (s : Store) (userID fileID : Z) :
  match GetFileForUser s userID fileID with
  | inl file =>
      ID file = fileID /\
      existsb (sameKey userID fileID) (user_library s) = true /\
      exists bf, bf ∈ book_files s /\ file_id bf = fileID /\
                 Path file = path bf /\ Format file = format bf /\
                 SizeBytes file = size_bytes bf
  | inr e =>
      e = "файл не найден" /\
      (existsb (sameKey userID fileID) (user_library s) = false \/
       hasFile s fileID = false)
  end.
Proof.
  unfold GetFileForUser.
  pose proof (SessionFacts.find_first (fun bf => inLibrary s userID bf && (file_id bf =? fileID))
                (book_files s)) as Hf.
  destruct (List.find _ (book_files s)) as [bf|].
  - destruct Hf as (Hbf & pre & post & Heq & _).
    apply andb_true_iff in Hbf as [Hlib Hid]. apply Z.eqb_eq in Hid.
    rewrite inLibrary_sameKey, Hid in Hlib. cbn [ID Path Format SizeBytes].
    split; [exact Hid|]. split; [exact Hlib|].
    exists bf. rewrite Heq. split; [set_solver|]. repeat split. exact Hid.
  - split; [reflexivity|].
    destruct (existsb (sameKey userID fileID) (user_library s)) eqn:Hlib;
      [right|left; reflexivity].
    unfold hasFile. apply not_true_is_false. intros Hex.
    apply existsb_exists in Hex as (bf & Hin & Hid).
    rewrite List.Forall_forall in Hf. specialize (Hf bf Hin). cbn in Hf.
    rewrite Hid, andb_true_r, inLibrary_sameKey in Hf.
    apply Z.eqb_eq in Hid. rewrite Hid in Hf. congruence.
Qed.

(** *** The place of the reader *)

Lemma filter_fmap_none {A} (p : A -> bool) (f : A -> A) (l : list A) :
  (forall x, p x = false -> f x = x) -> List.filter p l = [] -> f <$> l = l.
Proof.
  intros Hf. induction l as [|x l IH]; [reflexivity|]. cbn.
  destruct (p x) eqn:Hx; [discriminate|]. intros Hl.
  rewrite (Hf x Hx), (IH Hl). reflexivity.
Qed.

(** [UpdateProgress] writes the place into the row of the user and the
    file and nowhere else: it never fails, adds or removes no row, and
    changes no other table; every row of that user and file then holds
    the place, the rows of other users or files are as they were; when
    the library has no such row the store is unchanged, and nothing tells
    the caller. A later [AddToLibrary] of the same file keeps the
    place. *)
Theorem UpdateProgress_location (s : Store) (userID fileID : Z) (location : string) :
  let s' := fst (UpdateProgress s userID fileID location) in
  snd (UpdateProgress s userID fileID location) = None /\
  (fun r => (user_id r, book_file_id r, added_at r)) <$> user_library s' =
    (fun r => (user_id r, book_file_id r, added_at r)) <$> user_library s /\
  (users s', books s', books_seq s', book_files s', book_files_seq s') =
    (users s, books s, books_seq s, book_files s, book_files_seq s) /\
  Forall (fun r => current_location r = Some location) (libraryRows s' userID fileID) /\
  (forall u f, (u, f) <> (userID, fileID) -> libraryRows s' u f = libraryRows s u f) /\
  (libraryRows s userID fileID = [] -> s' = s) /\
  (libraryRows s userID fileID <> [] ->
   forall fk now, AddToLibrary fk now s' userID fileID = (s', None)).
Proof.
  cbv zeta. unfold UpdateProgress. cbn [fst snd users books books_seq book_files
    book_files_seq user_library].
  split; [reflexivity|]. split.
  { induction (user_library s) as [|r l IH]; [reflexivity|]. cbn. rewrite IH. f_equal.
    unfold setLocation. destruct (sameKey userID fileID r); reflexivity. }
  split; [reflexivity|]. unfold libraryRows. cbn [user_library]. split.
  { induction (user_library s) as [|r l IH]; [constructor|]. cbn.
    rewrite sameKey_setLocation. destruct (sameKey userID fileID r) eqn:Hr; [|exact IH].
    constructor; [|exact IH]. unfold setLocation. rewrite Hr. reflexivity. }
  split.
  { intros u f Hne. induction (user_library s) as [|r l IH]; [reflexivity|]. cbn.
    rewrite sameKey_setLocation. destruct (sameKey u f r) eqn:Hr; [|exact IH].
    rewrite IH. f_equal. unfold setLocation.
    destruct (sameKey userID fileID r) eqn:Hr'; [|reflexivity].
    rewrite (sameKey_other userID fileID u f r Hr' Hne) in Hr. discriminate. }
  split.
  { intros Hnone. destruct s. cbn in *. f_equal.
    apply (filter_fmap_none (sameKey userID fileID)); [|exact Hnone].
    intros r Hr. unfold setLocation. rewrite Hr. reflexivity. }
  intros Hsome fk now. unfold AddToLibrary. cbn [user_library].
  assert (Hex : existsb (sameKey userID fileID)
                  (setLocation userID fileID location <$> user_library s) = true).
  { revert Hsome. induction (user_library s) as [|r l IH]; intros Hsome;
      [cbn in Hsome; congruence|]. cbn in Hsome |- *.
    rewrite sameKey_setLocation. destruct (sameKey userID fileID r); [reflexivity|].
    apply IH, Hsome. }
  rewrite Hex. reflexivity.
Qed.

End StoreFacts.

(** ** From the download to the reader *)

Module ReaderFacts.
Import GoInt Strings Db Queries Storage Actions Httpapi StoreFacts ButtonFacts.

Lemma UpsertBook_hasBook (s : Store) (sourceID t a : string) :
  exists id,
    snd (UpsertBook s sourceID t a) = inl id /\
    hasBook (fst (UpsertBook s sourceID t a)) id = true /\
    book_files (fst (UpsertBook s sourceID t a)) = book_files s /\
    book_files_seq (fst (UpsertBook s sourceID t a)) = book_files_seq s /\
    users (fst (UpsertBook s sourceID t a)) = users s /\
    user_library (fst (UpsertBook s sourceID t a)) = user_library s.
Proof.
  destruct (String.eqb_spec sourceID "") as [->|Hne].
  - exists (books_seq s + 1). unfold UpsertBook, insertBook, hasBook. cbn.
    rewrite existsb_app. cbn. rewrite Z.eqb_refl, orb_true_r. repeat split.
  - destruct (UpsertBook_finds s sourceID t a Hne) as (b & Hfind & Hid & _).
    exists (book_id b). split; [exact Hid|]. split.
    + unfold hasBook. apply existsb_exists. exists b.
      pose proof (SessionFacts.find_first (hasSource sourceID)
                    (books (fst (UpsertBook s sourceID t a)))) as Hf.
      rewrite Hfind in Hf. destruct Hf as (_ & pre & post & -> & _).
      split; [apply in_elt|apply Z.eqb_refl].
    + unfold UpsertBook. destruct (String.eqb_spec sourceID ""); [congruence|].
      destruct (existsb (hasSource sourceID) (books s));
        match goal with
        | |- context [List.find ?p ?l] => destruct (List.find p l)
        end; repeat split.
Qed.

Lemma find_new_file (userID : Z) (s : Store) (l : list FileRow) (row : FileRow) :
  Forall (fun f => file_id f < file_id row) l ->
  inLibrary s userID row = true ->
  List.find (fun bf => inLibrary s userID bf && (file_id bf =? file_id row))
    (l ++ [row]) = Some row.
Proof.
  intros Hall Hlib. induction Hall as [|f l Hf _ IH]; cbn.
  - rewrite Hlib, Z.eqb_refl. reflexivity.
  - destruct (Z.eqb_spec (file_id f) (file_id row)); [lia|].
    rewrite andb_false_r. exact IH.
Qed.

Lemma persist_file_found (env : DownloadEnv) (w : World) (chatID userID : Z)
    (username bookID formatPath : string) (saved : SavedFile) (db : Store) :
  store w = Some db -> keyed db ->
  exists db',
    persist env w chatID userID username bookID formatPath saved = Some db' /\
    keyed db' /\
    users db' !! userID = Some username /\
    GetFileForUser db' userID (book_files_seq db + 1) =
      inl {| Queries.ID := book_files_seq db + 1;
             Queries.Path := Storage.RelativePath saved;
             Queries.Format := formatPath;
             Queries.SizeBytes := Storage.SizeBytes saved |}.
Proof.
  intros Hstore Hk. unfold persist. rewrite Hstore.
  unfold EnsureUser.
  set (db1 := {| users := <[userID:=username]> (users db); books := books db;
                 books_seq := books_seq db; book_files := book_files db;
                 book_files_seq := book_files_seq db;
                 user_library := user_library db |}).
  assert (Hk1 : keyed db1) by exact Hk.
  destruct (match findBookInSession (bot w) chatID bookID with
            | Some book => (Models.Title book, Models.Author book)
            | None => (EmptyString, EmptyString)
            end) as [t a].
  destruct (UpsertBook_hasBook db1 bookID t a) as (id & Hid & Hhas & Hfiles & Hseq & Hus & Hlib).
  pose proof (UpsertBook_keyed db1 bookID t a Hk1) as Hk2.
  destruct (UpsertBook db1 bookID t a) as [db2 r]. cbn [fst snd] in *. subst r.
  unfold InsertBookFile. rewrite Hhas, andb_false_r.
  set (row := {| file_id := book_files_seq db2 + 1; file_book_id := id;
                 format := formatPath; path := Storage.RelativePath saved;
                 size_bytes := Storage.SizeBytes saved |}).
  set (db3 := {| users := users db2; books := books db2; books_seq := books_seq db2;
                 book_files := book_files db2 ++ [row];
                 book_files_seq := book_files_seq db2 + 1;
                 user_library := user_library db2 |}).
  assert (Hk3 : keyed db3).
  { pose proof (InsertBookFile_keyed false db2 id formatPath (Storage.RelativePath saved)
                  (Storage.SizeBytes saved) Hk2) as H. exact H. }
  eexists. split; [reflexivity|].
  pose proof (AddToLibrary_keyed (foreign_keys env) (now env) db3 userID
                (book_files_seq db2 + 1) Hk3) as Hk4.
  split; [exact Hk4|].
  assert (Hadd :
    users (fst (AddToLibrary (foreign_keys env) (now env) db3 userID
                  (book_files_seq db2 + 1))) = users db2 /\
    book_files (fst (AddToLibrary (foreign_keys env) (now env) db3 userID
                       (book_files_seq db2 + 1))) = book_files db2 ++ [row] /\
    existsb (sameKey userID (book_files_seq db2 + 1))
      (user_library (fst (AddToLibrary (foreign_keys env) (now env) db3 userID
                            (book_files_seq db2 + 1)))) = true).
  { unfold AddToLibrary.
    destruct (existsb (sameKey userID (book_files_seq db2 + 1)) (user_library db3)) eqn:Hex;
      [repeat split; exact Hex|].
    assert (Hu : hasUser db3 userID = true).
    { unfold hasUser, db3. cbn [users]. rewrite Hus. unfold db1. cbn [users].
      rewrite lookup_insert_eq. reflexivity. }
    assert (Hf : hasFile db3 (book_files_seq db2 + 1) = true).
    { unfold hasFile, db3. cbn [book_files]. rewrite existsb_app. cbn.
      rewrite Z.eqb_refl, orb_true_r. reflexivity. }
    rewrite Hu, Hf. cbn [andb negb]. rewrite andb_false_r. cbn [fst users book_files user_library].
    repeat split. rewrite existsb_app. cbn. unfold sameKey. cbn.
    rewrite !Z.eqb_refl, orb_true_r. reflexivity. }
  destruct Hadd as (Husers & Hbf & Hin).
  split.
  - rewrite Husers, Hus. unfold db1. cbn [users]. apply lookup_insert_eq.
  - unfold GetFileForUser. rewrite Hbf.
    change (book_files_seq db) with (book_files_seq db1). rewrite <- Hseq.
    change (book_files_seq db2 + 1) with (file_id row).
    rewrite find_new_file; [reflexivity| |].
    + destruct Hk2 as (_ & _ & _ & Hle & _). eapply Forall_impl; [exact Hle|].
      intros f Hf. cbn in *. lia.
    + rewrite inLibrary_sameKey. exact Hin.
Qed.

(** The metadata of a saved file, written to a store that has its keys:
    the user is registered under the name given, the file gets the next
    identifier of the sequence, and [GetFileForUser] then returns, to
    that user and for that identifier, the relative path, the format and
    the size of the saved file. *)
Theorem persist_links_file (env : DownloadEnv) (w : World) (chatID userID : Z)
    (username bookID formatPath : string) (saved : SavedFile) (db : Store) :
  store w = Some db -> keyed db ->
  exists db',
    persist env w chatID userID username bookID formatPath saved = Some db' /\
    keyed db' /\
    users db' !! userID = Some username /\
    GetFileForUser db' userID (book_files_seq db + 1) =
      inl {| Queries.ID := book_files_seq db + 1;
             Queries.Path := Storage.RelativePath saved;
             Queries.Format := formatPath;
             Queries.SizeBytes := Storage.SizeBytes saved |}.
Proof. apply persist_file_found. Qed.

Definition sampleSaved : SavedFile :=
  {| Storage.RelativePath := "00112233445566778899aabbccddeeff.epub";
     Storage.SizeBytes := 7 |}.

Lemma persist_links_file_witness :
  exists db',
    persist DownloadFacts.sampleEnv DownloadFacts.sampleWorld 5 42 "reader" "77" "epub"
      sampleSaved = Some db' /\
    keyed db' /\
    users db' !! 42 = Some "reader" /\
    GetFileForUser db' 42 (book_files_seq empty + 1) =
      inl {| Queries.ID := book_files_seq empty + 1;
             Queries.Path := Storage.RelativePath sampleSaved;
             Queries.Format := "epub";
             Queries.SizeBytes := Storage.SizeBytes sampleSaved |}.
Proof.
  apply (persist_links_file DownloadFacts.sampleEnv DownloadFacts.sampleWorld 5 42
           "reader" "77" "epub" sampleSaved empty).
  - reflexivity.
  - exact keyed_empty.
Defined.

Section Reader.
Context `{Unicode}.
Context (map_ToLower : string -> string).
Context (ValidateInitData : string -> string -> TelegramUser + string).
Context (decodeProgress : string -> option (Z * string)).

Lemma withUser_runs (botToken : string) (s : Store) (r : Request)
    (fn : Store -> TelegramUser -> Store * list Response) :
  match withUser map_ToLower ValidateInitData botToken s r fn with
  | None => extractInitData map_ToLower r = None
  | Some result =>
      exists d, extractInitData map_ToLower r = Some d /\
        ((d = EmptyString /\
          result = (s, [WriteJSON 401 (ErrorPayload "initData required")])) \/
         (d <> EmptyString /\ exists e, ValidateInitData d botToken = inr e /\
          result = (s, [WriteJSON 401 (ErrorPayload "invalid initData")])) \/
         (d <> EmptyString /\ exists user, ValidateInitData d botToken = inl user /\
          result = fn (fst (EnsureUser s (UserID user) (Username user))) user))
  end.
Proof.
  unfold withUser. destruct (extractInitData map_ToLower r) as [d|]; [|reflexivity].
  cbn [mbind option_bind]. destruct d as [|c d]; cbn [Httpapi.isEmpty].
  - exists EmptyString. split; [reflexivity|]. left. split; reflexivity.
  - destruct (ValidateInitData (String c d) botToken) as [user|e] eqn:Hv.
    + unfold EnsureUser. exists (String c d). split; [reflexivity|]. right. right.
      split; [discriminate|]. exists user. split; [exact Hv|reflexivity].
    + exists (String c d). split; [reflexivity|]. right. left.
      split; [discriminate|]. exists e. split; [exact Hv|reflexivity].
Qed.

(** [handleFile] serves a file only from the library of the user that
    the signed data names: a call of [http.ServeFile] is the whole
    answer, for a file that [GetFileForUser] finds for that user in the
    store as it was before the request, at the path of that file under
    the storage directory; and the request adds nothing to the library or
    to the files. *)
Theorem handleFile_serves_library_files (storageDir botToken : string) (s s' : Store)
    (r : Request) (responses : list Response) (contentType fullPath : string) :
  handleFile map_ToLower ValidateInitData storageDir botToken s r = Some (s', responses) ->
  ServeFile contentType fullPath ∈ responses ->
  exists d user fileID file,
    extractInitData map_ToLower r = Some d /\
    ValidateInitData d botToken = inl user /\
    ParseInt (TrimPrefix (URLPath r) "/api/files/") = Some fileID /\
    GetFileForUser s (UserID user) fileID = inl file /\
    existsb (sameKey (UserID user) fileID) (user_library s) = true /\
    fullPath = Join storageDir (Queries.Path file) /\
    responses = [ServeFile contentType fullPath] /\
    user_library s' = user_library s /\ book_files s' = book_files s.
Proof.
  intros Hrun Hin. unfold handleFile in Hrun.
  pose proof (withUser_runs botToken s r) as Hw.
  match type of Hrun with
  | withUser _ _ _ _ _ ?fn = _ => specialize (Hw fn)
  end.
  rewrite Hrun in Hw. destruct Hw as (d & Hd & [[_ Hres]|[(_ & e & _ & Hres)|(_ & user & Hv & Hres)]]).
  - injection Hres as -> ->. apply list_elem_of_singleton in Hin. discriminate Hin.
  - injection Hres as -> ->. apply list_elem_of_singleton in Hin. discriminate Hin.
  - exists d, user. cbv beta in Hres.
    destruct (Httpapi.isEmpty (TrimPrefix (URLPath r) "/api/files/"));
      [injection Hres as -> ->; apply list_elem_of_singleton in Hin; discriminate Hin|].
    destruct (ParseInt (TrimPrefix (URLPath r) "/api/files/")) as [fileID|];
      [|injection Hres as -> ->; apply list_elem_of_singleton in Hin; discriminate Hin].
    exists fileID.
    assert (Hsame : GetFileForUser (fst (EnsureUser s (UserID user) (Username user)))
                      (UserID user) fileID = GetFileForUser s (UserID user) fileID)
      by reflexivity.
    rewrite Hsame in Hres.
    pose proof (GetFileForUser_found s (UserID user) fileID) as Hfound.
    destruct (GetFileForUser s (UserID user) fileID) as [file|e];
      [|injection Hres as -> ->; apply list_elem_of_singleton in Hin; discriminate Hin].
    injection Hres as -> ->. apply list_elem_of_singleton in Hin. injection Hin as -> ->.
    exists file. repeat split; try assumption; reflexivity.
Qed.

Lemma itoa_not_empty (z : Z) : in_range z -> itoa z <> EmptyString.
Proof.
  intros Hz E. pose proof (Atoi_itoa z Hz) as H0. rewrite E in H0. discriminate H0.
Qed.

Lemma isEmpty_false (s : string) : s <> EmptyString -> Httpapi.isEmpty s = false.
Proof. destruct s; [congruence|reflexivity]. Qed.

Lemma withUser_valid (botToken : string) (s : Store) (r : Request)
    (fn : Store -> TelegramUser -> Store * list Response) (d : string)
    (user : TelegramUser) :
  extractInitData map_ToLower r = Some d -> d <> EmptyString ->
  ValidateInitData d botToken = inl user ->
  withUser map_ToLower ValidateInitData botToken s r fn =
    Some (fn (fst (EnsureUser s (UserID user) (Username user))) user).
Proof.
  intros Hd Hne Hv. unfold withUser. rewrite Hd. cbn [mbind option_bind].
  rewrite (isEmpty_false d Hne), Hv. reflexivity.
Qed.

(** A downloaded file is read back where it was stored: once the
    metadata of a saved file are written for a user, the request of that
    user for the identifier the file was given is answered by the file at
    the path under the storage directory where the save wrote it. *)
Theorem downloaded_file_is_served (env : DownloadEnv) (w : World) (chatID userID : Z)
    (username bookID formatPath : string) (saved : SavedFile) (db : Store)
    (botToken : string) (r : Request) (d : string) (user : TelegramUser) :
  store w = Some db -> keyed db -> in_range (book_files_seq db + 1) ->
  storageDir w <> EmptyString -> Storage.RelativePath saved <> EmptyString ->
  extractInitData map_ToLower r = Some d -> d <> EmptyString ->
  ValidateInitData d botToken = inl user -> UserID user = userID ->
  URLPath r = "/api/files/" +:+ itoa (book_files_seq db + 1) ->
  exists db' s',
    persist env w chatID userID username bookID formatPath saved = Some db' /\
    handleFile map_ToLower ValidateInitData (storageDir w) botToken db' r =
      Some (s', [ServeFile (setContentType map_ToLower formatPath)
                   (FilepathJoin.Join (storageDir w) (Storage.RelativePath saved))]).
Proof.
  intros Hstore Hk Hr Hdir Hrel Hd Hne Hv Huser Hurl.
  destruct (persist_file_found env w chatID userID username bookID formatPath saved db
              Hstore Hk) as (db' & Hp & _ & _ & Hget).
  exists db'. eexists. split; [exact Hp|].
  unfold handleFile. rewrite (withUser_valid botToken db' r _ d user Hd Hne Hv).
  rewrite Hurl, TrimPrefix_append, (isEmpty_false _ (itoa_not_empty _ Hr)).
  unfold ParseInt. rewrite (Atoi_itoa _ Hr), Huser.
  change (GetFileForUser (fst (EnsureUser db' userID (Username user))) userID
            (book_files_seq db + 1))
    with (GetFileForUser db' userID (book_files_seq db + 1)).
  rewrite Hget. cbn [Queries.Path Queries.Format].
  unfold Join. rewrite (isEmpty_false _ Hdir), (isEmpty_false _ Hrel). reflexivity.
Qed.

(** The place of the reader in a file that is not in the library of the
    user is accepted and lost: the request is answered as a success, and
    the library is unchanged. In every case the answer to a well-formed
    request is the success, and the library afterwards is the library
    with the place written in the rows of that user and file. *)
Theorem handleProgress_unknown_file_ok (botToken : string) (s : Store) (r : Request)
    (d : string) (user : TelegramUser) (fileID : Z) (location : string) :
  Method r = "POST" ->
  extractInitData map_ToLower r = Some d -> d <> EmptyString ->
  ValidateInitData d botToken = inl user ->
  decodeProgress (Body r) = Some (fileID, location) -> fileID <> 0 ->
  exists s',
    handleProgress map_ToLower ValidateInitData decodeProgress botToken s r =
      Some (s', [WriteJSON 200 OkPayload]) /\
    user_library s' = setLocation (UserID user) fileID location <$> user_library s /\
    (libraryRows s (UserID user) fileID = [] -> user_library s' = user_library s).
Proof.
  intros Hm Hd Hne Hv Hdec Hf. unfold handleProgress. rewrite Hm. cbn [String.eqb negb].
  change ("POST" =? "POST")%string with true. cbn [negb].
  rewrite (withUser_valid botToken s r _ d user Hd Hne Hv), Hdec.
  destruct (Z.eqb_spec fileID 0); [congruence|].
  eexists. split; [reflexivity|]. cbn [fst user_library]. split; [reflexivity|].
  intros Hnone. apply (filter_fmap_none (sameKey (UserID user) fileID)); [|exact Hnone].
  intros x Hx. unfold setLocation. rewrite Hx. reflexivity.
Qed.

End Reader.

Definition sampleUser : TelegramUser :=
  {| UserID := 42; Username := "reader"; FirstName := "R"; LastName := "" |}.

Definition signedHeader (key : string) : string :=
  if String.eqb key "X-Telegram-InitData" then "signed" else "".

Definition trusting (initData botToken : string) : TelegramUser + string :=
  if String.eqb initData "signed" then inl sampleUser else inr "initData подпись не совпадает".

Definition fileRequest : Request :=
  {| Method := "GET"; URLPath := "/api/files/1"; Header := signedHeader;
     Query := fun _ => ""; Body := "" |}.

Definition progressRequest : Request :=
  {| Method := "POST"; URLPath := "/api/progress"; Header := signedHeader;
     Query := fun _ => ""; Body := "{}" |}.

(** The store after one download by the user 42. *)
Definition oneDownload : Store :=
  {| users := {[ 42 := "reader" ]};
     books := [{| book_id := 1; source_id := Some "77"; title := "Dune";
                  author := "Herbert" |}];
     books_seq := 1;
     book_files := [{| file_id := 1; file_book_id := 1; format := "epub";
                       path := "00112233445566778899aabbccddeeff.epub";
                       size_bytes := 7 |}];
     book_files_seq := 1;
     user_library := [{| user_id := 42; book_file_id := 1; added_at := "2026-01-01";
                         current_location := None |}] |}.

Lemma handleFile_serves_library_files_witness :
  exists d user fileID file,
    @extractInitData asciiOnly (fun s => s) fileRequest = Some d /\
    trusting d "token" = inl user /\
    ParseInt (TrimPrefix (URLPath fileRequest) "/api/files/") = Some fileID /\
    GetFileForUser oneDownload (UserID user) fileID = inl file /\
    existsb (sameKey (UserID user) fileID) (user_library oneDownload) = true /\
    Join "storage" "00112233445566778899aabbccddeeff.epub" =
      Join "storage" (Queries.Path file) /\
    [ServeFile "application/epub+zip"
       (Join "storage" "00112233445566778899aabbccddeeff.epub")] =
      [ServeFile "application/epub+zip"
         (Join "storage" "00112233445566778899aabbccddeeff.epub")] /\
    user_library (fst (EnsureUser oneDownload 42 "reader")) = user_library oneDownload /\
    book_files (fst (EnsureUser oneDownload 42 "reader")) = book_files oneDownload.
Proof.
  apply (@handleFile_serves_library_files asciiOnly (fun s => s) trusting "storage"
           "token" oneDownload (fst (EnsureUser oneDownload 42 "reader")) fileRequest
           [ServeFile "application/epub+zip"
              (Join "storage" "00112233445566778899aabbccddeeff.epub")]
           "application/epub+zip"
           (Join "storage" "00112233445566778899aabbccddeeff.epub")).
  - vm_compute. reflexivity.
  - apply list_elem_of_singleton. reflexivity.
Defined.

Lemma downloaded_file_is_served_witness :
  exists db' s',
    persist DownloadFacts.sampleEnv DownloadFacts.sampleWorld 5 42 "reader" "77" "epub"
      sampleSaved = Some db' /\
    @handleFile asciiOnly (fun s => s) trusting "storage" "token" db' fileRequest =
      Some (s', [ServeFile (@setContentType asciiOnly (fun s => s) "epub")
                   (FilepathJoin.Join "storage" (Storage.RelativePath sampleSaved))]).
Proof.
  apply (@downloaded_file_is_served asciiOnly (fun s => s) trusting
           DownloadFacts.sampleEnv DownloadFacts.sampleWorld 5 42 "reader" "77" "epub"
           sampleSaved empty "token" fileRequest "signed" sampleUser).
  - reflexivity.
  - exact keyed_empty.
  - vm_compute. split; discriminate.
  - discriminate.
  - discriminate.
  - reflexivity.
  - discriminate.
  - reflexivity.
  - reflexivity.
  - reflexivity.
Defined.

Lemma handleProgress_unknown_file_ok_witness :
  exists s',
    @handleProgress asciiOnly (fun s => s) trusting (fun _ => Some (9, "chapter-3"))
      "token" oneDownload progressRequest = Some (s', [WriteJSON 200 OkPayload]) /\
    user_library s' = setLocation 42 9 "chapter-3" <$> user_library oneDownload /\
    (libraryRows oneDownload 42 9 = [] -> user_library s' = user_library oneDownload).
Proof.
  apply (@handleProgress_unknown_file_ok asciiOnly (fun s => s) trusting
           (fun _ => Some (9, "chapter-3")) "token" oneDownload progressRequest "signed"
           sampleUser 9 "chapter-3").
  - reflexivity.
  - reflexivity.
  - discriminate.
  - reflexivity.
  - reflexivity.
  - discriminate.
Defined.

End ReaderFacts.

(** ** The formats of a book page *)

Module ParserFacts.
Import GoInt Strings Models Tgbotapi Telegram Details Parser StorageFacts.

Section Links.
Context `{Unicode}.
Context (map_ToLower : string -> string).

Lemma splitLoop_head (n : nat) (s sep : string) :
  exists x, head (splitLoop n s sep) = Some x.
Proof.
  destruct n as [|n]; cbn [splitLoop]; [eexists; reflexivity|].
  destruct (Index s sep); eexists; reflexivity.
Qed.

Lemma SplitN_head (s sep : string) (n : nat) : exists x, head (SplitN s sep n) = Some x.
Proof. unfold SplitN. apply splitLoop_head. Qed.

(** What the loop keeps: the paths collected are distinct and are those
    of [seen], and each option has the property [P]. *)
Definition collected (P : BookFormatOption -> Prop)
    (st : gset string * list BookFormatOption) : Prop :=
  NoDup (Path <$> st.2) /\
  (forall p, p ∈ Path <$> st.2 -> p ∈ st.1) /\
  Forall P st.2.

(** The path that the loop reads in a link: what follows the prefix,
    trimmed, cut before the first [?] and the first [#], and trimmed
    again. *)
Definition pathOf (prefix h : string) : option string :=
  let rest := TrimSpace (TrimPrefix h prefix) in
  TrimSpace <$>
    (if Contains rest "?" || Contains rest "#"
     then rest ← head (SplitN rest "?" 2); head (SplitN rest "#" 2)
     else Some rest).

(** An option made from an anchor: a path that is not empty and names no
    navigation action, and a link of the book among [anchors] in which
    that path is read and of which the option is exactly what the loop
    makes when it starts from nothing; its label is the text of that
    link, trimmed, or the path in upper case when the text is blank. *)
Definition linked (prefix : string) (anchors : list Anchor) (opt : BookFormatOption)
  : Prop :=
  Path opt <> EmptyString /\
  isNavigation map_ToLower (Path opt) = false /\
  exists a h,
    a ∈ anchors /\ href a = Some h /\ HasPrefix h prefix = true /\
    pathOf prefix h = Some (Path opt) /\
    eachLink map_ToLower prefix (∅, []) a = Some ({[Path opt]}, [opt]) /\
    Label opt = (if Parser.isEmpty (TrimSpace (text a)) then ToUpper (Path opt)
                 else TrimSpace (text a)).

Lemma eachLink_collected (prefix : string) (anchors : list Anchor)
    (st : gset string * list BookFormatOption) (a : Anchor) :
  a ∈ anchors -> collected (linked prefix anchors) st ->
  exists st', eachLink map_ToLower prefix st a = Some st' /\
              collected (linked prefix anchors) st'.
Proof.
  intros Ha Hst. destruct st as [seen opts]. unfold eachLink.
  destruct (href a) as [h|] eqn:Hh; [|eexists; split; [reflexivity|exact Hst]].
  destruct (HasPrefix h prefix) eqn:Hp; cbn [negb];
    [|eexists; split; [reflexivity|exact Hst]].
  destruct (Parser.isEmpty (TrimSpace (TrimPrefix h prefix))) eqn:He0;
    [eexists; split; [reflexivity|exact Hst]|].
  destruct (Contains (TrimSpace (TrimPrefix h prefix)) "/") eqn:Hslash;
    [eexists; split; [reflexivity|exact Hst]|].
  assert (Hcut : exists rest,
            (if Contains (TrimSpace (TrimPrefix h prefix)) "?"
                || Contains (TrimSpace (TrimPrefix h prefix)) "#"
             then rest ← head (SplitN (TrimSpace (TrimPrefix h prefix)) "?" 2);
                  head (SplitN rest "#" 2)
             else Some (TrimSpace (TrimPrefix h prefix))) = Some rest).
  { destruct (_ || _); [|eexists; reflexivity].
    destruct (SplitN_head (TrimSpace (TrimPrefix h prefix)) "?" 2) as [x ->].
    cbn [mbind option_bind]. apply SplitN_head. }
  destruct Hcut as [rest Hcut]. rewrite Hcut. cbn [mbind option_bind].
  destruct (Parser.isEmpty (TrimSpace rest)) eqn:He;
    [eexists; split; [reflexivity|exact Hst]|].
  destruct (isNavigation map_ToLower (TrimSpace rest)) eqn:Hnav;
    [eexists; split; [reflexivity|exact Hst]|].
  destruct (bool_decide (TrimSpace rest ∈ seen)) eqn:Hseen;
    [eexists; split; [reflexivity|exact Hst]|].
  apply bool_decide_eq_false in Hseen.
  eexists. split; [reflexivity|].
  destruct Hst as (Hnd & Hsub & Hall). cbn [fst snd] in *.
  unfold collected. cbn [fst snd]. rewrite fmap_app. cbn [fmap list_fmap Path].
  split; [|split].
  - apply NoDup_app. split; [exact Hnd|]. split; [|apply NoDup_singleton].
    intros p Hp1 Hp2. apply list_elem_of_singleton in Hp2. subst p.
    apply Hseen, Hsub, Hp1.
  - intros p Hin. apply elem_of_app in Hin as [Hin|Hin].
    + apply elem_of_union. right. apply Hsub, Hin.
    + apply list_elem_of_singleton in Hin. subst p.
      apply elem_of_union. left. apply elem_of_singleton. reflexivity.
  - apply Forall_app. split; [exact Hall|]. constructor; [|constructor].
    unfold linked. cbn [Path Label]. split.
    + intros E. rewrite E in He. discriminate He.
    + split; [exact Hnav|]. exists a, h.
      split; [exact Ha|]. split; [exact Hh|]. split; [exact Hp|].
      split; [unfold pathOf; cbv zeta; rewrite Hcut; reflexivity|].
      split; [|reflexivity].
      unfold eachLink. rewrite Hh, Hp. cbn [negb]. rewrite He0, Hslash, Hcut.
      cbn [mbind option_bind]. rewrite He, Hnav.
      rewrite bool_decide_eq_false_2 by apply not_elem_of_empty.
      rewrite (right_id_L ∅ (∪)). reflexivity.
Qed.

Lemma eachLinks_collected (prefix : string) (all : list Anchor) (anchors : list Anchor) :
  forall st, (forall a, a ∈ anchors -> a ∈ all) -> collected (linked prefix all) st ->
  exists st', eachLinks map_ToLower prefix st anchors = Some st' /\
              collected (linked prefix all) st'.
Proof.
  induction anchors as [|a anchors IH]; intros st Hin Hst.
  - exists st. split; [reflexivity|exact Hst].
  - cbn [eachLinks].
    destruct (eachLink_collected prefix all st a) as (st1 & -> & Hst1);
      [apply Hin; set_solver|exact Hst|].
    cbn [mbind option_bind]. apply IH; [|exact Hst1].
    intros x Hx. apply Hin. set_solver.
Qed.

Lemma Formats_collected (bookID : string) (anchors : list Anchor) :
  exists opts,
    Formats map_ToLower bookID anchors = Some opts /\
    NoDup (Path <$> opts) /\
    Forall (linked ("/b/" +:+ bookID +:+ "/") anchors) opts.
Proof.
  unfold Formats. cbv zeta.
  destruct (eachLinks_collected ("/b/" +:+ bookID +:+ "/") anchors anchors (∅, []))
    as ([seen opts] & -> & Hnd & _ & Hall).
  - intros a Ha. exact Ha.
  - split; [constructor|]. split; [|constructor]. intros p Hp. inversion Hp.
  - exists opts. split; [reflexivity|]. split; assumption.
Qed.

(** The formats read from a book page: whatever the links of the page,
    the collection ends without a panic; no two formats have the same
    path; each path is not empty and names none of the navigation
    actions; and each format comes from a link of the page that starts
    with the address of the book: its path is the one read in that link
    (what follows the address, cut before [?] and [#], trimmed), it is
    exactly the format the loop makes of that link taken alone, and its
    label is the text of the link or, when that is blank, its path in
    upper case. *)
Theorem Formats_distinct_paths (bookID : string) (anchors : list Anchor) :
  exists opts,
    Formats map_ToLower bookID anchors = Some opts /\
    NoDup (Path <$> opts) /\
    Forall (linked ("/b/" +:+ bookID +:+ "/") anchors) opts.
Proof. apply Formats_collected. Qed.

(** *** From the page to the keyboard *)

Lemma append_inj (a x y : string) : a +:+ x = a +:+ y -> x = y.
Proof.
  induction a as [|c a IH]; intros E; [exact E|].
  rewrite !append_cons in E. injection E as E. apply IH, E.
Qed.

Lemma detail_data_distinct (xorshiftNext : Z -> Z) (bookID : string)
    (formats : list BookFormatOption) :
  NoDup (Path <$> formats) ->
  NoDup (CallbackData <$> concat (detailRows xorshiftNext bookID formats)).
Proof.
  intros Hnd.
  assert (Hinj : Inj eq eq (fun p => cbDownloadPrefix +:+ bookID +:+ ":" +:+ p)).
  { intros x y E. apply append_inj in E. apply append_inj in E.
    apply append_inj in E. exact E. }
  destruct (decide (formats = [])) as [->|Hne].
  - change (CallbackData <$> concat (detailRows xorshiftNext bookID []))
      with ((fun p => cbDownloadPrefix +:+ bookID +:+ ":" +:+ p) <$> commonFormats).
    apply (NoDup_fmap_2 _). unfold commonFormats.
    repeat (constructor;
            [intros Hin;
             repeat (apply elem_of_cons in Hin as [Hin|Hin]; [discriminate Hin|]);
             inversion Hin|]).
    constructor.
  - rewrite (FormatOrder.detailRows_pairs _ _ _ Hne), FormatOrder.concat_pairs.
    pose proof (PdqsortFacts.Slice_sorts formatLess xorshiftNext
                  FormatOrder.formatLess_irrefl FormatOrder.formatLess_trans
                  FormatOrder.formatLess_cotrans formats) as [Hperm _].
    set (sorted := Sort.Slice formatLess xorshiftNext formats) in *.
    assert (Heq : CallbackData <$> (formatButton bookID <$> sorted) =
                  (fun p => cbDownloadPrefix +:+ bookID +:+ ":" +:+ p) <$> (Path <$> sorted)).
    { clear. induction sorted as [|x l IH]; [reflexivity|]. cbn. rewrite IH. reflexivity. }
    rewrite Heq. apply (NoDup_fmap_2 _). rewrite <- Hperm. exact Hnd.
Qed.

(** Each format button of the card of a parsed page has a payload of its
    own: the formats read from the page, sorted and laid out by
    [sendBookDetails], give buttons whose callback data are pairwise
    distinct (as are those of the three common formats when the page
    has none). *)
Theorem parsed_formats_distinct_buttons (xorshiftNext : Z -> Z) (bookID : string)
    (anchors : list Anchor) :
  exists opts,
    Formats map_ToLower bookID anchors = Some opts /\
    NoDup (CallbackData <$> concat (detailRows xorshiftNext bookID opts)).
Proof.
  destruct (Formats_collected bookID anchors) as (opts & Hf & Hnd & _).
  exists opts. split; [exact Hf|]. apply detail_data_distinct, Hnd.
Qed.

End Links.

(** A page with two links of the same format, a link of another book
    and a navigation link. *)
Example Formats_of_a_page :
  @Formats asciiOnly (fun s => s) "77"
    [ {| href := Some "/b/77/fb2"; text := "fb2 (1.2 MB)" |};
      {| href := Some "/b/77/read"; text := "read" |};
      {| href := Some "/b/78/epub"; text := "epub" |};
      {| href := None; text := "top" |};
      {| href := Some "/b/77/epub?x=1"; text := "" |};
      {| href := Some "/b/77/fb2"; text := "again" |} ] =
    Some [ {| Path := "fb2"; Label := "fb2 (1.2 MB)" |};
           {| Path := "epub"; Label := "EPUB" |} ].
Proof. vm_compute. reflexivity. Qed.

End ParserFacts.

(** ** Search: where it stops *)

Module SearchBounds.
Import GoInt Strings Models Service SearchFacts.

Section Outcome.
Context (ParseBooks : string -> list Book + string).
Context (responses : Z -> Response).

Lemma attemptBody_cases (attempt : Z) :
  match attemptBody ParseBooks responses attempt with
  | NextAttempt => noBooks ParseBooks (responses attempt)
  | Return (inl books) =>
      books <> [] /\
      exists body, responses attempt = Status 200 body None /\
                   1000 <= Strings.len body /\ ParseBooks body = inl books
  | Return (inr _) => ~ noBooks ParseBooks (responses attempt)
  end.
Proof.
  unfold attemptBody, noBooks.
  destruct (responses attempt) as [err|code body readErr].
  - intros (b & Hb & _). discriminate Hb.
  - destruct (Z.eqb_spec code 200) as [->|Hcode]; cbn [negb].
    + destruct readErr as [err|].
      * intros (b & Hb & _). discriminate Hb.
      * destruct (Z.ltb_spec (Strings.len body) 1000) as [Hshort|Hlong].
        -- intros (b & Hb & Hlen & _). injection Hb as <-. lia.
        -- destruct (ParseBooks body) as [books|err] eqn:Hp.
           ++ destruct (Z.ltb_spec 0 (GoInt.len books)) as [Hsome|Hnone].
              ** split; [intros ->; unfold GoInt.len in Hsome; cbn in Hsome; lia|].
                 exists body. repeat split; assumption.
              ** exists body. split; [reflexivity|]. split; [exact Hlong|].
                 destruct books; [exact Hp|]. unfold GoInt.len in Hnone. cbn in Hnone. lia.
           ++ intros (b & Hb & _ & Hp'). injection Hb as <-. congruence.
    + intros (b & Hb & _). injection Hb as -> _. congruence.
Qed.

(** Whatever the catalog answers, [Search] stops at the first response
    that is not a page without books, after three requests at most: it
    makes one request for each attempt, pauses only between two
    requests, returns the books of the first page that has some, or the
    error of the first failure, and gives the empty result only after
    three pages without books. *)
Theorem Search_first_answer (query : string) :
  exists (k : Z) (result : list Book + string),
    1 <= k <= maxAttempts /\
    Search ParseBooks responses query = (result, Z.to_nat k, Z.to_nat (k - 1)) /\
    (forall j, 1 <= j < k -> noBooks ParseBooks (responses j)) /\
    match result with
    | inl [] => k = maxAttempts /\ noBooks ParseBooks (responses k)
    | inl books =>
        exists body, responses k = Status 200 body None /\
                     1000 <= Strings.len body /\ ParseBooks body = inl books
    | inr e => attemptBody ParseBooks responses k = Return (inr e)
    end.
Proof.
  unfold Search, maxAttempts. change (Z.to_nat 3) with 3%nat. cbn [searchLoop].
  pose proof (attemptBody_cases 1) as H1.
  pose proof (attemptBody_cases 2) as H2.
  pose proof (attemptBody_cases 3) as H3.
  assert (Hret : forall k r,
            attemptBody ParseBooks responses k = Return r ->
            match r with
            | inl [] => False
            | inl books =>
                exists body, responses k = Status 200 body None /\
                             1000 <= Strings.len body /\ ParseBooks body = inl books
            | inr e => attemptBody ParseBooks responses k = Return (inr e)
            end).
  { intros k r Hr. pose proof (attemptBody_cases k) as Hk. rewrite Hr in Hk.
    destruct r as [[|b l]|e]; [destruct Hk as [Hk _]; congruence| |exact Hr].
    destruct Hk as [_ Hk]. exact Hk. }
  destruct (attemptBody ParseBooks responses 1) as [r1|] eqn:E1.
  { exists 1, r1. split; [lia|]. split; [reflexivity|]. split; [intros j Hj; lia|].
    specialize (Hret 1 r1 E1). destruct r1 as [[|b l]|e]; [contradiction|exact Hret..]. }
  change (1 + 1) with 2. change (1 <? 3) with true. cbv iota.
  destruct (attemptBody ParseBooks responses 2) as [r2|] eqn:E2.
  { exists 2, r2. split; [lia|]. split; [reflexivity|].
    split; [intros j Hj; assert (j = 1) as -> by lia; exact H1|].
    specialize (Hret 2 r2 E2). destruct r2 as [[|b l]|e]; [contradiction|exact Hret..]. }
  change (2 + 1) with 3. change (2 <? 3) with true. cbv iota.
  assert (Hbefore : forall j, 1 <= j < 3 -> noBooks ParseBooks (responses j)).
  { intros j Hj. assert (j = 1 \/ j = 2) as [-> | ->] by lia; assumption. }
  destruct (attemptBody ParseBooks responses 3) as [r3|] eqn:E3.
  { exists 3, r3. split; [lia|]. split; [reflexivity|]. split; [exact Hbefore|].
    specialize (Hret 3 r3 E3). destruct r3 as [[|b l]|e]; [contradiction|exact Hret..]. }
  exists 3, (inl []). split; [lia|]. split; [reflexivity|]. split; [exact Hbefore|].
  split; [reflexivity|exact H3].
Qed.

End Outcome.

End SearchBounds.

(** ** The reader: what a request may change *)

Module AccessFacts.
Import GoInt Strings Db Queries Httpapi LibraryFacts StoreFacts ReaderFacts.

Section Access.
Context `{Unicode}.
Context (map_ToLower : string -> string).
Context (ValidateInitData : string -> string -> TelegramUser + string).
Context (decodeProgress : string -> option (Z * string)).

(** What a request leaves as it was: the books and the files, the
    number of rows of the library and, when [owner] is a user, the
    registered users but that user and the rows of every other user. *)
Definition onlyOwnRows (s s' : Store) (owner : option TelegramUser) : Prop :=
  (books s', books_seq s', book_files s', book_files_seq s') =
    (books s, books_seq s, book_files s, book_files_seq s) /\
  length (user_library s') = length (user_library s) /\
  match owner with
  | None => s' = s
  | Some user =>
      users s' = <[UserID user := Username user]> (users s) /\
      forall u f, u <> UserID user -> libraryRows s' u f = libraryRows s u f
  end.

Lemma libraryRows_other_user (s : Store) (userID fileID : Z) (location : string)
    (u f : Z) :
  u <> userID ->
  List.filter (sameKey u f) (setLocation userID fileID location <$> user_library s) =
    List.filter (sameKey u f) (user_library s).
Proof.
  intros Hne. induction (user_library s) as [|r l IH]; [reflexivity|]. cbn.
  rewrite sameKey_setLocation. destruct (sameKey u f r) eqn:Hr; [|exact IH].
  rewrite IH. f_equal. unfold setLocation.
  destruct (sameKey userID fileID r) eqn:Hr'; [|reflexivity].
  unfold sameKey in Hr, Hr'.
  apply andb_true_iff in Hr as [Hu _]. apply andb_true_iff in Hr' as [Hu' _].
  apply Z.eqb_eq in Hu, Hu'. congruence.
Qed.

Lemma onlyOwnRows_refl (s : Store) : onlyOwnRows s s None.
Proof. repeat split. Qed.

Lemma onlyOwnRows_ensured (s : Store) (user : TelegramUser) :
  onlyOwnRows s (fst (EnsureUser s (UserID user) (Username user))) (Some user).
Proof. repeat split. Qed.

(** A request of the reader changes nothing but what belongs to the
    user it is signed by: whatever the request, [handleFile] and
    [handleProgress] leave the books and the files as they were and add
    or remove no row of the library; a request without valid signed data
    leaves the whole store as it was; and a request signed by a user
    registers that user and leaves the rows of every other user as they
    were. *)
Theorem requests_change_own_rows (storageDir botToken : string) (s s' : Store)
    (r : Request) (responses : list Response) :
  handleFile map_ToLower ValidateInitData storageDir botToken s r = Some (s', responses) \/
  handleProgress map_ToLower ValidateInitData decodeProgress botToken s r =
    Some (s', responses) ->
  onlyOwnRows s s' None \/
  exists d user,
    extractInitData map_ToLower r = Some d /\ d <> EmptyString /\
    ValidateInitData d botToken = inl user /\
    onlyOwnRows s s' (Some user).
Proof.
  intros [Hrun|Hrun].
  - unfold handleFile in Hrun.
    pose proof (withUser_runs map_ToLower ValidateInitData botToken s r) as Hw.
    match type of Hrun with
    | withUser _ _ _ _ _ ?fn = _ => specialize (Hw fn)
    end.
    rewrite Hrun in Hw.
    destruct Hw as (d & Hd & [[_ Hres]|[(_ & e & _ & Hres)|(Hne & user & Hv & Hres)]]).
    + injection Hres as -> _. left. apply onlyOwnRows_refl.
    + injection Hres as -> _. left. apply onlyOwnRows_refl.
    + right. exists d, user. repeat (split; [assumption|]).
      cbv beta in Hres.
      assert (Hs : s' = fst (EnsureUser s (UserID user) (Username user))).
      { destruct (Httpapi.isEmpty _); [injection Hres as -> _; reflexivity|].
        destruct (ParseInt _); [|injection Hres as -> _; reflexivity].
        destruct (GetFileForUser _ _ _); injection Hres as -> _; reflexivity. }
      rewrite Hs. apply onlyOwnRows_ensured.
  - unfold handleProgress in Hrun.
    destruct (negb (Method r =? "POST")%string).
    { injection Hrun as -> _. left. apply onlyOwnRows_refl. }
    pose proof (withUser_runs map_ToLower ValidateInitData botToken s r) as Hw.
    match type of Hrun with
    | withUser _ _ _ _ _ ?fn = _ => specialize (Hw fn)
    end.
    rewrite Hrun in Hw.
    destruct Hw as (d & Hd & [[_ Hres]|[(_ & e & _ & Hres)|(Hne & user & Hv & Hres)]]).
    + injection Hres as -> _. left. apply onlyOwnRows_refl.
    + injection Hres as -> _. left. apply onlyOwnRows_refl.
    + right. exists d, user. repeat (split; [assumption|]).
      cbv beta in Hres.
      destruct (decodeProgress (Body r)) as [[fileID location]|];
        [|injection Hres as -> _; apply onlyOwnRows_ensured].
      destruct (fileID =? 0); [injection Hres as -> _; apply onlyOwnRows_ensured|].
      unfold UpdateProgress in Hres. injection Hres as -> _.
      unfold onlyOwnRows, libraryRows.
      cbn [fst EnsureUser users books books_seq book_files book_files_seq user_library].
      split; [reflexivity|]. split; [apply length_fmap|]. split; [reflexivity|].
      intros u f Hu. apply libraryRows_other_user, Hu.
Qed.

End Access.

(** The library of two readers, and the progress request of the
    first. *)
Definition twoReaders : Store :=
  {| users := {[ 42 := "reader" ]};
     books := [];
     books_seq := 0;
     book_files := [{| file_id := 1; file_book_id := 1; format := "epub";
                       path := "00112233445566778899aabbccddeeff.epub";
                       size_bytes := 7 |}];
     book_files_seq := 1;
     user_library := [{| user_id := 42; book_file_id := 1; added_at := "2026-01-01";
                         current_location := None |};
                      {| user_id := 43; book_file_id := 1; added_at := "2026-01-02";
                         current_location := Some "chapter-1" |}] |}.

Definition afterProgress : Store :=
  fst (UpdateProgress (fst (EnsureUser twoReaders 42 "reader")) 42 1 "chapter-3").

Lemma requests_change_own_rows_witness :
  onlyOwnRows twoReaders afterProgress None \/
  exists d user,
    @extractInitData asciiOnly (fun s => s) progressRequest = Some d /\
    d <> EmptyString /\
    trusting d "token" = inl user /\
    onlyOwnRows twoReaders afterProgress (Some user).
Proof.
  apply (@requests_change_own_rows asciiOnly (fun s => s) trusting
           (fun _ => Some (1, "chapter-3")) "storage" "token" twoReaders afterProgress
           progressRequest [WriteJSON 200 OkPayload]).
  right. vm_compute. reflexivity.
Defined.

End AccessFacts.

(** ** The configuration: what Load hands to the rest *)

Module ConfigFacts.
Import GoInt Strings Filepath FilepathJoin Config StorageFacts JoinFacts.

Lemma cleanStep_nonempty (rooted : bool) (kept : list string) (e : string) :
  Forall (fun x => x <> EmptyString) kept ->
  Forall (fun x => x <> EmptyString) (cleanStep rooted kept e).
Proof.
  intros Hk. unfold cleanStep.
  destruct (String.eqb_spec e "") as [|Hne]; [exact Hk|].
  destruct (String.eqb e "."); [exact Hk|]. cbn [orb].
  destruct (String.eqb e "..").
  - destruct kept as [|k kept'].
    + destruct rooted; [constructor|]. constructor; [exact Hne|constructor].
    + destruct (String.eqb k ".."); [constructor; [exact Hne|exact Hk]|].
      inversion Hk; assumption.
  - constructor; [exact Hne|exact Hk].
Qed.

Lemma foldl_cleanStep_nonempty (rooted : bool) (es : list string) :
  forall kept, Forall (fun x => x <> EmptyString) kept ->
  Forall (fun x => x <> EmptyString) (foldl (cleanStep rooted) kept es).
Proof.
  induction es as [|e es IH]; intros kept Hk; [exact Hk|].
  cbn [foldl]. apply IH, cleanStep_nonempty, Hk.
Qed.

Lemma joinWith_not_empty (es : list string) :
  es <> [] -> Forall (fun x => x <> EmptyString) es -> joinWith "/" es <> EmptyString.
Proof.
  destruct es as [|e es]; [congruence|]. intros _ Hall.
  inversion Hall as [|? ? He _]; subst.
  destruct es as [|e' es]; [exact He|].
  change (joinWith "/" (e :: e' :: es)) with (e +:+ "/" +:+ joinWith "/" (e' :: es)).
  destruct e; [congruence|discriminate].
Qed.

(** [filepath.Clean] never returns the empty string. *)
Lemma Clean_not_empty (path : string) : Clean path <> EmptyString.
Proof.
  unfold Clean, render.
  pose proof (foldl_cleanStep_nonempty (isRooted path) (elements path) []
                ltac:(constructor)) as Hk.
  destruct (isRooted path); [discriminate|].
  destruct (foldl (cleanStep false) [] (elements path)) as [|k kept] eqn:E;
    [discriminate|].
  apply joinWith_not_empty.
  - rewrite reverse_cons. destruct (reverse kept); discriminate.
  - apply Forall_reverse. exact Hk.
Qed.

Lemma IsAbs_isRooted (path : string) : IsAbs path = isRooted path.
Proof.
  destruct path as [|c path]; [reflexivity|].
  unfold IsAbs, isRooted, IsPathSeparator, Separator. cbn [HasPrefix].
  destruct path; apply andb_true_r.
Qed.

(** A rooted path stays rooted when cleaned. *)
Lemma Clean_abs (path : string) : IsAbs path = true -> IsAbs (Clean path) = true.
Proof.
  rewrite (IsAbs_isRooted path). intros Hr. unfold Clean. rewrite Hr.
  unfold render. set (j := joinWith _ _). change ("/" +:+ j) with (String "/" j).
  rewrite IsAbs_isRooted. reflexivity.
Qed.

Lemma dirLoop_first (c : ascii) (path : string) (i : nat) :
  IsPathSeparator c = true -> (1 <= i)%nat -> (1 <= dirLoop (String c path) i)%nat.
Proof.
  intros Hc. induction i as [|i IH]; [lia|]. intros _. cbn [dirLoop].
  destruct i as [|i].
  - cbn [String.get]. rewrite Hc. lia.
  - destruct (String.get (S i) (String c path)) as [c'|].
    + destruct (IsPathSeparator c'); [lia|]. apply IH. lia.
    + apply IH. lia.
Qed.

(** The directory of an absolute path is absolute. *)
Lemma Dir_abs (path : string) : IsAbs path = true -> IsAbs (Dir path) = true.
Proof.
  intros Ha. unfold Dir. apply Clean_abs.
  rewrite IsAbs_isRooted in Ha |- *.
  destruct path as [|c path]; [discriminate|]. cbn [isRooted] in Ha.
  pose proof (dirLoop_first c path (String.length (String c path)) Ha) as Hd.
  cbn [String.length] in Hd. specialize (Hd ltac:(lia)).
  cbn [String.length].
  destruct (dirLoop (String c path) (S (String.length path))); [lia|].
  cbn [upto isRooted]. exact Ha.
Qed.

Lemma Join_abs (base p : string) :
  IsAbs base = true -> IsAbs (Clean (Httpapi.Join base p)) = true.
Proof.
  intros Ha. apply Clean_abs. unfold Httpapi.Join.
  destruct base as [|c base]; [discriminate|]. cbn [Httpapi.isEmpty].
  destruct (Httpapi.isEmpty p); apply Clean_abs; [exact Ha|].
  rewrite IsAbs_isRooted in Ha |- *. exact Ha.
Qed.

Section Loaded.
Context `{Unicode}.

(** A path that [resolvePath] is given with something besides spaces is
    not empty once resolved, and is absolute when the directory it is
    resolved against is. *)
Lemma resolvePath_resolved (os : OS) (p : string) :
  TrimSpace p <> EmptyString ->
  resolvePath os p <> EmptyString /\
  (match Executable os with
   | inl exe => IsAbs exe = true
   | inr _ => match Getwd os with inl cwd => IsAbs cwd = true | inr _ => False end
   end -> IsAbs (resolvePath os p) = true).
Proof.
  intros Hp. unfold resolvePath.
  destruct (TrimSpace p) as [|c t] eqn:Ht; [congruence|]. cbn [Config.isEmpty].
  destruct (IsAbs (String c t)) eqn:Habs; [split; [discriminate|intros _; exact Habs]|].
  destruct (Executable os) as [exe|_].
  - split; [apply Clean_not_empty|]. intros Ha. apply Join_abs, Dir_abs, Ha.
  - destruct (Getwd os) as [cwd|_].
    + split; [apply Clean_not_empty|]. intros Ha. apply Join_abs, Ha.
    + split; [discriminate|]. intros [].
Qed.

Lemma withDefault_not_blank (value fallback : string) :
  TrimSpace fallback <> EmptyString -> TrimSpace (withDefault value fallback) <> EmptyString.
Proof.
  intros Hf. unfold withDefault.
  destruct (TrimSpace value) eqn:Hv; cbn [Config.isEmpty]; [exact Hf|].
  rewrite Hv. discriminate.
Qed.

(** [Load] fails only for want of one of the three required variables;
    the configuration it returns holds them as they are, and never has
    an empty database path, storage directory or address, whatever the
    optional variables hold (blank ones give way to the defaults); the
    two paths are absolute as soon as the path of the executable (or,
    without it, the working directory) is. *)
Theorem Load_resolves_paths (os : OS) :
  match Load os with
  | inr _ =>
      Getenv os "TOR_PROXY" = EmptyString \/ Getenv os "FLIBUSTA_URL" = EmptyString \/
      Getenv os "TELEGRAM_TOKEN" = EmptyString
  | inl cfg =>
      TorProxyAddr cfg <> EmptyString /\ FlibustaURL cfg <> EmptyString /\
      TelegramToken cfg <> EmptyString /\
      SQLitePath cfg <> EmptyString /\ StorageDir cfg <> EmptyString /\
      TrimSpace (HTTPAddr cfg) <> EmptyString /\
      (match Executable os with
       | inl exe => IsAbs exe = true
       | inr _ => match Getwd os with inl cwd => IsAbs cwd = true | inr _ => False end
       end ->
       IsAbs (SQLitePath cfg) = true /\ IsAbs (StorageDir cfg) = true)
  end.
Proof.
  unfold Load.
  destruct (Getenv os "TOR_PROXY") as [|c1 s1] eqn:E1; cbn [Config.isEmpty];
    [left; reflexivity|].
  destruct (Getenv os "FLIBUSTA_URL") as [|c2 s2] eqn:E2; cbn [Config.isEmpty];
    [right; left; reflexivity|].
  destruct (Getenv os "TELEGRAM_TOKEN") as [|c3 s3] eqn:E3; cbn [Config.isEmpty];
    [right; right; reflexivity|].
  cbn [TorProxyAddr FlibustaURL TelegramToken SQLitePath StorageDir HTTPAddr].
  assert (Hdb : TrimSpace (withDefault (Getenv os "SQLITE_PATH") "data/app.db")
                <> EmptyString)
    by (apply withDefault_not_blank; discriminate).
  assert (Hdir : TrimSpace (withDefault (Getenv os "STORAGE_DIR") "storage/books")
                 <> EmptyString)
    by (apply withDefault_not_blank; discriminate).
  destruct (resolvePath_resolved os _ Hdb) as [Hdb1 Hdb2].
  destruct (resolvePath_resolved os _ Hdir) as [Hdir1 Hdir2].
  repeat (split; [first [discriminate | assumption]|]).
  split; [apply withDefault_not_blank; discriminate|].
  intros Ha. split; [apply Hdb2, Ha|apply Hdir2, Ha].
Qed.

End Loaded.

(** A deployment that sets the three required variables and a relative
    storage directory. *)
Definition deployed : OS :=
  {| Getenv := fun key =>
       if String.eqb key "TOR_PROXY" then "127.0.0.1:9050"
       else if String.eqb key "FLIBUSTA_URL" then "http://flibusta.example"
       else if String.eqb key "TELEGRAM_TOKEN" then "token"
       else if String.eqb key "STORAGE_DIR" then " ../files "
       else "";
     Executable := inl "/opt/bot/bin/app";
     Getwd := inl "/root" |}.

Example Load_deployed :
  @Load asciiOnly deployed =
    inl {| TorProxyAddr := "127.0.0.1:9050";
           FlibustaURL := "http://flibusta.example";
           TelegramToken := "token";
           SQLitePath := "/opt/bot/bin/data/app.db";
           StorageDir := "/opt/bot/files";
           HTTPAddr := ":8080";
           MiniAppURL := "" |}.
Proof. vm_compute. reflexivity. Qed.

End ConfigFacts.

(** ** The library over several downloads *)

Module GrowthFacts.
Import GoInt Strings Db Queries Storage Actions LibraryFacts StoreFacts ReaderFacts.

(** The row of [book_files] and the row of [user_library] that one
    download adds. *)
Definition newFile (db : Store) (bookDBID : Z) (formatPath : string) (saved : SavedFile)
  : FileRow :=
  {| file_id := book_files_seq db + 1; file_book_id := bookDBID; format := formatPath;
     path := Storage.RelativePath saved; size_bytes := Storage.SizeBytes saved |}.

Definition newLink (env : DownloadEnv) (db : Store) (userID : Z) : LibraryRow :=
  {| user_id := userID; book_file_id := book_files_seq db + 1; added_at := now env;
     current_location := None |}.

Lemma persist_shape (env : DownloadEnv) (w : World) (chatID userID : Z)
    (username bookID formatPath : string) (saved : SavedFile) (db : Store) :
  store w = Some db -> keyed db ->
  exists db' bookDBID,
    persist env w chatID userID username bookID formatPath saved = Some db' /\
    keyed db' /\
    users db' = <[userID := username]> (users db) /\
    book_files db' = book_files db ++ [newFile db bookDBID formatPath saved] /\
    book_files_seq db' = book_files_seq db + 1 /\
    (user_library db' = user_library db \/
     user_library db' = user_library db ++ [newLink env db userID]) /\
    (bookID <> EmptyString ->
     length (List.filter (hasSource bookID) (books db')) = 1%nat).
Proof.
  intros Hstore Hk. unfold persist. rewrite Hstore. unfold EnsureUser.
  set (db1 := {| users := <[userID:=username]> (users db); books := books db;
                 books_seq := books_seq db; book_files := book_files db;
                 book_files_seq := book_files_seq db;
                 user_library := user_library db |}).
  assert (Hk1 : keyed db1) by exact Hk.
  destruct (match findBookInSession (bot w) chatID bookID with
            | Some book => (Models.Title book, Models.Author book)
            | None => (EmptyString, EmptyString)
            end) as [t a].
  destruct (UpsertBook_hasBook db1 bookID t a)
    as (id & Hid & Hhas & Hfiles & Hseq & Hus & Hlib).
  pose proof (UpsertBook_keyed db1 bookID t a Hk1) as Hk2.
  assert (Hbooks : bookID <> EmptyString ->
            length (List.filter (hasSource bookID)
                      (books (fst (UpsertBook db1 bookID t a)))) = 1%nat).
  { intros Hne. destruct (UpsertBook_finds db1 bookID t a Hne) as (b & Hfind & _).
    rewrite (find_only _ _ _ Hfind); [reflexivity|].
    destruct Hk2 as (_ & _ & _ & _ & Hu & _). apply Hu. }
  destruct (UpsertBook db1 bookID t a) as [db2 r]. cbn [fst snd] in *. subst r.
  unfold InsertBookFile. rewrite Hhas, andb_false_r.
  set (row := {| file_id := book_files_seq db2 + 1; file_book_id := id;
                 format := formatPath; path := Storage.RelativePath saved;
                 size_bytes := Storage.SizeBytes saved |}).
  set (db3 := {| users := users db2; books := books db2; books_seq := books_seq db2;
                 book_files := book_files db2 ++ [row];
                 book_files_seq := book_files_seq db2 + 1;
                 user_library := user_library db2 |}).
  assert (Hk3 : keyed db3).
  { pose proof (InsertBookFile_keyed false db2 id formatPath (Storage.RelativePath saved)
                  (Storage.SizeBytes saved) Hk2) as H. exact H. }
  exists (fst (AddToLibrary (foreign_keys env) (now env) db3 userID
                 (book_files_seq db2 + 1))), id.
  split; [reflexivity|].
  split; [apply AddToLibrary_keyed, Hk3|].
  assert (Hrow : row = newFile db id formatPath saved).
  { unfold row, newFile. rewrite Hseq. reflexivity. }
  assert (Hlink : {| user_id := userID; book_file_id := book_files_seq db2 + 1;
                     added_at := now env; current_location := None |} =
                  newLink env db userID).
  { unfold newLink. rewrite Hseq. reflexivity. }
  unfold AddToLibrary.
  destruct (existsb (sameKey userID (book_files_seq db2 + 1)) (user_library db3)).
  - cbn [fst users book_files book_files_seq user_library books db3].
    rewrite Hus, Hfiles, Hseq, Hlib, Hrow. repeat split; [left; reflexivity|exact Hbooks].
  - destruct (foreign_keys env && negb (hasUser db3 userID &&
                hasFile db3 (book_files_seq db2 + 1))).
    + cbn [fst users book_files book_files_seq user_library books db3].
      rewrite Hus, Hfiles, Hseq, Hlib, Hrow.
      repeat split; [left; reflexivity|exact Hbooks].
    + cbn [fst users book_files book_files_seq user_library books db3].
      rewrite Hlink, Hus, Hfiles, Hseq, Hlib, Hrow.
      repeat split; [right; reflexivity|exact Hbooks].
Qed.

Lemma find_app_some {A} (p : A -> bool) (l l' : list A) (x : A) :
  List.find p l = Some x -> List.find p (l ++ l') = Some x.
Proof.
  induction l as [|y l IH]; [discriminate|]. cbn.
  destruct (p y); [trivial|exact IH].
Qed.

Lemma find_ext_Forall {A} (p q : A -> bool) (l : list A) :
  Forall (fun x => p x = q x) l -> List.find p l = List.find q l.
Proof.
  induction 1 as [|x l Hx _ IH]; [reflexivity|]. cbn. rewrite Hx, IH. reflexivity.
Qed.

Lemma inLibrary_grown (db db' : Store) (u : Z) (link : LibraryRow) (bf : FileRow) :
  user_library db' = user_library db \/ user_library db' = user_library db ++ [link] ->
  book_file_id link <> file_id bf ->
  inLibrary db' u bf = inLibrary db u bf.
Proof.
  intros [Hl|Hl] Hne; unfold inLibrary; rewrite Hl; [reflexivity|].
  rewrite existsb_app. cbn [existsb].
  destruct (Z.eqb_spec (book_file_id link) (file_id bf)); [contradiction|].
  cbn [andb orb]. rewrite !orb_false_r. reflexivity.
Qed.

(** A store that grows by one file and, at most, by the link to that
    file gives every user the files it gave before. *)
Lemma GetFileForUser_kept (db db' : Store) (row : FileRow) (link : LibraryRow)
    (u f : Z) (file : BookFile) :
  keyed db ->
  book_files db' = book_files db ++ [row] ->
  user_library db' = user_library db \/ user_library db' = user_library db ++ [link] ->
  book_file_id link = book_files_seq db + 1 ->
  GetFileForUser db u f = inl file -> GetFileForUser db' u f = inl file.
Proof.
  intros Hk Hbf Hl Hid. unfold GetFileForUser. rewrite Hbf.
  destruct (List.find (fun bf => inLibrary db u bf && (file_id bf =? f)) (book_files db))
    as [bf|] eqn:Hfind; [|discriminate].
  intros Heq.
  rewrite (find_app_some _ _ _ bf); [exact Heq|].
  rewrite <- Hfind. apply find_ext_Forall.
  destruct Hk as (_ & _ & _ & Hle & _).
  eapply Forall_impl; [exact Hle|]. intros x Hx. cbv beta in Hx |- *.
  rewrite (inLibrary_grown db db' u link x Hl); [reflexivity|]. lia.
Qed.

(** A download takes nothing away: once the metadata of a saved file
    are written to a store that has its keys, every file that any user
    could read before is still given to that user, with the same path,
    format and size; and no other user's name changes. *)
Theorem persist_keeps_files (env : DownloadEnv) (w : World) (chatID userID : Z)
    (username bookID formatPath : string) (saved : SavedFile) (db : Store) :
  store w = Some db -> keyed db ->
  exists db',
    persist env w chatID userID username bookID formatPath saved = Some db' /\
    (forall u f file,
       GetFileForUser db u f = inl file -> GetFileForUser db' u f = inl file) /\
    (forall u, u <> userID -> users db' !! u = users db !! u).
Proof.
  intros Hstore Hk.
  destruct (persist_shape env w chatID userID username bookID formatPath saved db
              Hstore Hk) as (db' & id & Hp & _ & Hus & Hbf & _ & Hl & _).
  exists db'. split; [exact Hp|]. split.
  - intros u f file. apply (GetFileForUser_kept db db' _ _ u f file Hk Hbf Hl).
    reflexivity.
  - intros u Hu. rewrite Hus. apply lookup_insert_ne. congruence.
Qed.

Definition savedAs (id : Z) (formatPath : string) (saved : SavedFile) : BookFile :=
  {| Queries.ID := id;
     Queries.Path := Storage.RelativePath saved;
     Queries.Format := formatPath;
     Queries.SizeBytes := Storage.SizeBytes saved |}.

(** Downloading the same book again stores it again: after two
    downloads of one book by one user, written to a store that has its
    keys, the user is given both files under two consecutive identifiers,
    each with the path and the size of its own save, while [books] holds
    one row for the book. *)
Theorem download_again_adds_file (env1 env2 : DownloadEnv) (w w2 : World)
    (chatID userID : Z) (username bookID formatPath : string)
    (saved1 saved2 : SavedFile) (db : Store) :
  store w = Some db -> keyed db -> bookID <> EmptyString ->
  exists db1,
    persist env1 w chatID userID username bookID formatPath saved1 = Some db1 /\
    (store w2 = Some db1 ->
     exists db2,
       persist env2 w2 chatID userID username bookID formatPath saved2 = Some db2 /\
       GetFileForUser db2 userID (book_files_seq db + 1) =
         inl (savedAs (book_files_seq db + 1) formatPath saved1) /\
       GetFileForUser db2 userID (book_files_seq db + 2) =
         inl (savedAs (book_files_seq db + 2) formatPath saved2) /\
       length (book_files db2) = S (S (length (book_files db))) /\
       length (List.filter (hasSource bookID) (books db2)) = 1%nat).
Proof.
  intros Hstore Hk Hne.
  destruct (persist_shape env1 w chatID userID username bookID formatPath saved1 db
              Hstore Hk) as (db1 & id1 & Hp1 & Hk1 & _ & Hbf1 & Hseq1 & _ & _).
  destruct (persist_file_found env1 w chatID userID username bookID formatPath saved1 db
              Hstore Hk) as (db1' & Hp1' & _ & _ & Hget1).
  rewrite Hp1 in Hp1'. injection Hp1' as <-.
  exists db1. split; [exact Hp1|]. intros Hstore2.
  destruct (persist_shape env2 w2 chatID userID username bookID formatPath saved2 db1
              Hstore2 Hk1) as (db2 & id2 & Hp2 & _ & _ & Hbf2 & _ & Hl2 & Hbooks2).
  destruct (persist_file_found env2 w2 chatID userID username bookID formatPath saved2
              db1 Hstore2 Hk1) as (db2' & Hp2' & _ & _ & Hget2).
  rewrite Hp2 in Hp2'. injection Hp2' as <-.
  exists db2. split; [exact Hp2|]. split.
  { apply (GetFileForUser_kept db1 db2 _ _ userID _ _ Hk1 Hbf2 Hl2); [reflexivity|].
    exact Hget1. }
  split.
  { rewrite Hseq1 in Hget2. replace (book_files_seq db + 2) with (book_files_seq db + 1 + 1)
      by lia. exact Hget2. }
  split; [|exact (Hbooks2 Hne)].
  rewrite Hbf2, Hbf1, !length_app. cbn. lia.
Qed.

(** The world after the first download of the examples. *)
Definition afterFirst : World :=
  {| bot := bot DownloadFacts.sampleWorld;
     storage := storage DownloadFacts.sampleWorld;
     store := persist DownloadFacts.sampleEnv DownloadFacts.sampleWorld 5 42 "reader"
                "77" "epub" sampleSaved;
     storageDir := "storage"; miniAppURL := "" |}.

Definition savedAgain : SavedFile :=
  {| Storage.RelativePath := "ffeeddccbbaa99887766554433221100.epub";
     Storage.SizeBytes := 7 |}.

(** A world whose store holds one download of the reader 42, and the
    keys of that store. *)
Definition libraryWorld : World :=
  {| bot := {| Telegram.sessions := ∅ |}; storage := storage DownloadFacts.sampleWorld;
     store := Some oneDownload; storageDir := "storage"; miniAppURL := "" |}.

Lemma keyed_oneDownload : keyed oneDownload.
Proof.
  unfold keyed, oneDownload, primaryKey, libraryRows.
  cbn [books books_seq book_files book_files_seq user_library].
  split; [apply NoDup_singleton|]. split; [repeat constructor; cbn; lia|].
  split; [apply NoDup_singleton|]. split; [repeat constructor; cbn; lia|].
  split.
  - intros src. cbn [List.filter]. destruct (hasSource src _); cbn; lia.
  - intros u f. cbn [List.filter]. destruct (sameKey u f _); cbn; lia.
Qed.

Lemma persist_keeps_files_witness :
  GetFileForUser oneDownload 42 1 =
    inl {| Queries.ID := 1; Queries.Path := "00112233445566778899aabbccddeeff.epub";
           Queries.Format := "epub"; Queries.SizeBytes := 7 |} /\
  exists db',
    persist DownloadFacts.sampleEnv libraryWorld 6 43 "other" "78" "fb2" savedAgain =
      Some db' /\
    (forall u f file,
       GetFileForUser oneDownload u f = inl file -> GetFileForUser db' u f = inl file) /\
    (forall u, u <> 43 -> users db' !! u = users oneDownload !! u).
Proof.
  split; [reflexivity|].
  apply (persist_keeps_files DownloadFacts.sampleEnv libraryWorld 6 43 "other" "78" "fb2"
           savedAgain oneDownload).
  - reflexivity.
  - exact keyed_oneDownload.
Defined.

Lemma download_again_adds_file_witness :
  exists db1,
    persist DownloadFacts.sampleEnv DownloadFacts.sampleWorld 5 42 "reader" "77" "epub"
      sampleSaved = Some db1 /\
    (store afterFirst = Some db1 ->
     exists db2,
       persist DownloadFacts.sampleEnv afterFirst 5 42 "reader" "77" "epub" savedAgain =
         Some db2 /\
       GetFileForUser db2 42 (book_files_seq empty + 1) =
         inl (savedAs (book_files_seq empty + 1) "epub" sampleSaved) /\
       GetFileForUser db2 42 (book_files_seq empty + 2) =
         inl (savedAs (book_files_seq empty + 2) "epub" savedAgain) /\
       length (book_files db2) = S (S (length (book_files empty))) /\
       length (List.filter (hasSource "77") (books db2)) = 1%nat).
Proof.
  apply (download_again_adds_file DownloadFacts.sampleEnv DownloadFacts.sampleEnv
           DownloadFacts.sampleWorld afterFirst 5 42 "reader" "77" "epub" sampleSaved
           savedAgain empty).
  - reflexivity.
  - exact keyed_empty.
  - discriminate.
Defined.

End GrowthFacts.

(** ** Turning the pages with the buttons *)

Module TurningFacts.
Import GoInt Models Tgbotapi Telegram Pagination Callback Actions SessionFacts
  ButtonFacts.

(** The button pressed and the page it leads to: the next page, when
    the page shown is not the last, or the page before, when it is not
    the first. *)
Definition turns (shown pages : Z) (data : string) (target : Z) : Prop :=
  (shown < pages - 1 /\ data = CallbackData (nextButton shown) /\ target = shown + 1) \/
  (0 < shown /\ data = CallbackData (prevButton shown) /\ target = shown - 1).

(** Pressing an arrow of a page of results turns one page: the payload
    of the arrow is read back by [handleCallback] as the page after (or
    before) the page shown, and [editBooksPage] then edits the same
    message into exactly that page, without clamping, and records it in
    the session. *)
Theorem arrows_turn_one_page (b : Bot) (chatID requested : Z) (s : searchSession)
    (cb : CallbackQuery) (msg : Message) (target : Z) :
  sessions b !! chatID = Some s ->
  0 < pageSize s ->
  GoInt.len (books s) + pageSize s <= max_int ->
  books s <> [] ->
  CbMessage cb = Some msg -> ChatID msg = chatID ->
  exists pages b1 text markup,
    totalPages (GoInt.len (books s)) (pageSize s) = Some pages /\
    buildPage b chatID requested = Some (b1, (text, markup, true)) /\
    (turns (clampPage requested pages) pages (Data cb) target ->
     exists markup2,
       handleCallback cb =
         [AnswerCallback (CallbackID cb) "Листаю…";
          EditBooksPage chatID (MessageID msg) target] /\
       editBooksPage b1 chatID (MessageID msg) target =
         Some (setPage b1 chatID target,
               [EditMessageText chatID (MessageID msg)
                  (pageText (GoInt.len (books s)) target pages) markup2]) /\
       getSession (setPage b1 chatID target) chatID =
         Some {| books := books s; page := target; pageSize := pageSize s |}).
Proof.
  intros Hs Hp Hb Hne Hmsg Hchat.
  destruct (totalPages_ceil (GoInt.len (books s)) (pageSize s)) as (pages & Ht & _ & Hr);
    [apply len_nonneg|assumption|assumption|].
  destruct (buildPage_rendered b chatID requested s Hs Hp Hb Hne)
    as (pages' & Ht' & Hrender).
  rewrite Ht in Ht'. injection Ht' as <-. cbv zeta in Hrender.
  destruct Hrender as (Hpos & _ & _ & _ & Hbuild).
  assert (Hir : in_range pages).
  { pose proof (len_nonneg (books s)). unfold in_range, min_int, max_int in *. lia. }
  pose proof (clampPage_range requested pages Hpos Hir) as Hcl.
  set (shown := clampPage requested pages) in *.
  exists pages. eexists _, _, _. split; [exact Ht|]. split; [exact Hbuild|].
  intros Hturn.
  assert (Htarget : 0 <= target < pages /\ Data cb = cbPagePrefix +:+ itoa target).
  { destruct Hturn as [(Hlt & Hdata & ->)|(Hgt & Hdata & ->)].
    - split; [lia|]. rewrite Hdata. unfold nextButton. cbn [CallbackData].
      unfold add. rewrite wrap_small; [reflexivity|].
      unfold in_range, min_int, max_int in *. lia.
    - split; [lia|]. rewrite Hdata. unfold prevButton. cbn [CallbackData].
      unfold sub. rewrite wrap_small; [reflexivity|].
      unfold in_range, min_int, max_int in *. lia. }
  destruct Htarget as (Hrange & Hdata).
  assert (Hs1 : sessions (setPage b chatID shown) !! chatID =
                Some {| books := books s; page := shown; pageSize := pageSize s |}).
  { exact (getSession_setPage b chatID shown s Hs). }
  destruct (buildPage_rendered (setPage b chatID shown) chatID target _ Hs1 Hp Hb Hne)
    as (pages2 & Ht2 & Hrender2).
  cbn [books pageSize] in Ht2, Hrender2.
  rewrite Ht in Ht2. injection Ht2 as <-. cbv zeta in Hrender2.
  destruct Hrender2 as (_ & _ & _ & _ & Hbuild2).
  rewrite (clampPage_fixed target pages) in Hbuild2 by lia.
  eexists. split; [|split].
  - rewrite <- Hchat. apply handleCallback_page_data; [exact Hmsg| |exact Hdata].
    unfold in_range, min_int, max_int in *. lia.
  - unfold editBooksPage. rewrite Hbuild2. cbn [mbind option_bind negb]. reflexivity.
  - exact (getSession_setPage _ chatID target _ Hs1).
Qed.

Lemma arrows_turn_one_page_witness :
  exists pages b1 text markup,
    totalPages (GoInt.len (books (sampleSession 25))) (pageSize (sampleSession 25)) = Some pages /\
    buildPage (sampleBot 25) 1 0 = Some (b1, (text, markup, true)) /\
    (turns (clampPage 0 pages) pages
       (Data {| CallbackID := "q"; From := {| UserID := 42; UserName := "reader" |};
                CbMessage := Some {| ChatID := 1; MessageID := 8 |};
                Data := "page:1" |}) 1 ->
     exists markup2,
       handleCallback
         {| CallbackID := "q"; From := {| UserID := 42; UserName := "reader" |};
            CbMessage := Some {| ChatID := 1; MessageID := 8 |};
            Data := "page:1" |} =
         [AnswerCallback "q" "Листаю…"; EditBooksPage 1 8 1] /\
       editBooksPage b1 1 8 1 =
         Some (setPage b1 1 1,
               [EditMessageText 1 8
                  (pageText (GoInt.len (books (sampleSession 25))) 1 pages) markup2]) /\
       getSession (setPage b1 1 1) 1 =
         Some {| books := books (sampleSession 25); page := 1;
                 pageSize := pageSize (sampleSession 25) |}).
Proof.
  apply (arrows_turn_one_page (sampleBot 25) 1 0 (sampleSession 25)
           {| CallbackID := "q"; From := {| UserID := 42; UserName := "reader" |};
              CbMessage := Some {| ChatID := 1; MessageID := 8 |};
              Data := "page:1" |}
           {| ChatID := 1; MessageID := 8 |} 1).
  - reflexivity.
  - reflexivity.
  - vm_compute. discriminate.
  - discriminate.
  - reflexivity.
  - reflexivity.
Defined.

End TurningFacts.

(** ** sendBookDetails: the card *)

Module CardFacts.
Import GoInt Strings Models Tgbotapi Telegram Details Actions.

Section Card.
Context `{Unicode}.

Lemma detailRows_buttons (xorshiftNext : Z -> Z) (bookID : string)
    (formats : list BookFormatOption) :
  length (concat (detailRows xorshiftNext bookID formats)) =
    if decide (formats = []) then 3%nat else length formats.
Proof.
  destruct (decide (formats = [])) as [->|Hne]; [reflexivity|].
  rewrite (FormatOrder.detailRows_pairs _ _ _ Hne), FormatOrder.concat_pairs.
  pose proof (PdqsortFacts.Slice_sorts formatLess xorshiftNext
                FormatOrder.formatLess_irrefl FormatOrder.formatLess_trans
                FormatOrder.formatLess_cotrans formats) as [Hperm _].
  rewrite length_fmap. symmetry. apply Permutation_length, Hperm.
Qed.

Lemma orDefault_not_empty (s fallback : string) :
  fallback <> EmptyString ->
  (if Details.isEmpty s then fallback else s) <> EmptyString /\
  (s <> EmptyString -> (if Details.isEmpty s then fallback else s) = s).
Proof.
  intros Hf. destruct s; cbn; [split; [exact Hf|congruence]|].
  split; [discriminate|reflexivity].
Qed.

(** The card of a book is one message in every case. When the details
    cannot be fetched it is the notice of the failure. Otherwise its
    caption names a title and an author that are never empty, those of
    the book of the session when the session has the book (whatever the
    page says) and those of the page otherwise, each replaced by a fixed
    text when empty; its keyboard has one button for each format of the
    page, or three when the page has none; and it is a photo exactly
    when the page names a cover whose download gives at least one
    byte. *)
Theorem sendBookDetails_one_card (xorshiftNext : Z -> Z) (b : Bot)
    (fetched : BookDetails + string) (cover : string + string)
    (chatID : Z) (bookID : string) :
  let sent := sendBookDetails xorshiftNext b fetched cover chatID bookID in
  match fetched with
  | inr _ => exists text, sent = [SendText chatID text]
  | inl details =>
      exists t a,
        let caption := "📖 " +:+ t +:+ newline +:+ "✍️ " +:+ a in
        let markup := NewInlineKeyboardMarkup (detailRows xorshiftNext bookID
                                                 (Formats details)) in
        t <> EmptyString /\ a <> EmptyString /\
        match findBookInSession b chatID bookID with
        | Some book =>
            (Title book <> EmptyString -> t = Title book) /\
            (Author book <> EmptyString -> a = Author book)
        | None =>
            (details_Title details <> EmptyString -> t = details_Title details) /\
            (details_Author details <> EmptyString -> a = details_Author details)
        end /\
        length (concat (InlineKeyboard markup)) =
          (if decide (Formats details = []) then 3%nat else length (Formats details)) /\
        match cover with
        | inl coverBytes =>
            if negb (Details.isEmpty (CoverPath details)) && (0 <? Strings.len coverBytes)
            then sent = [SendPhoto chatID coverBytes caption markup]
            else sent = [SendTextMarkup chatID caption markup]
        | inr _ => sent = [SendTextMarkup chatID caption markup]
        end
  end.
Proof.
  cbv zeta. unfold sendBookDetails. destruct fetched as [details|e]; [|eexists; reflexivity].
  set (found := findBookInSession b chatID bookID).
  set (ta := match found with
             | Some book => (Title book, Author book)
             | None => (details_Title details, details_Author details)
             end).
  assert (Hta : match found with
                | Some book => ta = (Title book, Author book)
                | None => ta = (details_Title details, details_Author details)
                end) by (unfold ta; destruct found; reflexivity).
  clearbody ta. destruct ta as [t a].
  destruct (orDefault_not_empty t "Без названия" ltac:(discriminate)) as [Ht0 Ht1].
  destruct (orDefault_not_empty a "Автор неизвестен" ltac:(discriminate)) as [Ha0 Ha1].
  exists (if Details.isEmpty t then "Без названия" else t),
         (if Details.isEmpty a then "Автор неизвестен" else a).
  split; [exact Ht0|]. split; [exact Ha0|]. split.
  { destruct found as [book|]; injection Hta as -> ->; split; intros Hx;
      first [apply Ht1, Hx | apply Ha1, Hx]. }
  split; [apply detailRows_buttons|].
  destruct cover as [coverBytes|e].
  - destruct (Details.isEmpty (CoverPath details)); cbn [negb andb]; [reflexivity|].
    destruct (0 <? Strings.len coverBytes); reflexivity.
  - destruct (Details.isEmpty (CoverPath details)); reflexivity.
Qed.

End Card.

End CardFacts.
